(* ===== verification/_CoqProject ===== *)
-Q . S2P
Prelude.v
State.v
OrderedSet.v
Endian.v
Atomic.v
StringPiece.v
Decimal.v
Double.v
FileReadStream.v
Date.v
Timestamp.v
TimeZone.v
TimerQueue.v
LogStream.v
Logging.v
NetBuffer.v
BufferQueue.v
Address.v
Channel.v
Poller.v
Codec.v
ChatCodec.v
ChatServer.v
Packet.v
Multiplexer.v
Demux.v
Http.v
FastCgi.v
Inspector.v
StaticFiles.v
EventLoop.v
Connection.v
Connector.v
TcpClient.v
Server.v
Rpc.v
AsyncLog.v
Threads.v
LoopThread.v
BoundedQueue.v
