(* ===== verification/Prelude.v ===== *)
(** muduo: a C++ network library and the programs built on it, modelled and verified.

    * The program

    [src/muduo/base] has the parts without network: dates and times, time zones, strings,
    log lines and log files, threads that wait for each other.  [src/muduo/net] is the
    reactor.  An [EventLoop] runs in one thread: it waits in a [Poller] (poll or epoll) for
    the [Channel]s that have events, calls their callbacks, then the functors that were
    queued for it.  Its [TimerQueue] is one more channel.  A [TcpConnection] is a channel
    with an input and an output [Buffer]; an [Acceptor] and a [TcpServer] make connections
    and hand them to the loops of an [EventLoopThreadPool], a [Connector] and a [TcpClient]
    make one from the client's side.  [src/muduo/net/http] parses requests out of the input
    buffer, calls a callback and sends the response; one callback serves static files, and a
    FastCGI client asks PHP.  [src/muduo/net/protobuf] and [protorpc] carry messages and
    remote calls, [src/muduo/net/inspect] answers questions about the process.
    [src/examples] has programs for a chat and for many connections over one.

    * How the code is translated

    Integers are [Z] with the width written out where it matters ([uwrap], [swrap],
    [size_add]), [int] division truncates ([Z.quot]).  An [assert], an access outside an
    object, a use after [delete], a signed overflow and a thrown exception are values of
    [fault] in the error monad [res]; code that changes a state is in [ST] (State.v), the
    state monad over [res], with its weakest precondition [wp].  Objects that are shared
    (timers, channels, connections) live in stores indexed by their address, so that
    aliasing and lifetime are visible.  What the source does not determine is input: the
    kernel's answers, the clock, the bytes that arrive, and the moments at which other
    threads act.  Threads are interleaved at the points where the code can be interleaved:
    a block under a mutex, an access to an atomic, a system call is one step.  Reachable
    states are inductive predicates, invariants are proved by induction on them.  Code that
    is not in the repository is a class with its documented laws ([CircularBuffer] for
    boost's, [InetText] for [inet_ntop]) or a variable (protobuf's serialisation, adler32).

    * The files

    - Prelude.v: integers, faults, byte strings, slices of memory, [std::find],
      [std::search], [memcmp], [vector::resize].  State.v: the state monad.  OrderedSet.v:
      [std::set] and [std::map].
    - Endian.v ([net/Endian.h]), Atomic.v ([base/Atomic.h]), StringPiece.v
      ([base/StringPiece.h]), Decimal.v and Double.v (the conversions of [printf] and
      [atoi], the reference), FileReadStream.v ([base/FileReadStream.h]), Date.v
      ([base/Date.*]), Timestamp.v ([base/Timestamp.*], with IEEE doubles), TimeZone.v
      ([base/TimeZone.*]), LogStream.v ([base/LogStream.*]), Logging.v ([base/Logging.*]).
    - NetBuffer.v: [Module Buffer] is [net/Buffer.*], every operation.  BufferQueue.v: the
      byte queue that it implements.  Address.v: [net/InetAddress.*], [net/SocketsOps.cc].
    - TimerQueue.v: [net/Timer.*], [net/TimerQueue.*], with callbacks that add and cancel
      timers.
    - Channel.v: [net/Channel.*], the interface [Class Poller] ([net/Poller.*]) with its
      laws [PollerSpec], and the two implementations of [net/poller].  Poller.v: both keep
      the laws, and [Module Client] is a client proved against the interface.
    - EventLoop.v: [net/EventLoop.*], the loop thread against other threads.  LoopThread.v:
      [base/Thread.*], [net/EventLoopThread.*].
    - Connection.v: [net/TcpConnection.*] on real buffers and any poller of the interface.
      Connector.v: [net/Connector.*].  TcpClient.v: [net/TcpClient.*], joined with the
      connector.  Server.v: [net/EventLoopThreadPool.*], [net/Acceptor.*], [net/TcpServer.*].
    - Http.v: [net/http/HttpRequest.h], [HttpContext.*], [HttpResponse.*], [HttpServer.*].
      StaticFiles.v: [net/http/Util.cpp], [OnRequestCallBack.h].  FastCgi.v:
      [net/http/fastcgi].  Inspector.v: [net/inspect/Inspector.*].
    - Codec.v: [Module Framing] is what all codecs share (frames of a stream, a loop over
      them on a buffer), [Module ProtobufCodecLite] is [net/protobuf].  Rpc.v:
      [net/protorpc].  ChatCodec.v, ChatServer.v: [examples/asio/chat].  Packet.v,
      Multiplexer.v, Demux.v: [examples/multiplexer].
    - AsyncLog.v: [base/FileUtil.*], [base/LogFile.*], [base/AsyncLogging.*].  Threads.v:
      [base/Condition.*], [CountDownLatch.*], [BlockingQueue.h], [ThreadPool.*].
      BoundedQueue.v: [base/BoundedBlockingQueue.h].

    A Module has the name of the class, its record [t] the members, its definitions the
    names of the member functions; a setter [set_x] replaces the member [x].

    * What the theorems show

    - Data.  [buffer_refines_queue]: the operations of a buffer are those of a byte queue,
      and never leave the vector.  [logstream_whole_items], [quantities_are_short],
      [logger_lines]: log lines keep items whole, quantities keep their width.
      [date_is_gregorian], [local_time_roundtrip]: day numbers are the Gregorian calendar as
      far as [int] goes, local times go there and back.  [address_roundtrip]: addresses and
      their texts.
    - Timers: [timer_queue_safe] (no failing assertion, none lost, no freed timer but in a
      caller of another thread that comes back late) for any callbacks,
      [handleRead_refines] (a priority queue), [cancel_exact].
    - Pollers: [pollers_interchangeable]: under the interface's contract poll and epoll
      report the same enabled events.
    - Loops and connections: [no_lost_wakeup], [functors_fifo]; [loop_thread_safe] (nothing
      dangling but in the wake-up of a late [quit]); [connection_safe], [stream_in_order]
      (the bytes sent arrive in order, whatever the kernel takes), [connection_life],
      [shutdown_completes]; [connector_safe], [client_safe] (the life of the connector
      included), [client_reconnects]; [server_registry].
    - HTTP: the parser ends on every input ([http_parser_ends]), does not depend on how the
      bytes arrive ([http_parse_incremental]), reads printed requests back, responses are
      framed, and what one message does to its connection is stated branch by branch
      ([http_server_message], [static_get_spec]).  [fcgi_request_read],
      [fcgi_answer_read]: the peer reads the request that was meant, and no answer makes
      the client fail otherwise than by its own checks.  [inspector_serves].
    - Messages: [codec_delivers], [packets_roundtrip] (however the stream is cut),
      [rpc_exactly_once] (calls with a response object), [chat_one_order] (a member gets all
      that is accepted while it is up, in one order), [mux_keeps_apart], [demux_in_order].
    - Threads: [async_logging_keeps] (log lines in order, none lost until [stop]),
      [thread_pool_progress] (no task and no wake-up lost, and the pool comes to rest),
      [bounded_queue_safe].

    Where the code fails outside the conditions of a theorem, a lemma with a concrete run
    shows it next to the theorem (such as [poller_contract_is_needed],
    [connection_contract_is_needed], [destroyed_too_early], [quit_wakeup_races],
    [late_caller], [stale_clients], [entry_stays]).

    * Fuel

    Loops that are not structural take fuel, and theorems show that the fuel given is
    enough, so that the results hold of the loops themselves: [convert_fuel] (20 digits
    hold 64 bits), [AppendFile.append] (each round writes a byte or ends), [parseRequest]
    (each round consumes a line or ends), [Framing.step_loop], [Packet.receive] and
    [Packet.send_buffer] (each round takes bytes out of the buffer or ends),
    [FastCgi.readFromPhp] (each turn takes a byte), [lower_bound] (the length).
    [Fail NoEnd] stands for a loop that does not end.

    * Not modelled

    System calls are parameters with their documented behaviour; so are [malloc]'s
    addresses and the clock.  The context [boost::any] slots of loops and connections,
    socket options, [tcp_info], CGI processes, [src/muduo/rapidjson] (a copy of another
    project) and the JSON configuration read with it, zlib and gzip wrappers, process
    information and the inspector's pages (which print /proc), [pthread_create] and
    thread-local storage below what LoopThread.v and Logging.v use of them, tests, the
    build's generated files under [examples/staticHttpWebServer/CMakeFiles], and the small
    example programs that only print.  Memory orderings are not modelled: a read of a flag
    sees the last write. *)
From Stdlib Require Export ZArith Lia.
From Stdlib Require Export Strings.Byte.
From stdpp Require Export base decidable list relations gmap strings tactics.

#[global] Set Default Proof Using "Type".
#[export] Set Default Goal Selector "!".

(** ** Machine integers

    A [w]-bit unsigned integer is a [Z] in [[0, 2^w)], a signed one a [Z] in
    [[-2^(w-1), 2^(w-1))]; [uwrap] and [swrap] are the conversions to these types.
    The signed operations of C truncate towards zero: [Z.quot] and [Z.rem]. *)

Definition uwrap (w z : Z) : Z := z mod 2 ^ w.
Definition swrap (w z : Z) : Z := (z + 2 ^ (w - 1)) mod 2 ^ w - 2 ^ (w - 1).

Definition u_in (w z : Z) : Prop := (0 <= z < 2 ^ w)%Z.
Definition s_in (w z : Z) : Prop := (- 2 ^ (w - 1) <= z < 2 ^ (w - 1))%Z.

#[global] Instance s_in_dec w z : Decision (s_in w z).
Proof. unfold s_in. apply _. Defined.

(** [size_t] of the 64-bit target. *)
Abbreviation size_wrap := (uwrap 64).
Definition size_sub (a b : Z) : Z := size_wrap (a - b).
Definition size_add (a b : Z) : Z := size_wrap (a + b).

Lemma uwrap_small w z : u_in w z -> uwrap w z = z.
Proof. apply Z.mod_small. Qed.

Lemma uwrap_in w z : (0 <= w)%Z -> u_in w (uwrap w z).
Proof. intros; apply Z.mod_pos_bound; lia. Qed.

Lemma pow2_half w : (0 < w)%Z -> (2 ^ w = 2 * 2 ^ (w - 1))%Z.
Proof.
  intros. replace w with (Z.succ (w - 1)) at 1 by lia.
  rewrite Z.pow_succ_r by lia. reflexivity.
Qed.

Lemma swrap_small w z : (0 < w)%Z -> s_in w z -> swrap w z = z.
Proof.
  unfold s_in, swrap; intros Hw Hz. rewrite Z.mod_small; [lia|].
  rewrite (pow2_half w) by lia. lia.
Qed.

Lemma swrap_in w z : (0 < w)%Z -> s_in w (swrap w z).
Proof.
  unfold s_in, swrap; intros Hw.
  pose proof (Z.mod_pos_bound (z + 2 ^ (w - 1)) (2 ^ w)) as Hb.
  pose proof (pow2_half w Hw). lia.
Qed.

Lemma swrap_uwrap w z : (0 < w)%Z -> swrap w (uwrap w z) = swrap w z.
Proof.
  intros. unfold swrap, uwrap. rewrite Zplus_mod_idemp_l. reflexivity.
Qed.

Lemma uwrap_swrap w z : (0 < w)%Z -> uwrap w (swrap w z) = uwrap w z.
Proof.
  intros. unfold swrap, uwrap.
  rewrite Zminus_mod_idemp_l. f_equal. lia.
Qed.

Lemma size_sub_small a b : (0 <= b <= a)%Z -> (a < 2 ^ 64)%Z -> size_sub a b = (a - b)%Z.
Proof. intros; apply uwrap_small; unfold u_in; lia. Qed.

Lemma size_add_small a b : (0 <= a)%Z -> (0 <= b)%Z -> (a + b < 2 ^ 64)%Z -> size_add a b = (a + b)%Z.
Proof. intros; apply uwrap_small; unfold u_in; lia. Qed.

(** ** Faults

    What can stop the code: a failing [assert], an access outside an object or through
    a dangling pointer and a signed overflow (which C++ leaves undefined), an exception
    of the standard library, [LOG_FATAL] and [LOG_SYSFATAL] (which call [abort]), a loop
    that has used up its fuel ([NoEnd]). *)

Inductive fault :=
  | AssertionFailed
  | OutOfBounds
  | NullPointer
  | UseAfterFree
  | Overflow
  | LengthError
  | LogicError
  | BadAlloc
  | LogFatal
  | NoEnd.

#[global] Instance fault_eq_dec : EqDecision fault.
Proof. solve_decision. Defined.

Inductive res (A : Type) :=
  | Ok (a : A)
  | Fail (f : fault).
Arguments Ok {A} a.
Arguments Fail {A} f.

#[global] Instance res_eq_dec `{EqDecision A} : EqDecision (res A).
Proof. solve_decision. Defined.

#[global] Instance res_ret : MRet res := @Ok.
#[global] Instance res_bind : MBind res := fun A B f m =>
  match m with
  | Ok a => f a
  | Fail e => Fail e
  end.
#[global] Instance res_fmap : FMap res := fun A B f m =>
  match m with
  | Ok a => Ok (f a)
  | Fail e => Fail e
  end.

Definition check (e : fault) (b : bool) : res unit := if b then Ok tt else Fail e.
Abbreviation assert_ := (check AssertionFailed).

Definition is_ok {A} (m : res A) : Prop := exists a, m = Ok a.

Lemma bool_decide_Forall_cons {A} (P : A -> Prop) `{forall x, Decision (P x)} x l :
  bool_decide (Forall P (x :: l)) = bool_decide (P x) && bool_decide (Forall P l).
Proof. rewrite <- bool_decide_and. apply bool_decide_ext, list.Forall_cons. Qed.

Lemma check_true e b : b = true -> check e b = Ok tt.
Proof. intros ->. reflexivity. Qed.

(** The result of a signed operation on [w] bits. *)
Definition signed (w z : Z) : res Z :=
  _ ← check Overflow (bool_decide (s_in w z));
  mret z.

Lemma signed_ok w z : s_in w z -> signed w z = Ok z.
Proof. intros H. unfold signed, check. by rewrite bool_decide_eq_true_2. Qed.

Lemma signed_overflow w z : ~ s_in w z -> signed w z = Fail Overflow.
Proof. intros H. unfold signed, check. by rewrite bool_decide_eq_false_2. Qed.

Lemma bind_ok {A B} (m : res A) (f : A -> res B) b :
  m ≫= f = Ok b <-> exists a, m = Ok a /\ f a = Ok b.
Proof. destruct m as [a|e]; simpl; naive_solver. Qed.

(** [res_simpl] runs a monadic definition whose guards are known. *)
Ltac res_simpl :=
  repeat (first
    [ rewrite check_true by first [assumption | lia | (apply bool_decide_eq_true; assumption)]
    | progress simpl ]).

(** ** Byte strings *)

Abbreviation bytes := (list byte).

Definition bs (s : string) : bytes := String.list_byte_of_string s.
Definition CR : byte := Byte.x0d.
Definition LF : byte := Byte.x0a.
Definition slash : byte := Byte.x2f.

#[global] Instance byte_eq_dec : EqDecision byte := Byte.byte_eq_dec.

#[global] Program Instance byte_countable : Countable byte :=
  inj_countable' Byte.to_N (fun n => default Byte.x00 (Byte.of_N n)) _.
Next Obligation. intros b. simpl. rewrite Byte.of_to_N. reflexivity. Qed.

(** ** Lists addressed by machine offsets *)

Definition lenZ {A} (l : list A) : Z := Z.of_nat (length l).

(** Half-open slices [[i, j)], the shape of a C++ iterator pair. *)
Definition slice {A} (i j : Z) (l : list A) : list A :=
  take (Z.to_nat (j - i)) (drop (Z.to_nat i) l).

(** [std::copy] of [d] to offset [i] of the object [l]. *)
Definition splice {A} (i : Z) (d l : list A) : list A :=
  take (Z.to_nat i) l ++ d ++ drop (Z.to_nat i + length d) l.

Definition copy_to {A} (i : Z) (d l : list A) : res (list A) :=
  _ ← check OutOfBounds (bool_decide (0 <= i)%Z && bool_decide (i + lenZ d <= lenZ l)%Z);
  mret (splice i d l).

Section lists.
Context {A : Type}.
Implicit Types l d : list A.

Lemma lenZ_nonneg l : (0 <= lenZ l)%Z.
Proof. unfold lenZ. lia. Qed.

Lemma lenZ_app l d : lenZ (l ++ d) = (lenZ l + lenZ d)%Z.
Proof. unfold lenZ. rewrite length_app. lia. Qed.

Lemma lenZ_splice i d l :
  (0 <= i)%Z -> (i + lenZ d <= lenZ l)%Z -> lenZ (splice i d l) = lenZ l.
Proof.
  unfold lenZ, splice. rewrite !length_app, length_take, length_drop. lia.
Qed.

Lemma lenZ_slice i j l :
  (0 <= i <= j)%Z -> (j <= lenZ l)%Z -> lenZ (slice i j l) = (j - i)%Z.
Proof. unfold lenZ, slice. rewrite length_take, length_drop. lia. Qed.

Lemma slice_nil i l : slice i i l = [].
Proof. unfold slice. rewrite Z.sub_diag. reflexivity. Qed.

Lemma slice_cat i j k l :
  (0 <= i <= j)%Z -> (j <= k)%Z -> slice i k l = slice i j l ++ slice j k l.
Proof.
  intros. unfold slice.
  replace (Z.to_nat (k - i)) with (Z.to_nat (j - i) + Z.to_nat (k - j))%nat by lia.
  rewrite <- take_take_drop, drop_drop. do 3 f_equal. lia.
Qed.

Lemma drop_slice n i j l :
  (0 <= i)%Z -> (0 <= n)%Z -> drop (Z.to_nat n) (slice i j l) = slice (i + n) j l.
Proof.
  intros. unfold slice. rewrite skipn_firstn_comm, drop_drop.
  f_equal; [lia|]. f_equal; lia.
Qed.

Lemma take_slice n i j l :
  (0 <= n <= j - i)%Z -> take (Z.to_nat n) (slice i j l) = slice i (i + n) l.
Proof.
  intros. unfold slice. rewrite take_take. f_equal. lia.
Qed.

Lemma slice_app_l i j l d :
  (0 <= i <= j)%Z -> (j <= lenZ l)%Z -> slice i j (l ++ d) = slice i j l.
Proof.
  unfold lenZ, slice. intros.
  rewrite drop_app_le by lia. rewrite take_app_le; [done|]. rewrite length_drop. lia.
Qed.

(** Reading back what [splice] wrote, and what it left alone. *)
Lemma slice_splice i d l :
  (0 <= i)%Z -> (i + lenZ d <= lenZ l)%Z -> slice i (i + lenZ d) (splice i d l) = d.
Proof.
  unfold lenZ, slice, splice. intros.
  rewrite drop_app_length' by (rewrite length_take; lia).
  rewrite take_app_length' by lia. reflexivity.
Qed.

Lemma slice_splice_before i j k d l :
  (0 <= i <= j)%Z -> (j <= k)%Z -> (k + lenZ d <= lenZ l)%Z ->
  slice i j (splice k d l) = slice i j l.
Proof.
  unfold lenZ, slice, splice. intros.
  rewrite drop_app_le by (rewrite length_take; lia).
  rewrite take_app_le by (rewrite length_drop, length_take; lia).
  rewrite skipn_firstn_comm, take_take. f_equal. lia.
Qed.

Lemma slice_splice_after i j k d l :
  (0 <= k)%Z -> (k + lenZ d <= i)%Z -> (i <= lenZ l)%Z ->
  slice i j (splice k d l) = slice i j l.
Proof.
  unfold lenZ, slice, splice. intros.
  rewrite drop_app_ge by (rewrite length_take; lia).
  rewrite drop_app_ge by (rewrite length_take; lia).
  rewrite drop_drop. do 2 f_equal. rewrite length_take. lia.
Qed.

Lemma copy_to_ok i d l :
  (0 <= i)%Z -> (i + lenZ d <= lenZ l)%Z -> copy_to i d l = Ok (splice i d l).
Proof.
  intros. unfold copy_to. rewrite !bool_decide_eq_true_2 by lia. reflexivity.
Qed.
Lemma elem_of_take_1 n x l : x ∈ take n l -> x ∈ l.
Proof. intros Hx. rewrite <- (take_drop n l). apply elem_of_app. by left. Qed.

Lemma NoDup_take n l : NoDup l -> NoDup (take n l).
Proof. rewrite <- (take_drop n l) at 1. by intros [? _]%list.NoDup_app. Qed.
End lists.

(** ** The algorithms of the C++ standard library the code calls *)

(** [std::find]/[memchr]: offset of the first byte equal to [c]. *)
Fixpoint find_byte (c : byte) (l : bytes) : option nat :=
  match l with
  | [] => None
  | x :: l' => if decide (x = c) then Some 0 else S <$> find_byte c l'
  end.

(** [std::string::find_last_of]/[strrchr]: offset of the last byte equal to [c]. *)
Definition find_last_of (c : byte) (l : bytes) : option nat :=
  (fun i => length l - 1 - i)%nat <$> find_byte c (rev l).

(** [std::search]/[std::string::find]: offset of the first occurrence of [pat]. *)
Fixpoint search (pat l : bytes) : option nat :=
  if decide (pat `prefix_of` l) then Some 0
  else match l with
       | [] => None
       | _ :: l' => S <$> search pat l'
       end.

(** [memcmp] on two regions, as the sign of its result: the first differing bytes
    decide, compared as [unsigned char]. *)
Fixpoint bytes_cmp (n : nat) (a b : bytes) : Z :=
  match n, a, b with
  | S n', x :: a', y :: b' =>
      match (Byte.to_N x ?= Byte.to_N y)%N with
      | Lt => -1
      | Gt => 1
      | Eq => bytes_cmp n' a' b'
      end
  | _, _, _ => 0
  end%Z.

Definition memcmp (n : Z) (a b : bytes) : res Z :=
  _ ← check OutOfBounds (bool_decide (n <= lenZ a)%Z && bool_decide (n <= lenZ b)%Z);
  mret (bytes_cmp (Z.to_nat n) a b).

(** [std::vector<char>::resize]: new elements are value-initialised, sizes past
    [max_size()] throw. *)
Definition vector_max_size : Z := 2 ^ 63 - 1.

Definition vector_resize (n : Z) (l : bytes) : res bytes :=
  if bool_decide (n <= vector_max_size)%Z
  then Ok (take (Z.to_nat n) l ++ replicate (Z.to_nat n - length l) Byte.x00)
  else Fail LengthError.

Section algorithms.
Implicit Types l pat : bytes.

Lemma find_byte_Some c l i :
  find_byte c l = Some i <-> l !! i = Some c /\ c ∉ take i l.
Proof.
  revert i; induction l as [|x l IH]; intros i; simpl.
  { split; [done|]. by intros [? _]. }
  destruct (decide (x = c)) as [->|Hne]; destruct i as [|i]; simpl.
  - split; [intros _; split; [done|apply not_elem_of_nil] | done].
  - split; [done|]. intros [_ Hn]. exfalso. apply Hn. left.
  - split; [by destruct (find_byte c l)|]. by intros [[= ->] _].
  - rewrite fmap_Some, not_elem_of_cons. split.
    + intros (j & [Hl Hn]%IH & [= ->]). split_and!; [done| |done]. congruence.
    + intros (Hl & _ & Hn). exists i. split; [|done]. by apply IH.
Qed.

Lemma find_byte_None c l : find_byte c l = None <-> c ∉ l.
Proof.
  induction l as [|x l IH]; simpl; [split; [intros _; apply not_elem_of_nil|done]|].
  destruct (decide (x = c)) as [->|Hne].
  - split; [done|]. intros Hn. exfalso. apply Hn. left.
  - rewrite not_elem_of_cons. destruct (find_byte c l); simpl; naive_solver.
Qed.

Lemma find_byte_lt c l i : find_byte c l = Some i -> (i < length l)%nat.
Proof. intros [Hl _]%find_byte_Some. by apply lookup_lt_Some in Hl. Qed.

Lemma find_byte_first c l r : c ∉ l -> find_byte c (l ++ c :: r) = Some (length l).
Proof.
  intros Hc. apply find_byte_Some. split; [|by rewrite take_app_length].
  rewrite lookup_app_r by lia. by rewrite Nat.sub_diag.
Qed.

(** The first occurrence: it is one, and there is none before. *)
Lemma find_last_of_Some c l i :
  find_last_of c l = Some i <-> exists a b, l = a ++ c :: b /\ c ∉ b /\ i = length a.
Proof.
  unfold find_last_of. split.
  - destruct (find_byte c (rev l)) as [j|] eqn:Hj; [|done]. simpl. intros [= <-].
    apply find_byte_Some in Hj as [Hj Hb]. exists (rev (drop (S j) (rev l))), (rev (take j (rev l))).
    assert (j < length l)%nat as Hlt by (rewrite <- length_rev; by eapply lookup_lt_Some).
    split_and!.
    + rewrite <- (rev_involutive l) at 1.
      rewrite <- (take_drop_middle (rev l) j c) at 1 by done.
      rewrite rev_app_distr. simpl. by rewrite <- app_assoc.
    + intros Hin%list_elem_of_In. by apply in_rev, list_elem_of_In in Hin.
    + rewrite length_rev, length_drop, length_rev. lia.
  - intros (a & b & -> & Hb & ->). rewrite rev_app_distr. simpl. rewrite <- app_assoc. simpl.
    rewrite find_byte_first.
    + simpl. f_equal. rewrite length_rev, length_app. simpl. lia.
    + intros Hin%list_elem_of_In. apply in_rev, list_elem_of_In in Hin. done.
Qed.

Lemma find_last_of_None c l : find_last_of c l = None <-> c ∉ l.
Proof.
  unfold find_last_of. rewrite fmap_None, find_byte_None, !list_elem_of_In, <- in_rev. done.
Qed.

Lemma search_Some pat l i :
  search pat l = Some i <->
  pat `prefix_of` drop i l /\ (i <= length l)%nat /\
  forall j, (j < i)%nat -> ~ pat `prefix_of` drop j l.
Proof.
  revert i; induction l as [|x l IH]; intros i; simpl.
  - destruct (decide (pat `prefix_of` [])) as [Hp|Hp].
    + split.
      * intros [= <-]. split_and!; [done|lia|lia].
      * intros (_ & Hi & _). f_equal. lia.
    + split; [done|]. intros (Hpre & _ & _). by rewrite drop_nil in Hpre.
  - destruct (decide (pat `prefix_of` x :: l)) as [Hp|Hp].
    + split.
      * intros [= <-]. split_and!; [done|simpl; lia|lia].
      * intros (_ & _ & Hmin). destruct i as [|i]; [done|].
        exfalso. apply (Hmin 0%nat); [lia|done].
    + destruct i as [|i].
      * split; [by destruct (search pat l)|]. intros (Hpre & _). done.
      * rewrite fmap_Some. split.
        -- intros (j & (H1 & H2 & H3)%IH & [= ->]).
           split_and!; [done|simpl; lia|]. intros [|k] Hk; [done|]. apply H3. lia.
        -- intros (H1 & H2 & H3). exists i. split; [|done]. apply IH.
           simpl in H2. split_and!; [done|lia|].
           intros k Hk. apply (H3 (S k)). lia.
Qed.

Lemma search_None pat l :
  search pat l = None <-> forall i, (i <= length l)%nat -> ~ pat `prefix_of` drop i l.
Proof.
  induction l as [|x l IH]; simpl.
  - destruct (decide (pat `prefix_of` [])) as [Hp|Hp].
    + split; [done|]. intros H. by destruct (H 0%nat ltac:(lia)).
    + split; [|done]. intros _ i _. by rewrite drop_nil.
  - destruct (decide (pat `prefix_of` x :: l)) as [Hp|Hp].
    + split; [done|]. intros H. by destruct (H 0%nat ltac:(lia)).
    + rewrite fmap_None, IH. split.
      * intros H [|i] Hi; [done|]. apply H. lia.
      * intros H i Hi. apply (H (S i)). lia.
Qed.

Lemma bytes_cmp_eq n a b :
  (n <= length a)%nat -> (n <= length b)%nat ->
  bytes_cmp n a b = 0%Z <-> take n a = take n b.
Proof.
  revert a b; induction n as [|n IH]; intros [|x a] [|y b] Ha Hb; simpl in *; try done; try lia.
  destruct (N.compare_spec (Byte.to_N x) (Byte.to_N y)) as [He|Hl|Hl].
  - apply (f_equal Byte.of_N) in He. rewrite !Byte.of_to_N in He. simplify_eq.
    rewrite IH by lia. split; [by intros ->|by intros [=]].
  - split; [done|]. intros [= -> _]. lia.
  - split; [done|]. intros [= -> _]. lia.
Qed.

Lemma bytes_cmp_antisym n a b : bytes_cmp n b a = (- bytes_cmp n a b)%Z.
Proof.
  revert a b; induction n as [|n IH]; intros [|x a] [|y b]; simpl; try done.
  rewrite (N.compare_antisym (Byte.to_N x)).
  destruct (Byte.to_N x ?= Byte.to_N y)%N; simpl; [apply IH|done|done].
Qed.

Lemma bytes_cmp_range n a b : (-1 <= bytes_cmp n a b <= 1)%Z.
Proof.
  revert a b; induction n as [|n IH]; intros [|x a] [|y b]; simpl; try lia.
  destruct (_ ?= _)%N; [apply IH|lia|lia].
Qed.
End algorithms.


(** A byte is not in a constant. *)
Ltac const_notin Hin := apply (bool_decide_eq_true_2 _) in Hin; vm_compute in Hin; discriminate Hin.

(** [lia] for goals with division and remainder by constants. *)
Ltac div_lia := Z.to_euclidean_division_equations; lia.

(** ** Checking a property of every integer of an interval by evaluation *)

Fixpoint all_from (n : nat) (z : Z) (f : Z -> bool) : bool :=
  match n with
  | O => true
  | S n' => f z && all_from n' (z + 1) f
  end.

Lemma all_from_spec n z f i :
  all_from n z f = true -> (z <= i < z + Z.of_nat n)%Z -> f i = true.
Proof.
  revert z; induction n as [|n IH]; intros z H Hi; [lia|].
  simpl in H. apply andb_prop in H as [Hz H].
  destruct (decide (i = z)) as [->|]; [done|]. apply (IH (z + 1)%Z); [done|lia].
Qed.
