(* ===== verification/State.v ===== *)
(** Stateful code that can fail: a state monad over [res], and its weakest precondition.

    [wp E m Q s] says that [m] started in [s] either returns [a] in a state [s'] with
    [Q a s'] or stops with a fault that [E] allows; with [E := no_fault] it is total
    correctness. *)
From S2P Require Import Prelude.

Definition ST (S A : Type) : Type := S -> res (A * S).

#[global] Instance st_ret {S} : MRet (ST S) := fun A a s => Ok (a, s).
#[global] Instance st_bind {S} : MBind (ST S) := fun A B f m s =>
  match m s with
  | Ok (a, s') => f a s'
  | Fail e => Fail e
  end.

Section state.
Context {S : Type}.

Definition get : ST S S := fun s => Ok (s, s).
Definition put (s : S) : ST S unit := fun _ => Ok (tt, s).
Definition gets {A} (f : S -> A) : ST S A := fun s => Ok (f s, s).
Definition modify (f : S -> S) : ST S unit := fun s => Ok (tt, f s).
Definition fail {A} (e : fault) : ST S A := fun _ => Fail e.
Definition lift {A} (m : res A) : ST S A := fun s =>
  match m with Ok a => Ok (a, s) | Fail e => Fail e end.
Definition sassert (b : bool) : ST S unit := lift (check AssertionFailed b).
Definition when_ (b : bool) (m : ST S unit) : ST S unit := if b then m else mret tt.

(** A range-based [for] loop. *)
Fixpoint for_each {A} (f : A -> ST S unit) (l : list A) : ST S unit :=
  match l with
  | [] => mret tt
  | x :: l' => f x ≫= fun _ => for_each f l'
  end.

Definition no_fault (e : fault) : Prop := False.

Definition wp (E : fault -> Prop) {A} (m : ST S A) (Q : A -> S -> Prop) (s : S) : Prop :=
  match m s with
  | Ok (a, s') => Q a s'
  | Fail e => E e
  end.

Lemma wp_bind E {A B} (m : ST S A) (f : A -> ST S B) Q s :
  wp E m (fun a s' => wp E (f a) Q s') s -> wp E (m ≫= f) Q s.
Proof. unfold wp, mbind, st_bind. by destruct (m s) as [[a s']|e]. Qed.

Lemma wp_ret E {A} (a : A) (Q : A -> S -> Prop) s : Q a s -> wp E (mret a) Q s.
Proof. done. Qed.

Lemma wp_get E (Q : S -> S -> Prop) s : Q s s -> wp E get Q s.
Proof. done. Qed.

Lemma wp_gets E {A} (f : S -> A) (Q : A -> S -> Prop) s : Q (f s) s -> wp E (gets f) Q s.
Proof. done. Qed.

Lemma wp_modify E f (Q : unit -> S -> Prop) s : Q tt (f s) -> wp E (modify f) Q s.
Proof. done. Qed.

Lemma wp_put E s' (Q : unit -> S -> Prop) s : Q tt s' -> wp E (put s') Q s.
Proof. done. Qed.

Lemma wp_lift E {A} (m : res A) (Q : A -> S -> Prop) s :
  match m with Ok a => Q a s | Fail e => E e end -> wp E (lift m) Q s.
Proof. unfold wp, lift. by destruct m. Qed.

Lemma wp_fail E {A} e (Q : A -> S -> Prop) s : E e -> wp E (fail e) Q s.
Proof. done. Qed.

Lemma wp_assert E b (Q : unit -> S -> Prop) s : b = true -> Q tt s -> wp E (sassert b) Q s.
Proof. by intros ->. Qed.

Lemma wp_mono E {A} (m : ST S A) (Q Q' : A -> S -> Prop) s :
  wp E m Q s -> (forall a s', Q a s' -> Q' a s') -> wp E m Q' s.
Proof. unfold wp. destruct (m s) as [[a s']|e]; auto. Qed.

Lemma wp_ok E {A} (m : ST S A) Q s a s' : wp E m Q s -> m s = Ok (a, s') -> Q a s'.
Proof. unfold wp. intros H Heq. by rewrite Heq in H. Qed.

Lemma wp_total {A} (m : ST S A) Q s : wp no_fault m Q s <-> exists a s', m s = Ok (a, s') /\ Q a s'.
Proof.
  unfold wp, no_fault. destruct (m s) as [[a s']|e]; [|naive_solver].
  split; [eauto|]. by intros (? & ? & [= <- <-] & ?).
Qed.

(** An assertion that holds is skipped. *)
Lemma assert_run {A} b (k : unit -> ST S A) s : b = true -> (sassert b ≫= k) s = k tt s.
Proof. by intros ->. Qed.

Lemma gets_run {A B} (f : S -> A) (k : A -> ST S B) s : (gets f ≫= k) s = k (f s) s.
Proof. done. Qed.

Lemma lift_run {A B} (m : res A) (k : A -> ST S B) s a : m = Ok a -> (lift m ≫= k) s = k a s.
Proof. by intros ->. Qed.

Lemma bind_run {A B} (m : ST S A) (k : A -> ST S B) s a s' : m s = Ok (a, s') -> (m ≫= k) s = k a s'.
Proof. unfold mbind, st_bind. by intros ->. Qed.

Lemma for_each_app {A} (f : A -> ST S unit) l1 l2 s :
  for_each f (l1 ++ l2) s = match for_each f l1 s with Ok (_, s') => for_each f l2 s' | Fail e => Fail e end.
Proof.
  revert s; induction l1 as [|x l1 IH]; intros s; [done|]. simpl. unfold mbind, st_bind.
  destruct (f x s) as [[[] s1]|]; [apply IH|done].
Qed.

(** A loop keeps an invariant indexed by the elements that are left. *)
Lemma wp_for_each E {A} (f : A -> ST S unit) (I : list A -> S -> Prop) l s :
  I l s ->
  (forall x l' s, I (x :: l') s -> wp E (f x) (fun _ => I l') s) ->
  wp E (for_each f l) (fun _ => I []) s.
Proof.
  intros HI Hf. revert s HI; induction l as [|x l IH]; intros s HI; [done|].
  simpl. apply wp_bind. eapply wp_mono; [by apply Hf|]. intros [] s' HI'. by apply IH.
Qed.
End state.

(** [wp_step] consumes the first operation of a block. *)
Ltac wp_step :=
  lazymatch goal with
  | |- wp _ (_ ≫= _) _ _ => apply wp_bind; wp_step
  | |- wp _ (mret _) _ _ => apply wp_ret
  | |- wp _ get _ _ => apply wp_get
  | |- wp _ (gets _) _ _ => apply wp_gets
  | |- wp _ (modify _) _ _ => apply wp_modify
  | |- wp _ (put _) _ _ => apply wp_put
  | |- wp _ (sassert _) _ _ => apply wp_assert
  | |- wp _ (when_ ?b _) _ _ => unfold when_ at 1; destruct b eqn:?
  | |- wp _ (lift _) _ _ => apply wp_lift
  | |- _ => idtac
  end.

(** [wp_use H] continues with the specification [H] of the first operation. *)
Ltac wp_focus := repeat lazymatch goal with |- wp _ (_ ≫= _) _ _ => apply wp_bind end.
Ltac wp_use H := wp_focus; eapply wp_mono; [apply H|].

(** [run_asserts] skips the assertions at the head of a block. *)
Ltac run_asserts := rewrite !assert_run by (apply bool_decide_eq_true; first [done | by eauto | lia]).
