(* ===== verification/OrderedSet.v ===== *)
(** The ordered containers of the C++ standard library.

    A [std::set] is the strictly increasing list of its elements, under the
    comparison the container is instantiated with. *)
From stdpp Require Import sorting.
From S2P Require Import Prelude.
Open Scope Z_scope.

(** What [std::set] asks of its comparison (a strict weak order whose incomparable
    elements are equal). *)
Class Comparison (A : Type) := {
  ltb : A -> A -> bool;
  ltb_irrefl : forall x, ltb x x = false;
  ltb_trans : forall x y z, ltb x y = true -> ltb y z = true -> ltb x z = true;
  ltb_total : forall x y, ltb x y = false -> ltb y x = false -> x = y
}.

#[global] Instance Z_comparison : Comparison Z.
Proof.
  refine {| ltb := Z.ltb |}; intros; rewrite ?Z.ltb_lt, ?Z.ltb_ge in *; lia.
Defined.

(** [operator<] of [std::pair]. *)
#[global] Instance pair_comparison `{Comparison A, Comparison B} : Comparison (A * B).
Proof.
  refine {| ltb x y := ltb x.1 y.1 || (negb (ltb y.1 x.1) && ltb x.2 y.2) |}.
  - intros [x1 x2]. simpl. by rewrite !ltb_irrefl.
  - intros [x1 x2] [y1 y2] [z1 z2]. simpl.
    rewrite !orb_true_iff, !andb_true_iff, !negb_true_iff.
    intros [H1|[H1 H2]] [H3|[H3 H4]].
    + left. by eapply ltb_trans.
    + left. destruct (ltb y1 z1) eqn:E; [by eapply ltb_trans|].
      by rewrite <- (ltb_total y1 z1).
    + left. destruct (ltb x1 y1) eqn:E; [by eapply ltb_trans|].
      by rewrite (ltb_total x1 y1).
    + destruct (ltb x1 z1) eqn:E; [by left|]. right.
      split; [|by eapply ltb_trans].
      destruct (ltb z1 x1) eqn:E'; [|done].
      destruct (ltb y1 z1) eqn:E1.
      * assert (ltb y1 x1 = true) by (by eapply ltb_trans). congruence.
      * rewrite (ltb_total y1 z1) in H1 by done. congruence.
  - intros [x1 x2] [y1 y2]. simpl.
    rewrite !orb_false_iff, !andb_false_iff, !negb_false_iff.
    intros [H1 H2] [H3 H4].
    assert (x1 = y1) as -> by (by apply ltb_total).
    f_equal. apply ltb_total; naive_solver congruence.
Defined.

Lemma pair_ltb_same `{Comparison A, Comparison B} (a : A) (b c : B) : ltb (a, b) (a, c) = ltb b c.
Proof. change (ltb a a || (negb (ltb a a) && ltb b c) = ltb b c). by rewrite ltb_irrefl. Qed.

Lemma pair_ltb_first `{Comparison A, Comparison B} (a b : A) (x y : B) : ltb a b = true -> ltb (a, x) (b, y) = true.
Proof. intros Hab. change (ltb a b || (negb (ltb b a) && ltb x y) = true). by rewrite Hab. Qed.

Module OrderedSet.
Section ordered.
Context {A : Type} `{Comparison A}.
Implicit Types (x y : A) (l : list A).

(** [insert]: the new set, and whether the element was new. *)
Fixpoint insert x l : list A * bool :=
  match l with
  | [] => ([x], true)
  | y :: l' =>
      if ltb x y then (x :: l, true)
      else if ltb y x then let '(r, b) := insert x l' in (y :: r, b)
      else (l, false)
  end.

(** [erase(key)]: the new set, and the number of elements removed. *)
Fixpoint erase x l : list A * Z :=
  match l with
  | [] => ([], 0)
  | y :: l' =>
      if ltb x y then (l, 0)
      else if ltb y x then let '(r, n) := erase x l' in (y :: r, n)
      else (l', 1)
  end.

(** [find(key) != end()]. *)
Fixpoint mem x l : bool :=
  match l with
  | [] => false
  | y :: l' => if ltb x y then false else if ltb y x then mem x l' else true
  end.

(** [lower_bound(key)]: the elements before it, and those from it on. *)
Fixpoint lower_bound x l : list A * list A :=
  match l with
  | [] => ([], [])
  | y :: l' => if ltb y x then let '(a, b) := lower_bound x l' in (y :: a, b) else ([], l)
  end.

Definition sorted l : Prop := StronglySorted (fun x y => ltb x y = true) l.

Lemma ltb_asym x y : ltb x y = true -> ltb y x = false.
Proof.
  intros Hxy. destruct (ltb y x) eqn:E; [|done].
  pose proof (ltb_trans x y x Hxy E). by rewrite ltb_irrefl in *.
Qed.

Lemma sorted_cons x l : sorted (x :: l) <-> (forall y, y ∈ l -> ltb x y = true) /\ sorted l.
Proof.
  split.
  - intros [Hs Hf]%StronglySorted_inv. split; [|done]. by apply list.Forall_forall.
  - intros [Hf Hs]. constructor; [done|]. by apply list.Forall_forall.
Qed.

Lemma sorted_nil : sorted [].
Proof. constructor. Qed.

Lemma sorted_NoDup l : sorted l -> NoDup l.
Proof.
  induction l as [|x l IH]; [constructor|]. intros [Hf Hs]%sorted_cons.
  constructor; [|by apply IH]. intros Hx. pose proof (Hf x Hx). by rewrite ltb_irrefl in *.
Qed.

Lemma elem_of_insert x y l : y ∈ (insert x l).1 <-> y = x \/ y ∈ l.
Proof.
  induction l as [|z l IH]; simpl; [set_solver|].
  destruct (ltb x z) eqn:E1; [set_solver|].
  destruct (ltb z x) eqn:E2.
  - destruct (insert x l) as [r b]. simpl in *. set_solver.
  - rewrite (ltb_total x z) by done. simpl. set_solver.
Qed.

Lemma sorted_insert x l : sorted l -> sorted (insert x l).1.
Proof.
  induction l as [|z l IH]; simpl.
  { intros _. apply sorted_cons. split; [set_solver|constructor]. }
  intros Hs. pose proof Hs as [Hf Hs']%sorted_cons.
  destruct (ltb x z) eqn:E1.
  - simpl. apply sorted_cons. split; [|done]. intros y [->|Hy]%elem_of_cons; [done|].
    eapply ltb_trans; [done|]. by apply Hf.
  - destruct (ltb z x) eqn:E2; [|done]. pose proof (elem_of_insert x) as He.
    specialize (IH Hs'). specialize (fun y => He y l).
    destruct (insert x l) as [r b]. simpl in *. apply sorted_cons. split; [|done].
    intros y [->|Hy]%He; [done|by apply Hf].
Qed.

Lemma insert_new x l : sorted l -> (insert x l).2 = true <-> x ∉ l.
Proof.
  induction l as [|z l IH]; simpl; [set_solver|].
  intros [Hf Hs]%sorted_cons. destruct (ltb x z) eqn:E1.
  - simpl. split; [|done]. intros _ [->|Hx]%elem_of_cons; [by rewrite ltb_irrefl in *|].
    apply Hf in Hx. apply ltb_asym in Hx. congruence.
  - destruct (ltb z x) eqn:E2.
    + destruct (insert x l) as [r b]. simpl in *. rewrite IH by done.
      rewrite not_elem_of_cons. split; [|naive_solver]. intros Hn. split; [|done].
      intros ->. by rewrite ltb_irrefl in *.
    + rewrite (ltb_total x z) by done. simpl. set_solver.
Qed.

Lemma length_insert x l : (insert x l).2 = true -> length (insert x l).1 = S (length l).
Proof.
  induction l as [|z l IH]; simpl; [done|].
  destruct (ltb x z); [done|]. destruct (ltb z x); [|done].
  destruct (insert x l) as [r b]. simpl in *. intros ?. f_equal. by apply IH.
Qed.

Lemma elem_of_erase x y l : sorted l -> y ∈ (erase x l).1 <-> y <> x /\ y ∈ l.
Proof.
  induction l as [|z l IH]; simpl; [set_solver|].
  intros Hs. pose proof Hs as [Hf Hs']%sorted_cons. destruct (ltb x z) eqn:E1.
  - simpl. split; [|naive_solver]. intros Hy. split; [|done]. intros ->.
    apply elem_of_cons in Hy as [->|Hx]; [by rewrite ltb_irrefl in *|].
    apply Hf in Hx. apply ltb_asym in Hx. congruence.
  - destruct (ltb z x) eqn:E2.
    + destruct (erase x l) as [r n]. simpl in *. rewrite !elem_of_cons, IH by done.
      split; [|naive_solver]. intros [->|?]; [|naive_solver]. split; [|by left].
      intros ->. by rewrite ltb_irrefl in *.
    + rewrite (ltb_total x z) by done. simpl. rewrite elem_of_cons. split; [|naive_solver].
      intros Hy. split; [|by right]. intros ->. apply Hf in Hy. by rewrite ltb_irrefl in *.
Qed.

Lemma sorted_erase x l : sorted l -> sorted (erase x l).1.
Proof.
  induction l as [|z l IH]; simpl; [done|].
  intros Hs. pose proof Hs as [Hf Hs']%sorted_cons.
  destruct (ltb x z); [done|]. destruct (ltb z x) eqn:E; [|done].
  pose proof (fun y => elem_of_erase x y l Hs') as He. specialize (IH Hs').
  destruct (erase x l) as [r n]. simpl in *. apply sorted_cons. split; [|done].
  intros y [_ Hy]%He. by apply Hf.
Qed.

Lemma erase_count x l :
  sorted l -> x ∈ l -> (erase x l).2 = 1 /\ length l = S (length (erase x l).1).
Proof.
  induction l as [|z l IH]; simpl; [set_solver|].
  intros [Hf Hs]%sorted_cons Hx. destruct (ltb x z) eqn:E1.
  - apply elem_of_cons in Hx as [->|Hx]; [by rewrite ltb_irrefl in *|].
    apply Hf in Hx. apply ltb_asym in Hx. congruence.
  - destruct (ltb z x) eqn:E2; [|done].
    apply elem_of_cons in Hx as [->|Hx]; [by rewrite ltb_irrefl in *|].
    destruct (IH Hs Hx) as [H1 H2]. destruct (erase x l) as [r n]. simpl in *. lia.
Qed.

Lemma mem_spec x l : sorted l -> mem x l = true <-> x ∈ l.
Proof.
  induction l as [|z l IH]; simpl; [set_solver|].
  intros [Hf Hs]%sorted_cons. rewrite elem_of_cons. destruct (ltb x z) eqn:E1.
  - split; [done|]. intros [->|Hx]; [by rewrite ltb_irrefl in *|].
    apply Hf in Hx. apply ltb_asym in Hx. congruence.
  - destruct (ltb z x) eqn:E2.
    + rewrite IH by done. split; [by right|]. intros [->|?]; [by rewrite ltb_irrefl in *|done].
    + rewrite (ltb_total x z) by done. naive_solver.
Qed.

Lemma lower_bound_spec x l :
  sorted l ->
  l = (lower_bound x l).1 ++ (lower_bound x l).2 /\
  (forall y, y ∈ (lower_bound x l).1 -> ltb y x = true) /\
  (forall y, y ∈ (lower_bound x l).2 -> ltb y x = false).
Proof.
  induction l as [|z l IH]; simpl; [set_solver|].
  intros [Hf Hs]%sorted_cons. destruct (ltb z x) eqn:E.
  - destruct (IH Hs) as (H1 & H2 & H3). destruct (lower_bound x l) as [a b]. simpl in *.
    split_and!; [by rewrite H1| |done]. intros y [->|Hy]%elem_of_cons; [done|by apply H2].
  - simpl. split_and!; [done|set_solver|]. intros y [->|Hy]%elem_of_cons; [done|].
    destruct (ltb y x) eqn:E'; [|done]. assert (ltb z x = true) by (by eapply ltb_trans; [apply Hf|]). congruence.
Qed.

Lemma sorted_app l1 l2 :
  sorted (l1 ++ l2) <->
  sorted l1 /\ sorted l2 /\ forall x y, x ∈ l1 -> y ∈ l2 -> ltb x y = true.
Proof.
  induction l1 as [|z l1 IH]; simpl.
  { split; [|naive_solver]. intros Hs. split_and!; [constructor|done|set_solver]. }
  rewrite !sorted_cons, IH. setoid_rewrite elem_of_app. setoid_rewrite elem_of_cons. naive_solver.
Qed.

(** Two increasing lists with the same elements are equal. *)
Lemma sorted_ext l1 l2 : sorted l1 -> sorted l2 -> (forall x, x ∈ l1 <-> x ∈ l2) -> l1 = l2.
Proof.
  revert l2; induction l1 as [|x l1 IH]; intros [|y l2]; [done|set_solver..|].
  intros [Hf1 Hs1]%sorted_cons [Hf2 Hs2]%sorted_cons He.
  assert (x = y) as ->.
  { assert (x ∈ y :: l2) as [|Hx]%elem_of_cons by set_solver; [done|].
    assert (y ∈ x :: l1) as [|Hy]%elem_of_cons by set_solver; [done|].
    apply Hf2 in Hx. apply Hf1 in Hy. apply ltb_asym in Hx. congruence. }
  f_equal. apply IH; [done..|]. intros z. split; intros Hz.
  - assert (z ∈ y :: l2) as [->|]%elem_of_cons by set_solver; [|done].
    apply Hf1 in Hz. by rewrite ltb_irrefl in *.
  - assert (z ∈ y :: l1) as [->|]%elem_of_cons by set_solver; [|done].
    apply Hf2 in Hz. by rewrite ltb_irrefl in *.
Qed.
End ordered.
End OrderedSet.

(** [operator<] of [std::string]: the first different byte decides, as [unsigned char], then
    the length. *)
Fixpoint string_ltb (a b : bytes) : bool :=
  match a, b with
  | _, [] => false
  | [], _ :: _ => true
  | x :: a, y :: b =>
      match N.compare (Byte.to_N x) (Byte.to_N y) with
      | Lt => true
      | Gt => false
      | Eq => string_ltb a b
      end
  end.

#[global] Instance string_comparison : Comparison bytes.
Proof.
  refine {| ltb := string_ltb |}.
  - intros x. induction x as [|c x IH]; [done|]. simpl. by rewrite N.compare_refl.
  - intros x y z. revert y z. induction x as [|c x IH]; intros [|d y] [|e z]; simpl; try done.
    destruct (N.compare_spec (Byte.to_N c) (Byte.to_N d)) as [H1|H1|H1], (N.compare_spec (Byte.to_N d) (Byte.to_N e)) as [H2|H2|H2];
      intros ? ?; try done; destruct (N.compare_spec (Byte.to_N c) (Byte.to_N e)); try lia; try done. by eapply IH.
  - intros x y. revert y. induction x as [|c x IH]; intros [|d y]; simpl; try done.
    rewrite (N.compare_antisym (Byte.to_N c)). destruct (N.compare_spec (Byte.to_N c) (Byte.to_N d)) as [H|H|H]; simpl; try done.
    intros H1 H2. f_equal; [|by apply IH]. apply (f_equal Byte.of_N) in H. rewrite !Byte.of_to_N in H. by injection H.
Defined.

(** A [std::map] is the list of its entries, strictly increasing in the keys. *)
Module OrderedMap.
Section map.
Context {K V : Type} `{Comparison K}.
Implicit Types (k : K) (v : V) (l : list (K * V)).

Fixpoint find k l : option V :=
  match l with
  | [] => None
  | (x, v) :: l' => if ltb k x then None else if ltb x k then find k l' else Some v
  end.

(** [m[k] = v]. *)
Fixpoint set k v l : list (K * V) :=
  match l with
  | [] => [(k, v)]
  | (x, u) :: l' => if ltb k x then (k, v) :: l else if ltb x k then (x, u) :: set k v l' else (k, v) :: l'
  end.

Fixpoint erase k l : list (K * V) :=
  match l with
  | [] => []
  | (x, u) :: l' => if ltb k x then l else if ltb x k then (x, u) :: erase k l' else l'
  end.

Definition sorted l : Prop := StronglySorted (fun x y => ltb x.1 y.1 = true) l.

Lemma map_sorted_cons x l : sorted (x :: l) <-> (forall y, y ∈ l -> ltb x.1 y.1 = true) /\ sorted l.
Proof.
  split.
  - intros [Hs Hf]%StronglySorted_inv. split; [|done]. by apply list.Forall_forall.
  - intros [Hf Hs]. constructor; [done|]. by apply list.Forall_forall.
Qed.

Ltac keys := repeat match goal with
  | H : ltb ?x ?x = true |- _ => by rewrite ltb_irrefl in H
  | H1 : ltb ?x ?y = true, H2 : ltb ?y ?x = true |- _ => by rewrite (OrderedSet.ltb_asym _ _ H1) in H2
  | H1 : ltb ?x ?y = false, H2 : ltb ?y ?x = false |- _ => pose proof (ltb_total _ _ H1 H2); subst; clear H1 H2
  end.

Lemma find_elem k v l : sorted l -> find k l = Some v <-> (k, v) ∈ l.
Proof.
  induction l as [|[x u] l IH]; simpl; [intros _; split; [done|by intros ?%elem_of_nil]|].
  intros [Hf Hs]%map_sorted_cons. rewrite elem_of_cons. destruct (ltb k x) eqn:E1.
  - split; [done|]. intros [[= -> ->]|Hin]; [by keys|]. apply Hf in Hin. simpl in Hin. by keys.
  - destruct (ltb x k) eqn:E2.
    + rewrite IH by done. split; [by right|]. intros [[= -> ->]|]; [by keys|done].
    + keys. split; [intros [= ->]; by left|]. intros [[= ->]|Hin]; [done|]. apply Hf in Hin. simpl in Hin. by keys.
Qed.

Lemma elem_set k v l x : sorted l -> x ∈ set k v l <-> x = (k, v) \/ x.1 <> k /\ x ∈ l.
Proof.
  induction l as [|[y u] l IH]; simpl.
  { intros _. rewrite list_elem_of_singleton, elem_of_nil. naive_solver. }
  intros [Hf Hs]%map_sorted_cons. destruct (ltb k y) eqn:E1; [|destruct (ltb y k) eqn:E2].
  - rewrite !elem_of_cons. split; [|naive_solver]. intros [->|Hx]; [by left|]. right. split; [|done]. intros <-.
    destruct Hx as [->|Hx]; simpl in *; [by keys|]. apply Hf in Hx. simpl in Hx. by keys.
  - rewrite !elem_of_cons, IH by done. split; [|naive_solver]. intros [->|[->|[? ?]]]; [|by left|naive_solver].
    right. split; [|by left]. simpl. intros ->. by keys.
  - keys. rewrite !elem_of_cons. split.
    + intros [->|Hx]; [by left|]. right. split; [|by right]. intros Heq. apply Hf in Hx. simpl in Hx. rewrite Heq in Hx. by keys.
    + intros [->|[Hne [->|Hx]]]; [by left|by simpl in Hne|by right].
Qed.

Lemma elem_erase k l x : sorted l -> x ∈ erase k l <-> x.1 <> k /\ x ∈ l.
Proof.
  induction l as [|[y u] l IH]; simpl; [intros _; rewrite elem_of_nil; naive_solver|].
  intros [Hf Hs]%map_sorted_cons. destruct (ltb k y) eqn:E1; [|destruct (ltb y k) eqn:E2].
  - rewrite elem_of_cons. split; [|naive_solver]. intros Hx. split; [|done]. intros <-.
    destruct Hx as [->|Hx]; simpl in *; [by keys|]. apply Hf in Hx. simpl in Hx. by keys.
  - rewrite !elem_of_cons, IH by done. split; [|naive_solver]. intros [->|[? ?]]; [|naive_solver]. split; [|by left]. simpl. intros ->. by keys.
  - keys. rewrite !elem_of_cons. split; [|naive_solver]. intros Hx. split; [|by right]. intros Heq. apply Hf in Hx. simpl in Hx.
    rewrite Heq in Hx. by keys.
Qed.

Lemma set_sorted k v l : sorted l -> sorted (set k v l).
Proof.
  induction l as [|[y u] l IH]; simpl; [intros _; repeat constructor|].
  intros Hs. pose proof Hs as [Hf Hs']%map_sorted_cons. destruct (ltb k y) eqn:E1; [|destruct (ltb y k) eqn:E2].
  - apply map_sorted_cons. split; [|done]. intros x [->|Hx]%elem_of_cons; [done|]. eapply ltb_trans; [done|]. by apply Hf.
  - apply map_sorted_cons. split; [|by apply IH]. intros x. rewrite elem_set by done. intros [->|[_ Hx]]; [done|by apply Hf].
  - keys. apply map_sorted_cons. by split.
Qed.

Lemma erase_sorted k l : sorted l -> sorted (erase k l).
Proof.
  induction l as [|[y u] l IH]; simpl; [done|].
  intros Hs. pose proof Hs as [Hf Hs']%map_sorted_cons. destruct (ltb k y); [done|]. destruct (ltb y k); [|done].
  apply map_sorted_cons. split; [|by apply IH]. intros x. rewrite elem_erase by done. intros [_ Hx]. by apply Hf.
Qed.

Lemma find_set_same k v l : sorted l -> find k (set k v l) = Some v.
Proof. intros Hs. apply find_elem; [by apply set_sorted|]. apply elem_set; [done|by left]. Qed.

Lemma set_perm k v l : k ∉ map fst l -> Permutation (set k v l) ((k, v) :: l).
Proof.
  induction l as [|[y u] l IH]; simpl; [done|]. intros [Hne Hk]%not_elem_of_cons.
  destruct (ltb k y) eqn:E1; [done|]. destruct (ltb y k) eqn:E2; [|by destruct Hne; apply ltb_total].
  rewrite IH by done. constructor.
Qed.

Lemma set_set k u v l : set k v (set k u l) = set k v l.
Proof.
  induction l as [|[y w] l IH]; simpl; [by rewrite ltb_irrefl|].
  destruct (ltb k y) eqn:E1; [by simpl; rewrite ltb_irrefl|]. destruct (ltb y k) eqn:E2; simpl.
  - by rewrite E1, E2, IH.
  - by rewrite ltb_irrefl.
Qed.

Lemma erase_perm k v l : sorted l -> (k, v) ∈ l -> Permutation l ((k, v) :: erase k l).
Proof.
  induction l as [|[y u] l IH]; simpl; [intros _ []%elem_of_nil|]. intros [Hy Hs]%map_sorted_cons [He|Hin]%elem_of_cons.
  - injection He as -> ->. by rewrite ltb_irrefl.
  - pose proof (Hy _ Hin) as Hlt. simpl in Hlt. rewrite (OrderedSet.ltb_asym _ _ Hlt), Hlt.
    rewrite (IH Hs Hin) at 1. constructor.
Qed.

Lemma find_other (l l' : list (K * V)) k :
  sorted l -> sorted l' -> (forall v, (k, v) ∈ l <-> (k, v) ∈ l') -> find k l = find k l'.
Proof. intros Hs Hs' He. apply option_eq. intros v. by rewrite !find_elem. Qed.

Lemma find_set_other k k' v l : sorted l -> k' <> k -> find k' (set k v l) = find k' l.
Proof.
  intros Hs Hne. apply find_other; [by apply set_sorted|done|]. intros u. rewrite elem_set by done. simpl. naive_solver.
Qed.

Lemma find_erase_same k l : sorted l -> find k (erase k l) = None.
Proof.
  intros Hs. apply eq_None_not_Some. intros [v Hv]. apply find_elem in Hv; [|by apply erase_sorted].
  apply elem_erase in Hv; [|done]. by destruct Hv.
Qed.

Lemma find_erase_other k k' l : sorted l -> k' <> k -> find k' (erase k l) = find k' l.
Proof.
  intros Hs Hne. apply find_other; [by apply erase_sorted|done|]. intros u. rewrite elem_erase by done. simpl. naive_solver.
Qed.
End map.
End OrderedMap.
