(* ===== verification/Endian.v ===== *)
(** Byte order ([muduo/net/Endian.h]) and the memory image of integers.

    The target is little-endian, so the object representation of an [n]-byte integer
    is its little-endian byte list and [htobeNN]/[beNNtoh] reverse the bytes. *)
From coqutil Require Import Byte Word.LittleEndianList.
From S2P Require Import Prelude.
Open Scope Z_scope.

(** The object representation of an integer of [n] bytes (what [memcpy] sees). *)
Definition to_mem (n : nat) (x : Z) : bytes := le_split n x.
Definition of_mem_u (m : bytes) : Z := le_combine m.
Definition of_mem_s (m : bytes) : Z := swrap (8 * lenZ m) (le_combine m).

(** Reversing the bytes of an unsigned integer of [n] bytes. *)
Definition bswap (n : nat) (x : Z) : Z := le_combine (rev (le_split n x)).

Definition hostToNetwork64 (host64 : Z) : Z := bswap 8 (uwrap 64 host64).
Definition hostToNetwork32 (host32 : Z) : Z := bswap 4 (uwrap 32 host32).
Definition hostToNetwork16 (host16 : Z) : Z := bswap 2 (uwrap 16 host16).
Definition networkToHost64 (net64 : Z) : Z := bswap 8 (uwrap 64 net64).
Definition networkToHost32 (net32 : Z) : Z := bswap 4 (uwrap 32 net32).
Definition networkToHost16 (net16 : Z) : Z := bswap 2 (uwrap 16 net16).

Lemma length_to_mem n x : length (to_mem n x) = n.
Proof. apply length_le_split. Qed.

Lemma lenZ_to_mem n x : lenZ (to_mem n x) = Z.of_nat n.
Proof. unfold lenZ. rewrite length_to_mem. reflexivity. Qed.

Lemma byte_of_Z_small z : 0 <= z < 256 -> byte.unsigned (byte.of_Z z) = z.
Proof. intros Hz. rewrite byte.unsigned_of_Z. unfold byte.wrap. by apply Z.mod_small. Qed.

Lemma le_split_uwrap n w x : w = 8 * Z.of_nat n -> le_split n (uwrap w x) = le_split n x.
Proof.
  intros ->. symmetry. rewrite le_split_mod. unfold uwrap. by rewrite (Z.mul_comm 8).
Qed.

Lemma le_split_swrap n w x :
  0 < w -> w = 8 * Z.of_nat n -> le_split n (swrap w x) = le_split n x.
Proof.
  intros Hw Heq. rewrite <- (le_split_uwrap n w (swrap w x)) by done.
  rewrite uwrap_swrap by done. by apply le_split_uwrap.
Qed.

(** The memory image of the swapped integer is the reversed image. *)
Lemma to_mem_bswap n x : to_mem n (bswap n x) = rev (to_mem n x).
Proof.
  unfold to_mem, bswap. apply split_le_combine'.
  rewrite length_rev. apply length_le_split.
Qed.

Lemma bswap_involutive n x : bswap n (bswap n x) = uwrap (8 * Z.of_nat n) x.
Proof.
  change (le_combine (rev (to_mem n (bswap n x))) = uwrap (8 * Z.of_nat n) x).
  rewrite to_mem_bswap, rev_involutive. unfold to_mem. rewrite le_combine_split.
  unfold uwrap. by rewrite (Z.mul_comm 8).
Qed.

Lemma bswap_range n x : 0 <= bswap n x < 2 ^ (8 * Z.of_nat n).
Proof.
  pose proof (le_combine_bound (rev (le_split n x))) as H.
  rewrite length_rev, length_le_split in H. exact H.
Qed.

(** Big-endian images: what travels on the wire. *)
Definition be_bytes (n : nat) (x : Z) : bytes := rev (le_split n x).

(** The common part of [append]/[peek] of an [n]-byte signed integer: storing the
    converted value and reading it back as a signed integer is the identity. *)
Lemma be_image n w x :
  0 < w -> w = 8 * Z.of_nat n ->
  to_mem n (swrap w (bswap n (uwrap w x))) = be_bytes n x.
Proof.
  intros Hw Heq. unfold to_mem. rewrite le_split_swrap by done.
  rewrite (to_mem_bswap n). unfold to_mem. by rewrite (le_split_uwrap n w) by done.
Qed.

Lemma be_decode n w x :
  0 < w -> w = 8 * Z.of_nat n -> s_in w x ->
  swrap w (bswap n (uwrap w (of_mem_s (be_bytes n x)))) = x.
Proof.
  intros Hw Heq Hx. unfold of_mem_s, be_bytes, lenZ.
  rewrite length_rev, length_le_split, <- Heq.
  rewrite uwrap_swrap by done.
  fold (bswap n x). unfold bswap at 1.
  rewrite (le_split_uwrap n w) by done.
  change (le_split n (bswap n x)) with (to_mem n (bswap n x)).
  rewrite to_mem_bswap, rev_involutive. unfold to_mem. rewrite le_combine_split.
  replace (Z.of_nat n * 8) with w by lia.
  fold (uwrap w x). rewrite swrap_uwrap by done. by apply swrap_small.
Qed.

Lemma lenZ_be_bytes n x : lenZ (be_bytes n x) = Z.of_nat n.
Proof. unfold lenZ, be_bytes. by rewrite length_rev, length_le_split. Qed.

#[global] Arguments to_mem : simpl never.
#[global] Arguments be_bytes : simpl never.
