(* ===== verification/Atomic.v ===== *)
(** Atomic integers ([muduo/base/Atomic.h]).

    An operation is one step of the thread that calls it.  The built-in operations wrap
    around; the addition that [addAndGet] makes on their result is an ordinary one of the
    signed type. *)
From S2P Require Import Prelude.
Open Scope Z_scope.

Module AtomicIntegerT.

Section width.
(** The bits of [T]: 32 for [AtomicInt32], 64 for [AtomicInt64]. *)
Context (w : Z).

(** The value is all there is. *)
Definition AtomicIntegerT : Z := 0.

Definition get (value_ : Z) : Z := value_.

(** [__sync_fetch_and_add]: the old value, and the new one. *)
Definition getAndAdd (x value_ : Z) : Z * Z := (value_, swrap w (value_ + x)).

Definition addAndGet (x value_ : Z) : res (Z * Z) :=
  let '(old, value_) := getAndAdd x value_ in
  _ ← check Overflow (bool_decide (- 2 ^ (w - 1) <= old + x < 2 ^ (w - 1)));
  mret (old + x, value_).

Definition incrementAndGet (value_ : Z) : res (Z * Z) := addAndGet 1 value_.
Definition decrementAndGet (value_ : Z) : res (Z * Z) := addAndGet (-1) value_.

Definition add (x value_ : Z) : Z := (getAndAdd x value_).2.
Definition increment (value_ : Z) : res Z := r ← incrementAndGet value_; mret r.2.
Definition decrement (value_ : Z) : res Z := r ← decrementAndGet value_; mret r.2.

Definition getAndSet (newValue value_ : Z) : Z * Z := (value_, newValue).

(** The sum is returned and stored, or it does not fit the type. *)
Lemma addAndGet_spec x v :
  0 < w -> addAndGet x v = if decide (s_in w (v + x)) then Ok (v + x, v + x) else Fail Overflow.
Proof.
  intros Hw. unfold addAndGet, getAndAdd, check. unfold s_in at 1. destruct (bool_decide_reflect (- 2 ^ (w - 1) <= v + x < 2 ^ (w - 1))).
  - rewrite decide_True by done. simpl. by rewrite swrap_small.
  - by rewrite decide_False.
Qed.
End width.
End AtomicIntegerT.
