(* ===== verification/StringPiece.v ===== *)
(** String slices ([muduo/base/StringPiece.h]): a pointer with an [int] length.

    [ptr_] is the memory from the pointer to the end of the object it points into;
    a null pointer is the empty region.  Reading past the region is [OutOfBounds]. *)
From S2P Require Import Prelude.
Open Scope Z_scope.

Module StringPiece.

Record t := mk { ptr_ : bytes; length_ : Z }.

#[global] Instance t_eq_dec : EqDecision t.
Proof. solve_decision. Defined.

Definition null : t := mk [] 0.

(** [StringPiece(const string& str)]: the size is narrowed to [int]. *)
Definition of_string (str : bytes) : t := mk str (swrap 32 (lenZ str)).

(** [StringPiece(const char* offset, int len)]. *)
Definition of_offset (offset : bytes) (len : Z) : t := mk offset len.

(** [StringPiece(const char* str)]: the length is that of the C string in [str]. *)
Definition of_cstr (str : bytes) : res t :=
  match find_byte Byte.x00 str with
  | Some n => Ok (mk str (swrap 32 (Z.of_nat n)))
  | None => Fail OutOfBounds
  end.

Definition data (p : t) : bytes := ptr_ p.
Definition size (p : t) : Z := length_ p.
Definition empty (p : t) : bool := bool_decide (length_ p = 0).
Definition clear (p : t) : t := null.
Definition set (buffer : bytes) (len : Z) (p : t) : t := mk buffer len.

Definition at_ (i : Z) (p : t) : res byte :=
  if bool_decide (0 <= i) then
    match ptr_ p !! Z.to_nat i with
    | Some c => Ok c
    | None => Fail OutOfBounds
    end
  else Fail OutOfBounds.

Definition remove_prefix (n : Z) (p : t) : t :=
  mk (drop (Z.to_nat n) (ptr_ p)) (swrap 32 (length_ p - n)).

Definition remove_suffix (n : Z) (p : t) : t :=
  mk (ptr_ p) (swrap 32 (length_ p - n)).

Definition eq (p x : t) : res bool :=
  if bool_decide (length_ p = length_ x) then
    r ← memcmp (length_ p) (ptr_ p) (ptr_ x);
    mret (bool_decide (r = 0))
  else mret false.

Definition ne (p x : t) : res bool := negb <$> eq p x.

(** [STRINGPIECE_BINARY_PREDICATE(cmp, auxcmp)]. *)
Definition binary_predicate (cmp auxcmp : Z -> Z -> bool) (p x : t) : res bool :=
  r ← memcmp (if bool_decide (length_ p < length_ x) then length_ p else length_ x)
             (ptr_ p) (ptr_ x);
  mret (auxcmp r 0 || (bool_decide (r = 0) && cmp (length_ p) (length_ x))).

Definition lt : t -> t -> res bool := binary_predicate Z.ltb Z.ltb.
Definition le : t -> t -> res bool := binary_predicate Z.leb Z.ltb.
Definition ge : t -> t -> res bool := binary_predicate Z.geb Z.gtb.
Definition gt : t -> t -> res bool := binary_predicate Z.gtb Z.gtb.

Definition compare (p x : t) : res Z :=
  r ← memcmp (if bool_decide (length_ p < length_ x) then length_ p else length_ x)
             (ptr_ p) (ptr_ x);
  mret (if bool_decide (r = 0) then
          if bool_decide (length_ p < length_ x) then -1
          else if bool_decide (length_ p > length_ x) then 1
          else r
        else r).

(** [string(data(), size())]: a negative size converts to one past [max_size()]. *)
Definition as_string (p : t) : res bytes :=
  _ ← check LengthError (bool_decide (size_wrap (length_ p) <= vector_max_size));
  _ ← check OutOfBounds (bool_decide (length_ p <= lenZ (ptr_ p)));
  mret (take (Z.to_nat (length_ p)) (ptr_ p)).

Definition CopyToString (p : t) : res bytes := as_string p.

Definition starts_with (p x : t) : res bool :=
  if bool_decide (length_ p >= length_ x) then
    r ← memcmp (length_ x) (ptr_ p) (ptr_ x);
    mret (bool_decide (r = 0))
  else mret false.

(** ** Specification *)

(** The pieces the code builds: the length fits the region and an [int]. *)
Definition valid (p : t) : Prop :=
  0 <= length_ p /\ length_ p <= lenZ (ptr_ p) /\ length_ p < 2 ^ 31.

#[global] Instance valid_dec p : Decision (valid p) := _.

(** What a piece denotes. *)
Definition contents (p : t) : bytes := take (Z.to_nat (length_ p)) (ptr_ p).

Lemma length_contents p : valid p -> lenZ (contents p) = length_ p.
Proof. unfold valid, contents, lenZ. rewrite length_take. lia. Qed.

Lemma memcmp_ok n a b :
  n <= lenZ a -> n <= lenZ b -> memcmp n a b = Ok (bytes_cmp (Z.to_nat n) a b).
Proof. intros. unfold memcmp. rewrite !bool_decide_eq_true_2 by done. done. Qed.

(** The lexicographic order on byte strings, shorter first. *)
Definition lex (a b : bytes) : Z :=
  let n := Nat.min (length a) (length b) in
  let r := bytes_cmp n a b in
  if bool_decide (r = 0) then Z.sgn (lenZ a - lenZ b) else r.

Lemma bytes_cmp_take n a b :
  bytes_cmp n (take n a) (take n b) = bytes_cmp n a b.
Proof.
  revert a b; induction n as [|n IH]; intros [|x a] [|y b]; simpl; try done.
  by rewrite IH.
Qed.

Lemma bytes_cmp_contents n p x :
  valid p -> valid x -> 0 <= n <= length_ p -> n <= length_ x ->
  bytes_cmp (Z.to_nat n) (contents p) (contents x) =
  bytes_cmp (Z.to_nat n) (ptr_ p) (ptr_ x).
Proof.
  intros. rewrite <- bytes_cmp_take. unfold contents. rewrite !take_take, !Nat.min_l by lia.
  apply bytes_cmp_take.
Qed.

Lemma min_size p x :
  valid p -> valid x ->
  Z.to_nat (if bool_decide (length_ p < length_ x) then length_ p else length_ x) =
  Nat.min (length (contents p)) (length (contents x)).
Proof.
  intros Hp Hx. pose proof (length_contents p Hp). pose proof (length_contents x Hx).
  unfold lenZ in *. case_bool_decide; lia.
Qed.

Lemma memcmp_contents p x :
  valid p -> valid x ->
  memcmp (if bool_decide (length_ p < length_ x) then length_ p else length_ x)
    (ptr_ p) (ptr_ x) =
  Ok (bytes_cmp (Nat.min (length (contents p)) (length (contents x)))
        (contents p) (contents x)).
Proof.
  intros Hp Hx. rewrite <- min_size by done.
  destruct Hp as (? & ? & ?) eqn:Ep, Hx as (? & ? & ?) eqn:Ex.
  rewrite memcmp_ok by (case_bool_decide; lia).
  rewrite bytes_cmp_contents by (done || case_bool_decide; lia). done.
Qed.

Lemma compare_lex p x : valid p -> valid x -> compare p x = Ok (lex (contents p) (contents x)).
Proof.
  intros Hp Hx. unfold compare. rewrite memcmp_contents by done. simpl. unfold lex.
  rewrite !length_contents by done.
  case_bool_decide as Hr; [|done]. rewrite Hr. repeat case_bool_decide; unfold mret, res_ret; f_equal; lia.
Qed.

(** the four ordering operators and [compare] all decide one order, the
    lexicographic order of the denoted byte strings. *)
Theorem stringpiece_order p x :
  valid p -> valid x ->
  let c := lex (contents p) (contents x) in
  compare p x = Ok c /\
  lt p x = Ok (c <? 0) /\ le p x = Ok (c <=? 0) /\
  gt p x = Ok (c >? 0) /\ ge p x = Ok (c >=? 0) /\
  lex (contents x) (contents p) = - c.
Proof.
  intros Hp Hx c. split; [by apply compare_lex|].
  unfold lt, le, gt, ge, binary_predicate. rewrite memcmp_contents by done.
  subst c. unfold lex. rewrite (Nat.min_comm (length (contents x))).
  rewrite (bytes_cmp_antisym _ (contents p) (contents x)).
  rewrite !length_contents by done.
  pose proof (bytes_cmp_range (Nat.min (length (contents p)) (length (contents x)))
    (contents p) (contents x)) as Hb.
  set (r := bytes_cmp _ _ _) in *. simpl. unfold mret, res_ret.
  split_and!; try f_equal; repeat case_bool_decide; lia.
Qed.

Lemma stringpiece_eq_contents p x :
  valid p -> valid x -> eq p x = Ok (bool_decide (contents p = contents x)).
Proof.
  intros Hp Hx. pose proof (length_contents p Hp) as Lp. pose proof (length_contents x Hx) as Lx.
  unfold eq. case_bool_decide as Hl.
  - destruct Hp as (? & ? & ?), Hx as (? & ? & ?). rewrite memcmp_ok by lia. simpl.
    unfold mret, res_ret. f_equal. apply bool_decide_ext.
    rewrite bytes_cmp_eq by (unfold lenZ in *; lia). unfold contents. by rewrite Hl.
  - rewrite bool_decide_eq_false_2; [done|]. intros He. rewrite He in Lp. lia.
Qed.

Lemma stringpiece_starts_with p x :
  valid p -> valid x -> starts_with p x = Ok (bool_decide (contents x `prefix_of` contents p)).
Proof.
  intros Hp Hx. pose proof (length_contents p Hp) as Lp. pose proof (length_contents x Hx) as Lx.
  unfold starts_with. case_bool_decide as Hl.
  - destruct Hp as (? & ? & ?), Hx as (? & ? & ?). rewrite memcmp_ok by lia. simpl.
    unfold mret, res_ret. f_equal. apply bool_decide_ext.
    rewrite bytes_cmp_eq by (unfold lenZ in *; lia). unfold contents. split.
    + intros <-. exists (drop (Z.to_nat (length_ x)) (take (Z.to_nat (length_ p)) (ptr_ p))).
      rewrite <- (take_drop (Z.to_nat (length_ x)) (take _ _)) at 1.
      rewrite take_take, Nat.min_l by lia. done.
    + intros [k Hk]. apply (f_equal (take (Z.to_nat (length_ x)))) in Hk.
      rewrite take_take, Nat.min_l in Hk by lia.
      rewrite take_app_le in Hk by (rewrite length_take; unfold lenZ in *; lia).
      by rewrite take_take, Nat.min_l in Hk by lia.
  - rewrite bool_decide_eq_false_2; [done|]. intros He%prefix_length.
    unfold lenZ in *. lia.
Qed.

Lemma stringpiece_order_witness :
  compare (mk (bs "abcde") 3) (mk (bs "abd") 3) = Ok (-1) /\
  lt (mk (bs "abcde") 3) (mk (bs "abd") 3) = Ok true.
Proof.
  pose proof (stringpiece_order (mk (bs "abcde") 3) (mk (bs "abd") 3)) as H.
  destruct H as (H1 & H2 & _); [vm_compute; split_and!; congruence..|].
  split; [exact H1|exact H2].
Defined.

End StringPiece.
