(* ===== verification/Decimal.v ===== *)
(** Decimal and hexadecimal notation: the reference the formatting code is compared to,
    and the conversions of [snprintf] that the sources use. *)
From S2P Require Import Prelude.
Open Scope Z_scope.

(** The ASCII digit of [0 <= d < 16]. *)
Definition digit (d : Z) : byte :=
  default Byte.x00 (Byte.of_N (Z.to_N (if bool_decide (d < 10) then 48 + d else 55 + d))).

Definition digit_value (c : byte) : Z :=
  let n := Z.of_N (Byte.to_N c) in if bool_decide (n < 65) then n - 48 else n - 55.

Definition is_digit (c : byte) : bool :=
  let n := Byte.to_N c in (48 <=? n)%N && (n <=? 57)%N.

(** Least significant digit first, at least one digit; the fuel is the number of digits. *)
Fixpoint rdigits (base : Z) (fuel : nat) (n : Z) : bytes :=
  match fuel with
  | O => []
  | S f => digit (n mod base) :: (if bool_decide (n / base = 0) then [] else rdigits base f (n / base))
  end.

Definition numeral (base n : Z) : bytes := rev (rdigits base (S (Z.to_nat (Z.log2 n))) n).

(** ["%d"] of an integer of any width. *)
Definition dec (z : Z) : bytes :=
  if bool_decide (z < 0) then bs "-" ++ numeral 10 (- z) else numeral 10 z.

(** The value of a numeral, most significant digit first. *)
Definition value (base : Z) (s : bytes) : Z :=
  fold_left (fun acc c => acc * base + digit_value c) s 0.

Definition undec (s : bytes) : Z :=
  match s with
  | c :: s' => if decide (c = "-"%byte) then - value 10 s' else value 10 s
  | [] => 0
  end.

(** ["%0<w>d"] and ["%<w>d"]: padding to a minimal width, zeros after the sign. *)
Definition pad (c : byte) (w : nat) (s : bytes) : bytes := replicate (w - length s) c ++ s.
Definition fmt_0d (w : nat) (z : Z) : bytes :=
  if bool_decide (z < 0) then bs "-" ++ pad "0"%byte (w - 1) (dec (- z)) else pad "0"%byte w (dec z).
Definition fmt_d (w : nat) (z : Z) : bytes := pad " "%byte w (dec z).

(** [isspace] in the C locale. *)
Definition isspace (c : byte) : bool :=
  bool_decide (c ∈ ["032"; "009"; "010"; "011"; "012"; "013"]%byte).

(** [atoi]: spaces, a sign, digits; a value that is no [int] is undefined behaviour. *)
Fixpoint skip_while (f : byte -> bool) (s : bytes) : bytes :=
  match s with c :: s' => if f c then skip_while f s' else s | [] => [] end.
Fixpoint take_digits (s : bytes) : bytes :=
  match s with c :: s' => if is_digit c then c :: take_digits s' else [] | [] => [] end.
Definition atoi (s : bytes) : res Z :=
  let s := skip_while isspace s in
  let v := match s with
           | c :: s' => if decide (c = "-"%byte) then - value 10 (take_digits s')
                        else if decide (c = "+"%byte) then value 10 (take_digits s') else value 10 (take_digits s)
           | [] => 0
           end in
  if decide (s_in 32 v) then Ok v else Fail Overflow.

(** [snprintf(buf, size, ...)]: what [buf] holds as a C string, and the returned length. *)
Definition snprintf (size : nat) (s : bytes) : bytes * Z := (take (size - 1) s, lenZ s).

Lemma digit_value_digit d : 0 <= d < 16 -> digit_value (digit d) = d.
Proof.
  intros Hd.
  assert (all_from 16 0 (fun d => digit_value (digit d) =? d) = true) as Hall by (vm_compute; done).
  apply Z.eqb_eq, (all_from_spec _ _ _ d Hall). lia.
Qed.

Lemma digit_is_digit d : 0 <= d < 10 -> is_digit (digit d) = true.
Proof.
  intros Hd. assert (all_from 10 0 (fun d => is_digit (digit d)) = true) as Hall by (vm_compute; done).
  apply (all_from_spec _ _ _ d Hall). lia.
Qed.

Lemma value_app base s c : value base (s ++ [c]) = value base s * base + digit_value c.
Proof. unfold value. by rewrite fold_left_app. Qed.

Section numerals.
Context (base : Z) (Hbase : 2 <= base <= 16).

Lemma rdigits_value fuel n :
  0 <= n < base ^ Z.of_nat fuel -> value base (rev (rdigits base fuel n)) = n.
Proof using Hbase.
  revert n; induction fuel as [|fuel IH]; intros n Hn; simpl.
  - change (Z.of_nat 0) with 0 in Hn. rewrite Z.pow_0_r in Hn. unfold value. simpl. lia.
  - pose proof (Z.mod_pos_bound n base ltac:(lia)).
    pose proof (Z.div_mod n base ltac:(lia)) as Hdm.
    rewrite value_app, digit_value_digit by lia. case_bool_decide as H0; simpl.
    + unfold value. simpl. lia.
    + rewrite IH; [lia|]. rewrite Nat2Z.inj_succ, Z.pow_succ_r in Hn by lia.
      split; [apply Z.div_pos; lia|]. apply Z.div_lt_upper_bound; lia.
Qed.

Lemma rdigits_length fuel k n :
  0 <= n < base ^ Z.of_nat k -> (0 < k)%nat -> (length (rdigits base fuel n) <= k)%nat.
Proof using Hbase.
  revert fuel n; induction k as [|k IH]; intros [|fuel] n Hn Hk; simpl; [lia..|].
  case_bool_decide as H0; simpl; [lia|].
  rewrite Nat2Z.inj_succ, Z.pow_succ_r in Hn by lia. destruct k as [|k].
  - exfalso. apply H0. apply Z.div_small. change (Z.of_nat 0) with 0 in Hn. lia.
  - apply le_n_S, IH; [|lia]. split; [apply Z.div_pos; lia|]. apply Z.div_lt_upper_bound; lia.
Qed.

(** Enough fuel is enough: more does not change the digits. *)
Lemma rdigits_fuel f1 f2 n :
  0 <= n < base ^ Z.of_nat f1 -> 0 <= n < base ^ Z.of_nat f2 ->
  (0 < f1)%nat -> (0 < f2)%nat -> rdigits base f1 n = rdigits base f2 n.
Proof using Hbase.
  revert f2 n; induction f1 as [|f1 IH]; intros [|f2] n H1 H2 Hf1 Hf2; [lia..|]. simpl.
  f_equal. case_bool_decide as H0; [done|].
  assert (forall f, n < base ^ Z.of_nat (S f) -> 0 <= n / base < base ^ Z.of_nat f) as Hdiv.
  { intros f Hf. rewrite Nat2Z.inj_succ, Z.pow_succ_r in Hf by lia.
    split; [apply Z.div_pos; lia|]. apply Z.div_lt_upper_bound; lia. }
  assert (0 < n / base) by (pose proof (Z.div_pos n base); lia).
  pose proof (Hdiv f1 ltac:(lia)). pose proof (Hdiv f2 ltac:(lia)).
  apply IH; [done..| |]; destruct f1, f2; try lia;
    change (Z.of_nat 0) with 0 in *; rewrite ?Z.pow_0_r in *; lia.
Qed.

Lemma numeral_fuel_enough n : 0 <= n -> n < base ^ Z.of_nat (S (Z.to_nat (Z.log2 n))).
Proof using Hbase.
  intros Hn. rewrite Nat2Z.inj_succ, Z2Nat.id by apply Z.log2_nonneg.
  destruct (decide (n = 0)) as [->|]; [simpl; lia|].
  apply Z.lt_le_trans with (2 ^ Z.succ (Z.log2 n)); [apply Z.log2_spec; lia|].
  apply Z.pow_le_mono_l. lia.
Qed.

Lemma numeral_value n : 0 <= n -> value base (numeral base n) = n.
Proof using Hbase. intros Hn. apply rdigits_value. pose proof (numeral_fuel_enough n Hn). lia. Qed.

Lemma numeral_rdigits fuel n :
  0 <= n < base ^ Z.of_nat fuel -> (0 < fuel)%nat -> numeral base n = rev (rdigits base fuel n).
Proof using Hbase.
  intros Hn Hf. unfold numeral. f_equal. apply rdigits_fuel; [|done|lia|done].
  pose proof (numeral_fuel_enough n ltac:(lia)). lia.
Qed.

Lemma numeral_length k n :
  0 <= n < base ^ Z.of_nat k -> (0 < k)%nat -> (0 < length (numeral base n) <= k)%nat.
Proof using Hbase.
  intros Hn Hk. unfold numeral. rewrite length_rev. split; [simpl; lia|].
  by apply rdigits_length.
Qed.
End numerals.

Lemma rdigits_digits fuel n c : 0 <= n -> c ∈ rdigits 10 fuel n -> is_digit c = true.
Proof.
  revert n; induction fuel as [|fuel IH]; intros n Hn; simpl; [by intros ?%not_elem_of_nil|].
  pose proof (Z.mod_pos_bound n 10 ltac:(lia)).
  rewrite elem_of_cons. intros [->|Hc]; [by apply digit_is_digit|].
  case_bool_decide; [by apply not_elem_of_nil in Hc|]. apply (IH (n / 10)); [div_lia|done].
Qed.

Lemma numeral_digits n c : 0 <= n -> c ∈ numeral 10 n -> is_digit c = true.
Proof.
  unfold numeral. intros Hn Hc. apply list_elem_of_In, in_rev, list_elem_of_In in Hc.
  by eapply rdigits_digits.
Qed.

Lemma undec_dec z : undec (dec z) = z.
Proof.
  unfold dec. case_bool_decide as Hz.
  - simpl. rewrite numeral_value by lia. lia.
  - pose proof (numeral_length 10 ltac:(lia) (S (Z.to_nat (Z.log2 z))) z) as Hl.
    pose proof (numeral_fuel_enough 10 ltac:(lia) z ltac:(lia)).
    pose proof (numeral_value 10 ltac:(lia) z ltac:(lia)) as Hv.
    pose proof (fun c => numeral_digits z c ltac:(lia)) as Hd.
    destruct (numeral 10 z) as [|c s]; [simpl in Hl; lia|]. simpl.
    destruct (decide (c = "-"%byte)) as [->|]; [|done].
    by specialize (Hd _ (list_elem_of_here _ _)).
Qed.

Lemma dec_inj x y : dec x = dec y -> x = y.
Proof. intros H. by rewrite <- (undec_dec x), H, undec_dec. Qed.

Lemma rdigits_S base f n :
  rdigits base (S f) n =
  digit (n mod base) :: (if bool_decide (n / base = 0) then [] else rdigits base f (n / base)).
Proof. reflexivity. Qed.

#[global] Arguments rdigits : simpl never.
#[global] Arguments numeral : simpl never.
#[global] Arguments dec : simpl never.

Lemma value_bound base (Hb : 2 <= base <= 16) s :
  Forall (fun c => 0 <= digit_value c < base) s -> 0 <= value base s < base ^ Z.of_nat (length s).
Proof.
  intros Hs. induction s as [|c s IH] using rev_ind; [done|].
  apply Forall_app in Hs as [Hs Hc]. apply Forall_inv in Hc. specialize (IH Hs).
  rewrite value_app, length_app. replace (length s + length [c])%nat with (S (length s)) by (simpl; lia).
  rewrite Nat2Z.inj_succ, Z.pow_succ_r by lia. nia.
Qed.

Lemma is_digit_value c : is_digit c = true -> 0 <= digit_value c < 10.
Proof.
  unfold is_digit, digit_value. rewrite andb_true_iff, !N.leb_le. intros [H1 H2].
  rewrite bool_decide_eq_true_2 by lia. lia.
Qed.

Lemma snprintf_fits size s : (length s < size)%nat -> fst (snprintf size s) = s.
Proof. intros. apply take_ge. lia. Qed.

(** ** Fixed-width fields *)

Lemma value_pad base k s : value base (replicate k "0"%byte ++ s) = value base s.
Proof.
  unfold value. rewrite fold_left_app. f_equal.
  induction k as [|k IH]; [done|]. simpl. exact IH.
Qed.

Lemma dec_nonneg z : 0 <= z -> dec z = numeral 10 z.
Proof. intros. unfold dec. by rewrite bool_decide_eq_false_2 by lia. Qed.

(** An [int] has at most eleven characters, digits after the sign. *)
Lemma dec_length_int z : s_in 32 z -> (length (dec z) <= 11)%nat.
Proof.
  unfold s_in, dec. simpl. intros Hz.
  case_bool_decide; rewrite ?length_app; simpl; match goal with |- context [numeral 10 ?n] =>
    pose proof (numeral_length 10 ltac:(lia) 10 n ltac:(simpl; lia)); lia end.
Qed.

Lemma dec_chars z c : c ∈ dec z -> c = "-"%byte \/ is_digit c = true.
Proof.
  unfold dec. case_bool_decide.
  - intros [Hc|Hc]%elem_of_app; [left; by apply list_elem_of_singleton in Hc|right]. by eapply numeral_digits; [|done]; lia.
  - intros Hc. right. eapply numeral_digits; [|done]. lia.
Qed.

Lemma fmt_0d_nonneg w z : 0 <= z -> fmt_0d w z = pad "0"%byte w (numeral 10 z).
Proof. intros. unfold fmt_0d. rewrite bool_decide_eq_false_2 by lia. by rewrite dec_nonneg. Qed.

Lemma fmt_0d_length w z :
  0 <= z < 10 ^ Z.of_nat w -> (0 < w)%nat -> length (fmt_0d w z) = w.
Proof.
  intros Hz Hw. rewrite fmt_0d_nonneg by lia. unfold pad.
  pose proof (numeral_length 10 ltac:(lia) w z Hz Hw).
  rewrite length_app, length_replicate. lia.
Qed.

(** Reading a run of digits back. *)
Definition undec_field (s : bytes) : Z := value 10 s.

Lemma undec_fmt_0d w z : 0 <= z -> undec_field (fmt_0d w z) = z.
Proof.
  intros. rewrite fmt_0d_nonneg by done. unfold undec_field, pad. rewrite value_pad.
  apply numeral_value; lia.
Qed.

Lemma fmt_d_full w z :
  0 <= z < 10 ^ Z.of_nat w -> (0 < w)%nat -> 10 ^ Z.of_nat (w - 1) <= z -> fmt_d w z = fmt_0d w z.
Proof.
  intros Hz Hw Hlo. rewrite fmt_0d_nonneg by lia. unfold fmt_d. rewrite dec_nonneg by lia.
  pose proof (numeral_length 10 ltac:(lia) w z Hz Hw) as Hlen. unfold pad.
  enough (~ (length (numeral 10 z) < w)%nat) by (by replace (w - length (numeral 10 z))%nat with 0%nat by lia).
  intros Hlt. pose proof (numeral_value 10 ltac:(lia) z ltac:(lia)) as Hv.
  pose proof (value_bound 10 ltac:(lia) (numeral 10 z)) as Hb. rewrite Hv in Hb.
  assert (10 ^ Z.of_nat (length (numeral 10 z)) <= 10 ^ Z.of_nat (w - 1))
    by (apply Z.pow_le_mono_r; lia).
  assert (Forall (fun c => 0 <= digit_value c < 10) (numeral 10 z)) as Hd; [|specialize (Hb Hd); lia].
  apply list.Forall_forall. intros c Hc. apply numeral_digits in Hc; [|lia]. by apply is_digit_value.
Qed.

(** [atoi] reads a number back, whatever follows its digits. *)
Lemma digit_start c : is_digit c = true -> isspace c = false /\ c <> "-"%byte /\ c <> "+"%byte.
Proof. destruct c; vm_compute; done. Qed.

Lemma take_digits_app s r :
  (forall c, c ∈ s -> is_digit c = true) -> (forall c, head r = Some c -> is_digit c = false) -> take_digits (s ++ r) = s.
Proof.
  intros Hs Hr. induction s as [|c s IH]; simpl.
  - destruct r as [|c r]; [done|]. simpl. by rewrite Hr.
  - rewrite Hs by apply list_elem_of_here. rewrite IH; [done|]. intros d Hd. apply Hs. by apply list_elem_of_further.
Qed.

Lemma atoi_dec z r :
  0 <= z -> s_in 32 z -> (forall c, head r = Some c -> is_digit c = false) -> atoi (dec z ++ r) = Ok z.
Proof.
  intros Hz Hin Hr. rewrite dec_nonneg by done. pose proof (fun c => numeral_digits z c Hz) as Hd.
  pose proof (numeral_value 10 ltac:(lia) z Hz) as Hv. unfold atoi.
  destruct (numeral 10 z) as [|c l] eqn:E; [exfalso|].
  { pose proof (numeral_length 10 ltac:(lia) 10 z) as Hl. rewrite E in Hl. unfold s_in in Hin. simpl in Hl. lia. }
  destruct (digit_start c) as (Hsp & Hm & Hp); [apply Hd, list_elem_of_here|].
  assert (skip_while isspace ((c :: l) ++ r) = (c :: l) ++ r) as -> by (simpl; by rewrite Hsp).
  rewrite (take_digits_app _ _ Hd Hr), Hv. cbn [app].
  rewrite !(decide_False (P := c = "-"%byte)), !(decide_False (P := c = "+"%byte)) by done. by rewrite decide_True.
Qed.
