(* ===== verification/Double.v ===== *)
(** Doubles that are not negative, and their conversions in [printf].

    A finite double of IEEE binary64 is a multiple of [2^-1074] with at most 53 significant
    bits; here it is that multiple, an integer.  [round_double] is the rounding of the
    exact result that the operations give, [fixed] and [general] are the conversions [%.pf]
    and [%.Pg], which round the exact value (glibc).  [eval] computes an expression over the
    operations on a grid of [2^-64], with the same digits ([denote_value]): proofs that
    evaluate doubles use it. *)
From S2P Require Import Prelude Decimal.
Open Scope Z_scope.

(** [a / b] to the nearest integer, ties to even. *)
Definition nearest (a b : Z) : Z :=
  let '(q, r) := Z.div_eucl a b in
  if bool_decide (2 * r < b) then q else if bool_decide (b < 2 * r) then q + 1 else if Z.even q then q else q + 1.

(** [2^1074], the denominator of every double. *)
Definition grid : Z := 2 ^ 1074.

(** The double nearest to [x / b] in these units: 53 bits are kept.  What overflows is not
    a matter here. *)
Definition round_units (x b : Z) : Z :=
  let u := Z.max 0 (Z.log2 (x / b) - 52) in
  nearest x (b * 2 ^ u) * 2 ^ u.

(** The double nearest to [a / b], and the operations. *)
Definition round_double (a b : Z) : Z := round_units (a * grid) b.
Definition of_int (z : Z) : Z := round_double z 1.
Definition div (x y : Z) : Z := round_units (x * grid) y.
Definition mul (x y : Z) : Z := round_units (x * y) grid.

(** [%.pf]: the value in units of the last decimal, and its text. *)
Definition fixed_units (p : nat) (x : Z) : Z := nearest (x * 10 ^ Z.of_nat p) grid.
Definition fixed_text (p : nat) (n : Z) : bytes :=
  if bool_decide (p = 0%nat) then dec n
  else dec (n / 10 ^ Z.of_nat p) ++ bs "." ++ fmt_0d p (n mod 10 ^ Z.of_nat p).
Definition fixed (p : nat) (x : Z) : bytes := fixed_text p (fixed_units p x).

(** [%.Pg]: the exponent of the first digit, then the shorter of the two notations. *)
Definition exponent_of (a b : Z) : Z :=
  if bool_decide (b <= a) then lenZ (numeral 10 (a / b)) - 1 else - lenZ (numeral 10 ((b - 1) / a)).

Fixpoint strip (s : bytes) : bytes :=
  match s with
  | [] => []
  | c :: s' => match strip s' with [] => if decide (c = "0"%byte) then [] else [c] | l => c :: l end
  end.
Definition with_fraction (f : bytes) : bytes := match strip f with [] => [] | l => bs "." ++ l end.

(** [P] significant digits and the exponent, after rounding. *)
Definition significant (P : Z) (x : Z) : Z * Z :=
  let e := exponent_of x grid in
  let d := P - 1 - e in
  let n := nearest (x * 10 ^ Z.max d 0) (grid * 10 ^ Z.max (- d) 0) in
  if bool_decide (n = 10 ^ P) then (10 ^ (P - 1), e + 1) else (n, e).

Definition general (P : Z) (x : Z) : bytes :=
  if bool_decide (x = 0) then bs "0"
  else
    let '(n, e) := significant P x in
    let s := numeral 10 n in
    if bool_decide (-4 <= e < P) then
      if bool_decide (0 <= e) then take (Z.to_nat (e + 1)) s ++ with_fraction (drop (Z.to_nat (e + 1)) s)
      else bs "0" ++ with_fraction (replicate (Z.to_nat (- e - 1)) "0"%byte ++ s)
    else take 1 s ++ with_fraction (drop 1 s) ++ bs "e" ++ (if bool_decide (e < 0) then bs "-" else bs "+") ++ fmt_0d 2 (Z.abs e).

Example g_examples : map (general 12) [of_int 0; of_int 1; div (of_int 1) (of_int 3); of_int 123456789012; of_int 1234567890123456; div (of_int 1) (of_int 1000000); div (of_int 5) (of_int 2)] =
  [bs "0"; bs "1"; bs "0.333333333333"; bs "123456789012"; bs "1.23456789012e+15"; bs "1e-06"; bs "2.5"].
Proof. vm_compute. reflexivity. Qed.

Example f_examples : [fixed 2 (div (of_int 9994) (of_int 1000)); fixed 1 (round_double 9995 100); fixed 0 (round_double 9995 10)] =
  [bs "9.99"; bs "100.0"; bs "1000"].
Proof. vm_compute. reflexivity. Qed.

(** ** Rounding is monotone *)

(** [nearest] is within half, and even when it is exactly half. *)
Lemma nearest_spec a b : 0 < b ->
  (2 * nearest a b - 1) * b <= 2 * a <= (2 * nearest a b + 1) * b /\
  (2 * a = (2 * nearest a b - 1) * b \/ 2 * a = (2 * nearest a b + 1) * b -> Z.even (nearest a b) = true).
Proof.
  intros Hb. pose proof (Z.div_mod a b ltac:(lia)) as Hd. pose proof (Z.mod_pos_bound a b Hb) as Hm. unfold nearest.
  unfold Z.div, Z.modulo in Hd, Hm. destruct (Z.div_eucl a b) as [q r].
  destruct (bool_decide_reflect (2 * r < b)) as [H1|H1]; [split; [nia|]|destruct (bool_decide_reflect (b < 2 * r)) as [H2|H2]; [split; [nia|]|]].
  - intros [H|H]; exfalso; nia.
  - intros [H|H]; exfalso; nia.
  - destruct (Z.even q) eqn:E; (split; [nia|]); [done|]. intros _. by rewrite Z.even_add, E.
Qed.

Lemma nearest_mono a b c d : 0 < b -> 0 < d -> a * d <= c * b -> nearest a b <= nearest c d.
Proof.
  intros Hb Hd Hle. destruct (nearest_spec a b Hb) as [[Hl1 Hu1] He1]. destruct (nearest_spec c d Hd) as [[Hl2 Hu2] He2].
  set (N := nearest a b) in *. set (M := nearest c d) in *. destruct (decide (N <= M)) as [|Hgt]; [done|exfalso].
  assert ((2 * N - 1) * b * d <= (2 * M + 1) * d * b) as H by nia.
  assert (N = M + 1) as HN by nia.
  assert (2 * a * d = (2 * M + 1) * b * d /\ 2 * c * b = (2 * M + 1) * d * b) as [Ha Hc] by nia.
  assert (2 * a = (2 * N - 1) * b) as Ha' by nia. assert (2 * c = (2 * M + 1) * d) as Hc' by nia.
  specialize (He1 (or_introl Ha')). specialize (He2 (or_intror Hc')).
  rewrite HN, Z.even_add, He2 in He1. discriminate He1.
Qed.

Lemma nearest_int n b : 0 < b -> nearest (n * b) b = n.
Proof.
  intros Hb. unfold nearest. pose proof (Z.div_mul n b ltac:(lia)) as Hd. pose proof (Z.mod_mul n b ltac:(lia)) as Hm.
  unfold Z.div, Z.modulo in Hd, Hm. destruct (Z.div_eucl (n * b) b) as [q r]. subst. by rewrite bool_decide_eq_true_2 by lia.
Qed.

Lemma nearest_nonneg a b : 0 <= a -> 0 < b -> 0 <= nearest a b.
Proof. intros Ha Hb. rewrite <- (nearest_int 0 b Hb). apply nearest_mono; lia. Qed.

(** Between two neighbouring exponents the powers of two separate. *)
Lemma nearest_below x b k : 0 <= x -> 0 < b -> x < 2 ^ k * b -> 0 <= k -> nearest x b <= 2 ^ k.
Proof. intros Hx Hb Hlt Hk. rewrite <- (nearest_int (2 ^ k) b Hb). apply nearest_mono; nia. Qed.

Lemma nearest_above x b k : 0 < b -> 2 ^ k * b <= x -> 2 ^ k <= nearest x b.
Proof. intros Hb Hle. rewrite <- (nearest_int (2 ^ k) b Hb). apply nearest_mono; nia. Qed.

Lemma round_units_mono x b y c : 0 <= x -> 0 < b -> 0 < c -> x * c <= y * b -> round_units x b <= round_units y c.
Proof.
  intros Hx Hb Hc Hle. unfold round_units. set (u := Z.max 0 _). set (v := Z.max 0 _).
  assert (0 <= y) as Hy by nia.
  assert (x / b <= y / c) as Hq.
  { apply Z.div_le_lower_bound; [done|]. pose proof (Z.mul_div_le x b Hb). nia. }
  assert (u <= v) as Huv by (pose proof (Z.log2_le_mono _ _ Hq); lia).
  assert (0 <= u) by lia. assert (0 < 2 ^ u) by (apply Z.pow_pos_nonneg; lia). assert (0 < 2 ^ v) by (apply Z.pow_pos_nonneg; lia).
  destruct (decide (u = v)) as [->|Hne].
  - apply Z.mul_le_mono_nonneg_r; [lia|]. apply nearest_mono; nia.
  - (* below a power of two, and above it *)
    assert (nearest x (b * 2 ^ u) <= 2 ^ 53) as Hbelow.
    { apply nearest_below; [done|nia| |lia]. assert (x / b < 2 ^ (53 + u)) as Hlt.
      { destruct (decide (x / b <= 0)) as [Hz|Hz]; [pose proof (Z.pow_pos_nonneg 2 (53 + u)); lia|].
        pose proof (Z.log2_spec (x / b) ltac:(lia)) as [_ Hs]. eapply Z.lt_le_trans; [exact Hs|]. apply Z.pow_le_mono_r; lia. }
      pose proof (Z.mul_succ_div_gt x b Hb) as Hgt. rewrite Z.pow_add_r in Hlt by lia. nia. }
    assert (2 ^ 52 <= nearest y (c * 2 ^ v)) as Habove.
    { apply nearest_above; [nia|]. assert (Z.log2 (y / c) = 52 + v) as Hlog by lia.
      assert (0 < y / c) as Hp by (destruct (decide (0 < y / c)); [done|]; rewrite Z.log2_nonpos in Hlog; lia).
      pose proof (Z.log2_spec (y / c) Hp) as [Hs _]. rewrite Hlog, Z.pow_add_r in Hs by lia.
      pose proof (Z.mul_div_le y c Hc). nia. }
    assert (2 ^ v = 2 ^ (v - u) * 2 ^ u) as Hv by (rewrite <- Z.pow_add_r by lia; f_equal; lia).
    assert (2 <= 2 ^ (v - u)) as H3 by (change 2 with (2 ^ 1) at 1; apply Z.pow_le_mono_r; lia).
    change (2 ^ 53) with (2 * 2 ^ 52) in Hbelow. nia.
Qed.

Lemma round_double_mono a b c d : 0 <= a -> 0 < b -> 0 < d -> a * d <= c * b -> round_double a b <= round_double c d.
Proof.
  intros Ha Hb Hd Hle. assert (0 < grid) by done. apply (round_units_mono (a * grid) b (c * grid) d); nia.
Qed.

Lemma of_int_mono x y : 0 <= x -> x <= y -> of_int x <= of_int y.
Proof. intros. apply round_double_mono; lia. Qed.

Lemma round_units_nonneg x b : 0 <= x -> 0 < b -> 0 <= round_units x b.
Proof.
  intros Hx Hb. unfold round_units. set (u := Z.max _ _).
  assert (0 < 2 ^ u) by (apply Z.pow_pos_nonneg; lia). apply Z.mul_nonneg_nonneg; [|lia]. apply nearest_nonneg; nia.
Qed.

Lemma of_int_nonneg z : 0 <= z -> 0 <= of_int z.
Proof. intros Hz. assert (0 < grid) by done. apply round_units_nonneg; nia. Qed.

Lemma div_nonneg x c : 0 <= x -> 0 < c -> 0 <= div x c.
Proof. intros Hx Hc. assert (0 < grid) by done. apply round_units_nonneg; nia. Qed.

Lemma div_mono x y c : 0 <= x -> 0 < c -> x <= y -> div x c <= div y c.
Proof.
  intros Hx Hc Hxy. assert (0 < grid) by done. apply round_units_mono; [nia|done|done|].
  apply Z.mul_le_mono_nonneg_r; [lia|]. apply Z.mul_le_mono_nonneg_r; lia.
Qed.

Lemma fixed_units_mono p x y : x <= y -> fixed_units p x <= fixed_units p y.
Proof.
  intros Hxy. assert (0 < grid) by done. unfold fixed_units. assert (0 < 10 ^ Z.of_nat p) by (apply Z.pow_pos_nonneg; lia). apply nearest_mono; [done|done|]. apply Z.mul_le_mono_nonneg_r; [lia|]. apply Z.mul_le_mono_nonneg_r; lia.
Qed.

(** ** Evaluation at a smaller scale

    Operations whose results have all their 53 bits above [2^-64] give the same digits when
    the grid is [2^-64]; expressions over them are evaluated there. *)

Lemma nearest_scale a b k : 0 < b -> 0 < k -> nearest (a * k) (b * k) = nearest a b.
Proof. intros Hb Hk. apply Z.le_antisymm; apply nearest_mono; nia. Qed.

Lemma round_units_cancel x b k : 0 < b -> 0 < k -> round_units (x * k) (b * k) = round_units x b.
Proof.
  intros Hb Hk. unfold round_units. rewrite Z.div_mul_cancel_r by lia. set (u := Z.max _ _).
  assert (0 < 2 ^ u) as Hu by (apply Z.pow_pos_nonneg; lia). generalize dependent (2 ^ u). intros w Hw.
  by rewrite <- (nearest_scale x (b * w) k), <- !Z.mul_assoc, (Z.mul_comm w k) by nia.
Qed.

Lemma round_units_scale x b j : 0 < b -> 0 <= j -> 2 ^ 52 <= x / b -> round_units (x * 2 ^ j) b = round_units x b * 2 ^ j.
Proof.
  intros Hb Hj Hq. unfold round_units. assert (0 < 2 ^ j) as Hp by (apply Z.pow_pos_nonneg; lia).
  assert (52 <= Z.log2 (x / b)) as H52 by (rewrite <- (Z.log2_pow2 52) by lia; by apply Z.log2_le_mono).
  assert (Z.log2 (x * 2 ^ j / b) = Z.log2 (x / b) + j) as ->.
  { apply Z.log2_unique; [lia|]. pose proof (Z.log2_spec (x / b) ltac:(lia)) as [Hl Hu].
    set (L := Z.log2 (x / b)) in *. replace (Z.succ (L + j)) with (Z.succ L + j) by lia. rewrite !Z.pow_add_r by lia.
    pose proof (Z.mul_div_le x b Hb). pose proof (Z.mul_succ_div_gt x b Hb). split.
    - apply Z.div_le_lower_bound; [done|]. rewrite Z.mul_assoc. apply Z.mul_le_mono_nonneg_r; nia.
    - apply Z.div_lt_upper_bound; [done|]. rewrite Z.mul_assoc. apply Z.mul_lt_mono_pos_r; nia. }
  set (u := Z.log2 (x / b) - 52). rewrite !Z.max_r by lia.
  replace (Z.log2 (x / b) + j - 52) with (u + j) by lia. rewrite Z.pow_add_r by lia.
  assert (0 < 2 ^ u) by (apply Z.pow_pos_nonneg; lia).
  rewrite <- (nearest_scale x (b * 2 ^ u) (2 ^ j)) by nia. rewrite !Z.mul_assoc. lia.
Qed.

Inductive expr := EInt (z : Z) | EQuot (a b : Z) | EMul (e1 e2 : expr) | EDiv (e1 e2 : expr).

Fixpoint denote (e : expr) : Z :=
  match e with
  | EInt z => of_int z
  | EQuot a b => round_double a b
  | EMul e1 e2 => mul (denote e1) (denote e2)
  | EDiv e1 e2 => div (denote e1) (denote e2)
  end.

(** The expression of a number that is computed with the operations. *)
#[export] Typeclasses Opaque of_int round_double mul div.
Class Denotes (x : Z) (e : expr) := denotes : x = denote e.
#[export] Instance int_denotes z : Denotes (of_int z) (EInt z) := eq_refl.
#[export] Instance quot_denotes a b : Denotes (round_double a b) (EQuot a b) := eq_refl.
#[export] Instance mul_denotes x y e1 e2 : Denotes x e1 -> Denotes y e2 -> Denotes (mul x y) (EMul e1 e2).
Proof. by intros -> ->. Qed.
#[export] Instance div_denotes x y e1 e2 : Denotes x e1 -> Denotes y e2 -> Denotes (div x y) (EDiv e1 e2).
Proof. by intros -> ->. Qed.

Definition scale_bits : Z := 64.
Definition scale : Z := 2 ^ scale_bits.
Definition rest_bits : Z := 1010.

Definition round_scaled (x b : Z) : option Z :=
  if bool_decide (0 < b) && bool_decide (2 ^ 52 <= x / b) then Some (round_units x b) else None.

Fixpoint eval (e : expr) : option Z :=
  match e with
  | EInt z => round_scaled (z * scale) 1
  | EQuot a b => round_scaled (a * scale) b
  | EMul e1 e2 => x ← eval e1; y ← eval e2; round_scaled (x * y) scale
  | EDiv e1 e2 => x ← eval e1; y ← eval e2; round_scaled (x * scale) y
  end.

Lemma grid_scale : grid = scale * 2 ^ rest_bits.
Proof. unfold grid, scale. rewrite <- Z.pow_add_r by done. done. Qed.

Lemma rest_pos : 0 < 2 ^ rest_bits.
Proof. by apply Z.pow_pos_nonneg. Qed.

Lemma round_scaled_some x b v : round_scaled x b = Some v -> 0 < b /\ 0 < v /\ round_units (x * 2 ^ rest_bits) b = v * 2 ^ rest_bits.
Proof.
  unfold round_scaled. destruct (bool_decide_reflect (0 < b)) as [Hb|]; [|done].
  destruct (bool_decide_reflect (2 ^ 52 <= x / b)) as [Hq|]; [|done]. cbn [andb]. intros Hv.
  apply (f_equal (from_option id 0)) in Hv. cbn [from_option] in Hv. unfold id in Hv. subst v.
  split_and!; [done| |by apply round_units_scale].
  assert (0 < x) as Hx by (destruct (decide (0 < x)); [done|]; pose proof (Z.div_le_upper_bound x b 0 Hb); lia).
  unfold round_units. assert (52 <= Z.log2 (x / b)) as H52 by (rewrite <- (Z.log2_pow2 52) by lia; by apply Z.log2_le_mono).
  rewrite Z.max_r by lia. set (u := Z.log2 (x / b) - 52). assert (0 < 2 ^ u) by (apply Z.pow_pos_nonneg; lia).
  assert (2 ^ 0 <= nearest x (b * 2 ^ u)); [|nia]. apply nearest_above; [nia|].
  pose proof (Z.log2_spec (x / b) ltac:(lia)) as [Hl _]. replace (Z.log2 (x / b)) with (u + 52) in Hl by lia.
  rewrite Z.pow_add_r in Hl by lia. pose proof (Z.mul_div_le x b Hb). nia.
Qed.

Lemma denote_value e v : eval e = Some v -> 0 < v /\ denote e = v * 2 ^ rest_bits.
Proof.
  pose proof rest_pos as Hr. assert (0 < scale) as Hs by done.
  revert v. induction e as [z|a b|e1 IH1 e2 IH2|e1 IH1 e2 IH2]; intros v; cbn [eval denote].
  - intros (_ & Hv & Heq)%round_scaled_some. split; [done|]. unfold of_int, round_double. by rewrite grid_scale, Z.mul_assoc.
  - intros (_ & Hv & Heq)%round_scaled_some. split; [done|]. unfold round_double. by rewrite grid_scale, Z.mul_assoc.
  - destruct (eval e1) as [x|]; [|done]. destruct (eval e2) as [y|]; [|done]. cbn [mbind option_bind].
    destruct (IH1 x eq_refl) as [Hx ->]. destruct (IH2 y eq_refl) as [Hy ->].
    intros (Hb & Hv & Heq)%round_scaled_some. split; [done|]. unfold mul. rewrite grid_scale, <- Heq.
    rewrite <- (round_units_cancel (x * y * 2 ^ rest_bits) scale (2 ^ rest_bits)) by done. f_equal. lia.
  - destruct (eval e1) as [x|]; [|done]. destruct (eval e2) as [y|]; [|done]. cbn [mbind option_bind].
    destruct (IH1 x eq_refl) as [Hx ->]. destruct (IH2 y eq_refl) as [Hy ->].
    intros (Hb & Hv & Heq)%round_scaled_some. split; [done|]. unfold div. rewrite grid_scale, <- Heq.
    rewrite <- (round_units_cancel (x * scale * 2 ^ rest_bits) y (2 ^ rest_bits)) by done. f_equal. lia.
Qed.

Lemma eval_denotes x e v : Denotes x e -> eval e = Some v -> 0 < v /\ x = v * 2 ^ rest_bits.
Proof. intros ->. apply denote_value. Qed.

Lemma fixed_units_eval p x e v : Denotes x e -> eval e = Some v -> fixed_units p x = nearest (v * 10 ^ Z.of_nat p) scale.
Proof.
  intros He Hv. destruct (eval_denotes _ _ _ He Hv) as [_ ->]. unfold fixed_units. rewrite grid_scale.
  rewrite <- (nearest_scale _ scale (2 ^ rest_bits)) by (done || apply rest_pos). f_equal. lia.
Qed.

(** ** How long the texts are *)

Lemma lenZ_dec k n : 0 <= n < 10 ^ Z.of_nat k -> (0 < k)%nat -> lenZ (dec n) <= Z.of_nat k.
Proof.
  intros Hn Hk. rewrite dec_nonneg by lia. pose proof (numeral_length 10 ltac:(lia) k n Hn Hk). unfold lenZ. lia.
Qed.

(** Three digits and a point, or four digits. *)
Lemma fixed_text_short p n : (p <= 2)%nat -> 0 <= n -> n < (if bool_decide (p = 0%nat) then 10000 else 1000) -> lenZ (fixed_text p n) <= 4.
Proof.
  intros Hp Hn Hlt. unfold fixed_text.
  destruct (bool_decide_reflect (p = 0%nat)) as [H0|H0]; [apply (lenZ_dec 4); [change (10 ^ Z.of_nat 4) with 10000|]; lia|].
  rewrite !lenZ_app. change (lenZ (bs ".")) with 1. pose proof (Z.pow_pos_nonneg 10 (Z.of_nat p)) as Hpow.
  assert (lenZ (fmt_0d p (n mod 10 ^ Z.of_nat p)) = Z.of_nat p) as ->.
  { unfold lenZ. rewrite fmt_0d_length; [done|apply Z.mod_pos_bound; lia|lia]. }
  assert (lenZ (dec (n / 10 ^ Z.of_nat p)) <= Z.of_nat (3 - p)) as H; [|lia].
  apply lenZ_dec; [|lia]. destruct p as [|[|[|p]]]; [done| | |lia]; simpl Z.of_nat; simpl Z.sub; div_lia.
Qed.

Lemma strip_length s : (length (strip s) <= length s)%nat.
Proof. induction s as [|c s IH]; [done|]. simpl. destruct (strip s) eqn:E; [case_decide; simpl; lia|]. simpl in *. lia. Qed.

Lemma with_fraction_length f : (length (with_fraction f) <= S (length f))%nat.
Proof. unfold with_fraction. pose proof (strip_length f). destruct (strip f); [simpl; lia|]. rewrite length_app. simpl in *. lia. Qed.

(** The first digit of a numeral is not zero. *)
Lemma numeral_lower n : 0 < n -> 10 ^ (lenZ (numeral 10 n) - 1) <= n.
Proof.
  intros Hn. destruct (decide (10 ^ (lenZ (numeral 10 n) - 1) <= n)) as [|Hlt]; [done|exfalso].
  set (L := length (numeral 10 n)) in *. unfold lenZ in Hlt. fold L in Hlt.
  destruct (decide (L <= 1)%nat) as [H1|H1].
  - assert (10 ^ (Z.of_nat L - 1) <= 1) by (destruct (decide (L = 1%nat)) as [->|]; [done|]; rewrite Z.pow_neg_r by lia; lia). lia.
  - pose proof (numeral_length 10 ltac:(lia) (L - 1) n) as Hl. fold L in Hl.
    replace (Z.of_nat (L - 1)) with (Z.of_nat L - 1) in Hl by lia. lia.
Qed.

Lemma numeral_upper n : 0 <= n -> n < 10 ^ lenZ (numeral 10 n).
Proof.
  intros Hn. rewrite <- (numeral_value 10 ltac:(lia) n Hn) at 1. apply value_bound; [lia|].
  apply list.Forall_forall. intros c Hc. pose proof (numeral_digits n c Hn Hc) as Hd. by destruct c.
Qed.

(** [10^e] is at most the value, and [10^(e+1)] is more. *)
Lemma exponent_above a b : 0 < a -> 0 < b ->
  let e := exponent_of a b in a * 10 ^ Z.max (- (e + 1)) 0 < b * 10 ^ Z.max (e + 1) 0.
Proof.
  intros Ha Hb. unfold exponent_of. destruct (bool_decide_reflect (b <= a)) as [Hle|Hgt]; cbv zeta.
  - pose proof (numeral_upper (a / b) (Z.div_pos a b ltac:(lia) Hb)) as Hu. pose proof (lenZ_nonneg (numeral 10 (a / b))) as Hnn.
    set (L := lenZ (numeral 10 (a / b))) in *. rewrite Z.max_r, Z.max_l by lia. replace (L - 1 + 1) with L by lia.
    rewrite Z.pow_0_r, Z.mul_1_r. pose proof (Z.mul_succ_div_gt a b Hb). nia.
  - assert (0 < (b - 1) / a) as Hp by (apply Z.div_str_pos; lia). pose proof (numeral_lower _ Hp) as Hl.
    assert (1 <= lenZ (numeral 10 ((b - 1) / a))) as H1.
    { pose proof (numeral_upper ((b - 1) / a) ltac:(lia)) as Hu. pose proof (lenZ_nonneg (numeral 10 ((b - 1) / a))).
      destruct (decide (lenZ (numeral 10 ((b - 1) / a)) = 0)) as [H0|]; [|lia]. rewrite H0 in Hu. simpl in Hu. lia. }
    set (L := lenZ (numeral 10 ((b - 1) / a))) in *. rewrite Z.max_l, Z.max_r by lia. rewrite Z.pow_0_r, Z.mul_1_r.
    replace (- (- L + 1)) with (L - 1) by lia. pose proof (Z.mul_div_le (b - 1) a Ha). nia.
Qed.

Lemma exponent_range x : 0 < x < 2 ^ 1024 * grid -> -324 <= exponent_of x grid <= 308.
Proof.
  intros [Hx Hlt]. assert (0 < grid) as Hg by done. unfold exponent_of. destruct (bool_decide_reflect (grid <= x)) as [Hle|Hgt].
  - assert (0 <= x / grid < 10 ^ Z.of_nat 309) as Hr.
    { split; [apply Z.div_pos; lia|]. eapply Z.lt_trans; [apply Z.div_lt_upper_bound; [done|]; rewrite Z.mul_comm; exact Hlt|]. by vm_compute. }
    pose proof (numeral_length 10 ltac:(lia) 309 _ Hr). unfold lenZ. lia.
  - assert (0 <= (grid - 1) / x < 10 ^ Z.of_nat 324) as Hr.
    { split; [apply Z.div_pos; lia|]. apply (Z.le_lt_trans _ (grid - 1)); [|by vm_compute]. apply Z.div_le_upper_bound; [done|]. nia. }
    pose proof (numeral_length 10 ltac:(lia) 324 _ Hr). unfold lenZ. lia.
Qed.

Lemma significant_bound x : 0 < x -> 0 <= nearest (x * 10 ^ Z.max (12 - 1 - exponent_of x grid) 0) (grid * 10 ^ Z.max (- (12 - 1 - exponent_of x grid)) 0) <= 10 ^ 12.
Proof.
  intros Hx. assert (0 < grid) as Hg by done. pose proof (exponent_above x grid Hx Hg) as Habove. cbv zeta in Habove.
  set (e := exponent_of x grid) in *. clearbody e. generalize dependent grid. intros g Hg Habove.
  assert (0 < 10 ^ Z.max (12 - 1 - e) 0) by (apply Z.pow_pos_nonneg; lia).
  assert (0 < 10 ^ Z.max (- (12 - 1 - e)) 0) by (apply Z.pow_pos_nonneg; lia). split; [apply nearest_nonneg; nia|].
  rewrite <- (nearest_int (10 ^ 12) (g * 10 ^ Z.max (- (12 - 1 - e)) 0)) by nia. apply nearest_mono; [nia|nia|].
  assert (x * 10 ^ Z.max (12 - 1 - e) 0 <= 10 ^ 12 * (g * 10 ^ Z.max (- (12 - 1 - e)) 0)) as Hle; [|nia].
  destruct (decide (e <= 11)) as [He|He].
  - rewrite (Z.max_l (12 - 1 - e)), (Z.max_r (- (12 - 1 - e))), Z.pow_0_r by lia.
    destruct (decide (0 <= e + 1)) as [Hf|Hf].
    + rewrite Z.max_r, Z.max_l, Z.pow_0_r in Habove by lia.
      assert (10 ^ 12 = 10 ^ (e + 1) * 10 ^ (12 - 1 - e)) as -> by (rewrite <- Z.pow_add_r by lia; f_equal; lia).
      assert (0 < 10 ^ (12 - 1 - e)) by (apply Z.pow_pos_nonneg; lia). nia.
    + rewrite Z.max_l, Z.max_r, Z.pow_0_r in Habove by lia.
      assert (10 ^ (12 - 1 - e) = 10 ^ 12 * 10 ^ (- (e + 1))) as -> by (rewrite <- Z.pow_add_r by lia; f_equal; lia). nia.
  - rewrite (Z.max_r (12 - 1 - e)), (Z.max_l (- (12 - 1 - e))), Z.pow_0_r by lia. rewrite Z.max_r, Z.max_l, Z.pow_0_r in Habove by lia.
    assert (10 ^ (e + 1) = 10 ^ 12 * 10 ^ (- (12 - 1 - e))) as Hpow by (rewrite <- Z.pow_add_r by lia; f_equal; lia).
    rewrite Hpow in Habove. nia.
Qed.

(** [%.12g] needs at most 18 characters, whatever the double. *)
Lemma general_length x : 0 <= x < 2 ^ 1024 * grid -> lenZ (general 12 x) <= 18.
Proof.
  intros [Hx Hlt]. unfold general. case_bool_decide as H0; [by vm_compute|].
  assert (0 < x) as Hpos by (clear Hlt; lia). pose proof (exponent_range x (conj Hpos Hlt)) as He.
  pose proof (significant_bound x Hpos) as Hn. clear Hlt Hx.
  unfold significant. set (e := exponent_of x grid) in *. set (n := nearest _ _) in *. clearbody e n.
  assert (forall n e, 0 <= n < 10 ^ 12 -> -324 <= e <= 309 -> lenZ (
    if bool_decide (-4 <= e < 12) then
      if bool_decide (0 <= e) then take (Z.to_nat (e + 1)) (numeral 10 n) ++ with_fraction (drop (Z.to_nat (e + 1)) (numeral 10 n))
      else bs "0" ++ with_fraction (replicate (Z.to_nat (- e - 1)) "0"%byte ++ numeral 10 n)
    else take 1 (numeral 10 n) ++ with_fraction (drop 1 (numeral 10 n)) ++ bs "e" ++ (if bool_decide (e < 0) then bs "-" else bs "+") ++ fmt_0d 2 (Z.abs e)) <= 18) as Hgo.
  { clear. intros n e Hn He. pose proof (numeral_length 10 ltac:(lia) 12 n Hn) as Hl. set (s := numeral 10 n) in *.
    case_bool_decide as H1; [case_bool_decide as H2|].
    - pose proof (with_fraction_length (drop (Z.to_nat (e + 1)) s)) as Hw. rewrite length_drop in Hw.
      unfold lenZ. rewrite length_app, length_take. lia.
    - pose proof (with_fraction_length (replicate (Z.to_nat (- e - 1)) "0"%byte ++ s)) as Hw. rewrite length_app, length_replicate in Hw.
      unfold lenZ. rewrite length_app. simpl. lia.
    - pose proof (with_fraction_length (drop 1 s)) as Hw. rewrite length_drop in Hw.
      assert (length (fmt_0d 2 (Z.abs e)) <= 3)%nat as Hf.
      { rewrite fmt_0d_nonneg by lia. unfold pad. rewrite length_app, length_replicate.
        pose proof (numeral_length 10 ltac:(lia) 3 (Z.abs e) ltac:(change (10 ^ Z.of_nat 3) with 1000; lia)). lia. }
      specialize (Hl ltac:(lia)).
      assert (length (if bool_decide (e < 0) then bs "-" else bs "+") = 1%nat) as Hs by (by destruct (bool_decide (e < 0))).
      unfold lenZ. rewrite !length_app, length_take, Hs. change (length (bs "e")) with 1%nat. lia. }
  case_bool_decide as H1; [apply Hgo; [done|lia]|]. apply Hgo; lia.
Qed.

(** ** All doubles *)

Inductive float64 := Finite (negative : bool) (x : Z) | Infinite (negative : bool) | NaN (negative : bool).

Definition in_range (v : float64) : Prop := match v with Finite _ x => 0 <= x < 2 ^ 1024 * grid | _ => True end.

(** [%.12g] *)
Definition printf_12g (v : float64) : bytes :=
  match v with
  | Finite negative x => (if negative then bs "-" else []) ++ general 12 x
  | Infinite negative => (if negative then bs "-" else []) ++ bs "inf"
  | NaN negative => (if negative then bs "-" else []) ++ bs "nan"
  end.

Lemma printf_12g_length v : in_range v -> lenZ (printf_12g v) <= 19.
Proof.
  destruct v as [neg x|neg|neg]; unfold in_range, printf_12g; intros Hx.
  - pose proof (general_length x Hx) as Hl. clear Hx. rewrite lenZ_app. generalize dependent (general 12 x). intros g Hl.
    assert (lenZ (if neg then bs "-" else []) <= 1) by (by destruct neg). lia.
  - by destruct neg.
  - by destruct neg.
Qed.
