(* ===== verification/FileReadStream.v ===== *)
(** The input stream that the reader of the configuration is given
    ([base/FileReadStream.h]): a window on a file, through a buffer of the caller. *)
From S2P Require Import Prelude State.
Open Scope Z_scope.

Module FileReadStream.

(** [fp_]: what [fread] has not yet read.  Pointers into the buffer are indices, [None] is
    null. *)
Record t := mk {
  fp_ : bytes;
  buffer_ : bytes;
  bufferSize_ : Z;
  bufferLast_ : option Z;
  current_ : Z;
  readCount_ : Z;
  count_ : Z;
  eof_ : bool
}.

(** [fread(buffer, 1, size, fp)] reads fewer bytes only at the end of the file. *)
Definition fread (size : Z) (s : t) : Z * t :=
  let n := Z.min size (lenZ (fp_ s)) in
  (n, mk (drop (Z.to_nat n) (fp_ s)) (splice 0 (take (Z.to_nat n) (fp_ s)) (buffer_ s)) (bufferSize_ s) (bufferLast_ s)
     (current_ s) (readCount_ s) (count_ s) (eof_ s)).

Definition Read : ST t unit :=
  s ← get;
  if match bufferLast_ s with Some last => bool_decide (current_ s < last) | None => false end then
    put (mk (fp_ s) (buffer_ s) (bufferSize_ s) (bufferLast_ s) (current_ s + 1) (readCount_ s) (count_ s) (eof_ s))
  else if negb (eof_ s) then
    let '(n, s) := fread (bufferSize_ s)
      (mk (fp_ s) (buffer_ s) (bufferSize_ s) (bufferLast_ s) (current_ s) (readCount_ s) (size_add (count_ s) (readCount_ s)) (eof_ s)) in
    _ ← put (mk (fp_ s) (buffer_ s) (bufferSize_ s) (Some (n - 1)) 0 n (count_ s) (eof_ s));
    if bool_decide (n < bufferSize_ s) then
      _ ← lift (check OutOfBounds (bool_decide (n < lenZ (buffer_ s))));
      modify (fun s => mk (fp_ s) (splice n [Byte.x00] (buffer_ s)) (bufferSize_ s) (Some (n - 1 + 1)) (current_ s) n (count_ s) true)
    else mret tt
  else mret tt.

(** The constructor, on an open file and a buffer. *)
Definition FileReadStream (file buffer : bytes) (bufferSize : Z) : res t :=
  _ ← assert_ (bool_decide (bufferSize >= 4));
  '(_, s) ← Read (mk file buffer bufferSize None 0 0 0 false);
  mret s.

Definition Peek : ST t byte :=
  s ← get;
  match buffer_ s !! Z.to_nat (current_ s) with
  | Some c => mret c
  | None => fail OutOfBounds
  end.

Definition Take : ST t byte :=
  c ← Peek;
  _ ← Read;
  mret c.

Definition Tell (s : t) : Z := size_add (count_ s) (current_ s).

Definition Peek4 (s : t) : option Z :=
  match bufferLast_ s with
  | Some last => if bool_decide (current_ s + 4 <= last) then Some (current_ s) else None
  | None => None
  end.

(** What the stream shows of a file, from a position on: its bytes, then zeros for ever. *)
Definition at_position (file : bytes) (k : nat) : byte := default Byte.x00 (file !! k).

(** The window: the bytes of the file from [count_] on, with a zero behind the last one. *)
Record inv (file : bytes) (size : Z) (s : t) : Prop := {
  i_size : bufferSize_ s = size;
  i_buffer : lenZ (buffer_ s) = size;
  i_count : 0 <= count_ s /\ count_ s + readCount_ s <= lenZ file;
  i_window : 0 <= readCount_ s <= size /\ take (Z.to_nat (readCount_ s)) (drop (Z.to_nat (count_ s)) file) = take (Z.to_nat (readCount_ s)) (buffer_ s);
  i_rest : fp_ s = drop (Z.to_nat (count_ s + readCount_ s)) file;
  i_last : exists last, bufferLast_ s = Some last /\ 0 <= current_ s <= last /\
    if eof_ s then last = readCount_ s /\ readCount_ s < size /\ count_ s + readCount_ s = lenZ file /\ buffer_ s !! Z.to_nat last = Some Byte.x00
    else last = readCount_ s - 1 /\ readCount_ s = size
}.

Definition position (s : t) : nat := Z.to_nat (count_ s + current_ s).

Lemma lookup_slice_eq {A} (l1 l2 : list A) n k : take n l1 = take n l2 -> (k < n)%nat -> l1 !! k = l2 !! k.
Proof. intros Ht Hk. rewrite <- (lookup_take_lt l1 n), <- (lookup_take_lt l2 n) by done. by rewrite Ht. Qed.

Lemma stream_peek_run file size s : inv file size s -> Peek s = Ok (at_position file (position s), s).
Proof.
  intros [Hs Hb Hc [Hr Hw] Hf (last & Hl & Hcur & Heof)]. unfold Peek, mbind, st_bind, get, at_position, position.
  destruct (decide (current_ s < readCount_ s)) as [Hlt|Hge].
  - assert (file !! Z.to_nat (count_ s + current_ s) = buffer_ s !! Z.to_nat (current_ s)) as ->.
    { rewrite <- (lookup_slice_eq _ _ _ (Z.to_nat (current_ s)) Hw) by lia. rewrite lookup_drop. f_equal. lia. }
    destruct (buffer_ s !! Z.to_nat (current_ s)) eqn:E; [done|]. apply lookup_ge_None in E. unfold lenZ in *. lia.
  - destruct (eof_ s); [|lia]. destruct Heof as (-> & _ & Hend & Hz). assert (current_ s = readCount_ s) as -> by lia. rewrite Hz.
    rewrite (lookup_ge_None_2 file) by (unfold lenZ in *; lia). done.
Qed.

(** [Read] on a fresh buffer: the constructor, and the end of a full window. *)
Lemma refill file size s :
  4 <= size -> lenZ file < 2 ^ 63 -> bufferSize_ s = size -> lenZ (buffer_ s) = size -> eof_ s = false ->
  match bufferLast_ s with Some last => current_ s = last | None => True end ->
  0 <= count_ s -> 0 <= readCount_ s -> count_ s + readCount_ s <= lenZ file -> fp_ s = drop (Z.to_nat (count_ s + readCount_ s)) file ->
  exists s', Read s = Ok (tt, s') /\ inv file size s' /\ count_ s' + current_ s' = count_ s + readCount_ s.
Proof.
  intros Hsize Hfile Hs Hb He Hl Hc0 Hr0 Hc Hf. unfold Read. rewrite (bind_run get _ _ _ _ eq_refl).
  assert (match bufferLast_ s with Some last => bool_decide (current_ s < last) | None => false end = false) as ->.
  { destruct (bufferLast_ s); [|done]. apply bool_decide_eq_false. lia. }
  rewrite He. cbn [negb]. unfold fread. cbn [fp_ buffer_ bufferSize_ bufferLast_ current_ readCount_ count_ eof_].
  rewrite size_add_small by (unfold u_in; lia). set (start := count_ s + readCount_ s) in *.
  set (n := Z.min (bufferSize_ s) (lenZ (fp_ s))).
  assert (lenZ (fp_ s) = lenZ file - start) as Hlf by (rewrite Hf; unfold lenZ in *; rewrite length_drop; lia).
  set (new := take (Z.to_nat n) (fp_ s)). assert (lenZ new = n) as Hnew by (unfold new, lenZ in *; rewrite length_take; lia).
  assert (lenZ (splice 0 new (buffer_ s)) = size) as Hsp by (rewrite lenZ_splice; lia).
  assert (take (Z.to_nat n) (splice 0 new (buffer_ s)) = new) as Htake.
  { unfold splice. change (Z.to_nat 0) with 0%nat. rewrite take_0. cbn [app]. apply take_app_length'. unfold lenZ in *. lia. }
  assert (take (Z.to_nat n) (drop (Z.to_nat start) file) = new) as Hwin by (unfold new; by rewrite Hf).
  unfold mbind, st_bind, put, lift, modify. cbn [buffer_ bufferSize_ fp_ current_ count_].
  destruct (bool_decide_reflect (n < bufferSize_ s)) as [Hn|Hn].
  - rewrite check_true by (apply bool_decide_eq_true; lia). eexists. split; [reflexivity|]. split; [|cbn; lia].
    assert (lenZ (splice n [Byte.x00] (splice 0 new (buffer_ s))) = size) as Hsp2 by (rewrite lenZ_splice; [done|lia|unfold lenZ at 1; simpl; lia]).
    assert (length (take (Z.to_nat n) (splice 0 new (buffer_ s))) = Z.to_nat n) as Hlt by (rewrite length_take; unfold lenZ in *; lia).
    split; cbn [fp_ buffer_ bufferSize_ bufferLast_ current_ readCount_ count_ eof_]; [done|done|lia| | |].
    + split; [lia|]. rewrite Hwin. unfold splice at 1. rewrite take_app_length' by done. by rewrite Htake.
    + rewrite Hf, drop_drop. f_equal. lia.
    + eexists. split; [reflexivity|]. split; [lia|]. split_and!; [lia|lia|lia|]. unfold splice at 1.
      rewrite lookup_app_r by lia. rewrite Hlt. replace (Z.to_nat (n - 1 + 1) - Z.to_nat n)%nat with 0%nat by lia. done.
  - eexists. split; [reflexivity|]. split; [|cbn; lia].
    split; cbn [fp_ buffer_ bufferSize_ bufferLast_ current_ readCount_ count_ eof_]; [done|done|lia| | |].
    + split; [lia|]. by rewrite Hwin, Htake.
    + rewrite Hf, drop_drop. f_equal. lia.
    + eexists. split; [reflexivity|]. split; [lia|]. split; lia.
Qed.

(** [Read] goes one byte on, or stays at the end. *)
Lemma stream_read_run file size s : 4 <= size -> lenZ file < 2 ^ 63 -> inv file size s ->
  exists s', Read s = Ok (tt, s') /\ inv file size s' /\ position s' = Nat.min (S (position s)) (length file).
Proof.
  intros Hsize Hfile Hinv. pose proof Hinv as [Hs Hb Hc [Hr Hw] Hf (last & Hl & Hcur & Heof)].
  destruct (decide (current_ s < last)) as [Hlt|Hge].
  - unfold Read. rewrite (bind_run get _ _ _ _ eq_refl). rewrite Hl, bool_decide_eq_true_2 by done. eexists. split; [reflexivity|]. split.
    + split; cbn [fp_ buffer_ bufferSize_ bufferLast_ current_ readCount_ count_ eof_]; try done. exists last. split; [done|]. split; [lia|done].
    + unfold position. cbn [count_ current_]. destruct (eof_ s); unfold lenZ in *; lia.
  - destruct (eof_ s) eqn:He.
    + exists s. split; [|split; [done|unfold position, lenZ in *; lia]]. unfold Read. rewrite (bind_run get _ _ _ _ eq_refl).
      rewrite Hl, bool_decide_eq_false_2, He by lia. done.
    + destruct (refill file size s) as (s' & Hrun & Hinv' & Hp); try done; try lia; [by rewrite Hl; lia|].
      exists s'. split; [done|]. split; [done|]. unfold position, lenZ in *. lia.
Qed.

Lemma stream_take_run file size s : 4 <= size -> lenZ file < 2 ^ 63 -> inv file size s ->
  exists s', Take s = Ok (at_position file (position s), s') /\ inv file size s' /\ position s' = Nat.min (S (position s)) (length file).
Proof.
  intros Hsize Hfile Hinv. destruct (stream_read_run file size s Hsize Hfile Hinv) as (s' & Hrun & Hinv' & Hp). exists s'. split; [|done].
  unfold Take. rewrite (bind_run _ _ _ _ _ (stream_peek_run _ _ _ Hinv)). by rewrite (bind_run _ _ _ _ _ Hrun).
Qed.

(** Behind the end there are only zeros. *)
Lemma at_position_end file a k : map (at_position file) (seq (Nat.min a (length file)) k) = map (at_position file) (seq a k).
Proof.
  destruct (decide (a <= length file)%nat); [by rewrite Nat.min_l|]. rewrite Nat.min_r by lia.
  assert (forall a, (length file <= a)%nat -> map (at_position file) (seq a k) = replicate k Byte.x00) as Hz; [|rewrite !Hz by lia; done].
  clear a n. induction k as [|k IH]; intros a Ha; [done|]. simpl. rewrite IH by lia. f_equal.
  unfold at_position. by rewrite lookup_ge_None_2.
Qed.

(** [k] characters taken. *)
Fixpoint takes (k : nat) : ST t bytes :=
  match k with
  | O => mret []
  | S k => c ← Take; l ← takes k; mret (c :: l)
  end.

Lemma takes_run file size k s : 4 <= size -> lenZ file < 2 ^ 63 -> inv file size s ->
  exists s', takes k s = Ok (map (at_position file) (seq (position s) k), s') /\ inv file size s' /\ position s' = Nat.min (position s + k) (length file).
Proof.
  intros Hsize Hfile. revert s. induction k as [|k IH]; intros s Hinv.
  - exists s. split; [done|]. split; [done|]. destruct Hinv as [_ _ ? _ _ (last & _ & ? & ?)].
    unfold position, lenZ in *. destruct (eof_ s); lia.
  - destruct (stream_take_run file size s Hsize Hfile Hinv) as (s1 & Hrun & Hinv1 & Hp1). destruct (IH s1 Hinv1) as (s2 & Hrun2 & Hinv2 & Hp2).
    exists s2. cbn [takes]. rewrite (bind_run _ _ _ _ _ Hrun), (bind_run _ _ _ _ _ Hrun2). split; [|split; [done|lia]].
    cbn [mret st_ret]. do 2 f_equal. cbn [seq map]. f_equal. by rewrite Hp1, at_position_end.
Qed.

(** The stream is the file: whatever the size of the buffer (at least 4) and what it held,
    [k] characters taken are the first [k] bytes of the file, then zeros; [Tell] counts
    them, up to the length of the file; [Peek] is the next one; and where [Peek4] points
    there are the next four bytes.  No access leaves the buffer. *)
Theorem file_stream_reads file buffer k :
  4 <= lenZ buffer -> lenZ file < 2 ^ 63 ->
  exists s0 s, FileReadStream file buffer (lenZ buffer) = Ok s0 /\ takes k s0 = Ok (map (at_position file) (seq 0 k), s) /\
    Tell s = Z.min (Z.of_nat k) (lenZ file) /\ Peek s = Ok (at_position file k, s) /\
    forall p, Peek4 s = Some p -> take 4 (drop (Z.to_nat p) (buffer_ s)) = take 4 (drop k file).
Proof.
  intros Hsize Hfile. unfold FileReadStream. rewrite check_true by (apply bool_decide_eq_true; lia). cbn [mbind res_bind].
  destruct (refill file (lenZ buffer) (mk file buffer (lenZ buffer) None 0 0 0 false)) as (s0 & -> & Hinv0 & Hp0);
    cbn [fp_ buffer_ bufferSize_ bufferLast_ current_ readCount_ count_ eof_]; try done; [unfold lenZ; lia|].
  cbn [mbind res_bind mret res_ret]. cbn [count_ readCount_] in Hp0.
  assert (position s0 = 0%nat) as Hpos0 by (unfold position; rewrite Hp0; done).
  destruct (takes_run file (lenZ buffer) k s0 Hsize Hfile Hinv0) as (s & Hrun & Hinv & Hp). rewrite Hpos0 in *.
  exists s0, s. split; [done|]. split; [exact Hrun|]. pose proof (stream_peek_run _ _ _ Hinv) as Hpeek.
  assert (at_position file (position s) = at_position file k) as Hat.
  { pose proof (at_position_end file k 1) as H. cbn [seq map] in H. rewrite Hp. by injection H. }
  rewrite Hat in Hpeek. destruct Hinv as [_ Hb Hc [Hr Hw] _ (last & Hl & Hcur & Heof)].
  split; [|split; [done|]].
  - unfold Tell. unfold position in Hp. destruct (eof_ s); (rewrite size_add_small by (unfold u_in, lenZ in *; lia)); unfold lenZ in *; lia.
  - intros p. unfold Peek4. rewrite Hl. case_bool_decide as H4; [|done]. intros [= <-].
    assert (position s = k) as Hk by (unfold position, lenZ in *; destruct (eof_ s); lia).
    apply list_eq. intros i. destruct (decide (i < 4)%nat) as [Hi|Hi]; [|by rewrite !lookup_take_ge by lia].
    rewrite !lookup_take_lt, !lookup_drop by lia.
    rewrite <- (lookup_slice_eq _ _ _ (Z.to_nat (current_ s) + i) Hw) by (destruct (eof_ s); lia).
    rewrite lookup_drop. f_equal. unfold position in Hk. lia.
Qed.

(** A file of six bytes through a buffer of four. *)
Lemma file_stream_reads_witness :
  exists s0 s, FileReadStream (bs "{'a':1") (replicate 4 "x"%byte) 4 = Ok s0 /\ takes 8 s0 = Ok (bs "{'a':1" ++ [Byte.x00; Byte.x00], s) /\ Tell s = 6.
Proof.
  destruct (file_stream_reads (bs "{'a':1") (replicate 4 "x"%byte) 8) as (s0 & s & H0 & H & Ht & _); [vm_compute; discriminate|vm_compute; reflexivity|].
  exists s0, s. split; [exact H0|]. split; [exact H|exact Ht].
Defined.
End FileReadStream.
