(* ===== verification/Date.v ===== *)
(** Calendar dates as Julian day numbers ([muduo/base/Date.h], [Date.cc]).

    [int] division truncates and every operation on [int] can overflow; [date_is_gregorian]
    says for which days the code is the Gregorian calendar, and where it overflows. *)
From S2P Require Import Prelude Decimal.
Open Scope Z_scope.

Module Date.

(** [struct Date::YearMonthDay]. *)
Record YearMonthDay := mkYMD { year : Z; month : Z; day : Z }.

#[global] Instance YearMonthDay_eq_dec : EqDecision YearMonthDay.
Proof. solve_decision. Defined.

(** The whole state of a [Date]. *)
Record t := mk { julianDayNumber_ : Z }.

(** On [int]: each operation can overflow. *)
Abbreviation int := (signed 32).

Definition getJulianDayNumber (year month day : Z) : res Z :=
  t ← int (14 - month);
  let a := Z.quot t 12 in
  t ← int (year + 4800);
  y ← int (t - a);
  t ← int (12 * a);
  t ← int (month + t);
  m ← int (t - 3);
  t ← int (153 * m);
  t ← int (t + 2);
  s ← int (day + Z.quot t 5);
  t ← int (y * 365);
  s ← int (s + t);
  s ← int (s + Z.quot y 4);
  s ← int (s - Z.quot y 100);
  s ← int (s + Z.quot y 400);
  int (s - 32045).

Definition getYearMonthDay (julianDayNumber : Z) : res YearMonthDay :=
  a ← int (julianDayNumber + 32044);
  t ← int (4 * a);
  t ← int (t + 3);
  let b := Z.quot t 146097 in
  t ← int (b * 146097);
  c ← int (a - Z.quot t 4);
  t ← int (4 * c);
  t ← int (t + 3);
  let d := Z.quot t 1461 in
  t ← int (1461 * d);
  e ← int (c - Z.quot t 4);
  t ← int (5 * e);
  t ← int (t + 2);
  let m := Z.quot t 153 in
  t ← int (153 * m);
  t ← int (t + 2);
  t ← int (e - Z.quot t 5);
  ymd_day ← int (t + 1);
  t ← int (m + 3);
  u ← int (12 * Z.quot m 10);
  ymd_month ← int (t - u);
  t ← int (b * 100);
  t ← int (t + d);
  t ← int (t - 4800);
  ymd_year ← int (t + Z.quot m 10);
  mret (mkYMD ymd_year ymd_month ymd_day).

Definition kDaysPerWeek : Z := 7.
Definition kJulianDayOf1970_01_01 : Z := match getJulianDayNumber 1970 1 1 with Ok j => j | Fail _ => 0 end.

Definition invalid : t := mk 0.
Definition of_ymd (y m d : Z) : res t := mk <$> getJulianDayNumber y m d.
Definition of_julian (julianDayNum : Z) : t := mk julianDayNum.

(** [Date(const struct tm&)], from the three fields it reads. *)
Definition of_tm (tm_year tm_mon tm_mday : Z) : res t :=
  y ← int (tm_year + 1900);
  m ← int (tm_mon + 1);
  mk <$> getJulianDayNumber y m tm_mday.

Definition valid (x : t) : bool := bool_decide (julianDayNumber_ x > 0).
Definition yearMonthDay (x : t) : res YearMonthDay := getYearMonthDay (julianDayNumber_ x).
Definition get_year (x : t) : res Z := year <$> yearMonthDay x.
Definition get_month (x : t) : res Z := month <$> yearMonthDay x.
Definition get_day (x : t) : res Z := day <$> yearMonthDay x.
Definition weekDay (x : t) : res Z :=
  n ← int (julianDayNumber_ x + 1);
  mret (Z.rem n kDaysPerWeek).
Definition ltb (x y : t) : bool := bool_decide (julianDayNumber_ x < julianDayNumber_ y).
Definition eqb (x y : t) : bool := bool_decide (julianDayNumber_ x = julianDayNumber_ y).

Definition toIsoString (x : t) : res bytes :=
  ymd ← yearMonthDay x;
  mret (snprintf 32 (fmt_d 4 (year ymd) ++ bs "-" ++ fmt_0d 2 (month ymd) ++ bs "-" ++ fmt_0d 2 (day ymd))).1.

Example iso_epoch : toIsoString (of_julian kJulianDayOf1970_01_01) = Ok (bs "1970-01-01").
Proof. vm_compute. reflexivity. Qed.

(** ** The proleptic Gregorian calendar, as the reference *)

Definition leap (y : Z) : bool :=
  bool_decide (y mod 4 = 0) && (negb (bool_decide (y mod 100 = 0)) || bool_decide (y mod 400 = 0)).

Definition days_in_month (y m : Z) : Z :=
  if bool_decide (m = 2) then (if leap y then 29 else 28)
  else if bool_decide (m = 4 \/ m = 6 \/ m = 9 \/ m = 11) then 30 else 31.

Definition civil (x : YearMonthDay) : bool :=
  bool_decide (1 <= month x <= 12) && bool_decide (1 <= day x <= days_in_month (year x) (month x)).

(** The day after a civil date. *)
Definition next_day (x : YearMonthDay) : YearMonthDay :=
  if bool_decide (day x < days_in_month (year x) (month x)) then mkYMD (year x) (month x) (day x + 1)
  else if bool_decide (month x < 12) then mkYMD (year x) (month x + 1) 1
  else mkYMD (year x + 1) 1 1.

(** ** The formulas without bound

    They are the reference for the C library's conversions too (Timestamp.v, TimeZone.v). *)

Definition day_number (year month day : Z) : Z :=
  let a := Z.quot (14 - month) 12 in
  let y := year + 4800 - a in
  let m := month + 12 * a - 3 in
  day + Z.quot (153 * m + 2) 5 + y * 365 + Z.quot y 4 - Z.quot y 100 + Z.quot y 400 - 32045.

Definition date_of (julianDayNumber : Z) : YearMonthDay :=
  let a := julianDayNumber + 32044 in
  let b := Z.quot (4 * a + 3) 146097 in
  let c := a - Z.quot (b * 146097) 4 in
  let d := Z.quot (4 * c + 3) 1461 in
  let e := c - Z.quot (1461 * d) 4 in
  let m := Z.quot (5 * e + 2) 153 in
  mkYMD (b * 100 + d - 4800 + Z.quot m 10)
        (m + 3 - 12 * Z.quot m 10)
        (e - Z.quot (153 * m + 2) 5 + 1).

Definition jdn (x : YearMonthDay) : Z := day_number (year x) (month x) (day x).

(** The first day the formulas cover, 1 March of the year -4800, and the last, 18 October
    of the year 1465102: [4 * a + 3] stays in [int]. *)
Definition first_jdn : Z := -32044.
Definition last_jdn : Z := 536838867.

(** ** March-based years

    Both formulas count years from 1 March -4800: [a] days after it is day [e] of the
    year [Y], whose months have the lengths [month_len 0 .. 11] (March first). *)

Definition start (Y : Z) : Z := 365 * Y + Y / 4 - Y / 100 + Y / 400.
Definition year_len (Y : Z) : Z := start (Y + 1) - start Y.
Definition month_start (m : Z) : Z := (153 * m + 2) / 5.
Definition month_len (m : Z) : Z := if bool_decide (m = 11) then 29 else month_start (m + 1) - month_start m.

Lemma start_mono Y Y' : Y + 1 <= Y' -> start (Y + 1) <= start Y'.
Proof. unfold start. intros. div_lia. Qed.

(** The century, the year and the day of the year that [date_of] computes. *)
Lemma decode_year a :
  0 <= a ->
  let b := (4 * a + 3) / 146097 in
  let c := a - b * 146097 / 4 in
  let d := (4 * c + 3) / 1461 in
  let e := c - 1461 * d / 4 in
  0 <= b /\ 0 <= c <= 36524 /\ 0 <= d <= 99 /\ 0 <= e /\
  a = start (100 * b + d) + e /\ e < year_len (100 * b + d).
Proof.
  intros Ha b c d e.
  assert (0 <= b) as Hb by (subst b; div_lia).
  assert (0 <= c <= 36524 /\ (c = 36524 -> b mod 4 = 3)) as [Hc Hc4] by (subst c b; div_lia).
  assert (0 <= d <= 99) as Hd by (subst d; div_lia).
  assert (0 <= e <= 365 /\ (e = 365 -> d mod 4 = 3)) as [He He4] by (subst e d; div_lia).
  assert (start (100 * b + d) = 36524 * b + b / 4 + 365 * d + d / 4) as Hs
    by (unfold start; clear -Hd Hb; div_lia).
  assert (a = start (100 * b + d) + e) as Hae by (rewrite Hs; subst e c; clear -Hb Hd; div_lia).
  split_and!; [lia..|].
  unfold year_len. clear Hae. rewrite Hs. unfold start. clear Hs.
  destruct (decide (d = 99)) as [Hd9|Hd9].
  - assert (c = 36159 + e) as Hce by (subst e; rewrite Hd9; change (1461 * 99 / 4) with 36159; lia).
    rewrite Hd9. clearbody b c e. clear -Hb Hc Hc4 He Hce.
    replace ((100 * b + 99 + 1) / 4) with (25 * b + 25) by div_lia.
    replace ((100 * b + 99 + 1) / 100) with (b + 1) by div_lia.
    replace ((100 * b + 99 + 1) / 400) with ((b + 1) / 4) by div_lia. div_lia.
  - clearbody b c e. clear -Hb Hd Hd9 He He4.
    replace ((100 * b + d + 1) / 4) with (25 * b + (d + 1) / 4) by div_lia.
    replace ((100 * b + d + 1) / 100) with b by div_lia.
    replace ((100 * b + d + 1) / 400) with (b / 4) by div_lia. div_lia.
Qed.

Lemma year_unique Y e Y' e' :
  0 <= e < year_len Y -> 0 <= e' < year_len Y' -> start Y + e = start Y' + e' -> Y = Y' /\ e = e'.
Proof.
  unfold year_len. intros He He' Heq.
  destruct (Z.lt_trichotomy Y Y') as [H|[->|H]]; [|lia|].
  - pose proof (start_mono Y Y'). lia.
  - pose proof (start_mono Y' Y). lia.
Qed.

Lemma decode_month e :
  0 <= e <= 365 ->
  let m := (5 * e + 2) / 153 in
  0 <= m <= 11 /\ 0 <= e - month_start m < month_len m.
Proof.
  intros He m. unfold month_len, month_start.
  assert (0 <= m <= 11) by (subst m; div_lia). split; [done|].
  case_bool_decide; subst m; div_lia.
Qed.

Lemma encode_month m day0 :
  0 <= m <= 11 -> 0 <= day0 < month_len m ->
  0 <= month_start m + day0 <= 365 /\ (5 * (month_start m + day0) + 2) / 153 = m.
Proof.
  unfold month_len, month_start. intros Hm Hd. case_bool_decide as H11.
  - subst m. change ((153 * 11 + 2) / 5) with 337 in *. div_lia.
  - div_lia.
Qed.

Lemma leap_year_len Y : year_len Y = if leap (Y + 1 - 4800) then 366 else 365.
Proof.
  unfold leap, year_len, start. repeat case_bool_decide; simpl; div_lia.
Qed.

(** March-based coordinates of a civil date. *)
Definition m_of (x : YearMonthDay) : Z := if bool_decide (month x <= 2) then month x + 9 else month x - 3.
Definition Y_of (x : YearMonthDay) : Z :=
  if bool_decide (month x <= 2) then year x + 4799 else year x + 4800.

Lemma jdn_march x :
  1 <= month x <= 12 -> 0 <= Y_of x ->
  jdn x = start (Y_of x) + month_start (m_of x) + day x - 32045 /\ 0 <= m_of x <= 11.
Proof.
  intros Hm HY. unfold jdn, day_number, Y_of, m_of, start, month_start in *.
  assert (Z.quot (14 - month x) 12 = if bool_decide (month x <= 2) then 1 else 0) as ->
    by (case_bool_decide; div_lia).
  case_bool_decide; div_lia.
Qed.

(** Civil dates are exactly the March-based coordinates in range. *)
Lemma civil_march x :
  1 <= month x <= 12 ->
  (civil x = true <-> 1 <= day x <= month_len (m_of x) /\
                      month_start (m_of x) + day x <= year_len (Y_of x)).
Proof.
  intros Hm. rewrite leap_year_len. unfold civil. rewrite bool_decide_eq_true_2 by done.
  simpl. rewrite bool_decide_eq_true. unfold Y_of, m_of, month_len, month_start, days_in_month.
  assert (month x = 1 \/ month x = 2 \/ month x = 3 \/ month x = 4 \/ month x = 5 \/ month x = 6 \/
          month x = 7 \/ month x = 8 \/ month x = 9 \/ month x = 10 \/ month x = 11 \/ month x = 12)
    as Hcases by lia.
  repeat destruct Hcases as [->|Hcases]; try rewrite Hcases; vm_compute bool_decide; simpl.
  all: try replace (year x + 4799 + 1 - 4800) with (year x) by lia.
  all: repeat destruct (leap _); div_lia.
Qed.

Lemma date_of_march a :
  0 <= a ->
  exists Y e, a = start Y + e /\ 0 <= Y /\ 0 <= e < year_len Y /\
    let m := (5 * e + 2) / 153 in
    let x := date_of (a - 32044) in
    0 <= m <= 11 /\ m_of x = m /\ Y_of x = Y /\ day x = e - month_start m + 1 /\
    1 <= month x <= 12.
Proof.
  intros Ha. pose proof (decode_year a Ha) as (Hb & Hc & Hd & He & Hae & Hlen).
  unfold date_of. replace (a - 32044 + 32044) with a by lia.
  rewrite (Z.quot_div_nonneg (4 * a + 3)) by lia.
  set (b := (4 * a + 3) / 146097) in *.
  rewrite (Z.quot_div_nonneg (b * 146097)) by lia. set (c := a - b * 146097 / 4) in *.
  rewrite (Z.quot_div_nonneg (4 * c + 3)) by lia. set (d := (4 * c + 3) / 1461) in *.
  rewrite (Z.quot_div_nonneg (1461 * d)) by lia. set (e := c - 1461 * d / 4) in *.
  assert (e <= 365) as He365 by (rewrite leap_year_len in Hlen; destruct (leap _); lia).
  pose proof (decode_month e ltac:(lia)) as [Hm _].
  rewrite (Z.quot_div_nonneg (5 * e + 2)) by lia. set (m := (5 * e + 2) / 153) in *.
  rewrite (Z.quot_div_nonneg m), (Z.quot_div_nonneg (153 * m + 2)) by lia.
  exists (100 * b + d), e. unfold m_of, Y_of, month_start. simpl. fold m.
  assert (m / 10 = if bool_decide (10 <= m) then 1 else 0) as -> by (case_bool_decide; div_lia).
  clearbody m e b d. clear -Hb Hd He Hae Hlen Hm. split_and!; try lia.
  all: repeat case_bool_decide; lia.
Qed.

(** Decoding then encoding. *)
Lemma ymd_jdn j :
  first_jdn <= j -> civil (date_of j) = true /\ jdn (date_of j) = j.
Proof.
  unfold first_jdn. intros Hj.
  destruct (date_of_march (j + 32044)) as (Y & e & Ha & HY & He & Hm & Hmo & HYo & Hday & Hmon);
    [lia|].
  replace (j + 32044 - 32044) with j in * by lia. set (x := date_of j) in *.
  assert (e <= 365) as He365 by (rewrite leap_year_len in He; destruct (leap _); lia).
  pose proof (decode_month e ltac:(lia)) as [_ Hml]. split.
  - apply civil_march; [done|]. rewrite Hmo, HYo. lia.
  - destruct (jdn_march x Hmon) as [-> _]; [lia|]. rewrite Hmo, HYo. lia.
Qed.

(** Encoding then decoding. *)
Lemma jdn_ymd x : civil x = true -> 0 <= Y_of x -> date_of (jdn x) = x.
Proof.
  intros Hciv HY.
  assert (1 <= month x <= 12) as Hm by (apply andb_prop in Hciv as [H _]; by apply bool_decide_eq_true in H).
  apply civil_march in Hciv as [Hd Hlen]; [|done].
  destruct (jdn_march x Hm HY) as [Hj Hmo].
  destruct (encode_month (m_of x) (day x - 1) Hmo ltac:(lia)) as [He Hme].
  assert (0 <= start (Y_of x)) as Hs by (unfold start; clear -HY; div_lia).
  destruct (date_of_march (jdn x + 32044)) as (Y & e & Ha & HY' & He' & Hm' & Hmo' & HYo & Hday & Hmon).
  { lia. }
  replace (jdn x + 32044 - 32044) with (jdn x) in * by lia.
  destruct (year_unique (Y_of x) (month_start (m_of x) + (day x - 1)) Y e) as [<- <-]; [lia..|].
  rewrite Hme in *. clear Ha Hj.
  set (x' := date_of (jdn x)) in *. clearbody x'.
  destruct x as [y m d], x' as [y' m' d']. unfold m_of, Y_of in *. simpl in *.
  assert (d' = d) as -> by lia. clear -Hmo' HYo Hm Hmon. repeat case_bool_decide; f_equal; lia.
Qed.

(** The next calendar day has the next day number. *)
Lemma jdn_next_day x :
  civil x = true -> 0 <= Y_of x ->
  civil (next_day x) = true /\ 0 <= Y_of (next_day x) /\ jdn (next_day x) = jdn x + 1.
Proof.
  intros Hciv HY.
  assert (1 <= month x <= 12) as Hm by (apply andb_prop in Hciv as [H _]; by apply bool_decide_eq_true in H).
  assert (1 <= day x <= days_in_month (year x) (month x)) as Hd
    by (apply andb_prop in Hciv as [_ H]; by apply bool_decide_eq_true in H).
  assert (forall y m, 28 <= days_in_month y m) as Hdim
    by (intros; unfold days_in_month; repeat case_bool_decide; try destruct (leap _); lia).
  destruct (jdn_march x Hm HY) as [Hj _].
  assert (civil (next_day x) = true /\ 1 <= month (next_day x) <= 12) as [Hcn Hmn].
  { pose proof (Hdim (year x) (month x + 1)). pose proof (Hdim (year x + 1) 1). unfold next_day.
    repeat case_bool_decide; (split; [|simpl; lia]);
      unfold civil; simpl; rewrite ?bool_decide_eq_true_2 by lia; done. }
  assert (0 <= Y_of (next_day x)) as HYn.
  { unfold next_day, Y_of in *. repeat case_bool_decide; simpl in *; lia. }
  split_and!; [done..|]. destruct (jdn_march _ Hmn HYn) as [-> _]. rewrite Hj.
  pose proof (leap_year_len (Y_of x)) as Hlen. unfold year_len in Hlen.
  clear Hcn Hmn HYn Hj Hdim Hciv. destruct x as [y m d].
  unfold next_day, m_of, Y_of, month_start, days_in_month in *. simpl in *.
  assert (m = 1 \/ m = 2 \/ m = 3 \/ m = 4 \/ m = 5 \/ m = 6 \/
          m = 7 \/ m = 8 \/ m = 9 \/ m = 10 \/ m = 11 \/ m = 12) as Hcases by lia.
  repeat destruct Hcases as [->|Hcases]; try rewrite Hcases in *; simpl in *.
  all: try (replace (y + 4799 + 1 - 4800) with y in Hlen by lia; destruct (leap y)).
  all: match goal with |- context [bool_decide (?z < ?k)] =>
         destruct (bool_decide_reflect (z < k)) end; simpl in *;
       unfold start in *; div_lia.
Qed.

(** ** In [int] *)

Ltac run_int := lazymatch goal with
  | |- context [mbind _ (signed 32 ?z)] => rewrite (signed_ok 32 z) by (unfold s_in; change (2 ^ (32 - 1)) with 2147483648; lia); cbn [mbind res_bind]
  | |- signed 32 ?z = _ => apply signed_ok; unfold s_in; change (2 ^ (32 - 1)) with 2147483648; lia end.

Lemma getYearMonthDay_ok j : first_jdn <= j <= last_jdn -> getYearMonthDay j = Ok (date_of j).
Proof.
  unfold first_jdn, last_jdn. intros Hj. unfold getYearMonthDay, date_of. cbv zeta.
  pose proof (decode_year (j + 32044) ltac:(lia)) as (Hb & Hc & Hd & He & Hae & Hlen). cbv zeta in *.
  assert (b_bound : (4 * (j + 32044) + 3) / 146097 * 146097 <= 4 * (j + 32044) + 3) by (clear; div_lia).
  run_int. set (a := j + 32044) in *. assert (0 <= a <= 536870911) as Ha by (subst a; lia). repeat run_int.
  rewrite (Z.quot_div_nonneg (4 * a + 3)) by lia. set (b := (4 * a + 3) / 146097) in *. repeat run_int.
  rewrite (Z.quot_div_nonneg (b * 146097)) by lia. set (c := a - b * 146097 / 4) in *.
  repeat run_int.
  rewrite (Z.quot_div_nonneg (4 * c + 3)) by lia. set (d := (4 * c + 3) / 1461) in *. repeat run_int.
  rewrite (Z.quot_div_nonneg (1461 * d)) by lia. set (e := c - 1461 * d / 4) in *.
  assert (e <= 365) as He' by (rewrite leap_year_len in Hlen; destruct (leap _); lia).
  pose proof (decode_month e ltac:(lia)) as [Hm Hmd]. repeat run_int.
  rewrite (Z.quot_div_nonneg (5 * e + 2)) by lia. set (m := (5 * e + 2) / 153) in *.
  unfold month_start, month_len in Hmd. repeat run_int.
  rewrite (Z.quot_div_nonneg (153 * m + 2)), (Z.quot_div_nonneg m) by lia.
  assert (0 <= m / 10 <= 1) as Hm10 by (clear -Hm; div_lia).
  assert (b <= 14699) as Hbb by lia. clearbody b c d e m. clear Hae Hlen.
  assert (0 <= e - (153 * m + 2) / 5 < 31) by (case_bool_decide; [div_lia|revert Hmd; unfold month_start; div_lia]).
  clear Hmd. repeat run_int. rewrite ?Z.quot_div_nonneg by lia. repeat run_int. done.
Qed.

(** Beyond the last day [4 * a] overflows. *)
Lemma getYearMonthDay_overflow j : last_jdn < j < 2 ^ 31 -> getYearMonthDay j = Fail Overflow.
Proof.
  unfold last_jdn. change (2 ^ 31) with 2147483648. intros Hj. unfold getYearMonthDay.
  destruct (decide (j + 32044 < 2147483648)).
  - run_int. rewrite signed_overflow; [done|]. unfold s_in. change (2 ^ (32 - 1)) with 2147483648. lia.
  - rewrite signed_overflow; [done|]. unfold s_in. change (2 ^ (32 - 1)) with 2147483648. lia.
Qed.

Lemma getJulianDayNumber_ok y m d :
  -4800 <= y <= 5000000 -> 1 <= m <= 12 -> 0 <= d <= 31 -> getJulianDayNumber y m d = Ok (day_number y m d).
Proof.
  intros Hy Hm Hd. unfold getJulianDayNumber, day_number. cbv zeta. run_int.
  assert (0 <= Z.quot (14 - m) 12 <= 1) as Ha by div_lia. generalize dependent (Z.quot (14 - m) 12). intros a Ha.
  do 2 run_int. assert (-1 <= y + 4800 - a <= 5004800) as Hyy by lia. generalize dependent (y + 4800 - a). intros yy Hyy.
  do 5 run_int. assert (-400 <= 153 * (m + 12 * a - 3) + 2 <= 3500) as Hmm by lia.
  generalize dependent (153 * (m + 12 * a - 3) + 2). intros mm Hmm.
  assert (-100 <= Z.quot mm 5 <= 700) by div_lia. assert (-1 <= Z.quot yy 4 <= 1251200) by div_lia.
  assert (-1 <= Z.quot yy 100 <= 50048) by div_lia. assert (-1 <= Z.quot yy 400 <= 12512) by div_lia.
  do 6 run_int. by run_int.
Qed.

(** ** Properties *)

Lemma civil_fields x : civil x = true -> 1 <= month x <= 12 /\ 1 <= day x <= 31.
Proof.
  intros [Hm Hd]%andb_prop. apply bool_decide_eq_true in Hm. apply bool_decide_eq_true in Hd.
  split; [done|]. unfold days_in_month in Hd. repeat case_bool_decide; try destruct (leap _); lia.
Qed.

(** The days of the years up to 1465101 are days that the code decodes. *)
Lemma jdn_bounds x : civil x = true -> -4799 <= year x <= 1465101 -> 0 <= Y_of x /\ first_jdn <= jdn x <= last_jdn.
Proof.
  intros Hc Hy. destruct (civil_fields x Hc) as [Hm Hd].
  assert (0 <= Y_of x <= 1469901) as HY by (unfold Y_of; case_bool_decide; lia). split; [lia|].
  destruct (jdn_march x Hm) as [-> Hmo]; [lia|]. unfold start, month_start, first_jdn, last_jdn. div_lia.
Qed.

(** C2: the day numbers are the Gregorian calendar, without gap or overlap, as far as [int]
    goes.  Every day number from 1 March -4800 to 18 October 1465102 decodes to a civil
    date (the month and the day exist in that year, leap years included) that encodes back
    to it, and the following day number decodes to the following calendar day; a larger
    number overflows.  The days of the week follow each other, and 1 January 1970 is a
    Thursday.  Every civil date of the years -4799 to 1465101, built from numbers or from a
    [struct tm], decodes back to itself. *)
Theorem date_is_gregorian :
  (forall j, first_jdn <= j <= last_jdn -> exists x, getYearMonthDay j = Ok x /\ civil x = true /\
     getJulianDayNumber (year x) (month x) (day x) = Ok j /\
     (j < last_jdn -> getYearMonthDay (j + 1) = Ok (next_day x))) /\
  (forall j, last_jdn < j < 2 ^ 31 -> getYearMonthDay j = Fail Overflow) /\
  (forall j, -1 <= j < 2 ^ 31 - 2 -> exists w, weekDay (of_julian j) = Ok w /\ 0 <= w < 7 /\
     weekDay (of_julian (j + 1)) = Ok ((w + 1) mod 7)) /\
  weekDay (of_julian kJulianDayOf1970_01_01) = Ok 4 /\
  (forall y m d, civil (mkYMD y m d) = true -> -4799 <= y <= 1465101 -> exists x,
     of_ymd y m d = Ok x /\ of_tm (y - 1900) (m - 1) d = Ok x /\ yearMonthDay x = Ok (mkYMD y m d)).
Proof.
  split_and!.
  - intros j Hj. destruct (ymd_jdn j) as [Hc Hr]; [lia|]. exists (date_of j).
    destruct (date_of_march (j + 32044)) as (Y & e & Ha & HY & He & _ & _ & HYo & _);
      [unfold first_jdn in *; lia|]. replace (j + 32044 - 32044) with j in HYo by lia.
    split_and!; [by apply getYearMonthDay_ok|done| |].
    + destruct (civil_fields _ Hc) as [Hm Hd]. rewrite <- Hr at 4. apply getJulianDayNumber_ok; [|done|lia].
      unfold last_jdn in Hj. assert (Y <= 1471000) by (unfold start in Ha; div_lia).
      unfold Y_of in HYo. case_bool_decide; lia.
    + intros Hlt. rewrite getYearMonthDay_ok by (unfold first_jdn, last_jdn in *; lia). f_equal.
      destruct (jdn_next_day (date_of j) Hc) as (Hcn & HYn & Hjn); [lia|].
      by rewrite <- (jdn_ymd _ Hcn HYn), Hjn, Hr.
  - apply getYearMonthDay_overflow.
  - change (2 ^ 31) with 2147483648. intros j Hj. exists (Z.rem (j + 1) 7). unfold weekDay, of_julian, kDaysPerWeek. cbn [julianDayNumber_].
    do 2 run_int. split_and!; [done|div_lia|div_lia|]. unfold mret, res_ret. f_equal. div_lia.
  - reflexivity.
  - intros y m d Hc Hy. destruct (jdn_bounds _ Hc Hy) as [HY Hj]. destruct (civil_fields _ Hc) as [Hm Hd]. cbn [year month day] in *.
    exists (mk (jdn (mkYMD y m d))). unfold of_ymd, of_tm, yearMonthDay. cbn [julianDayNumber_].
    assert (getJulianDayNumber y m d = Ok (jdn (mkYMD y m d))) as Hok by (apply getJulianDayNumber_ok; lia).
    rewrite getYearMonthDay_ok, jdn_ymd by done. do 2 run_int.
    replace (y - 1900 + 1900) with y by lia. replace (m - 1 + 1) with m by lia. by rewrite Hok.
Qed.

End Date.
