(* ===== verification/Timestamp.v ===== *)
(** Points in time ([muduo/base/Timestamp.h], [Timestamp.cc]).

    A [Timestamp] is one [int64_t], microseconds since the epoch; a [double] is an IEEE
    binary64 number of the standard library's [SpecFloat]. *)
From Stdlib Require Import Floats.SpecFloat.
From S2P Require Import Prelude Decimal Date.
Open Scope Z_scope.

(** ** [double] *)

Definition double := spec_float.
Definition double_zero : double := S754_zero false.
Definition double_of_Z (z : Z) : double := binary_normalize 53 1024 z 0 false.
Definition double_mul : double -> double -> double := SFmul 53 1024.
Definition double_div : double -> double -> double := SFdiv 53 1024.
Definition double_gt0 (x : double) : bool := SFltb (S754_zero false) x.

(** Conversion to [int64_t] truncates; it is undefined when the value does not fit. *)
Definition int64_of_double (x : double) : res Z :=
  match x with
  | S754_zero _ => Ok 0
  | S754_finite s m e =>
      let a := if bool_decide (0 <= e) then Zpos m * 2 ^ e else Zpos m / 2 ^ (- e) in
      let z := if s then - a else a in
      _ ← check Overflow (bool_decide (- 2 ^ 63 <= z < 2 ^ 63));
      mret z
  | _ => Fail Overflow
  end.

(** [+] on [int64_t]. *)
Definition int64_add (a b : Z) : res Z :=
  _ ← check Overflow (bool_decide (- 2 ^ 63 <= a + b < 2 ^ 63));
  mret (a + b).

Definition int64_sub (a b : Z) : res Z :=
  _ ← check Overflow (bool_decide (- 2 ^ 63 <= a - b < 2 ^ 63));
  mret (a - b).

(** ** [struct tm] and [gmtime_r]

    The C library splits a [time_t] into days and seconds of the day, and the day into
    a date of the Gregorian calendar, which is what [Date.date_of] computes. *)

Record tm := mk_tm { tm_year : Z; tm_mon : Z; tm_mday : Z; tm_hour : Z; tm_min : Z; tm_sec : Z }.

Definition gmtime (t : Z) : tm :=
  let days := t / 86400 in
  let rem := t mod 86400 in
  let ymd := Date.date_of (days + Date.kJulianDayOf1970_01_01) in
  mk_tm (Date.year ymd - 1900) (Date.month ymd - 1) (Date.day ymd)
        (rem / 3600) (rem mod 3600 / 60) (rem mod 60).

Module Timestamp.

Abbreviation t := Z.
Definition kMicroSecondsPerSecond : Z := 1000 * 1000.

Definition Timestamp : Z := 0.
Definition of_micros (microSecondsSinceEpochArg : Z) : t := microSecondsSinceEpochArg.
Definition invalid : t := Timestamp.
Definition valid (x : t) : bool := bool_decide (x > 0).
Definition microSecondsSinceEpoch (x : t) : Z := x.
Definition secondsSinceEpoch (x : t) : Z := Z.quot x kMicroSecondsPerSecond.

Definition fromUnixTime_us (secs microseconds : Z) : res t :=
  _ ← check Overflow (bool_decide (- 2 ^ 63 <= secs * kMicroSecondsPerSecond < 2 ^ 63));
  int64_add (secs * kMicroSecondsPerSecond) microseconds.
Definition fromUnixTime (secs : Z) : res t := fromUnixTime_us secs 0.

(** [now()], from the [struct timeval] that [gettimeofday] fills in. *)
Definition now (tv_sec tv_usec : Z) : t := tv_sec * kMicroSecondsPerSecond + tv_usec.

Definition ltb (lhs rhs : t) : bool := bool_decide (lhs < rhs).
Definition eqb (lhs rhs : t) : bool := bool_decide (lhs = rhs).

Definition timeDifference (high low : t) : res double :=
  diff ← int64_sub high low;
  mret (double_div (double_of_Z diff) (double_of_Z kMicroSecondsPerSecond)).

Definition addTime (timestamp : t) (seconds : double) : res t :=
  delta ← int64_of_double (double_mul seconds (double_of_Z kMicroSecondsPerSecond));
  int64_add timestamp delta.

Definition toString (x : t) : bytes :=
  let seconds := Z.quot x kMicroSecondsPerSecond in
  let microseconds := Z.rem x kMicroSecondsPerSecond in
  fst (snprintf 31 (dec seconds ++ bs "." ++ fmt_0d 6 microseconds)).

Definition toFormattedString (x : t) (showMicroseconds : bool) : bytes :=
  let seconds := Z.quot x kMicroSecondsPerSecond in
  let tm_time := gmtime seconds in
  let date := fmt_d 4 (tm_year tm_time + 1900) ++ fmt_0d 2 (tm_mon tm_time + 1) ++
              fmt_0d 2 (tm_mday tm_time) ++ bs " " ++ fmt_0d 2 (tm_hour tm_time) ++ bs ":" ++
              fmt_0d 2 (tm_min tm_time) ++ bs ":" ++ fmt_0d 2 (tm_sec tm_time) in
  if showMicroseconds then
    let microseconds := Z.rem x kMicroSecondsPerSecond in
    fst (snprintf 64 (date ++ bs "." ++ fmt_0d 6 microseconds))
  else fst (snprintf 64 date).

Example addTime_half : addTime 1000000 (double_div (double_of_Z 1) (double_of_Z 2)) = Ok 1500000.
Proof. vm_compute. reflexivity. Qed.

(** The conversion truncates: 249 microseconds are not added back exactly. *)
Example addTime_truncates :
  (timeDifference 249 0 ≫= addTime 0) = Ok 248.
Proof. vm_compute. reflexivity. Qed.

Example formatted_epoch :
  toFormattedString 86400000001 true = bs "19700102 00:00:00.000001".
Proof. vm_compute. reflexivity. Qed.

(** A positive interval never moves the time back. *)
Lemma addTime_ge ts seconds r :
  double_gt0 seconds = true -> addTime ts seconds = Ok r -> ts <= r.
Proof.
  unfold addTime. intros Hpos Hadd. apply bind_ok in Hadd as (delta & Hd & Hr).
  enough (0 <= delta).
  { unfold int64_add in Hr. apply bind_ok in Hr as (_ & _ & [= <-]). lia. }
  clear Hr. assert (forall m e, int64_of_double (binary_round_aux 53 1024 false m e loc_Exact) = Ok delta ->
    0 <= delta) as Haux.
  { clear Hd. intros m e. unfold binary_round_aux. destruct (shr_fexp _ _ _ _ _) as [m1 e1].
    destruct (shr_fexp _ _ _ _ _) as [m2 e2]. destruct (shr_m m2) as [|p|p]; simpl; [by intros [= <-]| |done].
    destruct (e2 <=? _); simpl; [|done]. intros Hd. apply bind_ok in Hd as (_ & _ & [= <-]).
    case_bool_decide.
    - pose proof (Z.pow_nonneg 2 e2). lia.
    - apply Z.div_pos; [lia|]. apply Z.pow_pos_nonneg; lia. }
  destruct seconds as [s|[]| |[] m e]; simpl in Hpos; try discriminate.
  set (k := double_of_Z kMicroSecondsPerSecond) in Hd. vm_compute in k. subst k.
  simpl in Hd. by eapply Haux.
Qed.

Lemma addTime_fail ts seconds f : addTime ts seconds = Fail f -> f = Overflow.
Proof.
  unfold addTime. destruct (int64_of_double _) as [d|g] eqn:E; simpl.
  - unfold int64_add, check, mret, res_ret. destruct (bool_decide _); simpl; congruence.
  - intros [= <-]. unfold int64_of_double, check, mret, res_ret in E.
    destruct (double_mul _ _); simpl in E; try congruence.
    destruct (bool_decide (_ <= _ < _)); simpl in E; congruence.
Qed.

(** ** Text *)

Definition kMaxFormatted : Z := 253402300800 * kMicroSecondsPerSecond.

(** Reading a formatted time back. *)
Definition parse_formatted (s : bytes) : Z :=
  let field i n := undec_field (slice i (i + n) s) in
  let days := Date.day_number (field 0 4) (field 4 2) (field 6 2) - Date.kJulianDayOf1970_01_01 in
  (days * 86400 + field 9 2 * 3600 + field 12 2 * 60 + field 15 2) * kMicroSecondsPerSecond + field 18 6.

Lemma slice_field i n (a f c : bytes) :
  lenZ a = i -> lenZ f = n -> slice i (i + n) (a ++ f ++ c) = f.
Proof.
  unfold lenZ, slice. intros <- <-. rewrite drop_app_length' by lia. apply take_app_length'. lia.
Qed.

(** A field read at its place in the text. *)
Lemma read_field i n (a f c s : bytes) :
  s = a ++ f ++ c -> lenZ a = i -> lenZ f = n -> undec_field (slice i (i + n) s) = undec_field f.
Proof. intros -> ? ?. by rewrite slice_field. Qed.

Lemma gmtime_ranges secs :
  0 <= secs < 253402300800 ->
  let g := gmtime secs in
  1970 <= tm_year g + 1900 <= 9999 /\ 1 <= tm_mon g + 1 <= 12 /\ 1 <= tm_mday g <= 31 /\
  0 <= tm_hour g <= 23 /\ 0 <= tm_min g <= 59 /\ 0 <= tm_sec g <= 59 /\
  Date.day_number (tm_year g + 1900) (tm_mon g + 1) (tm_mday g) =
    secs / 86400 + Date.kJulianDayOf1970_01_01 /\
  secs mod 86400 = tm_hour g * 3600 + tm_min g * 60 + tm_sec g.
Proof.
  intros Hs g. subst g. unfold gmtime. cbn -[Date.date_of Date.kJulianDayOf1970_01_01 Z.div Z.modulo].
  set (j := secs / 86400 + Date.kJulianDayOf1970_01_01).
  assert (2440588 <= j < 5373485) as Hj.
  { subst j. change Date.kJulianDayOf1970_01_01 with 2440588. div_lia. }
  destruct (Date.ymd_jdn j) as [Hc Hr]; [unfold Date.first_jdn; lia|].
  destruct (Date.date_of j) as [y m d]. unfold Date.jdn in Hr. cbn in Hr.
  unfold Date.civil, Date.days_in_month in Hc. apply andb_prop in Hc as [Hm Hd].
  apply bool_decide_eq_true in Hm. apply bool_decide_eq_true in Hd. cbn -[Z.div Z.modulo] in *.
  assert (1 <= d <= 31) by (repeat case_bool_decide; try destruct (Date.leap y); lia).
  replace (y - 1900 + 1900) with y by lia. replace (m - 1 + 1) with m by lia.
  split_and!; try lia; try exact Hr; try div_lia.
  - clear - Hj Hr Hm H. unfold Date.day_number in Hr. div_lia.
  - clear - Hj Hr Hm H. unfold Date.day_number in Hr. div_lia.
Qed.

(** The nine pieces of the text. *)
Definition text (Y M D h m s u : bytes) : bytes :=
  Y ++ M ++ D ++ bs " " ++ h ++ bs ":" ++ m ++ bs ":" ++ s ++ bs "." ++ u.

Lemma parse_text Y M D h m s u :
  lenZ Y = 4 -> lenZ M = 2 -> lenZ D = 2 -> lenZ h = 2 -> lenZ m = 2 -> lenZ s = 2 -> lenZ u = 6 ->
  parse_formatted (text Y M D h m s u) =
  let days := Date.day_number (undec_field Y) (undec_field M) (undec_field D) -
              Date.kJulianDayOf1970_01_01 in
  (days * 86400 + undec_field h * 3600 + undec_field m * 60 + undec_field s) * kMicroSecondsPerSecond +
  undec_field u.
Proof.
  intros HY HM HD Hh Hm Hs Hu. unfold parse_formatted.
  set (t := text Y M D h m s u).
  assert (forall i n pre f post, t = pre ++ f ++ post -> lenZ pre = i -> lenZ f = n ->
    undec_field (slice i (i + n) t) = undec_field f) as Hread by (intros; by eapply read_field).
  unfold text in t. cbv zeta.
  rewrite (Hread 0 4 [] Y (M ++ D ++ bs " " ++ h ++ bs ":" ++ m ++ bs ":" ++ s ++ bs "." ++ u)).
  2-4: done.
  rewrite (Hread 4 2 Y M (D ++ bs " " ++ h ++ bs ":" ++ m ++ bs ":" ++ s ++ bs "." ++ u)).
  2-4: done.
  rewrite (Hread 6 2 (Y ++ M) D (bs " " ++ h ++ bs ":" ++ m ++ bs ":" ++ s ++ bs "." ++ u)).
  2: by rewrite <-?app_assoc. 2: rewrite lenZ_app; lia. 2: done.
  rewrite (Hread 9 2 (Y ++ M ++ D ++ bs " ") h (bs ":" ++ m ++ bs ":" ++ s ++ bs "." ++ u)).
  2: by rewrite <-?app_assoc. 2: rewrite !lenZ_app, HY, HM, HD; done. 2: done.
  rewrite (Hread 12 2 (Y ++ M ++ D ++ bs " " ++ h ++ bs ":") m (bs ":" ++ s ++ bs "." ++ u)).
  2: by rewrite <-?app_assoc. 2: rewrite !lenZ_app, HY, HM, HD, Hh; done. 2: done.
  rewrite (Hread 15 2 (Y ++ M ++ D ++ bs " " ++ h ++ bs ":" ++ m ++ bs ":") s (bs "." ++ u)).
  2: by rewrite <-?app_assoc. 2: rewrite !lenZ_app, HY, HM, HD, Hh, Hm; done. 2: done.
  rewrite (Hread 18 6 (Y ++ M ++ D ++ bs " " ++ h ++ bs ":" ++ m ++ bs ":" ++ s ++ bs ".") u []).
  2: by rewrite app_nil_r, <-!app_assoc. 2: rewrite !lenZ_app, HY, HM, HD, Hh, Hm, Hs; done. 2: done.
  reflexivity.
Qed.

Lemma lenZ_fmt_0d w z : 0 <= z < 10 ^ Z.of_nat w -> (0 < w)%nat -> lenZ (fmt_0d w z) = Z.of_nat w.
Proof. intros. unfold lenZ. f_equal. by apply fmt_0d_length. Qed.

Lemma toFormattedString_text x :
  0 <= x < kMaxFormatted ->
  let g := gmtime (x / kMicroSecondsPerSecond) in
  let d := text (fmt_0d 4 (tm_year g + 1900)) (fmt_0d 2 (tm_mon g + 1)) (fmt_0d 2 (tm_mday g))
                (fmt_0d 2 (tm_hour g)) (fmt_0d 2 (tm_min g)) (fmt_0d 2 (tm_sec g))
                (fmt_0d 6 (x mod kMicroSecondsPerSecond)) in
  lenZ d = 24 /\ toFormattedString x true = d /\ toFormattedString x false = take 17 d.
Proof.
  unfold kMaxFormatted. change kMicroSecondsPerSecond with 1000000. intros Hx.
  destruct (gmtime_ranges (x / 1000000)) as (? & ? & ? & ? & ? & ? & _); [div_lia|].
  pose proof (Z.mod_pos_bound x 1000000 ltac:(lia)) as Hus.
  unfold toFormattedString. change kMicroSecondsPerSecond with 1000000.
  rewrite Z.quot_div_nonneg, Z.rem_mod_nonneg by lia. cbv zeta.
  set (g := gmtime (x / 1000000)) in *. set (us := x mod 1000000) in *. clearbody g us.
  rewrite (fmt_d_full 4) by (simpl; lia).
  pose proof (lenZ_fmt_0d 4 (tm_year g + 1900) ltac:(simpl; lia) ltac:(lia)) as L1.
  pose proof (lenZ_fmt_0d 2 (tm_mon g + 1) ltac:(simpl; lia) ltac:(lia)) as L2.
  pose proof (lenZ_fmt_0d 2 (tm_mday g) ltac:(simpl; lia) ltac:(lia)) as L3.
  pose proof (lenZ_fmt_0d 2 (tm_hour g) ltac:(simpl; lia) ltac:(lia)) as L4.
  pose proof (lenZ_fmt_0d 2 (tm_min g) ltac:(simpl; lia) ltac:(lia)) as L5.
  pose proof (lenZ_fmt_0d 2 (tm_sec g) ltac:(simpl; lia) ltac:(lia)) as L6.
  pose proof (lenZ_fmt_0d 6 us ltac:(simpl; lia) ltac:(lia)) as L7.
  split; [|split].
  - unfold text. rewrite !lenZ_app, L1, L2, L3, L4, L5, L6, L7. done.
  - rewrite snprintf_fits; [unfold text; by rewrite <- !app_assoc|].
    rewrite !length_app. unfold lenZ in *. simpl. lia.
  - rewrite snprintf_fits.
    + unfold text. set (u := bs "." ++ _). rewrite !app_assoc. symmetry. apply take_app_length'.
      rewrite !length_app. unfold lenZ in *. simpl. lia.
    + rewrite !length_app. unfold lenZ in *. simpl. lia.
Qed.

(** a formatted time has the fixed width of the log format and loses nothing: for
    every instant from the epoch to the end of the year 9999, [toFormattedString()] is
    24 characters ([YYYYMMDD HH:MM:SS.uuuuuu], its 17 first ones without microseconds) and
    the fields read back from it are the instant. *)
Theorem formatted_roundtrip x :
  0 <= x < kMaxFormatted ->
  lenZ (toFormattedString x true) = 24 /\
  parse_formatted (toFormattedString x true) = x /\
  toFormattedString x false = take 17 (toFormattedString x true).
Proof.
  intros Hx. destruct (toFormattedString_text x Hx) as (Hl & -> & ->). split_and!; [done| |done].
  unfold kMaxFormatted in Hx. change kMicroSecondsPerSecond with 1000000 in *.
  destruct (gmtime_ranges (x / 1000000)) as (? & ? & ? & ? & ? & ? & Hj & Hr); [div_lia|].
  pose proof (Z.mod_pos_bound x 1000000 ltac:(lia)) as Hus.
  set (g := gmtime (x / 1000000)) in *. clearbody g.
  set (us := x mod 1000000) in *. assert (us = x mod 1000000) as Hxu by done. clearbody us.
  rewrite parse_text by (apply lenZ_fmt_0d; simpl; lia). rewrite !undec_fmt_0d by lia.
  cbv zeta. change kMicroSecondsPerSecond with 1000000. rewrite Hj. clear - Hx Hr Hxu. div_lia.
Qed.

Lemma formatted_roundtrip_witness :
  lenZ (toFormattedString 1000000000000000 true) = 24 /\
  parse_formatted (bs "20010909 01:46:40.000000") = 1000000000000000 /\
  bs "20010909 01:46:40" = take 17 (bs "20010909 01:46:40.000000").
Proof.
  apply (formatted_roundtrip 1000000000000000). vm_compute. split; [congruence|done].
Defined.

End Timestamp.
