(* ===== verification/TimeZone.v ===== *)
(** Time zones ([muduo/base/TimeZone.h], [TimeZone.cc]): reading a zone file, looking up
    the local time in force, and the conversions between UTC, local times and [time_t]. *)
From Stdlib Require Import Sorting.Sorted.
From S2P Require Import Prelude Date Timestamp Endian.
Open Scope Z_scope.

(** ** The rest of [struct tm]

    [Timestamp.tm] has the date and the time of day.  [gmtime_r] and [timegm] are the
    functions of the C library. *)

Record broken_down := mk_bd {
  date_time : tm;
  tm_wday : Z;
  tm_yday : Z;
  tm_isdst : Z;
  tm_gmtoff : Z;
  tm_zone : bytes
}.

Definition gmtime_r (t : Z) : broken_down :=
  let days := t / 86400 in
  let g := gmtime t in
  mk_bd g ((days + 4) mod 7)
    (days + Date.kJulianDayOf1970_01_01 - Date.day_number (tm_year g + 1900) 1 1) 0 0 (bs "GMT").

(** [timegm] normalises the month and takes the other fields as they are. *)
Definition timegm (g : tm) : Z :=
  let year := tm_year g + 1900 + tm_mon g / 12 in
  let days := Date.day_number year (tm_mon g mod 12 + 1) 1 - Date.kJulianDayOf1970_01_01 + (tm_mday g - 1) in
  days * 86400 + tm_hour g * 3600 + tm_min g * 60 + tm_sec g.

Module TimeZone.

Record Transition := mk_transition { gmttime : Z; localtime : Z; localtimeIdx : Z }.
Record Localtime := mk_localtime { gmtOffset : Z; isDst : bool; arrbIdx : Z }.

(** [Comp(true)] compares the times in UTC, [Comp(false)] the local ones. *)
Definition key (compareGmt : bool) (x : Transition) : Z := if compareGmt then gmttime x else localtime x.
Definition Comp (compareGmt : bool) (lhs rhs : Transition) : bool :=
  bool_decide (key compareGmt lhs < key compareGmt rhs).
Definition Comp_equal (compareGmt : bool) (lhs rhs : Transition) : bool :=
  bool_decide (key compareGmt lhs = key compareGmt rhs).

(** [struct TimeZone::Data]; [names] is never used. *)
Record Data := mk_data { transitions : list Transition; localtimes : list Localtime; abbreviation : bytes }.

Definition empty_data : Data := mk_data [] [] [].

(** Element [i] of a vector. *)
Definition at_ {A} (l : list A) (i : Z) : res A :=
  match (if bool_decide (0 <= i) then l !! Z.to_nat i else None) with Some x => Ok x | None => Fail OutOfBounds end.

(** ** Reading a zone file

    The state is what is left of the file and the data built so far, which an exception
    leaves as they are. *)

Definition RD (A : Type) : Type := bytes * Data -> res A * (bytes * Data).

#[global] Instance rd_ret : MRet RD := fun A a s => (Ok a, s).
#[global] Instance rd_bind : MBind RD := fun A B f m s =>
  match m s with
  | (Ok a, s') => f a s'
  | (Fail e, s') => (Fail e, s')
  end.

Definition throw {A} (f : fault) : RD A := fun s => (Fail f, s).

(** [fread] of [n] bytes that throws when there are fewer. *)
Definition read (n : nat) : RD bytes := fun '(file, d) =>
  if bool_decide (n <= length file)%nat then (Ok (take n file), (drop n file, d)) else (Fail LogicError, ([], d)).

(** A negative count is an array of negative length. *)
Definition readBytes (n : Z) : RD bytes :=
  if bool_decide (n < 0) then throw OutOfBounds else read (Z.to_nat n).

Definition readInt32 : RD Z :=
  x ← read 4;
  mret (swrap 32 (bswap 4 (uwrap 32 (of_mem_s x)))).

Definition readUInt8 : RD Z :=
  x ← read 1;
  mret (of_mem_u x).

(** [for (int i = 0; i < n; ++i) v.push_back(m)] *)
Fixpoint repeat_push {A} (n : nat) (m : RD A) : RD (list A) :=
  match n with
  | O => mret []
  | S n => x ← m; l ← repeat_push n m; mret (x :: l)
  end.

Definition push_localtime (x : Localtime) : RD unit := fun '(file, d) =>
  (Ok tt, (file, mk_data (transitions d) (localtimes d ++ [x]) (abbreviation d))).
Definition push_transition (x : Transition) : RD unit := fun '(file, d) =>
  (Ok tt, (file, mk_data (transitions d ++ [x]) (localtimes d) (abbreviation d))).
Definition set_abbreviation (x : bytes) : RD unit := fun '(file, d) =>
  (Ok tt, (file, mk_data (transitions d) (localtimes d) x)).
Definition get_localtime (i : Z) : RD Localtime := fun '(file, d) => (at_ (localtimes d) i, (file, d)).

Definition read_localtime : RD unit :=
  gmtoff ← readInt32;
  isdst ← readUInt8;
  abbrind ← readUInt8;
  push_localtime (mk_localtime gmtoff (negb (bool_decide (isdst = 0))) abbrind).

Fixpoint add_transitions (l : list (Z * Z)) : RD unit :=
  match l with
  | [] => mret tt
  | (trans, localIdx) :: l =>
      x ← get_localtime localIdx;
      _ ← push_transition (mk_transition trans (trans + gmtOffset x) localIdx);
      add_transitions l
  end.

(** The body of [try]. *)
Definition read_zone : RD unit :=
  head ← readBytes 4;
  _ ← (if bool_decide (head = bs "TZif") then mret tt else throw LogicError);
  version ← readBytes 1;
  _ ← readBytes 15;
  isgmtcnt ← readInt32;
  isstdcnt ← readInt32;
  leapcnt ← readInt32;
  timecnt ← readInt32;
  typecnt ← readInt32;
  charcnt ← readInt32;
  (* trans.reserve(timecnt) *)
  _ ← (if bool_decide (0 <= timecnt) then mret tt else throw LengthError);
  trans ← repeat_push (Z.to_nat timecnt) readInt32;
  locals ← repeat_push (Z.to_nat timecnt) readUInt8;
  _ ← repeat_push (Z.to_nat typecnt) read_localtime;
  _ ← add_transitions (zip trans locals);
  abbrev ← readBytes charcnt;
  set_abbreviation abbrev.

(** [std::length_error] is a [std::logic_error]; [None] is a file that cannot be opened. *)
Definition readTimeZoneFile (zonefile : option bytes) (data : Data) : res (bool * Data) :=
  match zonefile with
  | None => Ok (true, data)
  | Some file =>
      match read_zone (file, data) with
      | (Ok _, (_, d)) | (Fail LogicError, (_, d)) | (Fail LengthError, (_, d)) => Ok (true, d)
      | (Fail f, _) => Fail f
      end
  end.

(** The constructors; [None] is an invalid time zone. *)
Definition of_file (zonefile : option bytes) : res (option Data) :=
  r ← readTimeZoneFile zonefile empty_data;
  mret (if (r : bool * Data).1 then Some r.2 else None).

Definition fixed (eastOfUtc : Z) (name : bytes) : option Data :=
  Some (mk_data [] [mk_localtime eastOfUtc false 0] name).

(** ** Looking up the local time *)

(** [std::lower_bound]: the binary search over [len] elements from [first]. *)
Fixpoint lower_bound_loop (fuel : nat) (comp : Transition -> bool) (l : list Transition) (first len : nat) : nat :=
  match fuel with
  | O => first
  | S fuel =>
      if bool_decide (0 < len)%nat then
        let half := (len / 2)%nat in
        let mid := (first + half)%nat in
        match l !! mid with
        | Some x =>
            if comp x then lower_bound_loop fuel comp l (S mid) (len - half - 1)
            else lower_bound_loop fuel comp l first half
        | None => first
        end
      else first
  end.

Definition lower_bound (comp : Transition -> bool) (l : list Transition) : nat :=
  lower_bound_loop (length l) comp l 0 (length l).

Definition findLocaltime (data : Data) (sentry : Transition) (compareGmt : bool) : res Localtime :=
  match transitions data with
  | [] => at_ (localtimes data) 0
  | front :: _ =>
      if Comp compareGmt sentry front then at_ (localtimes data) 0
      else
        let transI := lower_bound (fun x => Comp compareGmt x sentry) (transitions data) in
        match transitions data !! transI with
        | Some x =>
            if Comp_equal compareGmt sentry x then at_ (localtimes data) (localtimeIdx x)
            else
              _ ← assert_ (negb (bool_decide (transI = 0%nat)));
              match transitions data !! (transI - 1)%nat with
              | Some x => at_ (localtimes data) (localtimeIdx x)
              | None => Fail OutOfBounds
              end
        | None =>
            match list.last (transitions data) with
            | Some x => at_ (localtimes data) (localtimeIdx x)
            | None => Fail OutOfBounds
            end
        end
  end.

Definition toLocalTime (data_ : option Data) (seconds : Z) : res broken_down :=
  match data_ with
  | None => Fail AssertionFailed
  | Some data =>
      local ← findLocaltime data (mk_transition seconds 0 0) true;
      localSeconds ← int64_add seconds (gmtOffset local);
      let localTime := gmtime_r localSeconds in
      _ ← check OutOfBounds (bool_decide (0 <= arrbIdx local <= lenZ (abbreviation data)));
      mret (mk_bd (date_time localTime) (tm_wday localTime) (tm_yday localTime)
              (if isDst local then 1 else 0) (gmtOffset local) (drop (Z.to_nat (arrbIdx local)) (abbreviation data)))
  end.

Definition fromLocalTime (data_ : option Data) (localTm : broken_down) : res Z :=
  match data_ with
  | None => Fail AssertionFailed
  | Some data =>
      let seconds := timegm (date_time localTm) in
      local ← findLocaltime data (mk_transition 0 seconds 0) false;
      seconds ←
        (if bool_decide (tm_isdst localTm <> 0) then
           s ← int64_sub seconds (gmtOffset local);
           tryTm ← toLocalTime data_ s;
           if bool_decide (tm_isdst tryTm = 0) && bool_decide (tm_hour (date_time tryTm) = tm_hour (date_time localTm)) &&
              bool_decide (tm_min (date_time tryTm) = tm_min (date_time localTm))
           then int64_sub seconds 3600
           else mret seconds
         else mret seconds);
      int64_sub seconds (gmtOffset local)
  end.

(** ** UTC *)

Definition kSecondsPerDay : Z := 24 * 60 * 60.

(** [fillHMS]: hours, minutes and seconds. *)
Definition fillHMS (seconds : Z) : Z * Z * Z :=
  let minutes := seconds / 60 in
  (minutes / 60, minutes mod 60, seconds mod 60).

Definition toUtcTime (secondsSinceEpoch : Z) (yday : bool) : res broken_down :=
  let seconds := swrap 32 (Z.rem secondsSinceEpoch kSecondsPerDay) in
  let days := swrap 32 (Z.quot secondsSinceEpoch kSecondsPerDay) in
  '(seconds, days) ← (if bool_decide (seconds < 0) then
    days ← Date.int (days - 1);
    mret (seconds + kSecondsPerDay, days)
  else mret (seconds, days));
  let '(h, m, s) := fillHMS seconds in
  j ← Date.int (days + Date.kJulianDayOf1970_01_01);
  let date := Date.of_julian j in
  ymd ← Date.yearMonthDay date;
  wday ← Date.weekDay date;
  yd ← (if yday then
    startOfYear ← Date.of_ymd (Date.year ymd) 1 1;
    mret (Date.julianDayNumber_ date - Date.julianDayNumber_ startOfYear)
  else mret 0);
  mret (mk_bd (mk_tm (Date.year ymd - 1900) (Date.month ymd - 1) (Date.day ymd) h m s) wday yd 0 0 (bs "GMT")).

Definition fromUtcTime_fields (year month day hour minute seconds : Z) : res Z :=
  date ← Date.of_ymd year month day;
  h ← Date.int (hour * 3600);
  m ← Date.int (minute * 60);
  t ← Date.int (h + m);
  secondsInDay ← Date.int (t + seconds);
  days ← Date.int (Date.julianDayNumber_ date - Date.kJulianDayOf1970_01_01);
  mret (days * kSecondsPerDay + secondsInDay).

Definition fromUtcTime (utc : tm) : res Z :=
  y ← Date.int (tm_year utc + 1900);
  m ← Date.int (tm_mon utc + 1);
  fromUtcTime_fields y m (tm_mday utc) (tm_hour utc) (tm_min utc) (tm_sec utc).

Example utc_leap_day : date_time <$> toUtcTime 951782400 true = Ok (mk_tm 100 1 29 0 0 0).
Proof. vm_compute. reflexivity. Qed.

(** ** UTC is the Gregorian calendar *)

(** Times of the years -2385 to 1116869, whose day numbers stay in [int]. *)
Definition in_range (secs : Z) : Prop := - 2 ^ 37 <= secs < 2 ^ 45.

Lemma epoch_jdn : Date.kJulianDayOf1970_01_01 = 2440588.
Proof. reflexivity. Qed.

Lemma jdn_day y m d : Date.day_number y m d = Date.day_number y m 1 + (d - 1).
Proof. unfold Date.day_number. lia. Qed.

(** [g] is a civil date with a time of day, at second [secs]. *)
Record fields_of (secs : Z) (g : tm) : Prop := {
  f_civil : Date.civil (Date.mkYMD (tm_year g + 1900) (tm_mon g + 1) (tm_mday g)) = true;
  f_day : Date.day_number (tm_year g + 1900) (tm_mon g + 1) (tm_mday g) = secs / 86400 + Date.kJulianDayOf1970_01_01;
  f_mon : 0 <= tm_mon g <= 11;
  f_time : tm_hour g * 3600 + tm_min g * 60 + tm_sec g = secs mod 86400
}.

Lemma gmtime_fields secs : in_range secs -> fields_of secs (gmtime secs).
Proof.
  intros Hs. unfold in_range in Hs. unfold gmtime.
  set (j := secs / 86400 + Date.kJulianDayOf1970_01_01).
  destruct (Date.ymd_jdn j) as [Hc Hr].
  { subst j. rewrite epoch_jdn. unfold Date.first_jdn. div_lia. }
  destruct (Date.date_of j) as [y m d]. unfold Date.jdn in Hr. cbn [Date.year Date.month Date.day] in *.
  pose proof Hc as [Hm _]%andb_prop. apply bool_decide_eq_true in Hm. cbn [Date.month] in Hm.
  split; cbn [tm_year tm_mon tm_mday tm_hour tm_min tm_sec];
    rewrite ?(Z.sub_add 1900 y), ?(Z.sub_add 1 m); [done|done|lia|clear; div_lia].
Qed.

Lemma fields_timegm secs g : fields_of secs g -> timegm g = secs.
Proof.
  intros [_ Hj Hm Ht]. unfold timegm. rewrite Z.div_small, Z.mod_small by lia. rewrite Z.add_0_r.
  rewrite jdn_day in Hj. pose proof (Z.div_mod secs 86400 ltac:(done)). lia.
Qed.

Lemma fields_fromUtcTime secs g :
  fields_of secs g -> -4799 <= tm_year g + 1900 <= 1465101 -> 0 <= tm_hour g < 24 -> 0 <= tm_min g < 60 -> 0 <= tm_sec g < 60 ->
  fromUtcTime g = Ok secs.
Proof.
  intros [Hc Hj Hm Ht] Hy Hh Hmi Hs. destruct (Date.civil_fields _ Hc) as [Hmon Hday]. cbn [Date.month Date.day] in *.
  destruct (Date.jdn_bounds _ Hc Hy) as [_ Hjb]. unfold Date.jdn, Date.first_jdn, Date.last_jdn in Hjb. cbn [Date.year Date.month Date.day] in Hjb.
  unfold fromUtcTime, fromUtcTime_fields, Date.of_ymd, kSecondsPerDay. do 2 Date.run_int.
  rewrite Date.getJulianDayNumber_ok by lia. cbn [fmap res_fmap mbind res_bind Date.julianDayNumber_].
  rewrite epoch_jdn in *. clear Hc. do 5 Date.run_int. unfold mret, res_ret. f_equal.
  rewrite Hj, Ht. pose proof (Z.div_mod secs 86400 ltac:(done)). lia.
Qed.

Lemma timegm_gmtime secs : in_range secs -> timegm (gmtime secs) = secs.
Proof. intros Hs. by apply fields_timegm, gmtime_fields. Qed.

Lemma gmtime_year secs : in_range secs -> -4799 <= tm_year (gmtime secs) + 1900 <= 1465101.
Proof.
  intros Hs. pose proof (gmtime_fields secs Hs) as [Hc Hj _ _]. unfold in_range in Hs.
  set (g := gmtime secs) in *. destruct (Date.civil_fields _ Hc) as [Hmon Hday]. cbn [Date.month Date.day] in *.
  rewrite epoch_jdn in Hj. unfold Date.day_number in Hj. clearbody g. clear Hc.
  assert (0 <= Z.quot (14 - (tm_mon g + 1)) 12 <= 1) as Ha by div_lia.
  generalize dependent (Z.quot (14 - (tm_mon g + 1)) 12). intros a Hj Ha. div_lia.
Qed.

Lemma gmtime_clock secs : let g := gmtime secs in 0 <= tm_hour g < 24 /\ 0 <= tm_min g < 60 /\ 0 <= tm_sec g < 60.
Proof. unfold gmtime. cbn [tm_hour tm_min tm_sec]. div_lia. Qed.

Lemma fromUtcTime_gmtime secs : in_range secs -> fromUtcTime (gmtime secs) = Ok secs.
Proof. intros Hs. pose proof (gmtime_clock secs) as (? & ? & ?). apply fields_fromUtcTime; [by apply gmtime_fields|by apply gmtime_year|done..]. Qed.

(** Splitting with truncation and adjusting is splitting towards minus infinity. *)
Lemma split_seconds secs :
  in_range secs ->
  let seconds := swrap 32 (Z.rem secs kSecondsPerDay) in
  let days := swrap 32 (Z.quot secs kSecondsPerDay) in
  (if bool_decide (seconds < 0) then days ← Date.int (days - 1); mret (seconds + kSecondsPerDay, days) else mret (seconds, days)) =
    Ok (secs mod 86400, secs / 86400).
Proof.
  unfold in_range, kSecondsPerDay. intros Hs. cbv zeta. rewrite !swrap_small by (unfold s_in; div_lia).
  case_bool_decide; [|unfold mret, res_ret; do 2 f_equal; div_lia].
  rewrite signed_ok by (unfold s_in; div_lia). cbn [mbind res_bind]. unfold mret, res_ret. do 2 f_equal; div_lia.
Qed.

Lemma toUtcTime_gmtime secs yday :
  in_range secs ->
  toUtcTime secs yday = let g := gmtime_r secs in
    Ok (mk_bd (date_time g) (tm_wday g) (if yday then tm_yday g else 0) (tm_isdst g) (tm_gmtoff g) (tm_zone g)).
Proof.
  intros Hs. pose proof (gmtime_year secs Hs) as Hyear. unfold gmtime in Hyear. cbn [tm_year] in Hyear.
  unfold toUtcTime. rewrite split_seconds by done. cbn [mbind res_bind]. unfold fillHMS. cbv zeta. unfold in_range in Hs.
  rewrite signed_ok by (rewrite epoch_jdn; unfold s_in; div_lia). cbn [mbind res_bind].
  unfold gmtime_r, gmtime, Date.yearMonthDay, Date.of_julian, Date.of_ymd, Date.weekDay, Date.kDaysPerWeek. cbn [Date.julianDayNumber_].
  rewrite Date.getYearMonthDay_ok by (rewrite epoch_jdn; unfold Date.first_jdn, Date.last_jdn; div_lia). cbn [mbind res_bind].
  set (j := secs / 86400 + Date.kJulianDayOf1970_01_01) in *.
  assert (j = secs / 86400 + 2440588) as Hj by done.
  rewrite signed_ok by (unfold s_in; div_lia). cbn [mbind res_bind].
  cbn [date_time tm_wday tm_yday tm_isdst tm_gmtoff tm_zone tm_year]. set (y := Date.year (Date.date_of j)) in *.
  assert (Z.rem (j + 1) 7 = (secs / 86400 + 4) mod 7) as -> by div_lia.
  clearbody y. assert (forall n, mk_tm (y - 1900) (Date.month (Date.date_of j) - 1) (Date.day (Date.date_of j))
      (secs mod 86400 / 60 / 60) (secs mod 86400 / 60 mod 60) (secs mod 86400 mod 60) = n ->
    mk_tm (y - 1900) (Date.month (Date.date_of j) - 1) (Date.day (Date.date_of j))
      (secs mod 86400 / 3600) (secs mod 86400 mod 3600 / 60) (secs mod 86400 mod 60) = n) as Hclock by (intros ? <-; f_equal; div_lia).
  destruct yday; cbn [mbind res_bind mret res_ret].
  - rewrite Date.getJulianDayNumber_ok by lia. cbn [fmap res_fmap mbind res_bind Date.julianDayNumber_].
    rewrite (Hclock _ eq_refl), (Z.sub_add 1900 y). done.
  - by rewrite (Hclock _ eq_refl).
Qed.

(** The day numbers of the years the formulas do not cover are negative. *)
Lemma civil_year_pos x : Date.civil x = true -> 0 <= Date.jdn x -> 0 <= Date.Y_of x.
Proof.
  intros Hc Hj. apply Z.le_ngt. intros HY. revert Hj. apply Z.lt_nge.
  apply andb_prop in Hc as [Hm Hd]. apply bool_decide_eq_true in Hm. apply bool_decide_eq_true in Hd.
  assert (Date.day x <= 31) as Hday by (unfold Date.days_in_month in Hd; repeat case_bool_decide; try destruct (Date.leap _); lia).
  clear Hd. unfold Date.Y_of in HY. unfold Date.jdn, Date.day_number.
  assert (Z.quot (14 - Date.month x) 12 = if bool_decide (Date.month x <= 2) then 1 else 0) as ->
    by (case_bool_decide; div_lia).
  case_bool_decide; div_lia.
Qed.

(** [toUtcTime] is [gmtime(3)] and [fromUtcTime] is [timegm(3)].  For the times of the
    years -2385 to 1116869, before the epoch too, no [int] overflows and all fields are
    those of the C library (the day of the year only when asked for); a time comes back
    from its fields; and every civil date with a time of day comes back from its time. *)
Theorem utc_is_gmtime :
  (forall secs yday, in_range secs -> exists r, toUtcTime secs yday = Ok r /\
     (let g := gmtime_r secs in
      r = mk_bd (date_time g) (tm_wday g) (if yday then tm_yday g else 0) (tm_isdst g) (tm_gmtoff g) (tm_zone g)) /\
     fromUtcTime (date_time r) = Ok secs /\ timegm (date_time r) = secs) /\
  (forall y m d h mi s secs, Date.civil (Date.mkYMD y m d) = true -> -4799 <= y <= 1465101 ->
     0 <= h < 24 -> 0 <= mi < 60 -> 0 <= s < 60 ->
     secs = (Date.day_number y m d - Date.kJulianDayOf1970_01_01) * 86400 + h * 3600 + mi * 60 + s -> in_range secs ->
     fromUtcTime_fields y m d h mi s = Ok secs /\
     exists r, toUtcTime secs false = Ok r /\ date_time r = mk_tm (y - 1900) (m - 1) d h mi s).
Proof.
  split.
  - intros secs yday Hs. eexists. split; [by apply toUtcTime_gmtime|]. cbn [date_time gmtime_r]. split_and!; [done| |].
    + by apply fromUtcTime_gmtime.
    + by apply timegm_gmtime.
  - intros y m d h mi s secs Hc Hy Hh Hmi Hsec Hsecs Hr.
    assert (secs / 86400 + Date.kJulianDayOf1970_01_01 = Date.jdn (Date.mkYMD y m d) /\
            secs mod 86400 = h * 3600 + mi * 60 + s) as [Hd Ht].
    { unfold Date.jdn. cbn [Date.year Date.month Date.day]. clear Hr Hc.
      set (j := Date.day_number y m d) in *. clearbody j. rewrite epoch_jdn in *. div_lia. }
    assert (gmtime secs = mk_tm (y - 1900) (m - 1) d h mi s) as Hg.
    { unfold gmtime. rewrite Hd, Ht. rewrite Date.jdn_ymd; [|done|].
      + cbn [Date.year Date.month Date.day]. f_equal; div_lia.
      + apply (civil_year_pos _ Hc). rewrite <- Hd. rewrite epoch_jdn. unfold in_range in Hr. clear -Hr. div_lia. }
    split.
    + pose proof (fromUtcTime_gmtime secs Hr) as Hf. rewrite Hg in Hf. unfold fromUtcTime in Hf. cbn [tm_year tm_mon tm_mday tm_hour tm_min tm_sec] in Hf.
      destruct (Date.civil_fields _ Hc) as [Hmon _]. cbn [Date.month] in Hmon.
      revert Hf. do 2 Date.run_int. by rewrite (Z.sub_add 1900 y), (Z.sub_add 1 m).
    + eexists. split; [by apply toUtcTime_gmtime|]. cbn [date_time gmtime_r]. exact Hg.
Qed.

(** ** The lookup finds the period in force *)

(** The reference: the transitions in order; a period lasts until the next one. *)
Fixpoint in_force (gmt : bool) (locals : list Localtime) (l : list Transition) (cur : Localtime) (t : Z) : Localtime :=
  match l with
  | [] => cur
  | x :: l =>
      if bool_decide (key gmt x <= t) then
        match at_ locals (localtimeIdx x) with Ok nx => in_force gmt locals l nx t | Fail _ => cur end
      else cur
  end.

Definition increasing (gmt : bool) : list Transition -> Prop := StronglySorted (fun x y => key gmt x < key gmt y).

Lemma increasing_lookup gmt l i j x y :
  increasing gmt l -> (i < j)%nat -> l !! i = Some x -> l !! j = Some y -> key gmt x < key gmt y.
Proof.
  intros Hs Hij Hx Hy. revert i j Hij Hx Hy. induction Hs as [|z l _ IH Hall]; [done|].
  intros [|i] [|j] Hij Hx Hy; simpl in *; try lia.
  - injection Hx as <-. by eapply list.Forall_lookup_1 in Hall.
  - apply (IH i j); [lia|done|done].
Qed.

Section bisect.
Context (comp : Transition -> bool) (l : list Transition).
Hypothesis Hdown : forall i j x y, (i < j)%nat -> l !! i = Some x -> l !! j = Some y -> comp y = true -> comp x = true.

Lemma bisect_loop_spec fuel first len :
  (len <= fuel)%nat -> (first + len <= length l)%nat ->
  (forall i x, (i < first)%nat -> l !! i = Some x -> comp x = true) ->
  (forall i x, (first + len <= i)%nat -> l !! i = Some x -> comp x = false) ->
  let n := lower_bound_loop fuel comp l first len in
  (n <= length l)%nat /\ (forall i x, (i < n)%nat -> l !! i = Some x -> comp x = true) /\
  (forall i x, (n <= i)%nat -> l !! i = Some x -> comp x = false).
Proof using Hdown.
  revert first len; induction fuel as [|fuel IH]; intros first len Hf Hl Hlow Hhigh; cbn [lower_bound_loop]; cbv zeta.
  { assert (len = 0%nat) as -> by lia. rewrite Nat.add_0_r in Hhigh. split_and!; [lia|done|done]. }
  destruct (bool_decide_reflect (0 < len)%nat) as [Hpos|Hz].
  2: { assert (len = 0%nat) as -> by lia. rewrite Nat.add_0_r in Hhigh. split_and!; [lia|done|done]. }
  pose proof (Nat.div_lt len 2 Hpos ltac:(lia)) as Hhalf. set (half := (len / 2)%nat) in *. clearbody half.
  destruct (l !! (first + half)%nat) as [x|] eqn:Hx; [|apply lookup_ge_None in Hx; lia].
  destruct (comp x) eqn:Hc; apply IH; try lia.
  - intros i y Hi Hy. destruct (decide (i = first + half)%nat) as [->|Hne]; [congruence|].
    by apply (Hdown i (first + half) y x); [lia|..].
  - intros i y Hi Hy. apply (Hhigh i); [lia|done].
  - done.
  - intros i y Hi Hy. destruct (comp y) eqn:Hcy; [|done].
    destruct (decide (i = first + half)%nat) as [->|Hne]; [congruence|].
    assert (comp x = true) by (apply (Hdown (first + half) i x y); [lia|done..]). congruence.
Qed.

Lemma bisect_spec :
  let n := lower_bound comp l in
  (n <= length l)%nat /\ (forall i x, (i < n)%nat -> l !! i = Some x -> comp x = true) /\
  (forall i x, (n <= i)%nat -> l !! i = Some x -> comp x = false).
Proof using Hdown.
  apply bisect_loop_spec; [lia..| |].
  - intros; lia.
  - intros i x Hi Hx. apply lookup_lt_Some in Hx. simpl in Hi. lia.
Qed.
End bisect.

Definition indexed (locals : list Localtime) (x : Transition) : Prop := is_ok (at_ locals (localtimeIdx x)).

(** The period in force is that of the last transition not after [t]. *)
Lemma in_force_split gmt locals l1 l2 cur t :
  Forall (fun x => key gmt x <= t) l1 -> Forall (fun x => t < key gmt x) l2 -> Forall (indexed locals) l1 ->
  Ok (in_force gmt locals (l1 ++ l2) cur t) =
    match list.last l1 with Some x => at_ locals (localtimeIdx x) | None => Ok cur end.
Proof.
  intros Hle. revert cur; induction Hle as [|x l1 Hx _ IH]; intros cur Hgt Hidx; simpl.
  - destruct Hgt as [|y l2 Hy _]; simpl; [done|]. by rewrite bool_decide_eq_false_2 by lia.
  - apply list.Forall_cons in Hidx as [[nx Hnx] Hidx]. rewrite bool_decide_eq_true_2 by done. rewrite Hnx.
    rewrite (IH nx Hgt Hidx). rewrite list.last_cons. by destruct (list.last l1).
Qed.

Lemma findLocaltime_spec gmt d first rest sentry :
  localtimes d = first :: rest -> increasing gmt (transitions d) -> Forall (indexed (localtimes d)) (transitions d) ->
  findLocaltime d sentry gmt = Ok (in_force gmt (localtimes d) (transitions d) first (key gmt sentry)).
Proof.
  intros Hloc Hinc Hidx. set (t := key gmt sentry).
  assert (at_ (localtimes d) 0 = Ok first) as H0 by by rewrite Hloc.
  unfold findLocaltime. destruct (transitions d) as [|front tr] eqn:Htr; [done|].
  unfold Comp at 1. destruct (bool_decide_reflect (key gmt sentry < key gmt front)) as [Hb|Hnb].
  { rewrite H0. simpl. fold t in Hb |- *. by rewrite bool_decide_eq_false_2 by lia. }
  rewrite <- Htr in *. set (l := transitions d) in *. clearbody l.
  destruct (bisect_spec (fun x => Comp gmt x sentry) l) as (Hn & Hlow & Hhigh).
  { intros i j x y Hij Hx Hy. unfold Comp. rewrite !bool_decide_eq_true.
    pose proof (increasing_lookup gmt l i j x y Hinc Hij Hx Hy). lia. }
  set (n := lower_bound _ l) in *. clearbody n. fold t in Hnb.
  assert (forall k, (k <= length l)%nat ->
    (forall i x, (i < k)%nat -> l !! i = Some x -> key gmt x <= t) ->
    (forall i x, (k <= i)%nat -> l !! i = Some x -> t < key gmt x) ->
    Ok (in_force gmt (localtimes d) l first t) =
      match list.last (take k l) with Some x => at_ (localtimes d) (localtimeIdx x) | None => Ok first end) as Hsplit.
  { intros k Hk Hlo Hhi. rewrite <- (take_drop k l) at 1. apply in_force_split.
    - apply list.Forall_lookup. intros i x Hx. apply lookup_take_Some in Hx as [Hx Hi]. by apply (Hlo i).
    - apply list.Forall_lookup. intros i x Hx. rewrite lookup_drop in Hx. apply (Hhi (k + i)%nat); [lia|done].
    - by apply Forall_take. }
  assert (forall i x, (i < n)%nat -> l !! i = Some x -> key gmt x < t) as Hlt.
  { intros i x Hi Hx. specialize (Hlow i x Hi Hx). unfold Comp in Hlow. by apply bool_decide_eq_true in Hlow. }
  assert (forall i x, (n <= i)%nat -> l !! i = Some x -> t <= key gmt x) as Hge.
  { intros i x Hi Hx. specialize (Hhigh i x Hi Hx). unfold Comp in Hhigh. apply bool_decide_eq_false in Hhigh. subst t. lia. }
  destruct (l !! n) as [x|] eqn:Hx.
  - assert (n < length l)%nat as Hlen by by apply lookup_lt_Some in Hx.
    unfold Comp_equal. fold t. destruct (bool_decide_reflect (t = key gmt x)) as [He|Hne].
    + rewrite (Hsplit (S n)).
      * by rewrite (take_S_r _ _ x), list.last_snoc.
      * lia.
      * intros i y Hi Hy. destruct (decide (i = n)) as [->|]; [|specialize (Hlt i y ltac:(lia) Hy); lia]. rewrite Hy in Hx. injection Hx as ->. lia.
      * intros i y Hi Hy. rewrite He. by apply (increasing_lookup gmt l n i).
    + destruct n as [|n].
      { exfalso. rewrite Htr in Hx. injection Hx as ->. specialize (Hge 0%nat x ltac:(lia)). rewrite Htr in Hge. specialize (Hge eq_refl). lia. }
      simpl. rewrite Nat.sub_0_r. rewrite (Hsplit (S n)); [|lia|intros i y Hi Hy; specialize (Hlt i y Hi Hy); lia|].
      * destruct (l !! n) as [z|] eqn:Hz; [|apply lookup_ge_None in Hz; lia].
        by rewrite (take_S_r _ _ z), list.last_snoc.
      * intros i y Hi Hy. pose proof (Hge (S n) x ltac:(lia) Hx).
        destruct (decide (i = S n)) as [->|]; [rewrite Hy in Hx; injection Hx as ->; lia|].
        pose proof (increasing_lookup gmt l (S n) i x y Hinc ltac:(lia) Hx Hy). lia.
  - apply lookup_ge_None in Hx. rewrite (Hsplit (length l)); [|lia| |].
    + rewrite firstn_all. destruct (list.last l) eqn:E; [done|]. rewrite Htr in E.
      apply list.last_None in E. done.
    + intros i y Hi Hy. specialize (Hlt i y ltac:(lia) Hy). lia.
    + intros i y Hi Hy. apply lookup_lt_Some in Hy. lia.
Qed.

(** ** Zones as they occur

    A change records the local time it happens at; the clock goes back only when
    daylight saving time ends, by an hour; changes are two hours apart or more. *)

Definition change_ok (cur nx : Localtime) (x : Transition) (rest : list Transition) : bool :=
  bool_decide (localtime x = gmttime x + gmtOffset nx) &&
  (bool_decide (gmtOffset cur <= gmtOffset nx) ||
   (isDst cur && negb (isDst nx) && bool_decide (gmtOffset cur = gmtOffset nx + 3600))) &&
  match rest with [] => true | y :: _ => bool_decide (gmttime x + 7200 <= gmttime y) end.

Fixpoint changes_ok (locals : list Localtime) (cur : Localtime) (l : list Transition) : bool :=
  match l with
  | [] => true
  | x :: l =>
      match at_ locals (localtimeIdx x) with
      | Ok nx => change_ok cur nx x l && changes_ok locals nx l
      | Fail _ => false
      end
  end.

Definition localtime_ok (d : Data) (x : Localtime) : bool :=
  bool_decide (s_in 32 (gmtOffset x)) && bool_decide (0 <= arrbIdx x <= lenZ (abbreviation d)).

Definition zone_ok (d : Data) : bool :=
  match localtimes d with
  | [] => false
  | first :: _ => forallb (localtime_ok d) (localtimes d) && changes_ok (localtimes d) first (transitions d)
  end.

Section zone.
Context (locals : list Localtime).

Lemma changes_cons cur x l :
  changes_ok locals cur (x :: l) = true -> exists nx, at_ locals (localtimeIdx x) = Ok nx /\
    localtime x = gmttime x + gmtOffset nx /\
    (gmtOffset cur <= gmtOffset nx \/ isDst cur = true /\ isDst nx = false /\ gmtOffset cur = gmtOffset nx + 3600) /\
    (forall y l', l = y :: l' -> gmttime x + 7200 <= gmttime y) /\ changes_ok locals nx l = true.
Proof.
  simpl. destruct (at_ locals _) as [nx|]; [|done]. intros [Hc Hl]%andb_prop. exists nx.
  apply andb_prop in Hc as [[Hx Ho]%andb_prop Hs]. apply bool_decide_eq_true in Hx.
  split_and!; try done.
  - apply orb_prop in Ho as [Ho|[[Hd Hnd]%andb_prop Ho]%andb_prop]; apply bool_decide_eq_true in Ho; [by left|right].
    by apply negb_true_iff in Hnd.
  - intros y l' ->. by apply bool_decide_eq_true in Hs.
Qed.

Lemma changes_after cur x l :
  changes_ok locals cur (x :: l) = true -> Forall (fun y => gmttime x < gmttime y /\ localtime x < localtime y) l.
Proof.
  revert cur x; induction l as [|y l IH]; intros cur x Hok; constructor.
  - apply changes_cons in Hok as (nx & _ & Hx & _ & Hsp & Hok). specialize (Hsp y l eq_refl).
    apply changes_cons in Hok as (ny & _ & Hy & Ho & _). lia.
  - apply changes_cons in Hok as (nx & _ & Hx & _ & Hsp & Hok). specialize (Hsp y l eq_refl).
    pose proof (IH nx y Hok) as Hall. apply changes_cons in Hok as (ny & _ & Hy & Ho & _).
    eapply list.Forall_impl; [exact Hall|]. intros z [? ?]. simpl in *. lia.
Qed.

Lemma changes_increasing gmt cur l : changes_ok locals cur l = true -> increasing gmt l.
Proof.
  revert cur; induction l as [|x l IH]; intros cur Hok; constructor.
  - apply changes_cons in Hok as (nx & _ & _ & _ & _ & Hok). by apply (IH nx).
  - eapply list.Forall_impl; [by eapply changes_after|]. intros y [? ?]. by destruct gmt.
Qed.

Lemma changes_indexed cur l : changes_ok locals cur l = true -> Forall (indexed locals) l.
Proof.
  revert cur; induction l as [|x l IH]; intros cur Hok; constructor.
  - apply changes_cons in Hok as (nx & Hnx & _). by exists nx.
  - apply changes_cons in Hok as (nx & _ & _ & _ & _ & Hok). by apply (IH nx).
Qed.

(** A period has begun in local time when it has begun in UTC. *)
Lemma in_force_begun cur x l nx t :
  changes_ok locals cur (x :: l) = true -> at_ locals (localtimeIdx x) = Ok nx -> gmttime x <= t ->
  localtime x <= t + gmtOffset (in_force true locals l nx t).
Proof.
  revert cur x nx; induction l as [|y l IH]; intros cur x nx Hok Hnx Hx; simpl;
    pose proof (changes_after _ _ _ Hok) as Hall; apply changes_cons in Hok as (nx' & Hnx' & Hlx & _ & _ & Hok);
    rewrite Hnx' in Hnx; injection Hnx as ->.
  - lia.
  - apply list.Forall_cons in Hall as [[_ Hxy] _]. case_bool_decide as Hy; [|lia].
    pose proof Hok as Hok'. apply changes_cons in Hok' as (ny & Hny & _). rewrite Hny.
    specialize (IH nx y ny Hok Hny Hy). lia.
Qed.

(** The lookup by local time finds the same period, or, in the hour that is repeated when
    daylight saving time ends, the next one. *)
Lemma in_force_local cur l t :
  changes_ok locals cur l = true ->
  let p := in_force true locals l cur t in
  let q := in_force false locals l cur (t + gmtOffset p) in
  q = p \/ isDst p = true /\ isDst q = false /\ gmtOffset p = gmtOffset q + 3600 /\ in_force true locals l cur (t + 3600) = q.
Proof.
  revert cur; induction l as [|x l IH]; intros cur Hok; [by left|]. cbv zeta. cbn [in_force].
  pose proof Hok as Hok'. apply changes_cons in Hok' as (nx & Hnx & Hx & Ho & Hsp & Hok'). rewrite Hnx.
  destruct (bool_decide_reflect (key true x <= t)) as [Hb|Hb]; simpl in Hb.
  - pose proof (in_force_begun cur x l nx t Hok Hnx Hb). rewrite !bool_decide_eq_true_2 by (simpl; lia).
    apply (IH nx Hok').
  - destruct (bool_decide_reflect (key false x <= t + gmtOffset cur)) as [Hl|Hl]; simpl in Hl; [|by left].
    destruct Ho as [Ho|(Hd & Hnd & Ho)]; [lia|]. right. rewrite bool_decide_eq_true_2 by (simpl; lia).
    assert (in_force false locals l nx (t + gmtOffset cur) = nx /\ in_force true locals l nx (t + 3600) = nx) as [-> ->];
      [|done].
    destruct l as [|y l]; [done|]. specialize (Hsp y l eq_refl). apply changes_cons in Hok' as (ny & _ & Hy & Ho' & _).
    simpl. rewrite !bool_decide_eq_false_2 by lia. done.
Qed.

Lemma in_force_elem gmt cur l t : cur ∈ locals -> in_force gmt locals l cur t ∈ locals.
Proof.
  revert cur; induction l as [|x l IH]; intros cur Hc; simpl; [done|]. case_bool_decide; [|done].
  destruct (at_ _ _) as [nx|] eqn:E; [|done]. apply IH. unfold at_ in E. case_bool_decide; [|done].
  destruct (_ !! _) eqn:E'; simplify_eq. by eapply list_elem_of_lookup_2.
Qed.
End zone.

(** What is in force at a time. *)
Definition local_at (d : Data) (t : Z) : Localtime :=
  match localtimes d with
  | first :: _ => in_force true (localtimes d) (transitions d) first t
  | [] => mk_localtime 0 false 0
  end.

Definition time_ok (t : Z) : Prop := - 2 ^ 36 <= t < 2 ^ 44.

Lemma zone_ok_localtime d t : zone_ok d = true -> localtime_ok d (local_at d t) = true.
Proof.
  unfold zone_ok, local_at. destruct (localtimes d) as [|first rest] eqn:E; [done|]. intros [Hall _]%andb_prop.
  rewrite forallb_forall in Hall. apply Hall. apply list_elem_of_In. apply in_force_elem. apply list_elem_of_here.
Qed.

Lemma zone_ok_find d :
  zone_ok d = true -> exists first, changes_ok (localtimes d) first (transitions d) = true /\
    (forall t, local_at d t = in_force true (localtimes d) (transitions d) first t) /\
    (forall gmt sentry, findLocaltime d sentry gmt = Ok (in_force gmt (localtimes d) (transitions d) first (key gmt sentry))).
Proof.
  unfold zone_ok, local_at. destruct (localtimes d) as [|first rest] eqn:E; [done|]. intros [_ Hch]%andb_prop.
  exists first. split_and!; [done..|]. intros gmt sentry. rewrite <- E in *. apply (findLocaltime_spec gmt d first rest sentry E).
  - by eapply changes_increasing.
  - by eapply changes_indexed.
Qed.

Lemma int64_sub_ok a b : - 2 ^ 63 <= a - b < 2 ^ 63 -> int64_sub a b = Ok (a - b).
Proof. intros H. unfold int64_sub. by rewrite check_true by by apply bool_decide_eq_true. Qed.

Lemma toLocalTime_spec d t :
  zone_ok d = true -> - 2 ^ 62 <= t < 2 ^ 62 ->
  exists r, toLocalTime (Some d) t = Ok r /\ date_time r = gmtime (t + gmtOffset (local_at d t)) /\
    tm_isdst r = (if isDst (local_at d t) then 1 else 0) /\ tm_gmtoff r = gmtOffset (local_at d t) /\
    tm_zone r = drop (Z.to_nat (arrbIdx (local_at d t))) (abbreviation d).
Proof.
  intros Hok Ht. pose proof (zone_ok_localtime d t Hok) as [Hoff Harr]%andb_prop.
  apply bool_decide_eq_true in Hoff. unfold s_in in Hoff.
  destruct (zone_ok_find d Hok) as (first & _ & Hat & Hfind). unfold toLocalTime.
  rewrite Hfind. cbn [mbind res_bind key gmttime]. rewrite <- Hat. set (x := local_at d t) in *. clearbody x.
  unfold int64_add. rewrite (check_true Overflow) by (apply bool_decide_eq_true; lia).
  cbn [mbind res_bind mret res_ret]. rewrite check_true by done. cbn [mbind res_bind mret res_ret].
  eexists. split; [reflexivity|]. by cbn.
Qed.

(** C23: local time is the time in UTC and the offset of the last change before it, and
    back.  In a zone whose clock goes back only by an hour, when daylight saving time
    ends, [findLocaltime]'s binary search finds the period in force, [toLocalTime] shows
    its clock, flag and abbreviation without reading outside the tables, and
    [fromLocalTime] of that gives the time again, in the repeated hour too, which the flag
    tells apart. *)
Theorem local_time_roundtrip d t :
  zone_ok d = true -> time_ok t ->
  exists r, toLocalTime (Some d) t = Ok r /\ date_time r = gmtime (t + gmtOffset (local_at d t)) /\
    tm_isdst r = (if isDst (local_at d t) then 1 else 0) /\ tm_gmtoff r = gmtOffset (local_at d t) /\
    tm_zone r = drop (Z.to_nat (arrbIdx (local_at d t))) (abbreviation d) /\
    fromLocalTime (Some d) r = Ok t.
Proof.
  unfold time_ok. intros Hok Ht. destruct (toLocalTime_spec d t Hok ltac:(lia)) as (r & Hr & Hdt & Hdst & Hoff & Hz).
  exists r. split_and!; try done. clear Hr Hoff Hz.
  pose proof (zone_ok_localtime d t Hok) as [Hs _]%andb_prop. apply bool_decide_eq_true in Hs. unfold s_in in Hs.
  destruct (zone_ok_find d Hok) as (first & Hch & Hat & Hfind).
  unfold fromLocalTime. rewrite Hdt, timegm_gmtime by (unfold in_range; lia).
  rewrite Hfind. cbn [mbind res_bind key localtime]. rewrite Hdst.
  destruct (in_force_local _ _ _ t Hch) as [Hq|(Hpd & Hqd & Ho & Hq)]; rewrite <- !Hat in *.
  - rewrite Hq. set (p := local_at d t) in *. clear Hq.
    assert (int64_sub (t + gmtOffset p) (gmtOffset p) = Ok t) as Hback by (rewrite int64_sub_ok by lia; f_equal; lia).
    rewrite Hback. cbn [mbind res_bind]. fold (toLocalTime (Some d) t).
    destruct (toLocalTime_spec d t Hok ltac:(lia)) as (r' & -> & _ & Hdst' & _).
    cbn [mbind res_bind]. rewrite Hdst'. fold p.
    destruct (isDst p); simpl; by rewrite Hback.
  - rewrite <- Hq in *. clear Hq. set (p := local_at d t) in *. set (q := local_at d (t + 3600)) in *.
    rewrite Hpd. rewrite bool_decide_eq_true_2 by done.
    rewrite (int64_sub_ok (t + gmtOffset p) (gmtOffset q)) by lia. replace (t + gmtOffset p - gmtOffset q) with (t + 3600) by lia. cbn [mbind res_bind].
    destruct (toLocalTime_spec d (t + 3600) Hok ltac:(lia)) as (r' & -> & Hdt' & Hdst' & _). fold q in Hdt', Hdst'.
    cbn [mbind res_bind]. rewrite Hdst', Hdt'. replace (t + 3600 + gmtOffset q) with (t + gmtOffset p) by lia.
    rewrite Hqd. rewrite !bool_decide_eq_true_2 by done. simpl.
    rewrite !int64_sub_ok by lia. simpl. rewrite int64_sub_ok by lia. f_equal. lia.
Qed.

(** New York in the years 2019 and 2020. *)
Definition new_york : Data :=
  mk_data
    [mk_transition 1552201200 1552186800 1; mk_transition 1572760800 1572742800 0;
     mk_transition 1583650800 1583636400 1; mk_transition 1604210400 1604192400 0]
    [mk_localtime (-18000) false 0; mk_localtime (-14400) true 4]
    (bs "EST" ++ [Byte.x00] ++ bs "EDT" ++ [Byte.x00]).

(** Half an hour before daylight saving time ends. *)
Lemma local_time_roundtrip_witness :
  zone_ok new_york = true /\ time_ok 1572759000 /\
  exists r, toLocalTime (Some new_york) 1572759000 = Ok r /\ date_time r = mk_tm 119 10 3 1 30 0 /\ tm_isdst r = 1 /\
    fromLocalTime (Some new_york) r = Ok 1572759000.
Proof.
  split; [vm_compute; reflexivity|]. split; [unfold time_ok; lia|].
  destruct (local_time_roundtrip new_york 1572759000) as (r & Hr & Hdt & Hdst & _ & _ & Hback);
    [vm_compute; reflexivity|unfold time_ok; lia|].
  exists r. split; [exact Hr|]. split; [rewrite Hdt; vm_compute; reflexivity|].
  split; [rewrite Hdst; vm_compute; reflexivity|exact Hback].
Defined.

(** ** Zone files *)

Definition byte_image (x : Z) : bytes := to_mem 1 x.

Definition enc_localtime (x : Localtime) : bytes :=
  be_bytes 4 (gmtOffset x) ++ byte_image (if isDst x then 1 else 0) ++ byte_image (arrbIdx x).

(** A file of version 1 with the data: header, transition times, their indices, the local
    time types and the abbreviations. *)
Definition encode (d : Data) : bytes :=
  bs "TZif" ++ [Byte.x00] ++ replicate 15 Byte.x00 ++
  be_bytes 4 0 ++ be_bytes 4 0 ++ be_bytes 4 0 ++
  be_bytes 4 (lenZ (transitions d)) ++ be_bytes 4 (lenZ (localtimes d)) ++ be_bytes 4 (lenZ (abbreviation d)) ++
  concat (map (fun x => be_bytes 4 (gmttime x)) (transitions d)) ++
  concat (map (fun x => byte_image (localtimeIdx x)) (transitions d)) ++
  concat (map enc_localtime (localtimes d)) ++
  abbreviation d.

(** What the format can hold: times of 32 bits, indices of 8, and local times that follow
    from the offsets. *)
Definition file_ok (d : Data) : Prop :=
  lenZ (transitions d) < 2 ^ 31 /\ lenZ (localtimes d) < 2 ^ 31 /\ lenZ (abbreviation d) < 2 ^ 31 /\
  Forall (fun x => s_in 32 (gmtOffset x) /\ 0 <= arrbIdx x < 256) (localtimes d) /\
  Forall (fun x => s_in 32 (gmttime x) /\ 0 <= localtimeIdx x < 256 /\
                   exists nx, at_ (localtimes d) (localtimeIdx x) = Ok nx /\ localtime x = gmttime x + gmtOffset nx) (transitions d).

Lemma read_exact n a rest d : length a = n -> read n (a ++ rest, d) = (Ok a, (rest, d)).
Proof.
  intros <-. unfold read. rewrite bool_decide_eq_true_2 by (rewrite length_app; lia).
  by rewrite take_app_length, drop_app_length.
Qed.

Lemma readBytes_exact n a rest d : lenZ a = n -> readBytes n (a ++ rest, d) = (Ok a, (rest, d)).
Proof.
  intros <-. unfold readBytes. rewrite bool_decide_eq_false_2 by (pose proof (lenZ_nonneg a); lia).
  apply read_exact. unfold lenZ. lia.
Qed.

Lemma readInt32_be x rest d : s_in 32 x -> readInt32 (be_bytes 4 x ++ rest, d) = (Ok x, (rest, d)).
Proof.
  intros Hx. unfold readInt32, mbind, rd_bind.
  rewrite read_exact by (apply Nat2Z.inj; apply (lenZ_be_bytes 4)). unfold mret, rd_ret. by rewrite be_decode.
Qed.

Lemma readUInt8_byte x rest d : 0 <= x < 256 -> readUInt8 (byte_image x ++ rest, d) = (Ok x, (rest, d)).
Proof.
  intros Hx. unfold readUInt8, mbind, rd_bind. rewrite read_exact by apply length_to_mem.
  unfold mret, rd_ret, byte_image, of_mem_u, to_mem. rewrite LittleEndianList.le_combine_split. do 2 f_equal.
  by rewrite Z.mod_small.
Qed.

(** A loop over an encoded list. *)
Lemma repeat_push_exact {A B} (enc : A -> bytes) (dec : A -> B) (m : RD B) (P : A -> Prop) l rest d :
  (forall x rest, P x -> m (enc x ++ rest, d) = (Ok (dec x), (rest, d))) -> Forall P l ->
  repeat_push (length l) m (concat (map enc l) ++ rest, d) = (Ok (map dec l), (rest, d)).
Proof.
  intros Hm. induction 1 as [|x l Hx _ IH]; simpl; [done|]. unfold mbind, rd_bind in *.
  rewrite <- app_assoc, Hm by done. by rewrite IH.
Qed.

Lemma read_localtime_exact x rest tr loc ab :
  s_in 32 (gmtOffset x) -> 0 <= arrbIdx x < 256 ->
  read_localtime (enc_localtime x ++ rest, mk_data tr loc ab) = (Ok tt, (rest, mk_data tr (loc ++ [x]) ab)).
Proof.
  intros Ho Ha. unfold read_localtime, enc_localtime, push_localtime, mbind, rd_bind.
  rewrite <- !app_assoc, readInt32_be by done. rewrite readUInt8_byte by (destruct (isDst x); lia).
  rewrite readUInt8_byte by done. simpl. by destruct x as [? [] ?].
Qed.

Lemma read_localtimes l rest tr loc ab :
  Forall (fun x => s_in 32 (gmtOffset x) /\ 0 <= arrbIdx x < 256) l ->
  exists u, repeat_push (length l) read_localtime (concat (map enc_localtime l) ++ rest, mk_data tr loc ab) =
    (Ok u, (rest, mk_data tr (loc ++ l) ab)).
Proof.
  intros Hl. revert loc; induction Hl as [|x l [Ho Ha] _ IH]; intros loc; [rewrite app_nil_r; by eexists|].
  cbn [length repeat_push map concat]. destruct (IH (loc ++ [x])) as [u Hu]. exists (tt :: u).
  unfold mbind, rd_bind. rewrite <- app_assoc, read_localtime_exact by done. rewrite Hu.
  unfold mret, rd_ret. by rewrite <- app_assoc.
Qed.

Lemma add_transitions_exact l rest tr loc ab :
  Forall (fun x => exists nx, at_ loc (localtimeIdx x) = Ok nx /\ localtime x = gmttime x + gmtOffset nx) l ->
  add_transitions (zip (map gmttime l) (map localtimeIdx l)) (rest, mk_data tr loc ab) =
    (Ok tt, (rest, mk_data (tr ++ l) loc ab)).
Proof.
  intros Hl. revert tr; induction Hl as [|x l (nx & Hnx & Hx) _ IH]; intros tr; simpl; [by rewrite app_nil_r|].
  unfold get_localtime, push_transition, mbind, rd_bind in *. simpl. rewrite Hnx. simpl.
  rewrite <- Hx. replace (mk_transition _ _ _) with x by by destruct x. rewrite IH. by rewrite <- app_assoc.
Qed.

(** One reading step of a block. *)
Lemma rd_step {A B} (m : RD A) (f : A -> RD B) a s s' : m s = (Ok a, s') -> (m ≫= f) s = f a s'.
Proof. unfold mbind, rd_bind. by intros ->. Qed.

Lemma read_zone_encode d rest : file_ok d -> read_zone (encode d ++ rest, empty_data) = (Ok tt, (rest, d)).
Proof.
  intros (Htr & Hloc & Hab & Hlocs & Htrs). pose proof (lenZ_nonneg (transitions d)). pose proof (lenZ_nonneg (localtimes d)).
  pose proof (lenZ_nonneg (abbreviation d)).
  assert (forall n, 0 <= n < 2 ^ 31 -> s_in 32 n) as H32 by (unfold s_in; intros; lia).
  unfold read_zone, encode. rewrite <- !app_assoc.
  erewrite rd_step by by apply readBytes_exact. rewrite bool_decide_eq_true_2 by done.
  erewrite rd_step by reflexivity.
  erewrite rd_step by by apply readBytes_exact. erewrite rd_step by by apply readBytes_exact.
  do 3 (erewrite rd_step by (apply readInt32_be, H32; lia)).
  do 3 (erewrite rd_step by (apply readInt32_be, H32; lia)).
  rewrite bool_decide_eq_true_2 by lia. erewrite rd_step by reflexivity.
  unfold lenZ. rewrite !Nat2Z.id.
  erewrite rd_step.
  2: { apply (repeat_push_exact (fun x => be_bytes 4 (gmttime x)) gmttime _ (fun x => s_in 32 (gmttime x))).
       - intros x r Hx. by apply readInt32_be.
       - eapply list.Forall_impl; [exact Htrs|]. by intros x [? _]. }
  erewrite rd_step.
  2: { apply (repeat_push_exact (fun x => byte_image (localtimeIdx x)) localtimeIdx _ (fun x => 0 <= localtimeIdx x < 256)).
       - intros x r Hx. by apply readUInt8_byte.
       - eapply list.Forall_impl; [exact Htrs|]. by intros x (_ & ? & _). }
  destruct (read_localtimes (localtimes d) (abbreviation d ++ rest) [] [] [] Hlocs) as [u Hu].
  erewrite rd_step by exact Hu.
  erewrite rd_step.
  2: { apply add_transitions_exact. eapply list.Forall_impl; [exact Htrs|]. by intros x (_ & _ & ?). }
  erewrite rd_step by by apply readBytes_exact.
  unfold set_abbreviation. simpl. by destruct d.
Qed.

(** reading a zone file gives the data it encodes, whatever follows them: the
    transitions with their local times, the local time types and the abbreviations.  A file
    that cannot be opened or is no zone file gives a time zone that is [valid] and without
    local times, and [toLocalTime] of it reads the first element of an empty vector. *)
Theorem zone_file_roundtrip :
  (forall d rest, file_ok d -> of_file (Some (encode d ++ rest)) = Ok (Some d)) /\
  of_file None = Ok (Some empty_data) /\
  (forall file, (4 <= length file)%nat -> take 4 file <> bs "TZif" -> of_file (Some file) = Ok (Some empty_data)) /\
  (forall t, toLocalTime (Some empty_data) t = Fail OutOfBounds).
Proof.
  split_and!.
  - intros d rest Hok. unfold of_file, readTimeZoneFile. by rewrite read_zone_encode.
  - done.
  - intros file Hlen Hne. unfold of_file, readTimeZoneFile. rewrite <- (take_drop 4 file) at 1.
    unfold read_zone. erewrite rd_step.
    2: { apply readBytes_exact. unfold lenZ. rewrite length_take. lia. }
    by rewrite bool_decide_eq_false_2.
  - done.
Qed.

Lemma zone_file_roundtrip_witness : of_file (Some (encode new_york ++ bs "rest")) = Ok (Some new_york).
Proof.
  apply (proj1 zone_file_roundtrip). unfold file_ok. split; [vm_compute; reflexivity|]. split; [vm_compute; reflexivity|].
  split; [vm_compute; reflexivity|]. split.
  - apply (bool_decide_eq_true_1 _). vm_compute. reflexivity.
  - repeat (apply list.Forall_cons; split; [split; [unfold s_in; simpl; lia|]; split; [simpl; lia|]; eexists; split; reflexivity|]).
    constructor.
Defined.

End TimeZone.
