(* ===== verification/TimerQueue.v ===== *)
(** Timers ([muduo/net/Timer.h], [Timer.cc], [TimerId.h], [TimerQueue.h], [TimerQueue.cc]).

    A [Timer] is an object of the heap; the queue and the callbacks hold its address, so
    a use after [delete] is visible.  A callback is a program that may call [addTimer]
    and [cancel] on the queue; [clock] gives the results of [Timestamp::now()], [alloc]
    the addresses that [new] returns (a freed address may come back). *)
From S2P Require Import Prelude State OrderedSet Timestamp.
Open Scope Z_scope.

(** What the model needs of [operator new]: the address of a new object is not that of a
    live one, not null, and below [UINTPTR_MAX]. *)
Definition UINTPTR_MAX : Z := 2 ^ 64 - 1.

Class Allocator := {
  alloc : gset Z -> option Z;
  alloc_fresh : forall live a, alloc live = Some a -> a ∉ live /\ 0 < a < UINTPTR_MAX
}.

(** An allocator that reuses the lowest free address. *)
Fixpoint first_free (n : nat) (a : Z) (live : gset Z) : option Z :=
  match n with
  | O => None
  | S n' => if decide (a ∈ live) then first_free n' (a + 16) live else Some a
  end.

Lemma first_free_spec n a live b :
  0 < a -> first_free n a live = Some b -> b ∉ live /\ a <= b < a + 16 * Z.of_nat n.
Proof.
  revert a; induction n as [|n IH]; intros a Ha; simpl; [done|].
  destruct (decide (a ∈ live)); [|intros [= <-]; split; [done|lia]].
  intros Hb. apply IH in Hb as [? ?]; [|lia]. split; [done|lia].
Qed.

#[export] Program Instance lowest_free_allocator : Allocator := {
  alloc live := if bool_decide (Z.of_nat (S (size live)) < 2 ^ 32)
                then first_free (S (size live)) 4096 live else None
}.
Next Obligation.
  intros live a. cbv beta. destruct (bool_decide_reflect (Z.of_nat (S (size live)) < 2 ^ 32)) as [Hs|]; [|done].
  intros Ha. apply first_free_spec in Ha as [? ?]; [|lia].
  unfold UINTPTR_MAX. split; [done|]. lia.
Qed.

Module TimerQueue.
Section timers.
(** [C]: what a [TimerCallback] is bound to. *)
Context {C : Type} `{Allocator} (clock : nat -> Z).

Record Timer := mkTimer {
  callback_ : C;
  expiration_ : Timestamp.t;
  interval_ : double;
  repeat_ : bool;
  sequence_ : Z
}.

(** [TimerId] and [ActiveTimer]: the address and the sequence number. *)
Abbreviation TimerId := (Z * Z)%type.

(** What the body of a callback does to the queue, in the loop thread. *)
Inductive prog :=
  | Return
  | Now (k : Timestamp.t -> prog)
  | AddTimer (cb : C) (when : Timestamp.t) (interval : double) (k : TimerId -> prog)
  | Cancel (timerId : TimerId) (k : prog).

Context (code : C -> prog).

(** What the queue does that can be seen from outside. *)
Inductive event :=
  | EvRun (id : TimerId) (timer : Timer)
  | EvAdd (id : TimerId) (timer : Timer)
  | EvCancel (id : TimerId).

Abbreviation timespec := (Z * Z)%type.

(** [timerfd_]: the last setting that has not been read back, with the expiration it was
    set for. [ticks] counts the calls of [Timestamp::now()]. *)
Record t := mk {
  heap : gmap Z Timer;
  s_numCreated_ : Z;
  timers_ : list (Timestamp.t * Z);
  activeTimers_ : list TimerId;
  callingExpiredTimers_ : bool;
  cancelingTimers_ : list TimerId;
  timerfd_ : option (Timestamp.t * timespec);
  ticks : nat;
  log : list event
}.

Definition set_heap h s := mk h (s_numCreated_ s) (timers_ s) (activeTimers_ s)
  (callingExpiredTimers_ s) (cancelingTimers_ s) (timerfd_ s) (ticks s) (log s).
Definition set_numCreated n s := mk (heap s) n (timers_ s) (activeTimers_ s)
  (callingExpiredTimers_ s) (cancelingTimers_ s) (timerfd_ s) (ticks s) (log s).
Definition set_timers l s := mk (heap s) (s_numCreated_ s) l (activeTimers_ s)
  (callingExpiredTimers_ s) (cancelingTimers_ s) (timerfd_ s) (ticks s) (log s).
Definition set_active l s := mk (heap s) (s_numCreated_ s) (timers_ s) l
  (callingExpiredTimers_ s) (cancelingTimers_ s) (timerfd_ s) (ticks s) (log s).
Definition set_calling b s := mk (heap s) (s_numCreated_ s) (timers_ s) (activeTimers_ s)
  b (cancelingTimers_ s) (timerfd_ s) (ticks s) (log s).
Definition set_canceling l s := mk (heap s) (s_numCreated_ s) (timers_ s) (activeTimers_ s)
  (callingExpiredTimers_ s) l (timerfd_ s) (ticks s) (log s).
Definition set_timerfd x s := mk (heap s) (s_numCreated_ s) (timers_ s) (activeTimers_ s)
  (callingExpiredTimers_ s) (cancelingTimers_ s) x (ticks s) (log s).
Definition set_ticks n s := mk (heap s) (s_numCreated_ s) (timers_ s) (activeTimers_ s)
  (callingExpiredTimers_ s) (cancelingTimers_ s) (timerfd_ s) n (log s).
Definition set_log l s := mk (heap s) (s_numCreated_ s) (timers_ s) (activeTimers_ s)
  (callingExpiredTimers_ s) (cancelingTimers_ s) (timerfd_ s) (ticks s) l.

(** [TimerQueue(loop)], with a fresh [Timer::s_numCreated_]. *)
Definition init : t := mk ∅ 0 [] [] false [] None 0 [].

Abbreviation M := (ST t).

(** ** The heap *)

Definition deref (a : Z) : M Timer :=
  h ← gets heap;
  match h !! a with Some x => mret x | None => fail UseAfterFree end.

Definition delete_ (a : Z) : M unit :=
  _ ← deref a;
  modify (fun s => set_heap (delete a (heap s)) s).

Definition emit (e : event) : M unit := modify (fun s => set_log (log s ++ [e]) s).

Definition now : M Timestamp.t :=
  n ← gets ticks;
  _ ← modify (set_ticks (S n));
  mret (clock n).

(** [new Timer(cb, when, interval)]. *)
Definition new_Timer (cb : C) (when : Timestamp.t) (interval : double) : M Z :=
  s ← get;
  match alloc (dom (heap s)) with
  | None => fail BadAlloc
  | Some a =>
      let n := swrap 64 (s_numCreated_ s + 1) in
      let timer := mkTimer cb when interval (double_gt0 interval) n in
      _ ← put (set_heap (<[a := timer]> (heap s)) (set_numCreated n s));
      mret a
  end.

(** [Timer::restart]. *)
Definition restart (a : Z) (now : Timestamp.t) : M unit :=
  x ← deref a;
  e ← (if repeat_ x then lift (Timestamp.addTime now (interval_ x)) else mret Timestamp.invalid);
  modify (fun s => set_heap (<[a := mkTimer (callback_ x) e (interval_ x) (repeat_ x) (sequence_ x)]> (heap s)) s).

(** ** The timer descriptor *)

Definition howMuchTimeFromNow (when : Timestamp.t) : M timespec :=
  t ← now;
  microseconds ← lift (int64_sub when t);
  let microseconds := if bool_decide (microseconds < 100) then 100 else microseconds in
  mret (Z.quot microseconds Timestamp.kMicroSecondsPerSecond,
        Z.rem microseconds Timestamp.kMicroSecondsPerSecond * 1000).

(** [timerfd_settime] of a valid setting succeeds. *)
Definition resetTimerfd (expiration : Timestamp.t) : M unit :=
  newValue ← howMuchTimeFromNow expiration;
  modify (set_timerfd (Some (expiration, newValue))).

(** [readTimerfd]: a full read ([n = 8]) means the setting has expired; otherwise an
    error is logged and the setting stays. *)
Definition readTimerfd (full : bool) : M unit :=
  when_ full (modify (set_timerfd None)).

(** ** The queue *)

Definition same_size (s : t) : bool :=
  bool_decide (length (timers_ s) = length (activeTimers_ s)).

Definition insert (timer : Z) : M bool :=
  s ← get;
  _ ← sassert (same_size s);
  x ← deref timer;
  let when := expiration_ x in
  let earliestChanged := match timers_ s with
                         | [] => true
                         | (first, _) :: _ => bool_decide (when < first)
                         end in
  let '(l, fresh) := OrderedSet.insert (when, timer) (timers_ s) in
  _ ← modify (set_timers l);
  _ ← sassert fresh;
  let '(l, fresh) := OrderedSet.insert (timer, sequence_ x) (activeTimers_ s) in
  _ ← modify (set_active l);
  _ ← sassert fresh;
  s ← get;
  _ ← sassert (same_size s);
  mret earliestChanged.

Definition addTimerInLoop (timer : Z) : M unit :=
  earliestChanged ← insert timer;
  x ← deref timer;
  _ ← emit (EvAdd (timer, sequence_ x) x);
  when_ earliestChanged (resetTimerfd (expiration_ x)).

(** [addTimer] called in the loop thread, where [runInLoop] runs the functor at once. *)
Definition addTimer (cb : C) (when : Timestamp.t) (interval : double) : M TimerId :=
  timer ← new_Timer cb when interval;
  _ ← addTimerInLoop timer;
  x ← deref timer;
  mret (timer, sequence_ x).

Definition cancelInLoop (timerId : TimerId) : M unit :=
  s ← get;
  _ ← sassert (same_size s);
  _ ← emit (EvCancel timerId);
  _ ← (if OrderedSet.mem timerId (activeTimers_ s) then
         x ← deref timerId.1;
         let '(l, n) := OrderedSet.erase (expiration_ x, timerId.1) (timers_ s) in
         _ ← modify (set_timers l);
         _ ← sassert (bool_decide (n = 1));
         _ ← delete_ timerId.1;
         modify (set_active (OrderedSet.erase timerId (activeTimers_ s)).1)
       else when_ (callingExpiredTimers_ s)
         (modify (set_canceling (OrderedSet.insert timerId (cancelingTimers_ s)).1)));
  s ← get;
  sassert (same_size s).

Definition erase_active (it : Timestamp.t * Z) : M unit :=
  x ← deref it.2;
  l ← gets activeTimers_;
  let '(l, n) := OrderedSet.erase (it.2, sequence_ x) l in
  _ ← modify (set_active l);
  sassert (bool_decide (n = 1)).

Definition getExpired (now : Timestamp.t) : M (list (Timestamp.t * Z)) :=
  s ← get;
  _ ← sassert (same_size s);
  let '(expired, rest) := OrderedSet.lower_bound (now, UINTPTR_MAX) (timers_ s) in
  _ ← sassert (match rest with [] => true | (first, _) :: _ => bool_decide (now < first) end);
  _ ← modify (set_timers rest);
  _ ← for_each erase_active expired;
  s ← get;
  _ ← sassert (same_size s);
  mret expired.

Definition reset_one (now : Timestamp.t) (it : Timestamp.t * Z) : M unit :=
  x ← deref it.2;
  canceling ← gets cancelingTimers_;
  if repeat_ x && negb (OrderedSet.mem (it.2, sequence_ x) canceling) then
    _ ← restart it.2 now;
    _ ← insert it.2;
    mret tt
  else delete_ it.2.

Definition reset (expired : list (Timestamp.t * Z)) (now : Timestamp.t) : M unit :=
  _ ← for_each (reset_one now) expired;
  l ← gets timers_;
  nextExpire ← (match l with
                | [] => mret Timestamp.Timestamp
                | (_, a) :: _ => x ← deref a; mret (expiration_ x)
                end);
  when_ (Timestamp.valid nextExpire) (resetTimerfd nextExpire).

(** Running the body of a callback, and [Timer::run]. *)
Fixpoint run_prog (p : prog) : M unit :=
  match p with
  | Return => mret tt
  | Now k => x ← now; run_prog (k x)
  | AddTimer cb when interval k => id ← addTimer cb when interval; run_prog (k id)
  | Cancel id k => _ ← cancelInLoop id; run_prog k
  end.

Definition run (it : Timestamp.t * Z) : M unit :=
  x ← deref it.2;
  _ ← emit (EvRun (it.2, sequence_ x) x);
  run_prog (code (callback_ x)).

Definition handleRead (full : bool) : M unit :=
  now_ ← now;
  _ ← readTimerfd full;
  expired ← getExpired now_;
  _ ← modify (set_calling true);
  _ ← modify (set_canceling []);
  _ ← for_each run expired;
  _ ← modify (set_calling false);
  reset expired now_.

(** The destructor deletes the timers that are left. *)
Definition destroy : M unit :=
  l ← gets timers_;
  for_each (fun it => delete_ it.2) l.

(** ** The abstract timer service

    [P] is the pending timers, by identifier; [F] the timers outside the queue (created
    but not yet added, or expired and not yet reset), by address. *)

Implicit Types (F : gmap Z Timer) (P : gmap TimerId Timer).

Record Rep F P (s : t) : Prop := {
  rep_heap : forall a x, heap s !! a = Some x <-> P !! (a, sequence_ x) = Some x \/ F !! a = Some x;
  rep_seq : forall a q x, P !! (a, q) = Some x -> sequence_ x = q;
  rep_disj : forall a q x, P !! (a, q) = Some x -> F !! a = None;
  rep_timers : forall w a, (w, a) ∈ timers_ s <-> exists q x, P !! (a, q) = Some x /\ expiration_ x = w;
  rep_active : forall id, id ∈ activeTimers_ s <-> is_Some (P !! id);
  rep_timers_sorted : OrderedSet.sorted (timers_ s);
  rep_active_sorted : OrderedSet.sorted (activeTimers_ s);
  rep_size : length (timers_ s) = length (activeTimers_ s);
  rep_range : forall a x, heap s !! a = Some x -> 0 < a < UINTPTR_MAX;
  rep_canceling : OrderedSet.sorted (cancelingTimers_ s);
  rep_repeat : forall a x, heap s !! a = Some x -> repeat_ x = double_gt0 (interval_ x)
}.

(** The fields that the heap and the sets do not concern. *)
Definition same_rest (s s' : t) : Prop :=
  s_numCreated_ s' = s_numCreated_ s /\ callingExpiredTimers_ s' = callingExpiredTimers_ s /\
  cancelingTimers_ s' = cancelingTimers_ s /\ timerfd_ s' = timerfd_ s /\
  ticks s' = ticks s /\ log s' = log s.

(** The faults that stay possible: no memory, and times that do not fit in [int64_t]. *)
Definition resource_fault (e : fault) : Prop := e = BadAlloc \/ e = Overflow.

Lemma rep_P_heap F P s a q x : Rep F P s -> P !! (a, q) = Some x -> heap s !! a = Some x.
Proof. intros HR HP. apply (rep_heap _ _ _ HR). left. by rewrite (rep_seq _ _ _ HR a q x HP). Qed.

Lemma rep_F_heap F P s a x : Rep F P s -> F !! a = Some x -> heap s !! a = Some x.
Proof. intros HR HF. apply (rep_heap _ _ _ HR). by right. Qed.

(** An address has at most one pending timer. *)
Lemma rep_unique F P s a q1 q2 x1 x2 :
  Rep F P s -> P !! (a, q1) = Some x1 -> P !! (a, q2) = Some x2 -> q1 = q2 /\ x1 = x2.
Proof.
  intros HR H1 H2. pose proof (rep_P_heap _ _ _ _ _ _ HR H1). pose proof (rep_P_heap _ _ _ _ _ _ HR H2).
  simplify_eq. split; [|done]. by rewrite <- (rep_seq _ _ _ HR _ _ _ H1), (rep_seq _ _ _ HR _ _ _ H2).
Qed.

Lemma same_size_rep F P s : Rep F P s -> same_size s = true.
Proof. intros HR. apply bool_decide_eq_true, (rep_size _ _ _ HR). Qed.

Lemma rep_init : Rep ∅ ∅ init.
Proof.
  split; simpl; try apply OrderedSet.sorted_nil; try done.
  - intros a x. rewrite !lookup_empty. naive_solver.
  - intros w a. rewrite elem_of_nil. setoid_rewrite lookup_empty. naive_solver.
  - intros id. rewrite elem_of_nil, lookup_empty. split; [done|]. by intros [? ?].
Qed.

Lemma wp_deref E a x Q s : heap s !! a = Some x -> Q x s -> wp E (deref a) Q s.
Proof.
  intros Hx HQ. unfold wp, deref, gets, mbind, st_bind. by rewrite Hx.
Qed.

Lemma rep_not_pending F P s a x q : Rep F P s -> F !! a = Some x -> P !! (a, q) = None.
Proof.
  intros HR HF. apply eq_None_not_Some. intros [y Hy].
  pose proof (rep_disj _ _ _ HR _ _ _ Hy). congruence.
Qed.

Lemma timers_fresh F P s a x w : Rep F P s -> F !! a = Some x -> (w, a) ∉ timers_ s.
Proof.
  intros HR HF. rewrite (rep_timers _ _ _ HR). intros (q & y & Hy & _).
  by rewrite (rep_not_pending _ _ _ _ _ q HR HF) in Hy.
Qed.

Lemma active_fresh F P s a x q : Rep F P s -> F !! a = Some x -> (a, q) ∉ activeTimers_ s.
Proof.
  intros HR HF. rewrite (rep_active _ _ _ HR), (rep_not_pending _ _ _ _ _ q HR HF). by intros [? ?].
Qed.

Lemma rep_insert F P s a x :
  Rep F P s -> F !! a = Some x ->
  Rep (delete a F) (<[(a, sequence_ x) := x]> P)
    (set_active (OrderedSet.insert (a, sequence_ x) (activeTimers_ s)).1
      (set_timers (OrderedSet.insert (expiration_ x, a) (timers_ s)).1 s)).
Proof.
  intros HR HF. pose proof (fun q => rep_not_pending _ _ _ _ _ q HR HF) as HPn.
  split; simpl.
  - intros b y. rewrite (rep_heap _ _ _ HR).
    destruct (decide (b = a)) as [->|Hb].
    + rewrite lookup_delete_eq, HPn, HF. split.
      * intros [?|[= ->]]; [done|]. left. apply lookup_insert_eq.
      * intros [HP|?]; [|done]. apply lookup_insert_Some in HP as [[_ ->]|[_ HP]]; [by right|].
        by rewrite HPn in HP.
    + rewrite lookup_insert_ne, lookup_delete_ne by congruence. done.
  - intros b q y [[[= <- <-] ->]|[_ HP]]%lookup_insert_Some; [done|]. by eapply rep_seq.
  - intros b q y [[[= <- <-] ->]|[_ HP]]%lookup_insert_Some; [apply lookup_delete_eq|].
    apply lookup_delete_None. right. by eapply rep_disj.
  - intros w b. rewrite OrderedSet.elem_of_insert, (rep_timers _ _ _ HR). split.
    + intros [[= -> ->]|(q & y & HP & Hw)].
      * exists (sequence_ x), x. by rewrite lookup_insert_eq.
      * exists q, y. rewrite lookup_insert_ne; [done|]. intros [= <- <-]. by rewrite HPn in HP.
    + intros (q & y & HP & Hw). apply lookup_insert_Some in HP as [[[= <- <-] ->]|[_ HP]].
      * left. by subst.
      * right. eauto.
  - intros [b q]. rewrite OrderedSet.elem_of_insert, (rep_active _ _ _ HR), lookup_insert_is_Some'.
    naive_solver.
  - apply OrderedSet.sorted_insert, HR.
  - apply OrderedSet.sorted_insert, HR.
  - rewrite !OrderedSet.length_insert; [f_equal; apply HR| |];
      apply OrderedSet.insert_new; [apply HR|by eapply active_fresh|apply HR|by eapply timers_fresh].
  - apply HR.
  - apply HR.
  - apply HR.
Qed.

(** [insert] moves a timer from [F] to [P], and reports whether it comes first. *)
Lemma insert_spec F P s a x :
  Rep F P s -> F !! a = Some x ->
  exists s' b, insert a s = Ok (b, s') /\ Rep (delete a F) (<[(a, sequence_ x) := x]> P) s' /\
    same_rest s s' /\ heap s' = heap s /\
    timers_ s' = (OrderedSet.insert (expiration_ x, a) (timers_ s)).1 /\
    b = match timers_ s with [] => true | (first, _) :: _ => bool_decide (expiration_ x < first) end.
Proof.
  intros HR HF. pose proof (rep_F_heap _ _ _ _ _ HR HF) as Hh.
  pose proof (rep_insert _ _ _ _ _ HR HF) as HR'.
  pose proof (proj2 (OrderedSet.insert_new _ _ (rep_timers_sorted _ _ _ HR))
    (timers_fresh _ _ _ _ _ (expiration_ x) HR HF)) as Hn1.
  pose proof (proj2 (OrderedSet.insert_new _ _ (rep_active_sorted _ _ _ HR))
    (active_fresh _ _ _ _ _ (sequence_ x) HR HF)) as Hn2.
  pose proof (same_size_rep _ _ _ HR') as Hsz.
  unfold insert, mbind, st_bind, get, sassert, lift. rewrite (same_size_rep _ _ _ HR). cbn [check].
  unfold deref at 1, gets, mbind, st_bind. rewrite Hh. cbn.
  destruct (OrderedSet.insert (expiration_ x, a) (timers_ s)) as [l1 b1].
  destruct (OrderedSet.insert (a, sequence_ x) (activeTimers_ s)) as [l2 b2].
  cbn in *. subst b1 b2. cbn. change (mk _ _ _ _ _ _ _ _ _) with (set_active l2 (set_timers l1 s)).
  rewrite Hsz. eexists _, _. split; [reflexivity|]. split; [done|]. by unfold same_rest.
Qed.

(** [Rep] reads five fields. *)
Lemma rep_same F P s s' :
  Rep F P s -> heap s' = heap s -> timers_ s' = timers_ s -> activeTimers_ s' = activeTimers_ s ->
  OrderedSet.sorted (cancelingTimers_ s') -> Rep F P s'.
Proof. intros [] E1 E2 E3 Hc. split; rewrite ?E1, ?E2, ?E3; done. Qed.

(** ** The alarm

    [alarm_ok true]: when a timer is pending the descriptor is armed, for an expiration
    not after the earliest one, with a valid setting of at least 100 microseconds.
    While expired timers are handled this holds for times before the epoch only. *)
Definition good_setting (ts : timespec) : Prop :=
  0 <= ts.1 /\ 0 <= ts.2 < 1000000000 /\ 100000 <= ts.1 * 1000000000 + ts.2.

Definition alarm_ok (strict : bool) (s : t) : Prop :=
  match timers_ s with
  | [] => True
  | (w, _) :: _ => (strict = false -> w <= 0) ->
      exists e ts, timerfd_ s = Some (e, ts) /\ e <= w /\ good_setting ts
  end.

Definition alarm_kept (s s' : t) : Prop := forall strict, alarm_ok strict s -> alarm_ok strict s'.

Lemma alarm_same s s' : timers_ s' = timers_ s -> timerfd_ s' = timerfd_ s -> alarm_kept s s'.
Proof. intros E1 E2 strict. unfold alarm_ok. by rewrite E1, E2. Qed.

Lemma alarm_trans s1 s2 s3 : alarm_kept s1 s2 -> alarm_kept s2 s3 -> alarm_kept s1 s3.
Proof. intros H1 H2 strict Hs. by apply H2, H1. Qed.

Lemma resetTimerfd_spec e s :
  wp resource_fault (resetTimerfd e)
    (fun _ s' => exists ts, s' = set_timerfd (Some (e, ts)) (set_ticks (S (ticks s)) s) /\ good_setting ts) s.
Proof.
  unfold resetTimerfd, howMuchTimeFromNow, now. repeat wp_step.
  unfold int64_sub, check. case_bool_decide as Hr; simpl; [|by right].
  repeat wp_step. eexists. split; [reflexivity|].
  set (d := if bool_decide (_ < 100) then _ else _).
  assert (100 <= d) by (subst d; case_bool_decide; lia). clearbody d.
  unfold good_setting, Timestamp.kMicroSecondsPerSecond. simpl. div_lia.
Qed.

(** ** Adding *)

Lemma addTimerInLoop_spec F P s a x :
  Rep F P s -> F !! a = Some x ->
  wp resource_fault (addTimerInLoop a)
    (fun _ s' => Rep (delete a F) (<[(a, sequence_ x) := x]> P) s' /\ heap s' = heap s /\
       log s' = log s ++ [EvAdd (a, sequence_ x) x] /\ alarm_kept s s' /\
       callingExpiredTimers_ s' = callingExpiredTimers_ s /\
       cancelingTimers_ s' = cancelingTimers_ s) s.
Proof.
  intros HR HF. destruct (insert_spec _ _ _ _ _ HR HF) as (s1 & b & Hi & HR1 & Hrest & Hh & Ht & Hb).
  destruct Hrest as (En & Ecall & Ecan & Efd & Etk & Elog).
  unfold addTimerInLoop. apply wp_bind. unfold wp at 1. rewrite Hi.
  apply wp_bind. apply (wp_deref _ _ x); [rewrite Hh; by eapply rep_F_heap|].
  unfold emit. repeat wp_step.
  - wp_use resetTimerfd_spec. intros [] s' (ts & -> & Hts). simpl.
    split_and!; [|done|by rewrite Elog| |done..].
    + eapply rep_same; [exact HR1|done..|]. simpl. rewrite Ecan. apply HR.
    + intros strict _. unfold alarm_ok. simpl. rewrite Ht.
      assert (exists l, (OrderedSet.insert (expiration_ x, a) (timers_ s)).1 = (expiration_ x, a) :: l) as [l ->].
      { destruct (timers_ s) as [|[w b'] l]; simpl; [eauto|]. symmetry in Hb. apply bool_decide_eq_true in Hb.
        rewrite (proj2 (Z.ltb_lt _ _)) by done. simpl. eauto. }
      intros _. exists (expiration_ x), ts. split_and!; [done|lia|done].
  - split_and!; [|done|by rewrite Elog| |done..].
    + eapply rep_same; [exact HR1|done..|]. simpl. rewrite Ecan. apply HR.
    + intros strict Hal. unfold alarm_ok in *. simpl. rewrite Ht, Efd.
      destruct (timers_ s) as [|[w b'] l]; [done|]. symmetry in Hb. apply bool_decide_eq_false in Hb.
      simpl. rewrite (proj2 (Z.ltb_ge _ _)) by lia. simpl.
      destruct (_ && _) eqn:E1; simpl.
      * apply andb_prop in E1 as [E1 _]. apply negb_true_iff, Z.ltb_ge in E1.
        replace (expiration_ x) with w by lia. done.
      * destruct (_ || _); [|done]. destruct (OrderedSet.insert _ l). done.
Qed.

Lemma new_Timer_spec F P s cb when interval :
  Rep F P s ->
  wp resource_fault (new_Timer cb when interval)
    (fun a s' => exists x, heap s !! a = None /\ Rep (<[a := x]> F) P s' /\ alarm_kept s s' /\
       heap s' = <[a := x]> (heap s) /\ log s' = log s /\
       callback_ x = cb /\ expiration_ x = when /\ interval_ x = interval /\
       sequence_ x = swrap 64 (s_numCreated_ s + 1) /\
       callingExpiredTimers_ s' = callingExpiredTimers_ s /\
       cancelingTimers_ s' = cancelingTimers_ s) s.
Proof.
  intros HR. unfold new_Timer. apply wp_bind, wp_get.
  destruct (alloc (dom (heap s))) as [a|] eqn:Ha; [|apply wp_fail; by left].
  apply alloc_fresh in Ha as [Hfresh Hrange]. apply not_elem_of_dom in Hfresh.
  repeat wp_step. set (x := mkTimer _ _ _ _ _). exists x. simpl.
  assert (forall q, P !! (a, q) = None) as HPn.
  { intros q. apply eq_None_not_Some. intros [y Hy]. apply (rep_P_heap _ _ _ _ _ _ HR) in Hy. congruence. }
  split_and!; try done; [|by apply alarm_same].
  split; simpl; try apply HR.
  - intros b y. destruct (decide (b = a)) as [->|Hb].
    + rewrite !lookup_insert_eq, HPn. clear code. naive_solver.
    + rewrite !lookup_insert_ne by done. apply HR.
  - intros b q y HP. rewrite lookup_insert_ne; [by eapply rep_disj|]. intros <-. by rewrite HPn in HP.
  - intros b y [[<- _]|[_ Hy]]%lookup_insert_Some; [done|]. by eapply rep_range.
  - intros b y [[_ <-]|[_ Hy]]%lookup_insert_Some; [done|]. by eapply rep_repeat.
Qed.

Lemma addTimer_spec F P s cb when interval :
  Rep F P s ->
  wp resource_fault (addTimer cb when interval)
    (fun id s' => exists x, P !! id = None /\ id.2 = sequence_ x /\ Rep F (<[id := x]> P) s' /\
       log s' = log s ++ [EvAdd id x] /\ alarm_kept s s' /\
       callback_ x = cb /\ expiration_ x = when /\ interval_ x = interval /\
       sequence_ x = swrap 64 (s_numCreated_ s + 1) /\
       callingExpiredTimers_ s' = callingExpiredTimers_ s /\
       cancelingTimers_ s' = cancelingTimers_ s) s.
Proof.
  intros HR. unfold addTimer. wp_use (new_Timer_spec F P s cb when interval HR).
  intros a s1 (x & Hn & HR1 & Hal1 & Hh1 & Hl1 & Hcb & Hw & Hi & Hq & Hc1 & Hk1).
  assert (F !! a = None) as HFn.
  { apply eq_None_not_Some. intros [y Hy]. apply (rep_F_heap _ _ _ _ _ HR) in Hy. congruence. }
  apply wp_bind. eapply wp_mono; [apply (addTimerInLoop_spec _ _ _ _ x HR1), lookup_insert_eq|].
  intros [] s2 (HR2 & Hh2 & Hl2 & Hal2 & Hc2 & Hk2). simpl.
  rewrite delete_insert_id in HR2 by done.
  apply wp_bind, (wp_deref _ _ x); [rewrite Hh2, Hh1; apply lookup_insert_eq|].
  apply wp_ret. exists x. split_and!; try done; try congruence.
  - apply eq_None_not_Some. intros [y Hy]. apply (rep_P_heap _ _ _ _ _ _ HR) in Hy. congruence.
  - by eapply alarm_trans.
Qed.

(** ** Cancelling *)

Lemma rep_cancel F P s a q x :
  Rep F P s -> P !! (a, q) = Some x ->
  Rep F (delete (a, q) P)
    (set_active (OrderedSet.erase (a, q) (activeTimers_ s)).1
      (set_heap (delete a (heap s)) (set_timers (OrderedSet.erase (expiration_ x, a) (timers_ s)).1 s))).
Proof.
  intros HR HP. pose proof (rep_P_heap _ _ _ _ _ _ HR HP) as Hh.
  pose proof (rep_seq _ _ _ HR _ _ _ HP) as Hq.
  assert ((expiration_ x, a) ∈ timers_ s) as Hin1 by (apply (rep_timers _ _ _ HR); eauto).
  assert ((a, q) ∈ activeTimers_ s) as Hin2 by (apply (rep_active _ _ _ HR); eauto).
  pose proof (rep_timers_sorted _ _ _ HR) as Hs1. pose proof (rep_active_sorted _ _ _ HR) as Hs2.
  split; simpl.
  - intros b y. destruct (decide (b = a)) as [->|Hb].
    + rewrite lookup_delete_eq. split; [done|]. intros [HP'|HF].
      * apply lookup_delete_Some in HP' as [Hne HP'].
        destruct (rep_unique _ _ _ _ _ _ _ _ HR HP HP') as [-> _]. done.
      * pose proof (rep_disj _ _ _ HR _ _ _ HP). congruence.
    + rewrite lookup_delete_ne, (rep_heap _ _ _ HR) by done.
      rewrite lookup_delete_ne by congruence. done.
  - intros b q' y [_ HP']%lookup_delete_Some. by eapply rep_seq.
  - intros b q' y [_ HP']%lookup_delete_Some. by eapply rep_disj.
  - intros w b. rewrite OrderedSet.elem_of_erase by done. rewrite (rep_timers _ _ _ HR). split.
    + intros [Hne (q' & y & HP' & Hw)]. exists q', y. split; [|done].
      apply lookup_delete_Some. split; [|done]. intros [= <- <-].
      apply Hne. by simplify_eq.
    + intros (q' & y & HP' & Hw). apply lookup_delete_Some in HP' as [Hne HP'].
      split; [|eauto]. intros [= -> ->]. apply Hne.
      by destruct (rep_unique _ _ _ _ _ _ _ _ HR HP HP') as [-> _].
  - intros id. rewrite OrderedSet.elem_of_erase by done. rewrite (rep_active _ _ _ HR).
    rewrite lookup_delete_is_Some. naive_solver.
  - by apply OrderedSet.sorted_erase.
  - by apply OrderedSet.sorted_erase.
  - pose proof (rep_size _ _ _ HR).
    destruct (OrderedSet.erase_count _ _ Hs1 Hin1), (OrderedSet.erase_count _ _ Hs2 Hin2). lia.
  - intros b y [_ Hy]%lookup_delete_Some. by eapply rep_range.
  - apply HR.
  - intros b y [_ Hy]%lookup_delete_Some. by eapply rep_repeat.
Qed.

(** Removing a pending timer never brings the first expiration forward. *)
Lemma alarm_erase s s' k :
  OrderedSet.sorted (timers_ s) -> timers_ s' = (OrderedSet.erase k (timers_ s)).1 ->
  timerfd_ s' = timerfd_ s -> alarm_kept s s'.
Proof.
  intros Hs Ht Hfd strict. unfold alarm_ok. rewrite Ht, Hfd.
  pose proof (fun y => OrderedSet.elem_of_erase k y _ Hs) as He.
  destruct (timers_ s) as [|[w b] l] eqn:El; [done|].
  destruct (OrderedSet.erase k ((w, b) :: l)).1 as [|[w' b'] l']; [done|].
  assert (w <= w') as Hle.
  { destruct (proj1 (He (w', b'))) as [_ [[= -> ->]|Hin]%elem_of_cons]; [left|done|].
    apply OrderedSet.sorted_cons in Hs as [Hf _]. apply Hf in Hin. simpl in Hin.
    apply orb_prop in Hin as [Hin|Hin].
    - apply Z.ltb_lt in Hin. lia.
    - apply andb_prop in Hin as [Hin _]. apply negb_true_iff, Z.ltb_ge in Hin. lia. }
  intros Hal Hst. destruct Hal as (e & ts & ? & ? & ?); [intros Hf; specialize (Hst Hf); lia|].
  exists e, ts. split_and!; [done|lia|done].
Qed.

Lemma cancelInLoop_spec F P s id :
  Rep F P s ->
  wp no_fault (cancelInLoop id)
    (fun _ s' => Rep F (delete id P) s' /\ log s' = log s ++ [EvCancel id] /\ alarm_kept s s' /\
       s_numCreated_ s' = s_numCreated_ s /\
       callingExpiredTimers_ s' = callingExpiredTimers_ s /\
       cancelingTimers_ s' = if callingExpiredTimers_ s && bool_decide (P !! id = None)
                             then (OrderedSet.insert id (cancelingTimers_ s)).1
                             else cancelingTimers_ s) s.
Proof.
  intros HR. unfold cancelInLoop. repeat wp_step; [by eapply same_size_rep|].
  unfold emit. wp_step.
  destruct (OrderedSet.mem id (activeTimers_ s)) eqn:Hm.
  - apply OrderedSet.mem_spec, (rep_active _ _ _ HR) in Hm as [x HP]; [|apply HR].
    destruct id as [a q]. pose proof (rep_P_heap _ _ _ _ _ _ HR HP) as Hh.
    pose proof (rep_cancel _ _ _ _ _ _ HR HP) as HR'.
    wp_focus. eapply wp_deref; [exact Hh|].
    pose proof (OrderedSet.erase_count (expiration_ x, a) (timers_ s) (rep_timers_sorted _ _ _ HR)) as Hc.
    destruct Hc as [Hc _]; [apply (rep_timers _ _ _ HR); eauto|].
    pose proof (alarm_erase s) as Hal. specialize (fun s' => Hal s' (expiration_ x, a) (rep_timers_sorted _ _ _ HR)).
    simpl in *. destruct (OrderedSet.erase (expiration_ x, a) (timers_ s)) as [l n]. simpl in *. subst n.
    repeat wp_step; [done|]. unfold delete_. wp_focus. eapply wp_deref; [exact Hh|]. repeat wp_step.
    + simpl. unfold same_size. apply bool_decide_eq_true, (rep_size _ _ _ HR').
    + split_and!; [|done|by apply Hal|done|done|].
      * eapply rep_same; [exact HR'|done..|apply HR].
      * by rewrite HP, bool_decide_eq_false_2, andb_false_r.
  - assert (P !! id = None) as HPn.
    { apply eq_None_not_Some. intros Hs. apply (rep_active _ _ _ HR) in Hs.
      apply OrderedSet.mem_spec in Hs; [congruence|apply HR]. }
    rewrite delete_id by done. wp_focus. repeat wp_step.
    + apply (same_size_rep _ _ _ HR).
    + simpl in *. split_and!; [|done|by apply alarm_same|done|done|].
      * eapply rep_same; [exact HR|done..|]. simpl. apply OrderedSet.sorted_insert, HR.
      * by rewrite bool_decide_eq_true_2.
    + apply (same_size_rep _ _ _ HR).
    + simpl in *. split_and!; [|done|by apply alarm_same|done|done|done].
      eapply rep_same; [exact HR|done..|apply HR].
Qed.

(** ** Running callbacks *)

(** The effect of an event on the pending timers, and the callbacks it runs. *)
Definition apply_event P (e : event) : gmap TimerId Timer :=
  match e with
  | EvRun _ _ => P
  | EvAdd id x => <[id := x]> P
  | EvCancel id => delete id P
  end.

Definition apply_events P (evs : list event) : gmap TimerId Timer := foldl apply_event P evs.

Definition runs (evs : list event) : list (TimerId * Timer) :=
  omap (fun e => match e with EvRun id x => Some (id, x) | _ => None end) evs.

Lemma runs_app e1 e2 : runs (e1 ++ e2) = runs e1 ++ runs e2.
Proof. apply omap_app. Qed.

(** From [s] to [s'] callbacks ran that emitted [evs]. *)
Record progress F P (s s' : t) (evs : list event) : Prop := {
  pr_log : log s' = log s ++ evs;
  pr_rep : Rep F (apply_events P evs) s';
  pr_alarm : alarm_kept s s';
  pr_calling : callingExpiredTimers_ s' = callingExpiredTimers_ s;
  pr_canceling : callingExpiredTimers_ s = true -> forall a x, F !! a = Some x ->
    (a, sequence_ x) ∈ cancelingTimers_ s' <->
    (a, sequence_ x) ∈ cancelingTimers_ s \/ EvCancel (a, sequence_ x) ∈ evs
}.

Lemma progress_refl F P s : Rep F P s -> progress F P s s [].
Proof.
  intros HR. split; [by rewrite app_nil_r|done|by intros ?|done|].
  intros _ a x _. rewrite elem_of_nil. clear code. naive_solver.
Qed.

Lemma progress_trans F P s1 s2 s3 e1 e2 :
  progress F P s1 s2 e1 -> progress F (apply_events P e1) s2 s3 e2 -> progress F P s1 s3 (e1 ++ e2).
Proof.
  intros [L1 R1 A1 C1 K1] [L2 R2 A2 C2 K2]. split.
  - by rewrite L2, L1, app_assoc.
  - unfold apply_events. by rewrite foldl_app.
  - by eapply alarm_trans.
  - congruence.
  - intros Hc a x HF. rewrite K2, K1, elem_of_app by congruence || done. split; [intros [[?|?]|?]|intros [?|[?|?]]]; auto.
Qed.

Lemma progress_emit_run F P s id x :
  Rep F P s -> progress F P s (set_log (log s ++ [EvRun id x]) s) [EvRun id x].
Proof.
  intros HR. split; [done| |by apply alarm_same|done|].
  - eapply rep_same; [exact HR|done..|apply HR].
  - intros _ a y _. rewrite list_elem_of_singleton. simpl. split; [by left|]. by intros [?|?].
Qed.

Lemma progress_add F P s cb when interval :
  Rep F P s ->
  wp resource_fault (addTimer cb when interval)
    (fun id s' => exists x, progress F P s s' [EvAdd id x]) s.
Proof.
  intros HR. eapply wp_mono; [by apply (addTimer_spec F P s cb when interval HR)|].
  intros id s' (x & Hn & Hq & HR' & Hl & Hal & _ & _ & _ & _ & Hc & Hk). exists x.
  split; [done..|]. intros _ a y HF. rewrite Hk, list_elem_of_singleton.
  split; [by left|]. by intros [?|?].
Qed.

Lemma progress_cancel F P s id :
  Rep F P s -> wp no_fault (cancelInLoop id) (fun _ s' => progress F P s s' [EvCancel id]) s.
Proof.
  intros HR. eapply wp_mono; [by apply (cancelInLoop_spec F P s id HR)|].
  intros [] s' (HR' & Hl & Hal & _ & Hc & Hk). split; [done..|].
  intros Hcall a y HF. rewrite Hk, Hcall, list_elem_of_singleton. simpl.
  pose proof (rep_not_pending _ _ _ _ _ (sequence_ y) HR HF) as HPn.
  case_bool_decide as Hp; rewrite ?OrderedSet.elem_of_insert.
  - split; intros [Hx|Hx]; [right; by rewrite Hx|by left|by right|left; congruence].
  - split; [by left|]. intros [?|[= <-]]; [done|]. by destruct Hp.
Qed.

Lemma wp_resource {A} (m : M A) Q s : wp no_fault m Q s -> wp resource_fault m Q s.
Proof. unfold wp, no_fault. by destruct (m s) as [[a s']|e]. Qed.

Lemma progress_now F P s : Rep F P s -> progress F P s (set_ticks (S (ticks s)) s) [].
Proof.
  intros HR. split; [by rewrite app_nil_r| |by apply alarm_same|done|].
  - eapply rep_same; [exact HR|done..|apply HR].
  - intros _ a y _. rewrite elem_of_nil. simpl. split; [by left|]. by intros [?|?].
Qed.

Lemma run_prog_spec F P p s :
  Rep F P s ->
  wp resource_fault (run_prog p)
    (fun _ s' => exists evs, progress F P s s' evs /\ runs evs = []) s.
Proof.
  revert P s; induction p as [|k IH|cb when interval k IH|id k IH]; intros P s HR; simpl run_prog.
  - apply wp_ret. exists []. split; [by apply progress_refl|done].
  - unfold now. repeat wp_step. pose proof (progress_now _ _ _ HR) as Hpr.
    eapply wp_mono; [apply (IH (clock (ticks s))), Hpr|].
    intros [] s' (evs & Hev & Hr). exists ([] ++ evs). split; [by eapply progress_trans|done].
  - wp_use (progress_add F P s cb when interval HR). intros id s1 [x Hpr].
    eapply wp_mono; [apply (IH id), Hpr|]. intros [] s' (evs & Hev & Hr).
    exists ([EvAdd id x] ++ evs). split; [by eapply progress_trans|done].
  - apply wp_bind, wp_resource. eapply wp_mono; [by apply (progress_cancel F P s id HR)|].
    intros [] s1 Hpr.
    eapply wp_mono; [apply IH, Hpr|]. intros [] s' (evs & Hev & Hr).
    exists ([EvCancel id] ++ evs). split; [by eapply progress_trans|done].
Qed.

(** ** Expired timers *)

Lemma erase_active_loop l s :
  OrderedSet.sorted (activeTimers_ s) -> NoDup l.*2 ->
  (forall w a, (w, a) ∈ l -> exists x, heap s !! a = Some x /\ (a, sequence_ x) ∈ activeTimers_ s) ->
  exists act, for_each erase_active l s = Ok (tt, set_active act s) /\ OrderedSet.sorted act /\
    (forall a q, (a, q) ∈ act <->
       (a, q) ∈ activeTimers_ s /\ ~ exists x, a ∈ l.*2 /\ heap s !! a = Some x /\ sequence_ x = q) /\
    length (activeTimers_ s) = (length l + length act)%nat.
Proof.
  revert s; induction l as [|[w a] l IH]; intros s Hs Hnd Hl; simpl.
  - exists (activeTimers_ s). destruct s. simpl. split_and!; [done|done| |done].
    intros b q. split; [|by intros [? _]]. intros ?. split; [done|]. intros (x & Hx & _). by apply elem_of_nil in Hx.
  - destruct (Hl w a) as (x & Hh & Hin); [left|].
    apply list.NoDup_cons in Hnd as [Hna Hnd].
    destruct (OrderedSet.erase_count _ _ Hs Hin) as [Hc Hlen].
    pose proof (OrderedSet.sorted_erase (a, sequence_ x) _ Hs) as Hs'.
    pose proof (fun y => OrderedSet.elem_of_erase (a, sequence_ x) y _ Hs) as He.
    set (s1 := set_active (OrderedSet.erase (a, sequence_ x) (activeTimers_ s)).1 s).
    assert (erase_active (w, a) s = Ok (tt, s1)) as Hone.
    { unfold erase_active, deref, mbind, st_bind, gets. simpl. rewrite Hh. simpl. subst s1.
      destruct (OrderedSet.erase _ _) as [l' n]. simpl in Hc. by subst n. }
    unfold mbind at 1, st_bind at 1. rewrite Hone.
    destruct (IH s1) as (act & -> & Hsa & Hm & Hla); [done|done| |].
    { intros w' a' Hin'. destruct (Hl w' a') as (y & Hy & Hya); [by right|].
      exists y. split; [done|]. subst s1. simpl. apply He. split; [|done].
      intros [= -> _]. apply Hna. apply list_elem_of_fmap. by exists (w', a). }
    exists act. subst s1. simpl in *. split_and!; [done|done| |lia].
    intros b q. rewrite Hm, He. setoid_rewrite elem_of_cons. split.
    + intros [[Hne Hb] Hnb]. split; [done|]. intros (y & [->|Hbl] & Hy & <-).
      * apply Hne. by simplify_eq.
      * apply Hnb. eauto.
    + intros [Hb Hnb]. split_and!; [|done|].
      * intros [= -> ->]. apply Hnb. eauto.
      * intros (y & ? & ? & ?). apply Hnb. eauto.
Qed.

(** [F'] is [F] with the timers of [P] that have expired at [now]. *)
Definition with_expired F P (now : Timestamp.t) F' : Prop :=
  forall a x, F' !! a = Some x <->
    F !! a = Some x \/ (P !! (a, sequence_ x) = Some x /\ expiration_ x <= now).

Definition unexpired (now : Timestamp.t) P : gmap TimerId Timer :=
  filter (fun '(_, x) => now < expiration_ x) P.

(** The timers that have expired, in the order of the set. *)
Definition expired_of (now : Timestamp.t) (s : t) : list (Timestamp.t * Z) :=
  (OrderedSet.lower_bound (now, UINTPTR_MAX) (timers_ s)).1.

Lemma expired_le F P s now w a :
  Rep F P s -> (w, a) ∈ timers_ s -> ltb (w, a) (now, UINTPTR_MAX) = true <-> w <= now.
Proof.
  intros HR Hin. apply (rep_timers _ _ _ HR) in Hin as (q & x & HP & _).
  apply (rep_P_heap _ _ _ _ _ _ HR), (rep_range _ _ _ HR) in HP. simpl.
  rewrite orb_true_iff, andb_true_iff, negb_true_iff, !Z.ltb_lt, Z.ltb_ge. lia.
Qed.

Lemma rep_timers_nodup F P s l : Rep F P s -> NoDup l -> (forall w a, (w, a) ∈ l -> (w, a) ∈ timers_ s) -> NoDup l.*2.
Proof.
  intros HR Hnd Hin. apply NoDup_fmap_2_strong; [|done].
  intros [w1 a1] [w2 a2] H1 H2 Heq. simpl in Heq. subst a2.
  apply Hin, (rep_timers _ _ _ HR) in H1 as (q1 & x1 & HP1 & <-).
  apply Hin, (rep_timers _ _ _ HR) in H2 as (q2 & x2 & HP2 & <-).
  by destruct (rep_unique _ _ _ _ _ _ _ _ HR HP1 HP2) as [-> ->].
Qed.

Lemma unexpired_Some now P id x : unexpired now P !! id = Some x <-> P !! id = Some x /\ now < expiration_ x.
Proof. unfold unexpired. by rewrite map_lookup_filter_Some. Qed.

(** The state after [getExpired]: the expired timers are out of both sets. *)
Lemma rep_expire F P s now F' act :
  Rep F P s -> with_expired F P now F' -> OrderedSet.sorted act ->
  (forall a q, (a, q) ∈ act <-> (a, q) ∈ activeTimers_ s /\
     ~ exists x, a ∈ (expired_of now s).*2 /\ heap s !! a = Some x /\ sequence_ x = q) ->
  length (activeTimers_ s) = (length (expired_of now s) + length act)%nat ->
  Rep F' (unexpired now P)
    (set_active act (set_timers (OrderedSet.lower_bound (now, UINTPTR_MAX) (timers_ s)).2 s)).
Proof.
  intros HR HF' Hsa Hact Hlen.
  destruct (OrderedSet.lower_bound_spec (now, UINTPTR_MAX) (timers_ s)) as (Hsplit & Hlo & Hhi);
    [apply HR|]. unfold expired_of in *.
  pose proof (rep_timers_sorted _ _ _ HR) as Hst.
  set (ex := (OrderedSet.lower_bound (now, UINTPTR_MAX) (timers_ s)).1) in *.
  set (rest := (OrderedSet.lower_bound (now, UINTPTR_MAX) (timers_ s)).2) in *.
  assert (forall w a, (w, a) ∈ timers_ s -> (w, a) ∈ ex <-> w <= now) as Hex.
  { intros w a Hin. rewrite <- (expired_le _ _ _ now w a HR Hin). split; [apply Hlo|].
    intros Hlt. rewrite Hsplit in Hin. apply elem_of_app in Hin as [?|Hin]; [done|].
    apply Hhi in Hin. congruence. }
  assert (forall a q x, P !! (a, q) = Some x -> a ∈ ex.*2 <-> expiration_ x <= now) as Hexp.
  { intros a q x HP. assert ((expiration_ x, a) ∈ timers_ s) as Hin by (apply (rep_timers _ _ _ HR); eauto).
    rewrite <- (Hex _ _ Hin). split.
    - intros ([w b] & -> & Hwb)%list_elem_of_fmap. simpl in *.
      assert ((w, b) ∈ timers_ s) as Hin' by (rewrite Hsplit; set_solver).
      apply (rep_timers _ _ _ HR) in Hin' as (q' & y & HP' & <-).
      by destruct (rep_unique _ _ _ _ _ _ _ _ HR HP HP') as [_ ->].
    - intros Hwb. apply list_elem_of_fmap. by exists (expiration_ x, a). }
  split; simpl; try apply HR.
  - intros a x. rewrite (rep_heap _ _ _ HR), unexpired_Some, (HF' a x).
    destruct (decide (now < expiration_ x)); split; intros Hor; [naive_solver lia..|].
    naive_solver lia.
  - intros a q x [HP _]%unexpired_Some. by eapply rep_seq.
  - intros a q x [HP Hlt]%unexpired_Some. apply eq_None_not_Some. intros [y Hy].
    apply HF' in Hy as [Hy|[Hy Hle]].
    + pose proof (rep_disj _ _ _ HR _ _ _ HP). congruence.
    + destruct (rep_unique _ _ _ _ _ _ _ _ HR HP Hy) as [_ ->]. lia.
  - intros w a. assert ((w, a) ∈ rest <-> (w, a) ∈ timers_ s /\ ~ w <= now) as ->.
    { split.
      - intros Hin. assert ((w, a) ∈ timers_ s) as Hin' by (rewrite Hsplit; set_solver).
        split; [done|]. rewrite <- (Hex _ _ Hin'). intros Hin''. apply Hlo in Hin''. apply Hhi in Hin. congruence.
      - intros [Hin Hw]. rewrite <- (Hex _ _ Hin) in Hw. rewrite Hsplit in Hin. set_solver. }
    rewrite (rep_timers _ _ _ HR). split.
    + intros [(q & x & HP & Hx) Hw]. exists q, x. rewrite unexpired_Some. split_and!; [done|lia|done].
    + intros (q & x & [HP Hlt]%unexpired_Some & Hx). split; [eauto|lia].
  - intros [a q]. rewrite Hact, (rep_active _ _ _ HR). split.
    + intros [[x HP] Hn]. exists x. rewrite unexpired_Some. split; [done|].
      destruct (decide (now < expiration_ x)) as [|Hlt]; [done|]. exfalso. apply Hn. exists x.
      split_and!; [apply (Hexp _ _ _ HP); lia|by eapply rep_P_heap|by eapply rep_seq].
    + intros [x [HP Hlt]%unexpired_Some]. split; [eauto|]. intros (y & Hin & Hy & Hq).
      apply (Hexp _ _ _ HP) in Hin. lia.
  - rewrite Hsplit in Hst. by apply OrderedSet.sorted_app in Hst as (_ & ? & _).
  - done.
  - pose proof (rep_size _ _ _ HR) as Hsz. rewrite Hsplit, length_app in Hsz. lia.
Qed.

Lemma expired_of_spec F P now s :
  Rep F P s ->
  OrderedSet.sorted (expired_of now s) /\ NoDup (expired_of now s).*2 /\
  (forall w a, (w, a) ∈ expired_of now s <->
     exists x, P !! (a, sequence_ x) = Some x /\ heap s !! a = Some x /\ expiration_ x = w /\ w <= now) /\
  (forall w a, (w, a) ∈ (OrderedSet.lower_bound (now, UINTPTR_MAX) (timers_ s)).2 -> now < w).
Proof.
  intros HR. pose proof (rep_timers_sorted _ _ _ HR) as Hst.
  destruct (OrderedSet.lower_bound_spec (now, UINTPTR_MAX) (timers_ s) Hst) as (Hsplit & Hlo & Hhi).
  unfold expired_of.
  set (ex := (OrderedSet.lower_bound (now, UINTPTR_MAX) (timers_ s)).1) in *.
  set (rest := (OrderedSet.lower_bound (now, UINTPTR_MAX) (timers_ s)).2) in *.
  assert (forall k, k ∈ ex -> k ∈ timers_ s) as Hsub by (intros k ?; rewrite Hsplit; set_solver).
  assert (OrderedSet.sorted ex) as Hse by (rewrite Hsplit in Hst; by apply OrderedSet.sorted_app in Hst as [? _]).
  split_and!; [done| | |].
  - eapply rep_timers_nodup; [done|by apply OrderedSet.sorted_NoDup|]. intros w a. apply Hsub.
  - intros w a. split.
    + intros Hin. pose proof (Hsub _ Hin) as Hint. pose proof Hint as (q & x & HP & Hw)%(rep_timers _ _ _ HR).
      exists x. pose proof (rep_seq _ _ _ HR _ _ _ HP) as Hq. subst q.
      split_and!; [done|by eapply rep_P_heap|done|].
      apply (expired_le _ _ _ now w a HR Hint). by apply Hlo.
    + intros (x & HP & _ & <- & Hw).
      assert ((expiration_ x, a) ∈ timers_ s) as Hin by (apply (rep_timers _ _ _ HR); eauto).
      apply (expired_le _ _ _ now _ _ HR Hin) in Hw. rewrite Hsplit in Hin.
      apply elem_of_app in Hin as [?|Hin]; [done|]. apply Hhi in Hin. congruence.
  - intros w a Hin. assert ((w, a) ∈ timers_ s) as Hint by (rewrite Hsplit; set_solver).
    apply Z.nle_gt. intros Hle. apply (expired_le _ _ _ now _ _ HR Hint) in Hle. apply Hhi in Hin. congruence.
Qed.

Lemma with_expired_exists F P now s : Rep F P s -> exists F', with_expired F P now F'.
Proof.
  intros HR. destruct (expired_of_spec _ _ now _ HR) as (_ & _ & Hex & _).
  exists (filter (fun '(a, _) => is_Some (F !! a) \/ a ∈ (expired_of now s).*2) (heap s)).
  intros a x. rewrite map_lookup_filter_Some. split.
  - intros [Hh [[y Hy]|Hin]].
    + left. pose proof (rep_F_heap _ _ _ _ _ HR Hy). congruence.
    + right. apply list_elem_of_fmap in Hin as ([w b] & -> & Hin). simpl in *.
      apply Hex in Hin as (y & HP & Hy & <- & Hle). simplify_eq. done.
  - intros [HF|[HP Hle]].
    + split; [by eapply rep_F_heap|]. left. eauto.
    + pose proof (rep_P_heap _ _ _ _ _ _ HR HP). split; [done|]. right.
      apply list_elem_of_fmap. exists (expiration_ x, a). split; [done|]. apply Hex. eauto.
Qed.

Lemma getExpired_spec F P now s :
  Rep F P s ->
  wp no_fault (getExpired now)
    (fun l s' => l = expired_of now s /\ (exists F', with_expired F P now F' /\ Rep F' (unexpired now P) s') /\
       (forall w a, (w, a) ∈ timers_ s' -> now < w) /\ log s' = log s /\
       callingExpiredTimers_ s' = callingExpiredTimers_ s /\ cancelingTimers_ s' = cancelingTimers_ s /\
       ticks s' = ticks s /\ s_numCreated_ s' = s_numCreated_ s) s.
Proof.
  intros HR. destruct (expired_of_spec _ _ now _ HR) as (Hse & Hnd & Hex & Hrest).
  destruct (with_expired_exists _ _ now _ HR) as [F' HF'].
  unfold getExpired. repeat wp_step; [by eapply same_size_rep|].
  unfold expired_of in *.
  set (ex := (OrderedSet.lower_bound (now, UINTPTR_MAX) (timers_ s)).1) in *.
  destruct (OrderedSet.lower_bound (now, UINTPTR_MAX) (timers_ s)) as [ex' rest] eqn:El.
  simpl in ex. subst ex. simpl in Hrest.
  repeat wp_step.
  { destruct rest as [|[w a] rest]; [done|]. apply bool_decide_eq_true, (Hrest w a). left. }
  destruct (erase_active_loop ex' (set_timers rest s)) as (act & Hloop & Hsa & Hact & Hlen); [apply HR|done| |].
  { intros w a Hin. apply Hex in Hin as (x & HP & Hh & _). exists x. split; [done|].
    simpl. apply (rep_active _ _ _ HR). eauto. }
  wp_focus. unfold wp at 1. rewrite Hloop. simpl in Hact, Hlen.
  pose proof (rep_expire _ _ s now F' act HR HF' Hsa) as HR'. unfold expired_of in HR'. rewrite El in HR'. simpl in HR'.
  specialize (HR' Hact Hlen).
  repeat wp_step; [apply (same_size_rep _ _ _ HR')|].
  split_and!; [done| |done..]. by exists F'.
Qed.

(** ** Re-arming *)

(** [x'] is [x] started again at [now]. *)
Definition restarted (now : Timestamp.t) (x x' : Timer) : Prop :=
  repeat_ x = true /\ exists e, Timestamp.addTime now (interval_ x) = Ok e /\
    x' = mkTimer (callback_ x) e (interval_ x) (repeat_ x) (sequence_ x).

Lemma rep_set_F F P s a x x' :
  Rep F P s -> F !! a = Some x -> repeat_ x' = double_gt0 (interval_ x') -> Rep (<[a := x']> F) P (set_heap (<[a := x']> (heap s)) s).
Proof.
  intros HR HF Hrep. pose proof (fun q => rep_not_pending _ _ _ _ _ q HR HF) as HPn.
  split; simpl; try apply HR.
  - intros b y. destruct (decide (b = a)) as [->|Hb].
    + rewrite !lookup_insert_eq, HPn. clear code. naive_solver.
    + rewrite !lookup_insert_ne by done. apply HR.
  - intros b q y HP. rewrite lookup_insert_ne; [by eapply rep_disj|]. intros <-. by rewrite HPn in HP.
  - intros b y [[<- _]|[_ Hy]]%lookup_insert_Some; [|by eapply rep_range].
    eapply rep_range; [done|]. by eapply rep_F_heap.
  - intros b y [[_ <-]|[_ Hy]]%lookup_insert_Some; [done|]. by eapply rep_repeat.
Qed.

Lemma rep_delete_F F P s a x :
  Rep F P s -> F !! a = Some x -> Rep (delete a F) P (set_heap (delete a (heap s)) s).
Proof.
  intros HR HF. pose proof (fun q => rep_not_pending _ _ _ _ _ q HR HF) as HPn.
  split; simpl; try apply HR.
  - intros b y. destruct (decide (b = a)) as [->|Hb].
    + rewrite !lookup_delete_eq, HPn. clear code. naive_solver.
    + rewrite !lookup_delete_ne by done. apply HR.
  - intros b q y HP. apply lookup_delete_None. right. by eapply rep_disj.
  - intros b y [_ Hy]%lookup_delete_Some. by eapply rep_range.
  - intros b y [_ Hy]%lookup_delete_Some. by eapply rep_repeat.
Qed.

(** While the expired timers are reset only times after the epoch are inserted. *)
Definition weak_alarm (s : t) : Prop := alarm_ok false s.

Lemma weak_alarm_insert s s' k :
  weak_alarm s -> timers_ s' = (OrderedSet.insert k (timers_ s)).1 -> timerfd_ s' = timerfd_ s ->
  0 < k.1 -> weak_alarm s'.
Proof.
  unfold weak_alarm, alarm_ok. intros Hal -> -> Hk. destruct k as [w a]. simpl in Hk.
  destruct (timers_ s) as [|[w0 b] l]; cbn [OrderedSet.insert fst]; [intros Hw; lia|].
  destruct (ltb (w, a) (w0, b)); cbn [fst]; [intros Hw; lia|].
  destruct (ltb (w0, b) (w, a)); [|done]. destruct (OrderedSet.insert _ l). done.
Qed.

Lemma reset_one_spec F P s now w a x :
  Rep F P s -> F !! a = Some x ->
  0 < now -> weak_alarm s ->
  wp resource_fault (reset_one now (w, a))
    (fun _ s' => exists P', Rep (delete a F) P' s' /\ weak_alarm s' /\
       log s' = log s /\ cancelingTimers_ s' = cancelingTimers_ s /\ callingExpiredTimers_ s' = callingExpiredTimers_ s /\
       ((exists x', restarted now x x' /\ (a, sequence_ x) ∉ cancelingTimers_ s /\
           P' = <[(a, sequence_ x) := x']> P) \/
        ((repeat_ x = false \/ (a, sequence_ x) ∈ cancelingTimers_ s) /\ P' = P))) s.
Proof.
  intros HR HF Hnow Hal. pose proof (rep_F_heap _ _ _ _ _ HR HF) as Hh. unfold reset_one.
  wp_focus. eapply wp_deref; [exact Hh|]. repeat wp_step. simpl.
  assert (OrderedSet.mem (a, sequence_ x) (cancelingTimers_ s) = bool_decide ((a, sequence_ x) ∈ cancelingTimers_ s)) as ->.
  { apply eq_true_iff_eq. rewrite bool_decide_eq_true. apply OrderedSet.mem_spec, HR. }
  destruct (repeat_ x) eqn:Hrep; simpl.
  2: { unfold delete_. wp_focus. eapply wp_deref; [exact Hh|]. wp_step. exists P.
       split_and!; [by eapply rep_delete_F|done..|]. right. split; [by left|done]. }
  case_bool_decide as Hcan; simpl.
  { unfold delete_. wp_focus. eapply wp_deref; [exact Hh|]. wp_step. exists P.
    split_and!; [by eapply rep_delete_F|done..|]. right. split; [by right|done]. }
  unfold restart. wp_focus. eapply wp_deref; [exact Hh|]. rewrite Hrep. wp_focus. wp_step.
  destruct (Timestamp.addTime now (interval_ x)) as [e|f] eqn:Ee.
  2: { right. by eapply Timestamp.addTime_fail. }
  repeat wp_step. set (x' := mkTimer _ _ _ _ _).
  pose proof (rep_repeat _ _ _ HR _ _ Hh) as Hpos.
  assert (Rep (<[a := x']> F) P (set_heap (<[a := x']> (heap s)) s)) as HR1 by (eapply rep_set_F; [done..|simpl; congruence]).
  destruct (insert_spec _ _ _ a x' HR1) as (s2 & b & Hi & HR2 & Hrest & Hh2 & Ht & _); [apply lookup_insert_eq|].
  destruct Hrest as (_ & Ec & Ek & Efd & _ & El).
  unfold wp at 1. rewrite Hi. apply wp_ret. exists (<[(a, sequence_ x) := x']> P).
  rewrite delete_insert_eq in HR2. split_and!; [done| |done..|].
  - eapply weak_alarm_insert; [exact Hal|exact Ht|exact Efd|]. simpl.
    enough (now <= e) by lia. eapply Timestamp.addTime_ge; [|exact Ee]. congruence.
  - left. exists x'. split_and!; [|done|done]. split; [done|]. exists e. split; [done|].
    subst x'. by rewrite Hrep.
Qed.

(** [P'] is [P] with the timers of [l] that are started again. *)
Definition with_restarted F (now : Timestamp.t) (cancelled : TimerId -> Prop) (l : list Z) P P' : Prop :=
  forall id x', P' !! id = Some x' <->
    P !! id = Some x' \/
    exists x, id.1 ∈ l /\ F !! id.1 = Some x /\ sequence_ x = id.2 /\ ~ cancelled id /\ restarted now x x'.

Lemma with_restarted_cons F F' P P1 P2 now (cancelled : TimerId -> Prop) a x l :
  F !! a = Some x -> (forall q, P !! (a, q) = None) -> a ∉ l ->
  (forall b, b <> a -> F' !! b = F !! b) ->
  ((exists x', restarted now x x' /\ ~ cancelled (a, sequence_ x) /\ P1 = <[(a, sequence_ x) := x']> P) \/
   ((repeat_ x = false \/ cancelled (a, sequence_ x)) /\ P1 = P)) ->
  with_restarted F' now cancelled l P1 P2 -> with_restarted F now cancelled (a :: l) P P2.
Proof.
  intros HF HPn Hal HF' HP1 H2 [b q] y. etransitivity; [apply H2|]. setoid_rewrite elem_of_cons. simpl. split.
  - intros [Hy|(z & Hin & HFz & Hq & Hnc & Hr)].
    + destruct HP1 as [(x' & Hr & Hnc & E)|[_ E]]; subst P1; [|by left].
      apply lookup_insert_Some in Hy as [[[= <- <-] <-]|[_ Hy]]; [|by left].
      right. exists x. split_and!; [by left|done..].
    + right. exists z. rewrite <- HF' by (by intros ->). split_and!; [by right|done..].
  - intros [Hy|(z & [->|Hin] & HFz & Hq & Hnc & Hr)].
    + left. destruct HP1 as [(x' & Hr & Hnc & E)|[_ E]]; subst P1; [|done].
      rewrite lookup_insert_ne; [done|]. intros [= <- <-]. by rewrite HPn in Hy.
    + left. simplify_eq. destruct HP1 as [(x' & Hr' & _ & E)|[[Hf|Hc] E]]; subst P1.
      * destruct Hr as (_ & e & He & ->), Hr' as (_ & e' & He' & ->).
        rewrite He in He'. simplify_eq. apply lookup_insert_eq.
      * destruct Hr as [Hr _]. congruence.
      * done.
    + right. exists z. rewrite HF' by (by intros ->). done.
Qed.

Lemma foldr_delete F a (l : list Z) : delete a (foldr delete F l) = foldr delete (delete a F) l.
Proof. induction l as [|b l IH]; simpl; [done|]. by rewrite delete_delete, IH. Qed.

Lemma reset_loop F P s now l :
  Rep F P s -> NoDup l.*2 -> (forall a, a ∈ l.*2 -> is_Some (F !! a)) -> 0 < now -> weak_alarm s ->
  wp resource_fault (for_each (reset_one now) l)
    (fun _ s' => exists P', Rep (foldr delete F l.*2) P' s' /\ weak_alarm s' /\ log s' = log s /\
       cancelingTimers_ s' = cancelingTimers_ s /\ callingExpiredTimers_ s' = callingExpiredTimers_ s /\
       with_restarted F now (fun id => id ∈ cancelingTimers_ s) l.*2 P P') s.
Proof.
  revert F P s; induction l as [|[w a] l IH]; intros F P s HR Hnd Hin Hnow Hal; simpl.
  - apply wp_ret. exists P. split_and!; [done..|]. intros id x'. split; [by left|].
    intros [?|(x & Hx & _)]; [done|]. by apply elem_of_nil in Hx.
  - apply list.NoDup_cons in Hnd as [Hna Hnd]. destruct (Hin a) as [x HF]; [left|].
    wp_focus. eapply wp_mono; [by apply (reset_one_spec F P s now w a x HR HF Hnow Hal)|].
    intros [] s1 (P1 & HR1 & Hal1 & Hl1 & Hk1 & Hc1 & HP1).
    eapply wp_mono; [apply (IH (delete a F) P1 s1 HR1 Hnd)|]; [|done|done|].
    { intros b Hb. rewrite lookup_delete_ne by (intros ->; by apply Hna). apply Hin. by right. }
    intros [] s' (P' & HR' & Hal' & Hl' & Hk' & Hc' & HP'). exists P'.
    rewrite Hl', Hl1, Hk', Hk1, Hc', Hc1. split_and!; [|done..|].
    + by rewrite foldr_delete.
    + rewrite Hk1 in HP'. eapply with_restarted_cons; [exact HF| |done| |exact HP1|exact HP'].
      * intros q. by eapply rep_not_pending.
      * intros b Hb. by rewrite lookup_delete_ne.
Qed.

Lemma reset_spec F P s now l :
  Rep F P s -> NoDup l.*2 -> (forall a, a ∈ l.*2 -> is_Some (F !! a)) -> 0 < now -> weak_alarm s ->
  wp resource_fault (reset l now)
    (fun _ s' => exists P', Rep (foldr delete F l.*2) P' s' /\ alarm_ok true s' /\ log s' = log s /\
       callingExpiredTimers_ s' = callingExpiredTimers_ s /\
       with_restarted F now (fun id => id ∈ cancelingTimers_ s) l.*2 P P') s.
Proof.
  intros HR Hnd Hin Hnow Hal. unfold reset. wp_use (reset_loop F P s now l HR Hnd Hin Hnow Hal).
  intros [] s1 (P' & HR1 & Hal1 & Hl1 & Hk1 & Hc1 & HP'). wp_focus. apply wp_gets.
  destruct (timers_ s1) as [|[w a] ts] eqn:Et.
  - apply wp_bind, wp_ret. simpl. apply wp_ret. exists P'. split_and!; [done| |done..].
    unfold alarm_ok. by rewrite Et.
  - assert ((w, a) ∈ timers_ s1) as Hwa by (rewrite Et; left).
    apply (rep_timers _ _ _ HR1) in Hwa as (q & x & HP & Hw).
    wp_focus. eapply wp_deref; [by eapply rep_P_heap|]. apply wp_ret. rewrite Hw.
    destruct (Timestamp.valid w) eqn:Ev; simpl.
    + eapply wp_mono; [apply resetTimerfd_spec|]. intros [] s2 (tsp & -> & Hts). exists P'.
      split_and!; [|  |done..].
      * eapply rep_same; [exact HR1|done..|apply HR1].
      * unfold alarm_ok. simpl. rewrite Et. intros _. exists w, tsp. split_and!; [done|lia|done].
    + apply wp_ret. exists P'. split_and!; [done| |done..].
      unfold weak_alarm, alarm_ok in *. rewrite Et in *. intros _. apply Hal1. intros _.
      unfold Timestamp.valid in Ev. apply bool_decide_eq_false in Ev. lia.
Qed.

(** ** [handleRead] *)

Lemma run_spec F P s it x :
  Rep F P s -> F !! it.2 = Some x ->
  wp resource_fault (run it)
    (fun _ s' => exists evs, progress F P s s' evs /\ runs evs = [((it.2, sequence_ x), x)]) s.
Proof.
  intros HR HF. unfold run. wp_focus. eapply wp_deref; [by eapply rep_F_heap|].
  unfold emit. wp_focus. apply wp_modify.
  pose proof (progress_emit_run _ _ _ (it.2, sequence_ x) x HR) as Hpr.
  eapply wp_mono; [apply run_prog_spec, Hpr|]. intros [] s' (evs & Hev & Hr).
  eexists. split; [by eapply progress_trans|]. by rewrite runs_app, Hr.
Qed.

(** The identifier and the object of each expired timer, in order. *)
Definition objects (F : gmap Z Timer) (l : list (Timestamp.t * Z)) : list (TimerId * Timer) :=
  omap (fun it => x ← F !! it.2; Some ((it.2, sequence_ x), x)) l.

Lemma run_loop F P s l :
  Rep F P s -> (forall a, a ∈ l.*2 -> is_Some (F !! a)) ->
  wp resource_fault (for_each run l)
    (fun _ s' => exists evs, progress F P s s' evs /\ runs evs = objects F l) s.
Proof.
  revert P s; induction l as [|it l IH]; intros P s HR Hin; simpl.
  - apply wp_ret. exists []. split; [by apply progress_refl|done].
  - destruct (Hin it.2) as [x HF]; [left|].
    wp_focus. eapply wp_mono; [by apply (run_spec F P s it x HR HF)|]. intros [] s1 (e1 & Hp1 & Hr1).
    eapply wp_mono; [apply IH; [apply Hp1|]|].
    { intros a Ha. apply Hin. by right. }
    intros [] s2 (e2 & Hp2 & Hr2). exists (e1 ++ e2). split; [by eapply progress_trans|].
    rewrite runs_app, Hr1, Hr2. unfold objects. simpl. by rewrite HF.
Qed.

(** What [handleRead] at time [now] makes of the pending timers, given the events [evs]
    of the callbacks: those that have not expired, changed by [evs], and those of the
    expired ones that repeat and were not cancelled meanwhile, started again. *)
Definition after_read (now : Timestamp.t) P (evs : list event) P' : Prop :=
  forall id x', P' !! id = Some x' <->
    apply_events (unexpired now P) evs !! id = Some x' \/
    exists x, P !! id = Some x /\ expiration_ x <= now /\ EvCancel id ∉ evs /\ restarted now x x'.

Lemma foldr_delete_Some F (l : list Z) a x : foldr delete F l !! a = Some x <-> F !! a = Some x /\ a ∉ l.
Proof.
  induction l as [|b l IH]; simpl.
  - split; [intros ?; split; [done|apply not_elem_of_nil]|by intros [? _]].
  - rewrite lookup_delete_Some, not_elem_of_cons. split.
    + intros [Hne [? ?]%IH]. split_and!; [done| |done]. congruence.
    + intros (HF & Hne & Hni). split; [congruence|]. by apply IH.
Qed.

Lemma expired_object F P now F' s a :
  Rep F P s -> with_expired F P now F' ->
  a ∈ (expired_of now s).*2 <->
  exists x, P !! (a, sequence_ x) = Some x /\ F' !! a = Some x /\ expiration_ x <= now.
Proof.
  intros HR HF'. destruct (expired_of_spec _ _ now _ HR) as (_ & _ & Hex & _).
  rewrite list_elem_of_fmap. split.
  - intros ([w b] & -> & (x & HP & _ & Hw & Hle)%Hex). simpl in *. subst w. exists x.
    split_and!; [done| |done]. apply HF'. by right.
  - intros (x & HP & _ & Hle). exists (expiration_ x, a). split; [done|]. apply Hex. exists x.
    split_and!; [done|by eapply rep_P_heap|done..].
Qed.

(** Once the expired timers are reset, [F] is what it was before. *)
Lemma expired_F_restored F P now F' s :
  Rep F P s -> with_expired F P now F' -> foldr delete F' (expired_of now s).*2 = F.
Proof.
  intros HR HF'. apply map_eq. intros a. apply option_eq. intros x.
  rewrite foldr_delete_Some, (HF' a x), (expired_object _ _ _ _ _ a HR HF'). split.
  - intros [[HF|[HP Hle]] Hn]; [done|]. exfalso. apply Hn. exists x.
    split_and!; [done|apply HF'; by right|done].
  - intros HF. split; [by left|]. intros (y & HP & _).
    pose proof (rep_disj _ _ _ HR _ _ _ HP). congruence.
Qed.

Lemma after_read_intro F P now F' s canc evs P' :
  Rep F P s -> with_expired F P now F' ->
  (forall a x, F' !! a = Some x -> canc (a, sequence_ x) <-> EvCancel (a, sequence_ x) ∈ evs) ->
  with_restarted F' now canc (expired_of now s).*2 (apply_events (unexpired now P) evs) P' ->
  after_read now P evs P'.
Proof.
  intros HR HF' Hc HP' [a q] x'. etransitivity; [apply HP'|]. simpl.
  setoid_rewrite (expired_object _ _ _ _ _ a HR HF'). split; (intros [?|Hr]; [by left|right]).
  - destruct Hr as (x & (y & HP & Hy & Hle) & Hx & <- & Hn & Hr). assert (y = x) as -> by congruence.
    exists x. rewrite <- Hc by done. done.
  - destruct Hr as (x & HP & Hle & Hn & Hr). pose proof (rep_seq _ _ _ HR _ _ _ HP) as Hq. subst q.
    assert (F' !! a = Some x) as HFx by (apply HF'; by right).
    exists x. rewrite Hc by done. split_and!; [|done..]. by exists x.
Qed.

Lemma objects_expired F P now F' s :
  Rep F P s -> with_expired F P now F' ->
  (objects F' (expired_of now s)).*1.*1 = (expired_of now s).*2 /\
  (forall id x, (id, x) ∈ objects F' (expired_of now s) -> P !! id = Some x).
Proof.
  intros HR HF'. pose proof (fun a => expired_object _ _ _ _ _ a HR HF') as Hobj.
  assert (forall it, it ∈ expired_of now s -> exists x, P !! (it.2, sequence_ x) = Some x /\ F' !! it.2 = Some x) as Hin.
  { intros it Hit. destruct (proj1 (Hobj it.2)) as (x & HP & HFx & _); [|eauto].
    apply list_elem_of_fmap. eauto. }
  clear Hobj. induction (expired_of now s) as [|it l IH].
  { split; [done|]. intros id x Hx. by apply elem_of_nil in Hx. }
  destruct IH as [IH1 IH2]; [intros it' ?; apply Hin; by right|].
  destruct (Hin it) as (x & HP & HFx); [left|].
  unfold objects in *. simpl. rewrite HFx. simpl. split; [by f_equal|].
  intros id y [[= -> ->]|Hy]%elem_of_cons; [done|by apply IH2].
Qed.

Lemma handleRead_spec F P s full :
  Rep F P s -> 0 < clock (ticks s) ->
  wp resource_fault (handleRead full)
    (fun _ s' => exists evs P', log s' = log s ++ evs /\ Rep F P' s' /\ alarm_ok true s' /\
       after_read (clock (ticks s)) P evs P' /\ callingExpiredTimers_ s' = false /\
       (runs evs).*1.*1 = (expired_of (clock (ticks s)) s).*2 /\
       (forall id x, (id, x) ∈ runs evs -> P !! id = Some x) /\
       (forall id x, P !! id = Some x -> expiration_ x <= clock (ticks s) ->
          repeat_ x = false \/ EvCancel id ∈ evs -> heap s' !! id.1 = None)) s.
Proof.
  intros HR Hnow. unfold handleRead, now. repeat wp_step.
  set (t0 := clock (ticks s)) in *. set (s1 := set_ticks _ s).
  assert (Rep F P s1) as HR1 by (eapply rep_same; [exact HR|done..|apply HR]).
  wp_focus. eapply (wp_mono _ _ (fun _ s2 => Rep F P s2 /\ log s2 = log s /\ timers_ s2 = timers_ s)).
  { unfold readTimerfd. wp_step; wp_step; split_and!; try done.
    eapply rep_same; [exact HR1|done..|apply HR]. }
  intros [] s2 (HR2 & Hl2 & Ht2).
  wp_focus. eapply wp_resource, wp_mono; [by apply (getExpired_spec F P t0 s2 HR2)|].
  intros l s3 (-> & (F' & HF' & HR3) & Hgt & Hl3 & _).
  pose proof (expired_of_spec _ _ t0 _ HR2) as (_ & Hnd & _).
  pose proof (expired_F_restored _ _ _ _ _ HR2 HF') as HFr.
  pose proof (objects_expired _ _ _ _ _ HR2 HF') as [Hob1 Hob2].
  assert (forall a, a ∈ (expired_of t0 s2).*2 -> is_Some (F' !! a)) as Hin.
  { intros a (x & _ & Hx & _)%(expired_object _ _ _ _ _ a HR2 HF'). eauto. }
  assert (expired_of t0 s = expired_of t0 s2) as -> by (unfold expired_of; by rewrite Ht2).
  do 2 (wp_focus; apply wp_modify). set (s4 := set_canceling [] _).
  assert (Rep F' (unexpired t0 P) s4) as HR4 by (eapply rep_same; [exact HR3|done..|apply OrderedSet.sorted_nil]).
  assert (weak_alarm s4) as Hal4.
  { unfold weak_alarm, alarm_ok. simpl. destruct (timers_ s3) as [|[w a] ts] eqn:Et; [done|].
    intros Hw. specialize (Hw eq_refl). assert (t0 < w) by (apply (Hgt w a); left). lia. }
  wp_focus. eapply wp_mono; [by apply (run_loop F' (unexpired t0 P) s4 _ HR4 Hin)|].
  intros [] s5 (evs & Hpr & Hruns). wp_focus. apply wp_modify.
  pose proof (pr_rep _ _ _ _ _ Hpr) as HR5.
  eapply wp_mono; [apply (reset_spec F' (apply_events (unexpired t0 P) evs) (set_calling false s5) t0 _)|].
  - eapply rep_same; [exact HR5|done..|apply HR5].
  - done.
  - exact Hin.
  - done.
  - apply (alarm_same s5); [done..|]. by apply (pr_alarm _ _ _ _ _ Hpr).
  - intros [] s' (P' & HR' & Hal' & Hl' & Hc' & HP'). exists evs, P'. rewrite HFr in HR'.
    assert (forall a x, F' !! a = Some x -> (a, sequence_ x) ∈ cancelingTimers_ (set_calling false s5) <->
      EvCancel (a, sequence_ x) ∈ evs) as Hcanc.
    { intros a x HFx. simpl. rewrite (pr_canceling _ _ _ _ _ Hpr eq_refl a x HFx). simpl.
      rewrite elem_of_nil. split; [by intros [?|?]|by right]. }
    split_and!; [|done|done| |done|by rewrite Hruns|by rewrite Hruns|].
    + rewrite Hl'. simpl. rewrite (pr_log _ _ _ _ _ Hpr). simpl. by rewrite Hl3, Hl2.
    + eapply (after_read_intro _ _ _ _ _ (fun id => id ∈ cancelingTimers_ (set_calling false s5)));
        [exact HR2|exact HF'|exact Hcanc|exact HP'].
    + intros [a q] x HP Hle Hdone. simpl. apply eq_None_not_Some. intros [y Hy].
      pose proof (rep_seq _ _ _ HR _ _ _ HP) as Hq. subst q.
      assert (F' !! a = Some x) as HFx by (apply HF'; by right).
      apply (rep_heap _ _ _ HR') in Hy as [Hy|Hy].
      * apply HP' in Hy as [Hy|(z & _ & Hz & Hq & Hnc & Hr & _)].
        -- by rewrite (rep_not_pending _ _ _ _ _ _ HR5 HFx) in Hy.
        -- simpl in *. assert (z = x) as -> by congruence. destruct Hdone as [?|Hd]; [congruence|].
           apply Hnc. rewrite <- Hq. by apply Hcanc.
      * pose proof (rep_disj _ _ _ HR _ _ _ HP). congruence.
Qed.

(** ** The queue in its event loop

    Steps of the loop thread, and [addTimer] called in other threads: there the timer is
    allocated and its [addTimerInLoop] queued ([OpNewElsewhere]); the loop runs the functor
    ([OpRunQueued]); and the caller reads [timer->sequence()] for the [TimerId] that it
    returns ([OpReturnElsewhere]), whenever it gets to it. *)
Inductive op :=
  | OpAddTimer (cb : C) (when : Timestamp.t) (interval : double)
  | OpNewElsewhere (cb : C) (when : Timestamp.t) (interval : double)
  | OpReturnElsewhere (caller : nat)
  | OpRunQueued
  | OpCancel (timerId : TimerId)
  | OpHandleRead (full : bool).

(** [queued]: the functors that wait in the loop; [callers]: the timers whose [addTimer]
    has not returned; [returned]: what it returned. *)
Record sys := mkSys { queue : t; queued : list Z; callers : list Z; returned : list TimerId }.

Definition sys_init : sys := mkSys init [] [] [].

Definition on_queue {A} (m : M A) (st : sys) : res sys :=
  '(_, s') ← m (queue st); mret (mkSys s' (queued st) (callers st) (returned st)).

Definition step (o : op) (st : sys) : res sys :=
  match o with
  | OpAddTimer cb when interval => on_queue (addTimer cb when interval) st
  | OpNewElsewhere cb when interval =>
      '(a, s') ← new_Timer cb when interval (queue st);
      mret (mkSys s' (queued st ++ [a]) (callers st ++ [a]) (returned st))
  | OpReturnElsewhere i =>
      match callers st !! i with
      | None => mret st
      | Some a =>
          '(x, s') ← deref a (queue st);
          mret (mkSys s' (queued st) (take i (callers st) ++ drop (S i) (callers st)) (returned st ++ [(a, sequence_ x)]))
      end
  | OpRunQueued =>
      match queued st with
      | [] => mret st
      | a :: queued' => '(_, s') ← addTimerInLoop a (queue st); mret (mkSys s' queued' (callers st) (returned st))
      end
  | OpCancel id => on_queue (cancelInLoop id) st
  | OpHandleRead full => on_queue (handleRead full) st
  end.

Fixpoint run_ops (l : list op) (st : sys) : res sys :=
  match l with
  | [] => mret st
  | o :: l' => step o st ≫= run_ops l'
  end.

(** The loop does not get to a functor before its caller has returned. *)
Definition prompt_step (o : op) (st : sys) : Prop :=
  match o, queued st with OpRunQueued, a :: _ => a ∉ callers st | _, _ => True end.

Fixpoint prompt (l : list op) (st : sys) : Prop :=
  match l with
  | [] => True
  | o :: l' => prompt_step o st /\ forall st', step o st = Ok st' -> prompt l' st'
  end.

(** What holds between the steps of the loop. *)
Definition sys_inv (st : sys) : Prop :=
  exists F P, Rep F P (queue st) /\ NoDup (queued st) /\ (forall a, is_Some (F !! a) <-> a ∈ queued st) /\
    alarm_ok true (queue st) /\ callingExpiredTimers_ (queue st) = false.

(** A caller reads freed memory. *)
Definition late_read (o : op) (st : sys) : Prop :=
  exists i a, o = OpReturnElsewhere i /\ callers st !! i = Some a /\ heap (queue st) !! a = None.

Lemma step_inv (Hclock : forall n, 0 < clock n) o st :
  sys_inv st ->
  match step o st with
  | Ok st' => sys_inv st'
  | Fail e => resource_fault e \/ e = UseAfterFree /\ late_read o st
  end.
Proof.
  destruct st as [s qd cl rt]. intros (F & P & HR & Hnd & HF & Hal & Hc). simpl in *.
  destruct o as [cb w i|cb w i|i| |id|full]; unfold step, on_queue; simpl.
  - pose proof (addTimer_spec F P s cb w i HR) as Hw. unfold wp in Hw.
    destruct (addTimer cb w i s) as [[id s']|e]; [|simpl; by left]. simpl.
    destruct Hw as (x & _ & _ & HR' & _ & Hk & _ & _ & _ & _ & Hc' & _).
    exists F, (<[id := x]> P). simpl. split_and!; [done..|by apply Hk|congruence].
  - pose proof (new_Timer_spec F P s cb w i HR) as Hw. unfold wp in Hw.
    destruct (new_Timer cb w i s) as [[a s']|e]; [|simpl; by left]. simpl.
    destruct Hw as (x & Hn & HR' & Hk & _ & _ & _ & _ & _ & _ & Hc' & _).
    assert (a ∉ qd) as Ha.
    { rewrite <- HF. intros [y Hy]. apply (rep_F_heap _ _ _ _ _ HR) in Hy. congruence. }
    exists (<[a := x]> F), P. simpl. split_and!; [done| | |by apply Hk|congruence].
    + apply list.NoDup_app. split_and!; [done| |apply NoDup_singleton]. intros b Hb ->%list_elem_of_singleton. done.
    + intros b. rewrite lookup_insert_is_Some', HF, elem_of_app, list_elem_of_singleton. naive_solver.
  - destruct (cl !! i) as [a|] eqn:Ea; [|by exists F, P]. unfold deref, gets, mbind, st_bind.
    destruct (heap s !! a) as [x|] eqn:Ex; simpl; [by exists F, P|]. right. split; [done|]. by exists i, a.
  - destruct qd as [|a qd]; simpl; [by exists F, P|].
    destruct (proj2 (HF a)) as [x HFa]; [left|]. apply list.NoDup_cons in Hnd as [Hna Hnd].
    pose proof (addTimerInLoop_spec F P s a x HR HFa) as Hw. unfold wp in Hw.
    destruct (addTimerInLoop a s) as [[[] s']|e]; [|simpl; by left]. simpl.
    destruct Hw as (HR' & _ & _ & Hk & Hc' & _). exists (delete a F), (<[(a, sequence_ x) := x]> P).
    simpl. split_and!; [done|done| |by apply Hk|congruence].
    intros b. rewrite lookup_delete_is_Some, HF, elem_of_cons. naive_solver.
  - pose proof (cancelInLoop_spec F P s id HR) as Hw. unfold wp in Hw.
    destruct (cancelInLoop id s) as [[[] s']|e]; [|simpl; by left]. simpl.
    destruct Hw as (HR' & _ & Hk & _ & Hc' & _). exists F, (delete id P).
    simpl. split_and!; [done..|by apply Hk|congruence].
  - pose proof (handleRead_spec F P s full HR (Hclock _)) as Hw. unfold wp in Hw.
    destruct (handleRead full s) as [[[] s']|e]; [|simpl; by left]. simpl.
    destruct Hw as (evs & P' & _ & HR' & Hal' & _ & Hc' & _). exists F, P'. done.
Qed.

Lemma run_ops_inv (Hclock : forall n, 0 < clock n) l st :
  sys_inv st ->
  match run_ops l st with
  | Ok st' => sys_inv st'
  | Fail e => resource_fault e \/ e = UseAfterFree /\ exists l1 o l2 st', l = l1 ++ o :: l2 /\ run_ops l1 st = Ok st' /\ late_read o st'
  end.
Proof.
  revert st; induction l as [|o l IH]; intros st Hst; simpl; [done|].
  pose proof (step_inv Hclock o st Hst) as Hs. destruct (step o st) as [st'|e] eqn:E; simpl.
  - pose proof (IH st' Hs) as H'. destruct (run_ops l st') as [st2|e]; [done|].
    destruct H' as [?|(-> & l1 & o' & l2 & st2 & -> & Hrun & Hlate)]; [by left|right]. split; [done|].
    exists (o :: l1), o', l2, st2. simpl. by rewrite E.
  - destruct Hs as [?|[-> Hlate]]; [by left|right]. split; [done|]. by exists [], o, l, st.
Qed.

(** While the callers return in time their timers are still outside the queue. *)
Lemma prompt_step_callers o st st' :
  callers st ⊆ queued st -> prompt_step o st -> step o st = Ok st' -> callers st' ⊆ queued st'.
Proof.
  destruct st as [s qd cl rt]. unfold prompt_step; simpl. cbn [queued callers]. intros Hsub Hprompt.
  destruct o as [cb w i|cb w i|i| |id|full]; unfold step, on_queue; cbn [queue queued callers returned].
  - destruct (addTimer cb w i s) as [[? ?]|]; [|done]. by intros [= <-].
  - destruct (new_Timer cb w i s) as [[a ?]|]; [|done]. intros [= <-]. cbn [queued callers]. set_solver.
  - destruct (cl !! i) as [a|]; [|by intros [= <-]]. destruct (deref a s) as [[? ?]|]; [|done]. intros [= <-]. cbn [queued callers].
    intros b [Hb|Hb]%elem_of_app; apply Hsub; [by eapply subseteq_take|by eapply subseteq_drop].
  - destruct qd as [|a qd]; [by intros [= <-]|]. destruct (addTimerInLoop a s) as [[? ?]|]; [|done]. intros [= <-]. cbn [queued callers].
    intros b Hb. pose proof (Hsub b Hb) as [->|?]%elem_of_cons; [done|done].
  - destruct (cancelInLoop id s) as [[? ?]|]; [|done]. by intros [= <-].
  - destruct (handleRead full s) as [[? ?]|]; [|done]. by intros [= <-].
Qed.

Lemma prompt_run (Hclock : forall n, 0 < clock n) l st e :
  sys_inv st -> callers st ⊆ queued st -> prompt l st -> run_ops l st = Fail e -> resource_fault e.
Proof.
  revert st; induction l as [|o l IH]; intros st Hst Hsub Hp; simpl; [done|]. destruct Hp as [Hp Hnext].
  pose proof (step_inv Hclock o st Hst) as Hs. destruct (step o st) as [st'|e'] eqn:E; simpl.
  - apply IH; [done|by eapply prompt_step_callers|by apply Hnext].
  - intros [= <-]. destruct Hs as [?|[-> (i & a & -> & Ha & Hnone)]]; [done|exfalso].
    destruct Hst as (F & P & HR & _ & HF & _). apply list_elem_of_lookup_2, Hsub, HF in Ha as [x Hx].
    apply (rep_F_heap _ _ _ _ _ HR) in Hx. congruence.
Qed.

Lemma init_inv : sys_inv sys_init.
Proof.
  exists ∅, ∅. simpl. split_and!; [apply rep_init|constructor| |done|done].
  intros a. rewrite lookup_empty, elem_of_nil. split; [by intros [? ?]|done].
Qed.

(** ** Properties *)

(** C4: the two sets of the queue always describe the same live timers.  Whatever timers
    are added in the loop thread or by other threads, cancelled and run, with callbacks
    that add and cancel timers at will, no assertion of the queue fails and the loop uses no
    freed timer (only a lack of memory or a time outside [int64_t] can stop it); the one
    other fault is that of a caller in another thread, which evaluates [timer->sequence()]
    after the loop has run and deleted its timer, and it cannot happen when the loop does
    not get to a functor before its caller has returned.  Between the steps of the loop
    [timers_] and [activeTimers_] hold the same timers, each under its own expiration and
    sequence number, every timer object is in them or still waits to be added (none
    leaks), and whenever a timer is pending the descriptor is armed for an expiration not
    after the first one, with a valid, non-zero setting. *)
Theorem timer_queue_safe (Hclock : forall n, 0 < clock n) l :
  match run_ops l sys_init with
  | Ok (mkSys s queued _ _) =>
      (forall w a, (w, a) ∈ timers_ s <-> exists x, (a, sequence_ x) ∈ activeTimers_ s /\
         heap s !! a = Some x /\ expiration_ x = w) /\
      length (timers_ s) = length (activeTimers_ s) /\
      (forall a, is_Some (heap s !! a) <-> a ∈ (timers_ s).*2 \/ a ∈ queued) /\
      alarm_ok true s
  | Fail e => e = BadAlloc \/ e = Overflow \/
      e = UseAfterFree /\ ~ prompt l sys_init /\
        exists l1 o l2 st, l = l1 ++ o :: l2 /\ run_ops l1 sys_init = Ok st /\ late_read o st
  end.
Proof.
  pose proof (run_ops_inv Hclock l _ init_inv) as Hinv.
  destruct (run_ops l sys_init) as [[s qd cl rt]|e] eqn:Erun.
  2: { destruct Hinv as [[?|?]|[-> Hlate]]; [by left|by right; left|right; right]. split; [done|]. split; [|done].
       intros Hp. apply (prompt_run Hclock l _ _ init_inv) in Erun; [by destruct Erun|done|done]. }
  destruct Hinv as (F & P & HR & _ & HF & Hal & _). simpl in *. split_and!; [|by apply HR| |done].
  - intros w a. rewrite (rep_timers _ _ _ HR). setoid_rewrite (rep_active _ _ _ HR). split.
    + intros (q & x & HP & <-). exists x. pose proof (rep_seq _ _ _ HR _ _ _ HP) as <-.
      split_and!; [eauto|by eapply rep_P_heap|done].
    + intros (x & [y HP] & Hx & <-). pose proof (rep_P_heap _ _ _ _ _ _ HR HP).
      assert (y = x) as -> by congruence. eauto.
  - intros a. rewrite <- HF, list_elem_of_fmap. split.
    + intros [x [HP|HFx]%(rep_heap _ _ _ HR)]; [left|by right; eauto].
      exists (expiration_ x, a). split; [done|]. apply (rep_timers _ _ _ HR). eauto.
    + intros [([w b] & -> & (q & x & HP & _)%(rep_timers _ _ _ HR))|[x HFx]].
      * eexists. by eapply rep_P_heap.
      * eexists. by eapply rep_F_heap.
Qed.

(** C5: [handleRead] runs exactly the timers that have expired, once each, in the order
    of their expiration, and then the pending timers are: those that had not expired,
    as changed by the calls of [addTimer] and [cancel] of the callbacks, and the expired
    ones that repeat and were not cancelled by a callback, started again at
    [now + interval]; the other expired timers are deleted. *)
Theorem handleRead_refines F P s full :
  Rep F P s -> 0 < clock (ticks s) ->
  let now := clock (ticks s) in
  match handleRead full s with
  | Ok (_, s') =>
      exists evs P', log s' = log s ++ evs /\ Rep F P' s' /\ after_read now P evs P' /\
        OrderedSet.sorted (expired_of now s) /\
        (runs evs).*1.*1 = (expired_of now s).*2 /\
        (forall id x, (id, x) ∈ runs evs <-> P !! id = Some x /\ expiration_ x <= now) /\
        (forall id x, P !! id = Some x -> expiration_ x <= now ->
           repeat_ x = false \/ EvCancel id ∈ evs -> heap s' !! id.1 = None)
  | Fail e => resource_fault e
  end.
Proof.
  intros HR Hnow now. pose proof (handleRead_spec F P s full HR Hnow) as Hw. unfold wp in Hw.
  destruct (handleRead full s) as [[[] s']|e]; [|done].
  destruct Hw as (evs & P' & Hl & HR' & _ & Haf & _ & Hr1 & Hr2 & Hfree). exists evs, P'.
  destruct (expired_of_spec _ _ now _ HR) as (Hs & _ & Hex & _).
  split_and!; try done. intros id x. split.
  - intros Hin. pose proof (Hr2 _ _ Hin) as HP. split; [done|].
    assert (id.1 ∈ (expired_of now s).*2) as Hexp.
    { subst now. rewrite <- Hr1. apply list_elem_of_fmap. exists id. split; [done|].
      apply list_elem_of_fmap. by exists (id, x). }
    apply list_elem_of_fmap in Hexp as ([w a] & Ha & (y & HPy & _ & <- & Hle)%Hex). simpl in Ha.
    destruct id as [b q]. simpl in Ha. subst b.
    by destruct (rep_unique _ _ _ _ _ _ _ _ HR HP HPy) as [_ ->].
  - intros [HP Hle]. destruct id as [a q]. pose proof (rep_seq _ _ _ HR _ _ _ HP) as Hq. subst q.
    assert (a ∈ (runs evs).*1.*1) as Hin.
    { rewrite Hr1. apply list_elem_of_fmap. exists (expiration_ x, a). split; [done|].
      apply Hex. exists x. split_and!; [done|by eapply rep_P_heap|done..]. }
    apply list_elem_of_fmap in Hin as ([b q] & -> & ([id y] & Hid & Hin)%list_elem_of_fmap). simpl in *. subst id.
    pose proof (Hr2 _ _ Hin) as HPy. by destruct (rep_unique _ _ _ _ _ _ _ _ HR HP HPy) as [-> ->].
Qed.

(** A timer outside the queue that is recorded as cancelled stays out, whatever the
    callbacks do before [reset]. *)
Lemma cancelled_stays_out F P s a x p s1 expired now s2 id :
  Rep F P s -> F !! a = Some x -> callingExpiredTimers_ s = true -> weak_alarm s -> (a, sequence_ x) ∈ cancelingTimers_ s ->
  run_prog p s = Ok (tt, s1) ->
  NoDup expired.*2 -> (forall a, a ∈ expired.*2 -> is_Some (F !! a)) -> a ∈ expired.*2 -> 0 < now ->
  reset expired now s1 = Ok (tt, s2) -> id = (a, sequence_ x) -> heap s2 !! a = None /\ id ∉ activeTimers_ s2.
Proof.
  intros HR HFx Hcall Hweak Hcan Hprog Hnd Hexp Hin Hnow Hreset ->.
  pose proof (wp_ok _ _ _ _ _ _ (run_prog_spec F P p s HR) Hprog) as (evs & Hpr & _).
  pose proof (pr_rep _ _ _ _ _ Hpr) as HR1. pose proof (pr_canceling _ _ _ _ _ Hpr Hcall a x HFx) as Hcan1.
  pose proof (wp_ok _ _ _ _ _ _ (reset_spec F _ s1 now expired HR1 Hnd Hexp Hnow (pr_alarm _ _ _ _ _ Hpr false Hweak)) Hreset)
    as (P' & HR2 & _ & _ & _ & HP').
  assert (forall q, P' !! (a, q) = None) as Hnone.
  { intros q. apply eq_None_not_Some. intros [y [Hy|(z & _ & HFz & Hq & Hnc & _)]%HP'].
    - by rewrite (rep_not_pending _ _ _ _ _ _ HR1 HFx) in Hy.
    - cbn [fst snd] in *. simplify_eq. apply Hnc, Hcan1. by left. }
  split; [|rewrite (rep_active _ _ _ HR2), Hnone; by intros [? ?]].
  apply eq_None_not_Some. intros [y [Hy|Hy]%(rep_heap _ _ _ HR2)]; [congruence|].
  apply foldr_delete_Some in Hy as [_ Hy]. done.
Qed.

(** C6: cancelling never fails and is exact.  It removes the pending timer with that
    identifier and no other, so that the next [handleRead] does not run it; an
    identifier whose timer is gone, even when a newer timer has its address, cancels
    nothing; and inside a callback an expired timer that has left the sets is recorded, so
    that after whatever the callbacks still do [reset] deletes it and does not start it
    again, repeating or not. *)
Theorem cancel_exact F P s id :
  Rep F P s ->
  exists s', cancelInLoop id s = Ok (tt, s') /\ Rep F (delete id P) s' /\
    (forall id' x, id' <> id -> P !! id' = Some x -> id' ∈ activeTimers_ s' /\ heap s' !! id'.1 = Some x) /\
    id ∉ activeTimers_ s' /\
    (P !! id = None -> timers_ s' = timers_ s /\ heap s' = heap s) /\
    (callingExpiredTimers_ s = true -> P !! id = None -> id ∈ cancelingTimers_ s') /\
    (callingExpiredTimers_ s = true -> weak_alarm s -> forall x, F !! id.1 = Some x -> sequence_ x = id.2 ->
       forall p s1 expired now s2, run_prog p s' = Ok (tt, s1) ->
       NoDup expired.*2 -> (forall a, a ∈ expired.*2 -> is_Some (F !! a)) -> id.1 ∈ expired.*2 -> 0 < now ->
       reset expired now s1 = Ok (tt, s2) -> heap s2 !! id.1 = None /\ id ∉ activeTimers_ s2) /\
    (forall full s'', 0 < clock (ticks s') -> handleRead full s' = Ok (tt, s'') ->
       exists evs, log s'' = log s' ++ evs /\ id ∉ (runs evs).*1).
Proof.
  intros HR. pose proof (cancelInLoop_spec F P s id HR) as Hw.
  apply wp_total in Hw as ([] & s' & Hrun & HR' & Hl & Hal & _ & Hc & Hk). exists s'.
  assert (P !! id = None -> timers_ s' = timers_ s /\ heap s' = heap s) as Hnone.
  { intros HPn. revert Hrun. unfold cancelInLoop, mbind, st_bind, get, sassert, lift.
    rewrite (same_size_rep _ _ _ HR). simpl.
    destruct (OrderedSet.mem id (activeTimers_ s)) eqn:Hm.
    { apply OrderedSet.mem_spec, (rep_active _ _ _ HR) in Hm as [x HP]; [congruence|apply HR]. }
    unfold when_. destruct (callingExpiredTimers_ s); simpl.
    all: destruct (check _ _) as [[]|]; intros [=]; by subst s'. }
  split_and!; [done|done| | |done| | |].
  - intros id' x Hne HP. assert (delete id P !! id' = Some x) as HP' by by rewrite lookup_delete_ne.
    split; [apply (rep_active _ _ _ HR'); eauto|]. destruct id' as [a q]. by eapply rep_P_heap.
  - rewrite (rep_active _ _ _ HR'), lookup_delete_eq. by intros [? ?].
  - intros Hcall HPn. rewrite Hk, Hcall, bool_decide_eq_true_2 by done. simpl.
    apply OrderedSet.elem_of_insert. by left.
  - intros Hcall Hweak x HFx Hseq p s1 expired now s2 Hprog Hnd Hexp Hin Hnow Hreset.
    eapply cancelled_stays_out; [exact HR'|exact HFx|by rewrite Hc, Hcall|by apply Hal| |exact Hprog|exact Hnd|exact Hexp|exact Hin|exact Hnow|exact Hreset|by destruct id; simpl in *; subst].
    rewrite Hk, Hcall. destruct id as [a q]. cbn [fst snd] in *. subst q.
    rewrite (bool_decide_eq_true_2 _ (rep_not_pending _ _ _ _ _ _ HR HFx)). cbn [andb]. apply OrderedSet.elem_of_insert. by left.
  - intros full s'' Hclk Hread. pose proof (handleRead_spec F _ s' full HR' Hclk) as Hw. unfold wp in Hw.
    rewrite Hread in Hw. destruct Hw as (evs & P' & Hl' & _ & _ & _ & _ & _ & Hr2 & _).
    exists evs. split; [done|]. intros ([id' x] & Hid & Hin)%list_elem_of_fmap. simpl in Hid. subst id'.
    apply Hr2 in Hin. by rewrite lookup_delete_eq in Hin.
Qed.

(** [addTimer] called outside the loop thread can read a freed timer.  Once the
    functor is queued the loop may add a one-shot timer that is due, run it and delete
    it before the caller evaluates [timer->sequence()]; that read is then of freed
    memory, whatever the callbacks do. *)
Theorem addTimer_elsewhere_race F P s cb when interval a s1 s2 s3 full :
  Rep F P s -> double_gt0 interval = false ->
  new_Timer cb when interval s = Ok (a, s1) ->
  addTimerInLoop a s1 = Ok (tt, s2) ->
  when <= clock (ticks s2) -> 0 < clock (ticks s2) ->
  handleRead full s2 = Ok (tt, s3) ->
  deref a s3 = Fail UseAfterFree.
Proof.
  intros HR Hone Hnew Hadd Hdue Hclk Hread.
  pose proof (wp_ok _ _ _ _ _ _ (new_Timer_spec F P s cb when interval HR) Hnew)
    as (x & Hn & HR1 & _ & Hh1 & _ & _ & Hw & Hi & _).
  pose proof (wp_ok _ _ _ _ _ _ (addTimerInLoop_spec _ _ _ a x HR1 (lookup_insert_eq _ _ _)) Hadd)
    as (HR2 & _).
  pose proof (wp_ok _ _ _ _ _ _ (handleRead_spec _ _ _ full HR2 Hclk) Hread)
    as (evs & P' & _ & _ & _ & _ & _ & _ & _ & Hfree).
  assert (heap s3 !! a = None) as Hnone.
  { apply (Hfree (a, sequence_ x) x); [apply lookup_insert_eq|congruence|left].
    rewrite (rep_repeat _ _ _ HR1 a x); [congruence|]. rewrite Hh1. apply lookup_insert_eq. }
  unfold deref, gets, mbind, st_bind. by rewrite Hnone.
Qed.

End timers.

(** ** Witnesses

    One repeating timer due every second, whose callback cancels it and starts a
    one-shot timer in its place. *)
Definition ex_code (n : Z) : @prog Z :=
  if bool_decide (n = 0) then Cancel (4096, 1) (AddTimer 1 5000000 double_zero (fun _ => Return))
  else Return.
Definition ex_clock (n : nat) : Z := 1000000 + Z.of_nat n.
Definition ex_ops : list (@op Z) :=
  [OpAddTimer 0 0 (double_of_Z 1); OpNewElsewhere 1 2000000 double_zero; OpReturnElsewhere 0;
   OpHandleRead true; OpRunQueued; OpCancel (4096, 1)].

Lemma timer_queue_safe_witness :
  (forall n, 0 < ex_clock n) /\
  exists s, run_ops ex_clock ex_code ex_ops sys_init = Ok (mkSys s [] [] [(4112, 2)]) /\
    timers_ s = [(2000000, 4112); (5000000, 4128)] /\ alarm_ok true s.
Proof.
  assert (forall n, 0 < ex_clock n) as Hc by (intros n; unfold ex_clock; lia).
  split; [done|].
  pose proof (timer_queue_safe ex_clock ex_code Hc ex_ops) as H.
  destruct (run_ops ex_clock ex_code ex_ops sys_init) as [[s q c r]|e] eqn:E; [|by vm_compute in E].
  exists s. assert (q = [] /\ c = [] /\ r = [(4112, 2)] /\ timers_ s = [(2000000, 4112); (5000000, 4128)]) as (-> & -> & -> & Ht)
    by (vm_compute in E; injection E as <- <- <- <-; by vm_compute).
  split_and!; [done|done|apply H].
Defined.

(** The fault of a caller that is late: the one-shot timer was due. *)
Example late_caller :
  run_ops ex_clock ex_code [OpNewElsewhere 1 900 double_zero; OpRunQueued; OpHandleRead true; OpReturnElsewhere 0] sys_init =
    Fail UseAfterFree.
Proof. vm_compute. reflexivity. Qed.

Lemma ex_rep :
  exists x s, Rep ∅ {[ (4096, 1) := x ]} s /\ expiration_ x = 900 /\ repeat_ x = false /\
    ticks s = 1%nat /\ addTimer ex_clock 1 900 double_zero init = Ok ((4096, 1), s).
Proof.
  pose proof (addTimer_spec ex_clock ∅ ∅ init 1 900 double_zero rep_init) as H.
  destruct (addTimer ex_clock 1 900 double_zero init) as [[id s]|e] eqn:E; [|by vm_compute in E].
  unfold wp in H. rewrite E in H. destruct H as (x & _ & _ & HR & _ & _ & _ & Hx & Hi & _).
  assert (id = (4096, 1)) as -> by (vm_compute in E; by injection E as <- <-).
  exists x, s. split_and!; [done|done| |vm_compute in E; by injection E as <-|done].
  rewrite (rep_repeat _ _ _ HR 4096 x); [by rewrite Hi|].
  eapply rep_P_heap; [exact HR|apply lookup_insert_eq].
Qed.

Lemma handleRead_refines_witness :
  exists x s, Rep ∅ {[ (4096, 1) := x ]} s /\ 0 < ex_clock (ticks s) /\
    match handleRead ex_clock ex_code true s with
    | Ok (_, s') =>
        exists evs P', log s' = log s ++ evs /\ Rep ∅ P' s' /\
          after_read (ex_clock (ticks s)) {[ (4096, 1) := x ]} evs P'
    | Fail e => resource_fault e
    end.
Proof.
  destruct ex_rep as (x & s & HR & Hx & Hrep & Ht & _). exists x, s.
  assert (0 < ex_clock (ticks s)) as Hc by (unfold ex_clock; lia). split_and!; [done|done|].
  pose proof (handleRead_refines ex_clock ex_code ∅ _ s true HR Hc) as H.
  destruct (handleRead ex_clock ex_code true s) as [[[] s']|e]; [|done].
  destruct H as (evs & P' & H1 & H2 & H3 & _). by exists evs, P'.
Defined.

Lemma cancel_exact_witness :
  exists x s (s' : @t Z), Rep ∅ {[ (4096, 1) := x ]} s /\ cancelInLoop (4096, 1) s = Ok (tt, s') /\
    (4096, 1) ∉ activeTimers_ s'.
Proof.
  destruct ex_rep as (x & s & HR & _). exists x, s.
  destruct (cancel_exact ex_clock ex_code ∅ _ s (4096, 1) HR) as (s' & H1 & _ & _ & H4 & _).
  by exists s'.
Defined.

Lemma addTimer_elsewhere_race_witness :
  exists s1 s2 s3,
    new_Timer 1 900 double_zero init = Ok (4096, s1) /\
    addTimerInLoop ex_clock 4096 s1 = Ok (tt, s2) /\
    handleRead ex_clock ex_code true s2 = Ok (tt, s3) /\ deref 4096 s3 = Fail UseAfterFree.
Proof.
  destruct (new_Timer 1 900 double_zero init) as [[a s1]|e] eqn:E1; [|by vm_compute in E1].
  assert (a = 4096) as -> by (vm_compute in E1; congruence).
  destruct (addTimerInLoop ex_clock 4096 s1) as [[[] s2]|e] eqn:E2;
    [|vm_compute in E1; injection E1 as <-; by vm_compute in E2].
  destruct (handleRead ex_clock ex_code true s2) as [[[] s3]|e] eqn:E3.
  2: { vm_compute in E1. injection E1 as <-. vm_compute in E2. injection E2 as <-. by vm_compute in E3. }
  exists s1, s2, s3. split_and!; [done..|].
  eapply (addTimer_elsewhere_race ex_clock ex_code ∅ ∅ init 1 900 double_zero 4096 s1 s2 s3 true);
    [apply rep_init|reflexivity|done|done| | |done]; unfold ex_clock; lia.
Defined.

End TimerQueue.
