(* ===== verification/LogStream.v ===== *)
(** Formatting log lines ([muduo/base/LogStream.h], [LogStream.cc]).

    [Module FixedBuffer] is the bounded buffer, [Module LogStream] the integer
    conversions, the stream operators, and the quantities with units. *)
From S2P Require Import Prelude Decimal Double StringPiece.
Open Scope Z_scope.

Definition kSmallBuffer : Z := 4000.
Definition kLargeBuffer : Z := 4000 * 1000.

Module FixedBuffer.

(** [data] is the array up to [cur_]; [SIZE] is the template argument. *)
Record t := mk { SIZE : Z; data : bytes }.

Definition create (n : Z) : t := mk n [].
Definition length (b : t) : Z := swrap 32 (lenZ (data b)).
Definition avail (b : t) : Z := swrap 32 (SIZE b - lenZ (data b)).

(** [append]: all or nothing. *)
Definition append (buf : bytes) (len : Z) (b : t) : res t :=
  if bool_decide (size_wrap (avail b) > len) then
    _ ← check OutOfBounds (bool_decide (len <= lenZ buf));
    mret (mk (SIZE b) (data b ++ take (Z.to_nat len) buf))
  else mret b.

(** Writing [s] through [current()] and advancing with [add]. *)
Definition write_current (s : bytes) (len : Z) (b : t) : res t :=
  _ ← check OutOfBounds (bool_decide (lenZ (data b) + lenZ s <= SIZE b) && bool_decide (len <= lenZ s));
  mret (mk (SIZE b) (data b ++ take (Z.to_nat len) s)).

Definition reset (b : t) : t := mk (SIZE b) [].
Definition toString (b : t) : bytes := data b.
Definition toStringPiece (b : t) : StringPiece.t := StringPiece.of_offset (data b) (length b).

(** [debugString] stores a terminator at [cur_]. *)
Definition debugString (b : t) : res bytes :=
  _ ← check OutOfBounds (bool_decide (lenZ (data b) < SIZE b));
  mret (data b).

(** There is always room for one more byte. *)
Definition wf (b : t) : Prop := lenZ (data b) < SIZE b < 2 ^ 31.

Lemma avail_wf b : wf b -> avail b = SIZE b - lenZ (data b).
Proof.
  unfold wf, avail. intros. pose proof (lenZ_nonneg (data b)).
  apply swrap_small; unfold s_in; simpl; lia.
Qed.

Lemma append_wf s b :
  wf b ->
  append s (lenZ s) b = Ok (if bool_decide (lenZ (data b) + lenZ s < SIZE b)
                            then mk (SIZE b) (data b ++ s) else b) /\
  wf (if bool_decide (lenZ (data b) + lenZ s < SIZE b) then mk (SIZE b) (data b ++ s) else b).
Proof.
  intros Hb. pose proof Hb as Hb'. unfold wf in Hb'. unfold append. rewrite avail_wf by done.
  pose proof (lenZ_nonneg s). pose proof (lenZ_nonneg (data b)).
  rewrite uwrap_small by (unfold u_in; lia).
  destruct (bool_decide_reflect (lenZ (data b) + lenZ s < SIZE b)) as [Hl|Hl].
  - rewrite bool_decide_eq_true_2 by lia. rewrite check_true by (apply bool_decide_eq_true; lia).
    simpl. rewrite take_ge by (unfold lenZ; lia).
    split; [done|]. unfold wf. simpl. rewrite lenZ_app. lia.
  - by rewrite bool_decide_eq_false_2 by lia.
Qed.

End FixedBuffer.

Module LogStream.

(** ** Integer conversion *)

Definition digits : bytes := bs "9876543210123456789".
Definition digitsHex : bytes := bs "0123456789ABCDEF".

(** [zero[lsd]], with [zero = digits + 9]. *)
Definition zero_at (lsd : Z) : res byte :=
  if bool_decide (0 <= 9 + lsd) then
    match digits !! Z.to_nat (9 + lsd) with Some c => Ok c | None => Fail OutOfBounds end
  else Fail OutOfBounds.

(** The [do]/[while] loop of [convert]; the fuel bounds the number of rounds. *)
Fixpoint convert_loop (fuel : nat) (i : Z) (p : bytes) : option (res bytes) :=
  match fuel with
  | O => None
  | S f =>
      let lsd := Z.rem i 10 in
      let i' := Z.quot i 10 in
      match zero_at lsd with
      | Fail e => Some (Fail e)
      | Ok c => if bool_decide (i' = 0) then Some (Ok (p ++ [c])) else convert_loop f i' (p ++ [c])
      end
  end.

(** [convert(buf, value)]: the characters stored before the terminator, and their number. *)
Definition convert (fuel : nat) (value : Z) : option (res (bytes * Z)) :=
  match convert_loop fuel value [] with
  | None => None
  | Some r => Some (p ← r;
      let p := if bool_decide (value < 0) then p ++ bs "-" else p in
      mret (rev p, lenZ p))
  end.

Definition hex_at (lsd : Z) : res byte :=
  match digitsHex !! Z.to_nat lsd with Some c => Ok c | None => Fail OutOfBounds end.

Fixpoint convertHex_loop (fuel : nat) (i : Z) (p : bytes) : option (res bytes) :=
  match fuel with
  | O => None
  | S f =>
      let lsd := i mod 16 in
      let i' := i / 16 in
      match hex_at lsd with
      | Fail e => Some (Fail e)
      | Ok c => if bool_decide (i' = 0) then Some (Ok (p ++ [c])) else convertHex_loop f i' (p ++ [c])
      end
  end.

Definition convertHex (fuel : nat) (value : Z) : option (res (bytes * Z)) :=
  match convertHex_loop fuel value [] with
  | None => None
  | Some r => Some (p ← r; mret (rev p, lenZ p))
  end.

(** Rounds that suffice for a 64-bit value: [10^20 > 2^64], [16^16 = 2^64]. *)
Definition convert_fuel : nat := 20.
Definition convertHex_fuel : nat := 16.

(** ** The stream *)

Definition kMaxNumericSize : Z := 32.

Definition t := FixedBuffer.t.

Definition run_convert (r : option (res (bytes * Z))) : res (bytes * Z) :=
  match r with Some r => r | None => Fail LogicError end.

Definition formatInteger (v : Z) (s : t) : res t :=
  if bool_decide (FixedBuffer.avail s >= kMaxNumericSize) then
    '(buf, len) ← run_convert (convert convert_fuel v);
    FixedBuffer.write_current (buf ++ [Byte.x00]) len s
  else mret s.

Definition append (data : bytes) (len : Z) (s : t) : res t := FixedBuffer.append data (size_wrap len) s.
Definition resetBuffer (s : t) : t := FixedBuffer.reset s.

Definition put_bool (v : bool) : t -> res t := FixedBuffer.append (if v then bs "1" else bs "0") 1.
Definition put_int (v : Z) : t -> res t := formatInteger v.
Definition put_short (v : Z) : t -> res t := put_int v.
Definition put_ushort (v : Z) : t -> res t := put_int v.
Definition put_uint (v : Z) : t -> res t := formatInteger v.
Definition put_long (v : Z) : t -> res t := formatInteger v.
Definition put_ulong (v : Z) : t -> res t := formatInteger v.
Definition put_longlong (v : Z) : t -> res t := formatInteger v.
Definition put_ulonglong (v : Z) : t -> res t := formatInteger v.

Definition put_pointer (v : Z) (s : t) : res t :=
  if bool_decide (FixedBuffer.avail s >= kMaxNumericSize) then
    '(buf, len) ← run_convert (convertHex convertHex_fuel v);
    FixedBuffer.write_current (bs "0x" ++ buf ++ [Byte.x00]) (len + 2) s
  else mret s.

Definition put_double (v : float64) (s : t) : res t :=
  if bool_decide (FixedBuffer.avail s >= kMaxNumericSize) then
    let '(buf, len) := snprintf (Z.to_nat kMaxNumericSize) (printf_12g v) in
    FixedBuffer.write_current (buf ++ [Byte.x00]) len s
  else mret s.

Definition put_char (v : byte) : t -> res t := FixedBuffer.append [v] 1.

(** The operator for [const char*] strings: [None] is the null pointer, the bytes are those before
    the terminator. *)
Definition put_cstr (str : option bytes) (s : t) : res t :=
  match str with
  | Some str => FixedBuffer.append str (lenZ str) s
  | None => FixedBuffer.append (bs "(null)") 6 s
  end.

Definition put_string (v : bytes) : t -> res t := FixedBuffer.append v (lenZ v).

Definition put_piece (v : StringPiece.t) : t -> res t :=
  FixedBuffer.append (StringPiece.data v) (size_wrap (StringPiece.size v)).

Definition put_buffer (v : FixedBuffer.t) : t -> res t := put_piece (FixedBuffer.toStringPiece v).

(** [Fmt(fmt, val)]: [text] is what [snprintf] formats; the line asserts that it fits. *)
Definition Fmt (text : bytes) : res (bytes * Z) :=
  let '(buf, len) := snprintf 32 text in
  _ ← assert_ (bool_decide (len < 32));
  mret (buf, len).

Definition put_fmt (fmt : bytes * Z) : t -> res t := append (fst fmt) (snd fmt).

(** ** Conversion is correct *)

Lemma zero_at_digit lsd : -9 <= lsd <= 9 -> zero_at lsd = Ok (digit (Z.abs lsd)).
Proof.
  intros Hl.
  assert (all_from 19 (-9) (fun l => bool_decide (zero_at l = Ok (digit (Z.abs l)))) = true) as Hall
    by (vm_compute; done).
  eapply bool_decide_eq_true, (all_from_spec _ _ _ lsd Hall). lia.
Qed.

Lemma hex_at_digit lsd : 0 <= lsd < 16 -> hex_at lsd = Ok (digit lsd).
Proof.
  intros Hl. assert (all_from 16 0 (fun l => bool_decide (hex_at l = Ok (digit l))) = true) as Hall
    by (vm_compute; done).
  eapply bool_decide_eq_true, (all_from_spec _ _ _ lsd Hall). lia.
Qed.

(** The truncating loop yields the digits of the absolute value: in particular the most
    negative integer, whose negation does not exist at the width, is handled. *)
Lemma convert_loop_spec fuel i p :
  Z.abs i < 10 ^ Z.of_nat fuel -> (0 < fuel)%nat ->
  convert_loop fuel i p = Some (Ok (p ++ rdigits 10 fuel (Z.abs i))).
Proof.
  revert i p; induction fuel as [|fuel IH]; intros i p Hi Hf; [lia|]. simpl. rewrite rdigits_S.
  assert (Z.abs (Z.rem i 10) = Z.abs i mod 10) as Hr by div_lia.
  assert (Z.abs (Z.quot i 10) = Z.abs i / 10) as Hq by div_lia.
  rewrite zero_at_digit by div_lia. rewrite Hr.
  destruct (bool_decide_reflect (Z.quot i 10 = 0)) as [H0|H0].
  - rewrite bool_decide_eq_true_2 by lia. done.
  - rewrite (bool_decide_eq_false_2 (Z.abs i / 10 = 0)) by lia.
    rewrite Nat2Z.inj_succ, Z.pow_succ_r in Hi by lia.
    rewrite IH, Hq, <- app_assoc; [done| |].
    + rewrite Hq. apply Z.div_lt_upper_bound; lia.
    + destruct fuel; [|lia]. change (Z.of_nat 0) with 0 in Hi. rewrite Z.pow_0_r in Hi. div_lia.
Qed.

Lemma convert_dec v :
  Z.abs v < 10 ^ Z.of_nat convert_fuel -> convert convert_fuel v = Some (Ok (dec v, lenZ (dec v))).
Proof.
  intros Hv.
  assert (convert_loop convert_fuel v [] = Some (Ok (rev (numeral 10 (Z.abs v))))) as Hl.
  { rewrite convert_loop_spec by (exact Hv || unfold convert_fuel; lia).
    rewrite (numeral_rdigits 10 ltac:(lia) convert_fuel) by (unfold convert_fuel in *; lia).
    by rewrite rev_involutive. }
  unfold convert. rewrite Hl. unfold dec. case_bool_decide as Hneg.
  - rewrite Z.abs_neq by lia. generalize (numeral 10 (- v)) as n. intros n. simpl.
    rewrite rev_app_distr, rev_involutive. simpl. unfold mret, res_ret. do 3 f_equal.
    unfold lenZ. rewrite !length_app, length_rev. simpl. lia.
  - rewrite Z.abs_eq by lia. generalize (numeral 10 v) as n. intros n. simpl.
    rewrite rev_involutive. unfold mret, res_ret. do 3 f_equal. unfold lenZ. by rewrite length_rev.
Qed.

Lemma convertHex_loop_spec fuel i p :
  0 <= i < 16 ^ Z.of_nat fuel -> (0 < fuel)%nat ->
  convertHex_loop fuel i p = Some (Ok (p ++ rdigits 16 fuel i)).
Proof.
  revert i p; induction fuel as [|fuel IH]; intros i p Hi Hf; [lia|]. simpl. rewrite rdigits_S.
  rewrite hex_at_digit by (apply Z.mod_pos_bound; lia). case_bool_decide as H0; [done|].
  rewrite Nat2Z.inj_succ, Z.pow_succ_r in Hi by lia.
  rewrite IH, <- app_assoc; [done| |].
  - split; [apply Z.div_pos; lia|apply Z.div_lt_upper_bound; lia].
  - destruct fuel; [|lia]. change (Z.of_nat 0) with 0 in Hi. rewrite Z.pow_0_r in Hi. div_lia.
Qed.

Lemma convertHex_numeral v :
  u_in 64 v -> convertHex convertHex_fuel v = Some (Ok (numeral 16 v, lenZ (numeral 16 v))).
Proof.
  unfold u_in. intros Hv.
  assert (0 <= v < 16 ^ Z.of_nat convertHex_fuel) as Hv' by exact Hv.
  assert (convertHex_loop convertHex_fuel v [] = Some (Ok (rev (numeral 16 v)))) as Hl.
  { rewrite convertHex_loop_spec by (exact Hv' || unfold convertHex_fuel; lia).
    rewrite (numeral_rdigits 16 ltac:(lia) convertHex_fuel) by (exact Hv' || unfold convertHex_fuel; lia).
    by rewrite rev_involutive. }
  unfold convertHex. rewrite Hl. generalize (numeral 16 v) as n. intros n. simpl.
  rewrite rev_involutive. unfold mret, res_ret. do 3 f_equal. unfold lenZ. by rewrite length_rev.
Qed.

Lemma int64_abs v : s_in 64 v \/ u_in 64 v -> Z.abs v < 10 ^ 20.
Proof. unfold s_in, u_in. simpl. lia. Qed.

Lemma dec_length v : Z.abs v < 10 ^ 20 -> lenZ (dec v) <= 21.
Proof.
  intros Hv. unfold dec, lenZ. case_bool_decide.
  - pose proof (numeral_length 10 ltac:(lia) 20 (- v)). rewrite length_app. simpl in *. lia.
  - pose proof (numeral_length 10 ltac:(lia) 20 v). simpl in *. lia.
Qed.

(** ** What a stream of items leaves in the buffer *)

(** The operators by the type of their operand. *)
Inductive item :=
  | Bool (v : bool)
  | Int (v : Z)        (* short, int, long, long long and the unsigned types *)
  | Pointer (v : Z)
  | Double (v : float64)
  | Char (v : byte)
  | CStr (str : option bytes)
  | Str (v : bytes).

(** The values of the C++ types. *)
Definition item_ok (i : item) : Prop :=
  match i with
  | Int v => s_in 64 v \/ u_in 64 v
  | Pointer v => u_in 64 v
  | Double v => in_range v
  | Str v | CStr (Some v) => lenZ v < 2 ^ 31
  | _ => True
  end.

Definition put (i : item) : t -> res t :=
  match i with
  | Bool v => put_bool v
  | Int v => formatInteger v
  | Pointer v => put_pointer v
  | Double v => put_double v
  | Char v => put_char v
  | CStr str => put_cstr str
  | Str v => put_string v
  end.

(** The text of an item, and the space its operator asks for before writing. *)
Definition render (i : item) : bytes :=
  match i with
  | Bool v => if v then bs "1" else bs "0"
  | Int v => dec v
  | Pointer v => bs "0x" ++ numeral 16 v
  | Double v => printf_12g v
  | Char v => [v]
  | CStr None => bs "(null)"
  | CStr (Some v) | Str v => v
  end.

Definition needs (i : item) : Z :=
  match i with Int _ | Pointer _ | Double _ => kMaxNumericSize | _ => lenZ (render i) + 1 end.

Fixpoint put_all (l : list item) (s : t) : res t :=
  match l with
  | [] => mret s
  | i :: l' => put i s ≫= put_all l'
  end.

Lemma render_needs i : item_ok i -> lenZ (render i) < needs i.
Proof.
  destruct i as [v|v|v|v|c|[str|]|v]; unfold needs, kMaxNumericSize; intros Hok; cbn [item_ok render] in *; try lia.
  - pose proof (int64_abs v Hok) as Hv.
    pose proof (dec_length v Hv). simpl. lia.
  - unfold u_in in Hok. pose proof (numeral_length 16 ltac:(lia) 16 v). unfold lenZ.
    simpl in *. lia.
  - pose proof (printf_12g_length v Hok). lia.
Qed.

Lemma put_spec i s :
  FixedBuffer.wf s -> item_ok i ->
  exists s', put i s = Ok s' /\ FixedBuffer.wf s' /\ FixedBuffer.SIZE s' = FixedBuffer.SIZE s /\
    FixedBuffer.data s' = FixedBuffer.data s ++
      (if bool_decide (lenZ (FixedBuffer.data s) + needs i <= FixedBuffer.SIZE s) then render i else []).
Proof.
  intros Hs Hok. pose proof Hs as Hs'. unfold FixedBuffer.wf in Hs'.
  pose proof (render_needs i Hok) as Hrn.
  assert (forall d, put i s = FixedBuffer.append d (lenZ d) s -> d = render i -> needs i = lenZ d + 1 ->
    exists s', put i s = Ok s' /\ FixedBuffer.wf s' /\ FixedBuffer.SIZE s' = FixedBuffer.SIZE s /\
    FixedBuffer.data s' = FixedBuffer.data s ++
      (if bool_decide (lenZ (FixedBuffer.data s) + needs i <= FixedBuffer.SIZE s) then render i else []))
    as Happ.
  { intros d -> <- ->. destruct (FixedBuffer.append_wf d s Hs) as [-> Hwf].
    eexists; split_and!; [reflexivity|done|by case_bool_decide|].
    rewrite (bool_decide_ext (lenZ (FixedBuffer.data s) + (lenZ d + 1) <= FixedBuffer.SIZE s)
      (lenZ (FixedBuffer.data s) + lenZ d < FixedBuffer.SIZE s)) by lia.
    case_bool_decide; simpl; by rewrite ?app_nil_r. }
  assert (forall w len, needs i = kMaxNumericSize -> lenZ w <= kMaxNumericSize ->
    take (Z.to_nat len) w = render i -> len = lenZ (render i) ->
    put i s = (if bool_decide (FixedBuffer.avail s >= kMaxNumericSize)
               then FixedBuffer.write_current w len s else mret s) ->
    exists s', put i s = Ok s' /\ FixedBuffer.wf s' /\ FixedBuffer.SIZE s' = FixedBuffer.SIZE s /\
    FixedBuffer.data s' = FixedBuffer.data s ++
      (if bool_decide (lenZ (FixedBuffer.data s) + needs i <= FixedBuffer.SIZE s) then render i else []))
    as Hnum.
  { intros w len Hneed Hw Htake Hlen ->. rewrite FixedBuffer.avail_wf by done.
    rewrite Hneed in *. unfold kMaxNumericSize in *.
    destruct (bool_decide_reflect (FixedBuffer.SIZE s - lenZ (FixedBuffer.data s) >= 32)) as [Ha|Ha].
    - rewrite bool_decide_eq_true_2 by lia. unfold FixedBuffer.write_current.
      assert (len <= lenZ w) as Hlw.
      { rewrite Hlen. rewrite <- Htake. unfold lenZ. rewrite length_take. lia. }
      rewrite check_true by (rewrite !bool_decide_eq_true_2 by lia; done). simpl.
      eexists; split; [reflexivity|]. simpl. rewrite Htake. split_and!; [|done..].
      unfold FixedBuffer.wf. simpl. rewrite lenZ_app. lia.
    - rewrite bool_decide_eq_false_2 by lia. exists s. by rewrite app_nil_r. }
  destruct i as [v|v|v|v|c|[str|]|v].
  - apply (Happ (if v then bs "1" else bs "0")); [by destruct v|done|done].
  - pose proof (int64_abs v Hok) as Hv.
    pose proof (dec_length v Hv).
    apply (Hnum (dec v ++ [Byte.x00]) (lenZ (dec v))); [done| | |done|].
    + rewrite lenZ_app. unfold lenZ at 2, kMaxNumericSize. simpl. lia.
    + simpl. apply take_app_length'. unfold lenZ. lia.
    + simpl. unfold formatInteger. rewrite convert_dec by done. done.
  - simpl in Hok. pose proof Hok as Hu. unfold u_in in Hu.
    pose proof (numeral_length 16 ltac:(lia) 16 v ltac:(simpl; lia)) as Hl.
    apply (Hnum (bs "0x" ++ numeral 16 v ++ [Byte.x00]) (lenZ (numeral 16 v) + 2)); [done| | | |].
    + rewrite !lenZ_app. unfold lenZ, kMaxNumericSize. simpl. lia.
    + rewrite app_assoc. apply take_app_length'. unfold lenZ. simpl. lia.
    + simpl. unfold lenZ. simpl. lia.
    + simpl. unfold put_pointer. rewrite convertHex_numeral by done. done.
  - pose proof (printf_12g_length v Hok) as Hl.
    apply (Hnum (printf_12g v ++ [Byte.x00]) (lenZ (printf_12g v))); [done| | |done|].
    + rewrite lenZ_app. unfold lenZ at 2, kMaxNumericSize. simpl. lia.
    + cbn [render]. apply take_app_length'. unfold lenZ. lia.
    + cbn [put]. unfold put_double, snprintf. rewrite take_ge; [done|]. unfold kMaxNumericSize, lenZ in *. lia.
  - by apply (Happ [c]).
  - by apply (Happ str).
  - by apply (Happ (bs "(null)")).
  - by apply (Happ v).
Qed.

(** integer formatting is decimal notation and stays inside its space.  For every
    value of every integer type up to 64 bits, signed or unsigned, the loop of [convert]
    ends within its fuel, reads only inside the digit table, stores exactly the decimal
    notation (with its sign, no superfluous zero) and returns its length, which with
    the terminator is below [kMaxNumericSize]; reading the text back gives the value. *)
Theorem convert_is_decimal v :
  s_in 64 v \/ u_in 64 v ->
  convert convert_fuel v = Some (Ok (dec v, lenZ (dec v))) /\
  undec (dec v) = v /\ lenZ (dec v) + 1 < kMaxNumericSize /\
  (u_in 64 v -> convertHex convertHex_fuel v = Some (Ok (numeral 16 v, lenZ (numeral 16 v))) /\
     value 16 (numeral 16 v) = v).
Proof.
  intros Hok. pose proof (int64_abs v Hok) as Hv.
  pose proof (dec_length v Hv). split_and!.
  - by apply convert_dec.
  - apply undec_dec.
  - unfold kMaxNumericSize. lia.
  - intros Hu. split; [by apply convertHex_numeral|]. apply numeral_value; unfold u_in in Hu; lia.
Qed.

Lemma put_all_spec l s :
  FixedBuffer.wf s -> Forall item_ok l ->
  exists s' kept, put_all l s = Ok s' /\ FixedBuffer.wf s' /\ FixedBuffer.SIZE s' = FixedBuffer.SIZE s /\
    kept `sublist_of` l /\ FixedBuffer.data s' = FixedBuffer.data s ++ concat (map render kept) /\
    (lenZ (FixedBuffer.data s) + lenZ (concat (map render l)) + kMaxNumericSize <= FixedBuffer.SIZE s ->
     kept = l).
Proof.
  intros Hs Hl; revert s Hs; induction Hl as [|i l Hi Hl IH]; intros s Hs; simpl.
  - exists s, []. rewrite app_nil_r. split_and!; done.
  - destruct (put_spec i s Hs Hi) as (s1 & -> & Hs1 & Hsz & Hd). simpl.
    destruct (IH s1 Hs1) as (s' & kept & -> & Hs' & Hsz' & Hsub & Hd' & Hall).
    rewrite Hsz in *. pose proof (lenZ_nonneg (concat (map render l))).
    pose proof (lenZ_nonneg (render i)).
    destruct (bool_decide_reflect (lenZ (FixedBuffer.data s) + needs i <= FixedBuffer.SIZE s)) as [Hfit|Hfit].
    + exists s', (i :: kept). split_and!; [done..| | |].
      * by apply sublist_skip.
      * rewrite Hd', Hd, <- app_assoc. done.
      * intros Hroom. rewrite lenZ_app in Hroom. f_equal. apply Hall. rewrite Hd, lenZ_app. lia.
    + exists s', kept. rewrite app_nil_r in Hd. split_and!; [done..| | |].
      * by apply sublist_cons.
      * by rewrite Hd', Hd.
      * intros Hroom. exfalso. apply Hfit. rewrite lenZ_app in Hroom.
        destruct i as [v|v|v|v|c|[str|]|v]; unfold needs, kMaxNumericSize in *; cbn [render] in *; lia.
Qed.

(** C3: a log line is made of whole items.  Whatever is streamed into the 4000-byte
    buffer, no write leaves it and one byte stays free for the terminator that
    [debugString] stores; each item is kept whole or dropped whole, in order, and
    nothing is dropped while 32 bytes remain after the text. *)
Theorem logstream_whole_items l :
  Forall item_ok l ->
  exists s kept, put_all l (FixedBuffer.create kSmallBuffer) = Ok s /\
    kept `sublist_of` l /\ FixedBuffer.toString s = concat (map render kept) /\
    FixedBuffer.debugString s = Ok (concat (map render kept)) /\
    (lenZ (concat (map render l)) + kMaxNumericSize <= kSmallBuffer -> kept = l).
Proof.
  intros Hl. destruct (put_all_spec l (FixedBuffer.create kSmallBuffer)) as
    (s & kept & Hp & Hwf & Hsz & Hsub & Hd & Hall); [by vm_compute|done|].
  exists s, kept. simpl in Hd. split_and!; [done..| |done].
  unfold FixedBuffer.debugString. unfold FixedBuffer.wf in Hwf.
  rewrite check_true by (apply bool_decide_eq_true; lia). simpl. by rewrite Hd.
Qed.

(** ** Quantities with units *)

(** [snprintf(buf, 64, "%.<p>f<unit>", x)] *)
Definition quantity (p : nat) (x : Z) (unit_ : bytes) : bytes := (snprintf 64 (fixed p x ++ unit_)).1.

Definition formatSI (s : Z) : bytes :=
  let n := of_int s in
  if bool_decide (s < 1000) then (snprintf 64 (dec s)).1
  else if bool_decide (s < 9995) then quantity 2 (Double.div n (of_int (10 ^ 3))) (bs "k")
  else if bool_decide (s < 99950) then quantity 1 (Double.div n (of_int (10 ^ 3))) (bs "k")
  else if bool_decide (s < 999500) then quantity 0 (Double.div n (of_int (10 ^ 3))) (bs "k")
  else if bool_decide (s < 9995000) then quantity 2 (Double.div n (of_int (10 ^ 6))) (bs "M")
  else if bool_decide (s < 99950000) then quantity 1 (Double.div n (of_int (10 ^ 6))) (bs "M")
  else if bool_decide (s < 999500000) then quantity 0 (Double.div n (of_int (10 ^ 6))) (bs "M")
  else if bool_decide (s < 9995000000) then quantity 2 (Double.div n (of_int (10 ^ 9))) (bs "G")
  else if bool_decide (s < 99950000000) then quantity 1 (Double.div n (of_int (10 ^ 9))) (bs "G")
  else if bool_decide (s < 999500000000) then quantity 0 (Double.div n (of_int (10 ^ 9))) (bs "G")
  else if bool_decide (s < 9995000000000) then quantity 2 (Double.div n (of_int (10 ^ 12))) (bs "T")
  else if bool_decide (s < 99950000000000) then quantity 1 (Double.div n (of_int (10 ^ 12))) (bs "T")
  else if bool_decide (s < 999500000000000) then quantity 0 (Double.div n (of_int (10 ^ 12))) (bs "T")
  else if bool_decide (s < 9995000000000000) then quantity 2 (Double.div n (of_int (10 ^ 15))) (bs "P")
  else if bool_decide (s < 99950000000000000) then quantity 1 (Double.div n (of_int (10 ^ 15))) (bs "P")
  else if bool_decide (s < 999500000000000000) then quantity 0 (Double.div n (of_int (10 ^ 15))) (bs "P")
  else quantity 2 (Double.div n (of_int (10 ^ 18))) (bs "E").

Definition formatIEC (s : Z) : bytes :=
  let n := of_int s in
  let Ki := of_int 1024 in
  let Mi := mul Ki (of_int 1024) in
  let Gi := mul Mi (of_int 1024) in
  let Ti := mul Gi (of_int 1024) in
  let Pi := mul Ti (of_int 1024) in
  let Ei := mul Pi (of_int 1024) in
  if bool_decide (n < Ki) then (snprintf 64 (dec s)).1
  else if bool_decide (n < mul Ki (round_double 9995 1000)) then quantity 2 (Double.div n Ki) (bs "Ki")
  else if bool_decide (n < mul Ki (round_double 9995 100)) then quantity 1 (Double.div n Ki) (bs "Ki")
  else if bool_decide (n < mul Ki (round_double 10235 10)) then quantity 0 (Double.div n Ki) (bs "Ki")
  else if bool_decide (n < mul Mi (round_double 9995 1000)) then quantity 2 (Double.div n Mi) (bs "Mi")
  else if bool_decide (n < mul Mi (round_double 9995 100)) then quantity 1 (Double.div n Mi) (bs "Mi")
  else if bool_decide (n < mul Mi (round_double 10235 10)) then quantity 0 (Double.div n Mi) (bs "Mi")
  else if bool_decide (n < mul Gi (round_double 9995 1000)) then quantity 2 (Double.div n Gi) (bs "Gi")
  else if bool_decide (n < mul Gi (round_double 9995 100)) then quantity 1 (Double.div n Gi) (bs "Gi")
  else if bool_decide (n < mul Gi (round_double 10235 10)) then quantity 0 (Double.div n Gi) (bs "Gi")
  else if bool_decide (n < mul Ti (round_double 9995 1000)) then quantity 2 (Double.div n Ti) (bs "Ti")
  else if bool_decide (n < mul Ti (round_double 9995 100)) then quantity 1 (Double.div n Ti) (bs "Ti")
  else if bool_decide (n < mul Ti (round_double 10235 10)) then quantity 0 (Double.div n Ti) (bs "Ti")
  else if bool_decide (n < mul Pi (round_double 9995 1000)) then quantity 2 (Double.div n Pi) (bs "Pi")
  else if bool_decide (n < mul Pi (round_double 9995 100)) then quantity 1 (Double.div n Pi) (bs "Pi")
  else if bool_decide (n < mul Pi (round_double 10235 10)) then quantity 0 (Double.div n Pi) (bs "Pi")
  else if bool_decide (n < mul Ei (round_double 9995 1000)) then quantity 2 (Double.div n Ei) (bs "Ei")
  else quantity 1 (Double.div n Ei) (bs "Ei").

Example format_examples :
  map formatSI [999; 9994; 9995; 999499] = map bs ["999"; "9.99k"; "10.0k"; "999k"]%string /\
  map formatIEC [1023; 10235] = map bs ["1023"; "10.0Ki"]%string.
Proof. vm_compute. split; reflexivity. Qed.

(** Rounding is monotone, so the largest quantity of a branch bounds the others. *)
Lemma quantity_units_mono p c s hi :
  0 <= s <= hi -> 0 < c -> fixed_units p (Double.div (of_int s) c) <= fixed_units p (Double.div (of_int hi) c).
Proof.
  intros Hs Hc. apply fixed_units_mono, div_mono; [apply of_int_nonneg; lia|done|]. apply of_int_mono; lia.
Qed.

Lemma quantity_units_nonneg p c s : 0 <= s -> 0 < c -> 0 <= fixed_units p (Double.div (of_int s) c).
Proof.
  intros Hs Hc. assert (0 < grid) by done. assert (0 < 10 ^ Z.of_nat p) by (apply Z.pow_pos_nonneg; lia).
  apply nearest_nonneg; [|done]. apply Z.mul_nonneg_nonneg; [|lia]. apply div_nonneg; [|done]. by apply of_int_nonneg.
Qed.

(** The largest quantity of a branch, evaluated. *)
Definition branch_fits (p : nat) (e : expr) (hi : Z) : bool :=
  match eval e, eval (EDiv (EInt hi) e) with
  | Some _, Some v => bool_decide (nearest (v * 10 ^ Z.of_nat p) scale < (if bool_decide (p = 0%nat) then 10000 else 1000))
  | _, _ => false
  end.

Lemma quantity_short p c e u s hi n : Denotes c e ->
  (p <= 2)%nat -> 0 <= s <= hi -> branch_fits p e hi = true -> 4 + lenZ u <= n ->
  lenZ (quantity p (Double.div (of_int s) c) u) <= n.
Proof.
  intros He Hp Hs Hhi Hn. unfold branch_fits in Hhi. destruct (eval e) as [v0|] eqn:Ec; [|done].
  destruct (eval (EDiv _ _)) as [v|] eqn:Ev; [|done]. apply bool_decide_eq_true in Hhi.
  assert (0 < c) as Hc by (destruct (eval_denotes _ _ _ He Ec) as [? ->]; pose proof rest_pos; nia).
  pose proof (quantity_units_mono p c s hi Hs Hc) as Hm. pose proof (quantity_units_nonneg p c s ltac:(lia) Hc) as Hnn.
  rewrite (fixed_units_eval p (Double.div (of_int hi) c) _ v _ Ev) in Hm.
  pose proof (fixed_text_short p _ Hp Hnn (Z.le_lt_trans _ _ _ Hm Hhi)) as Hl. unfold quantity, snprintf. cbn [fst].
  unfold lenZ in *. rewrite length_take, length_app. unfold fixed. lia.
Qed.

Definition branch_is (p : nat) (e : expr) (z n : Z) : bool :=
  match eval (EDiv (EInt z) e) with Some v => bool_decide (nearest (v * 10 ^ Z.of_nat p) scale = n) | None => false end.

Lemma branch_is_units p c e z n : Denotes c e -> branch_is p e z n = true -> fixed_units p (Double.div (of_int z) c) = n.
Proof.
  intros He. unfold branch_is. destruct (eval _) as [v|] eqn:Ev; [|done]. intros <-%bool_decide_eq_true.
  by apply (fixed_units_eval p (Double.div (of_int z) c) _ v _ Ev).
Qed.

Lemma of_int_pos z : is_Some (eval (EInt z)) -> 0 < of_int z.
Proof. intros [v Hv]. destruct (eval_denotes _ _ _ (int_denotes z) Hv) as [? ->]. pose proof rest_pos. nia. Qed.

Lemma number_short k s n : 0 <= s < 10 ^ Z.of_nat k -> (0 < k)%nat -> Z.of_nat k <= n -> lenZ (snprintf 64 (dec s)).1 <= n.
Proof.
  intros Hs Hk Hn. pose proof (lenZ_dec k s Hs Hk). unfold snprintf, lenZ in *. cbn [fst]. rewrite length_take. lia.
Qed.

(** A bound that is a double, and the integers below it. *)
Definition bound_above (e : expr) (hi : Z) : bool :=
  match eval e, eval (EInt (hi + 1)) with Some t, Some v => bool_decide (t <= v) | _, _ => false end.

Lemma of_int_below T e hi s : Denotes T e -> 0 <= s -> 0 <= hi -> bound_above e hi = true -> of_int s < T -> s <= hi.
Proof.
  intros He Hs Hp Hhi Hlt. unfold bound_above in Hhi. destruct (eval e) as [t|] eqn:Et; [|done].
  destruct (eval (EInt _)) as [v|] eqn:Ev; [|done]. apply bool_decide_eq_true in Hhi.
  apply (eval_denotes _ _ _ He) in Et as [_ Et]. apply (eval_denotes _ _ _ (int_denotes _)) in Ev as [_ Ev]. pose proof rest_pos.
  destruct (decide (s <= hi)) as [|Hgt]; [done|exfalso].
  pose proof (of_int_mono (hi + 1) s ltac:(lia) ltac:(lia)). nia.
Qed.

Ltac evaluate := vm_cast_no_check (eq_refl true).
Ltac branch hi := eapply (quantity_short _ _ _ _ _ hi); [apply _|lia|lia|evaluate|vm_compute; discriminate].
Ltac case_below := lazymatch goal with |- context [if bool_decide (?s < ?T) then _ else _] => destruct (bool_decide_reflect (s < T)) end.
Ltac quantity_upto := match goal with _ : ?s < ?T |- _ => branch (T - 1) end.
Ltac below H hi := eapply (of_int_below _ _ hi) in H; [|apply _|lia|lia|evaluate].
Ltac iec hi := lazymatch goal with |- context [if bool_decide (of_int ?s < ?T) then _ else _] =>
  let H := fresh in destruct (bool_decide_reflect (of_int s < T)) as [H|H]; [below H hi; branch hi|] end.

(** The numbers that [formatSI] prints with six characters. *)
Definition si_long (s : Z) : Prop := 99949999999999992 <= s <= 99949999999999999.

(** C40: quantities are as short as they say, but for eight numbers.  For every count that
    is not negative [formatIEC] prints at most six characters.  [formatSI] prints at most
    five, except from 99949999999999992 to 99949999999999999: the conversion to [double]
    rounds these up to the bound 99950000000000000 of their branch, and they print as
    100.0P. *)
Theorem quantities_are_short s :
  0 <= s < 2 ^ 63 ->
  (~ si_long s -> lenZ (formatSI s) <= 5) /\ (si_long s -> formatSI s = bs "100.0P") /\ lenZ (formatIEC s) <= 6.
Proof.
  intros Hs. unfold si_long. split_and!.
  - intros Hlong. unfold formatSI. cbv zeta.
    case_below; [apply (number_short 3); [change (10 ^ Z.of_nat 3) with 1000|..]; lia|].
    do 13 (case_below; [quantity_upto|]).
    case_below; [destruct (decide (s < 99949999999999992)); [branch 99949999999999991|lia]|].
    case_below; [quantity_upto|]. branch (2 ^ 63 - 1).
  - intros Hlong. unfold formatSI. cbv zeta.
    do 14 (case_below; [exfalso; lia|]). case_below; [|exfalso; lia].
    assert (forall z, branch_is 1 (EInt (10 ^ 15)) z 1000 = true -> fixed_units 1 (Double.div (of_int z) (of_int (10 ^ 15))) = 1000) as Hat
      by (intros z; by apply branch_is_units).
    assert (0 < of_int (10 ^ 15)) as Hc by (apply of_int_pos; eexists; vm_compute; reflexivity).
    pose proof (quantity_units_mono 1 (of_int (10 ^ 15)) s 99949999999999999 ltac:(lia) Hc) as Hup.
    pose proof (quantity_units_mono 1 (of_int (10 ^ 15)) 99949999999999992 s ltac:(lia) Hc) as Hlow.
    rewrite (Hat 99949999999999999) in Hup by evaluate. rewrite (Hat 99949999999999992) in Hlow by evaluate.
    unfold quantity, fixed. generalize dependent (fixed_units 1 (Double.div (of_int s) (of_int (10 ^ 15)))). intros u Hup Hlow.
    assert (u = 1000) as -> by lia. by vm_compute.
  - unfold formatIEC. cbv zeta.
    destruct (bool_decide_reflect (of_int s < of_int 1024)) as [H|H].
    { below H 1023. apply (number_short 4); [change (10 ^ Z.of_nat 4) with 10000|..]; lia. }
    iec 10234.
    iec 102348.
    iec 1048063.
    iec 10480517.
    iec 104805171.
    iec 1073217535.
    iec 10732049530.
    iec 107320495308.
    iec 1098974756863.
    iec 10989618719621.
    iec 109896187196211.
    iec 1125350151028735.
    iec 11253369568892025.
    iec 112533695688920264.
    iec 1152358554653425599.
    case_below; branch (2 ^ 63 - 1).
Qed.

(** ** Witnesses *)

Lemma convert_is_decimal_witness :
  convert convert_fuel (- 2 ^ 63) = Some (Ok (bs "-9223372036854775808", 20)) /\
  undec (bs "-9223372036854775808") = - 2 ^ 63 /\ 21 < kMaxNumericSize.
Proof.
  pose proof (convert_is_decimal (- 2 ^ 63)) as H.
  destruct H as (H1 & H2 & H3 & _); [left; vm_compute; split; congruence|].
  split_and!; [exact H1|exact H2|exact H3].
Defined.

Lemma quantities_are_short_witness :
  lenZ (formatSI 1536) <= 5 /\ formatSI 99949999999999995 = bs "100.0P" /\ lenZ (formatIEC 1536) <= 6.
Proof.
  destruct (quantities_are_short 1536) as (H1 & _ & H3); [split; [discriminate|reflexivity]|].
  destruct (quantities_are_short 99949999999999995) as (_ & H2 & _); [split; [discriminate|reflexivity]|].
  split; [|split; [|exact H3]].
  - apply H1. unfold si_long. lia.
  - apply H2. unfold si_long. lia.
Defined.

Lemma logstream_whole_items_witness :
  exists s kept, put_all [Int (-15); Double (Infinite true); Char " "%byte; CStr None; Bool true; Pointer 255]
      (FixedBuffer.create kSmallBuffer) = Ok s /\
    kept `sublist_of` [Int (-15); Double (Infinite true); Char " "%byte; CStr None; Bool true; Pointer 255] /\
    FixedBuffer.toString s = concat (map render kept) /\
    FixedBuffer.debugString s = Ok (concat (map render kept)) /\
    (lenZ (bs "-15-inf (null)10xFF") + kMaxNumericSize <= kSmallBuffer ->
     kept = [Int (-15); Double (Infinite true); Char " "%byte; CStr None; Bool true; Pointer 255]).
Proof.
  apply (logstream_whole_items [Int (-15); Double (Infinite true); Char " "%byte; CStr None; Bool true; Pointer 255]).
  repeat (apply Forall_cons_2; [first [done | left; by vm_compute | right; by vm_compute | by vm_compute]|]). by apply Forall_nil.
Defined.

End LogStream.
