(* ===== verification/Logging.v ===== *)
(** Log lines ([muduo/base/Logging.h], [Logging.cc], and the thread's number of
    [CurrentThread.h] and [Thread.cc]).

    A line is made by a temporary [Logger] in the thread that logs: its constructor writes the
    head (time, thread, level), the caller streams items, its destructor writes the tail and
    hands the line to the output.  A thread keeps the text of its last second. *)
From S2P Require Import Prelude Decimal Timestamp TimeZone LogStream.
Open Scope Z_scope.

Module CurrentThread.

(** The thread-local variables, for [t_tidString] its characters. *)
Record t := mk { t_cachedTid : Z; t_tidString : bytes; t_tidStringLength : Z }.

Definition start : t := mk 0 [] 6.

(** [gettid] is the number that the kernel gives the thread. *)
Definition cacheTid (gettid : Z) (th : t) : t :=
  if bool_decide (t_cachedTid th = 0) then
    let '(buf, len) := snprintf 32 (fmt_d 5 gettid ++ bs " ") in mk gettid buf len
  else th.

Definition tid (gettid : Z) (th : t) : Z * t :=
  let th := if bool_decide (t_cachedTid th = 0) then cacheTid gettid th else th in (t_cachedTid th, th).
End CurrentThread.

Module Logger.
Import LogStream.

Inductive LogLevel := TRACE | DEBUG | INFO | WARN | ERROR | FATAL.

#[global] Instance LogLevel_eq_dec : EqDecision LogLevel.
Proof. solve_decision. Defined.

Definition level_value (l : LogLevel) : Z :=
  match l with TRACE => 0 | DEBUG => 1 | INFO => 2 | WARN => 3 | ERROR => 4 | FATAL => 5 end.

Definition LogLevelName (l : LogLevel) : bytes :=
  match l with
  | TRACE => bs "TRACE "
  | DEBUG => bs "DEBUG "
  | INFO => bs "INFO  "
  | WARN => bs "WARN  "
  | ERROR => bs "ERROR "
  | FATAL => bs "FATAL "
  end.

(** The two environment variables, set or not. *)
Definition initLogLevel (MUDUO_LOG_TRACE MUDUO_LOG_DEBUG : bool) : LogLevel :=
  if MUDUO_LOG_TRACE then TRACE else if MUDUO_LOG_DEBUG then DEBUG else INFO.

(** ** [SourceFile]: the name behind the last slash *)

Record SourceFile := mk_file { data_ : bytes; size_ : Z }.

(** Of an array of [N] characters with its terminator; [arr] has no other. *)
Definition SourceFile_array (arr : bytes) : SourceFile :=
  match find_last_of slash arr with
  | Some i => mk_file (drop (S i) arr) (lenZ arr - Z.of_nat (S i))
  | None => mk_file arr (lenZ arr)
  end.

Definition SourceFile_cstr (filename : bytes) : SourceFile :=
  let data := match find_last_of slash filename with Some i => drop (S i) filename | None => filename end in
  mk_file data (swrap 32 (lenZ data)).

(** ** [T]: a string whose length is known *)

Definition T (str : bytes) (len : Z) : res (bytes * Z) :=
  _ ← assert_ (bool_decide (lenZ str = len));
  mret (str, len).

Definition put_T (v : bytes * Z) (s : LogStream.t) : res LogStream.t := LogStream.append v.1 v.2 s.
Definition put_file (v : SourceFile) (s : LogStream.t) : res LogStream.t := LogStream.append (data_ v) (size_ v) s.

(** ** [Impl] *)

(** The thread-local variables of a thread; [t_time] as a C string. *)
Record Thread := mk_thread { t_time : bytes; t_lastSecond : Z; current : CurrentThread.t }.

Definition new_thread : Thread := mk_thread [] 0 CurrentThread.start.

Record Impl := mk_impl { time_ : Z; stream_ : LogStream.t; level_ : LogLevel; line_ : Z; basename_ : SourceFile }.

(** [None]: a [TimeZone] that is not valid. *)
Definition broken_time (g_logTimeZone : option TimeZone.Data) (seconds : Z) : res tm :=
  match g_logTimeZone with
  | Some _ => r ← TimeZone.toLocalTime g_logTimeZone seconds; mret (date_time r)
  | None => mret (date_time (gmtime_r seconds))
  end.

Definition date_text (g : tm) : bytes :=
  fmt_d 4 (tm_year g + 1900) ++ fmt_0d 2 (tm_mon g + 1) ++ fmt_0d 2 (tm_mday g) ++ bs " " ++
  fmt_0d 2 (tm_hour g) ++ bs ":" ++ fmt_0d 2 (tm_min g) ++ bs ":" ++ fmt_0d 2 (tm_sec g).

Definition formatTime (g_logTimeZone : option TimeZone.Data) (time_ : Z) (th : Thread) (stream_ : LogStream.t) :
    res (Thread * LogStream.t) :=
  let seconds := Z.quot time_ Timestamp.kMicroSecondsPerSecond in
  let microseconds := swrap 32 (Z.rem time_ Timestamp.kMicroSecondsPerSecond) in
  th ← (if bool_decide (seconds <> t_lastSecond th) then
          tm_time ← broken_time g_logTimeZone seconds;
          let '(t_time, len) := snprintf 64 (date_text tm_time) in
          _ ← assert_ (bool_decide (len = 17));
          mret (mk_thread t_time seconds (current th))
        else mret th);
  stream_ ←
    (match g_logTimeZone with
     | Some _ =>
         us ← Fmt (bs "." ++ fmt_0d 6 microseconds ++ bs " ");
         _ ← assert_ (bool_decide (us.2 = 8));
         t ← T (t_time th) 17; stream_ ← put_T t stream_;
         u ← T us.1 8; put_T u stream_
     | None =>
         us ← Fmt (bs "." ++ fmt_0d 6 microseconds ++ bs "Z ");
         _ ← assert_ (bool_decide (us.2 = 9));
         t ← T (t_time th) 17; stream_ ← put_T t stream_;
         u ← T us.1 9; put_T u stream_
     end);
  mret (th, stream_).

Definition finish (impl : Impl) : res Impl :=
  s ← put_cstr (Some (bs " - ")) (stream_ impl);
  s ← put_file (basename_ impl) s;
  s ← put_char ":"%byte s;
  s ← put_int (line_ impl) s;
  s ← put_char LF s;
  mret (mk_impl (time_ impl) s (level_ impl) (line_ impl) (basename_ impl)).

Section logger.
(** [strerror_r] of the C library. *)
Context (strerror_tl : Z -> bytes).

Definition create_impl (g_logTimeZone : option TimeZone.Data) (now gettid : Z) (level : LogLevel) (savedErrno : Z)
    (file : SourceFile) (line : Z) (th : Thread) : res (Impl * Thread) :=
  '(th, s) ← formatTime g_logTimeZone now th (FixedBuffer.create kSmallBuffer);
  let '(_, c) := CurrentThread.tid gettid (current th) in
  let th := mk_thread (t_time th) (t_lastSecond th) c in
  t ← T (CurrentThread.t_tidString c) (CurrentThread.t_tidStringLength c);
  s ← put_T t s;
  t ← T (LogLevelName level) 6;
  s ← put_T t s;
  s ← (if bool_decide (savedErrno <> 0) then
         s ← put_cstr (Some (strerror_tl savedErrno)) s;
         s ← put_cstr (Some (bs " (errno=")) s;
         s ← put_int savedErrno s;
         put_cstr (Some (bs ") ")) s
       else mret s);
  mret (mk_impl now s level line file, th).

(** ** The process: the macros, and the settings that its threads share *)

Inductive macro := LOG_TRACE | LOG_DEBUG | LOG_INFO | LOG_WARN | LOG_ERROR | LOG_FATAL | LOG_SYSERR | LOG_SYSFATAL.

Definition macro_level (m : macro) : LogLevel :=
  match m with
  | LOG_TRACE => TRACE
  | LOG_DEBUG => DEBUG
  | LOG_INFO => INFO
  | LOG_WARN => WARN
  | LOG_ERROR | LOG_SYSERR => ERROR
  | LOG_FATAL | LOG_SYSFATAL => FATAL
  end.

(** The constructor that the macro calls: the error number it saves, the function it names. *)
Definition macro_errno (m : macro) (errno : Z) : Z := match m with LOG_SYSERR | LOG_SYSFATAL => errno | _ => 0 end.
Definition macro_func (m : macro) (func : bytes) : option bytes := match m with LOG_TRACE | LOG_DEBUG => Some func | _ => None end.

(** The three lowest levels ask the level of the process first. *)
Definition enabled (g_logLevel : LogLevel) (m : macro) : bool :=
  match m with
  | LOG_TRACE | LOG_DEBUG | LOG_INFO => bool_decide (level_value g_logLevel <= level_value (macro_level m))
  | _ => true
  end.

Inductive effect := Output (msg : bytes) | Flush | Abort.

(** The destructor. *)
Definition destruct_logger (impl : Impl) : res (list effect) :=
  impl ← finish impl;
  let buf := stream_ impl in
  _ ← check OutOfBounds (bool_decide (FixedBuffer.length buf <= lenZ (FixedBuffer.data buf)));
  let out := Output (take (Z.to_nat (FixedBuffer.length buf)) (FixedBuffer.data buf)) in
  match level_ impl with
  | FATAL => mret [out; Flush; Abort]
  | _ => mret [out]
  end.

(** A whole statement: a macro, with the items streamed after it. *)
Definition log_statement (g_logTimeZone : option TimeZone.Data) (now gettid errno : Z) (m : macro) (file : SourceFile) (line : Z)
    (func : bytes) (items : list item) (th : Thread) : res (list effect * Thread) :=
  '(impl, th) ← create_impl g_logTimeZone now gettid (macro_level m) (macro_errno m errno) file line th;
  s ← (match macro_func m func with
       | Some f => s ← put_cstr (Some f) (stream_ impl); put_char " "%byte s
       | None => mret (stream_ impl)
       end);
  s ← put_all items s;
  o ← destruct_logger (mk_impl (time_ impl) s (level_ impl) (line_ impl) (basename_ impl));
  mret (o, th).

Record t := mk { g_logLevel : LogLevel; g_logTimeZone : option TimeZone.Data; threads : gmap Z Thread }.

Inductive event :=
  | Log (gettid now errno : Z) (m : macro) (path : bytes) (line : Z) (func : bytes) (items : list item)
  | SetLogLevel (level : LogLevel)
  | SetTimeZone (tz : option TimeZone.Data).

Definition handle (e : event) (w : t) : res (list effect * t) :=
  match e with
  | Log gettid now errno m path line func items =>
      if enabled (g_logLevel w) m then
        '(o, th) ← log_statement (g_logTimeZone w) now gettid errno m (SourceFile_array path) line func items
                     (default new_thread (threads w !! gettid));
        mret (o, mk (g_logLevel w) (g_logTimeZone w) (<[gettid := th]> (threads w)))
      else mret ([], w)
  | SetLogLevel level => mret ([], mk level (g_logTimeZone w) (threads w))
  | SetTimeZone tz => mret ([], mk (g_logLevel w) tz (threads w))
  end.
End logger.

(** ** What is in a line *)

(** The time of day at [now] in the zone, and when it can be printed: after the first second
    of 1970 (the value that a new thread starts with) and before the year 10000. *)
Definition offset (tz : option TimeZone.Data) (seconds : Z) : Z :=
  match tz with Some d => TimeZone.gmtOffset (TimeZone.local_at d seconds) | None => 0 end.
Definition local_tm (tz : option TimeZone.Data) (seconds : Z) : tm := gmtime (seconds + offset tz seconds).
Definition printable (tz : option TimeZone.Data) (now : Z) : Prop :=
  let seconds := now / 1000000 in
  0 < seconds < 2 ^ 40 /\ 0 <= seconds + offset tz seconds < 253402300800 /\
  match tz with Some d => TimeZone.zone_ok d = true | None => True end.

(** The zone whose time a line at [now] shows: [shown] is the second of the thread's last line
    with the zone that it showed, [cur] the zone that is set now. *)
Definition zone_shown (shown : option (Z * option TimeZone.Data)) (cur : option TimeZone.Data) (now : Z) : option TimeZone.Data :=
  match shown with Some (second, tz) => if decide (now / 1000000 = second) then tz else cur | None => cur end.

(** The date and time in [tz], and the fraction, which is marked by the zone that is set. *)
Definition time_items (tz cur : option TimeZone.Data) (now : Z) : list item :=
  [Str (date_text (local_tm tz (now / 1000000)));
   Str (bs "." ++ fmt_0d 6 (now mod 1000000) ++ match cur with Some _ => bs " " | None => bs "Z " end)].
Definition tid_text (gettid : Z) : bytes := fmt_d 5 gettid ++ bs " ".
(** ** Writing into the line *)

(** The stream after some items. *)
Definition written (l : list item) (s : LogStream.t) : Prop :=
  put_all l (FixedBuffer.create kSmallBuffer) = Ok s /\ FixedBuffer.wf s.

Lemma written_nil : written [] (FixedBuffer.create kSmallBuffer).
Proof. split; [done|]. by vm_compute. Qed.

Lemma put_all_app a b s : put_all (a ++ b) s = s ← put_all a s; put_all b s.
Proof. revert s; induction a as [|i a IH]; intros s; [done|]. simpl. destruct (put i s); simpl; auto. Qed.

Lemma put_all_cons i l s : put_all (i :: l) s = s ← put i s; put_all l s.
Proof. done. Qed.

Lemma written_all b l s : written l s -> Forall item_ok b -> exists s', put_all b s = Ok s' /\ written (l ++ b) s'.
Proof.
  intros [Hl Hwf] Hb. destruct (put_all_spec b s Hwf Hb) as (s' & kept & Hs' & Hwf' & _). exists s'. split; [done|].
  split; [|done]. by rewrite put_all_app, Hl.
Qed.

Lemma written_put i l s : written l s -> item_ok i -> exists s', put i s = Ok s' /\ written (l ++ [i]) s'.
Proof.
  intros Hw Hi. destruct (written_all [i] l s Hw) as (s' & Hs' & Hw'); [by constructor|]. exists s'. split; [|done].
  simpl in Hs'. by destruct (put i s).
Qed.

Lemma append_str str l s :
  lenZ str < 2 ^ 31 -> written l s -> exists s', LogStream.append str (lenZ str) s = Ok s' /\ written (l ++ [Str str]) s'.
Proof.
  intros Hlen Hw. destruct (written_put (Str str) l s Hw Hlen) as (s' & Hs' & Hw'). exists s'. split; [|done].
  unfold append. pose proof (lenZ_nonneg str). by rewrite uwrap_small by (unfold u_in; lia).
Qed.

Lemma T_ok str len : lenZ str = len -> T str len = Ok (str, len).
Proof. intros <-. unfold T. by rewrite check_true by by apply bool_decide_eq_true. Qed.

Lemma put_T_str str len l s :
  lenZ str = len -> len < 2 ^ 31 -> written l s -> exists s', put_T (str, len) s = Ok s' /\ written (l ++ [Str str]) s'.
Proof. intros <- Hlen Hw. by apply append_str. Qed.

Lemma written_content l s : Forall item_ok l -> written l s ->
  FixedBuffer.length s = lenZ (FixedBuffer.data s) /\ exists kept, kept `sublist_of` l /\ FixedBuffer.data s = concat (map render kept) /\
    (lenZ (concat (map render l)) + kMaxNumericSize <= kSmallBuffer -> kept = l).
Proof.
  intros Hl [Hs Hwf]. destruct (put_all_spec l (FixedBuffer.create kSmallBuffer)) as (s' & kept & Hs' & _ & _ & Hsub & Hd & Hall);
    [apply written_nil|done|]. rewrite Hs in Hs'. injection Hs' as <-. split; [|by exists kept].
  unfold FixedBuffer.length. unfold FixedBuffer.wf in Hwf. pose proof (lenZ_nonneg (FixedBuffer.data s)).
  apply swrap_small; unfold s_in; lia.
Qed.

(** ** The thread's variables *)

Record thread_ok (shown : option (Z * option TimeZone.Data)) (gettid : Z) (th : Thread) : Prop := {
  ok_time : match shown with
            | Some (second, tz) => t_lastSecond th = second /\ t_time th = date_text (local_tm tz second)
            | None => t_lastSecond th = 0
            end;
  ok_tid : current th = CurrentThread.start \/ current th = CurrentThread.mk gettid (tid_text gettid) (lenZ (tid_text gettid))
}.

Lemma date_text_length secs : 0 <= secs < 253402300800 -> lenZ (date_text (gmtime secs)) = 17.
Proof.
  intros Hs. destruct (Timestamp.gmtime_ranges secs Hs) as (? & ? & ? & ? & ? & ? & _). set (g := gmtime secs) in *. clearbody g.
  unfold date_text. rewrite (fmt_d_full 4) by (simpl; lia). rewrite !lenZ_app, !Timestamp.lenZ_fmt_0d by (simpl; lia). done.
Qed.

Lemma broken_time_spec tz now : printable tz now -> broken_time tz (now / 1000000) = Ok (local_tm tz (now / 1000000)).
Proof.
  intros (Hs & Hr & Htz). unfold broken_time, local_tm, offset in *. destruct tz as [d|].
  - destruct (TimeZone.toLocalTime_spec d (now / 1000000) Htz) as (r & -> & Hdt & _); [lia|]. cbn [mbind res_bind]. by rewrite Hdt.
  - by rewrite Z.add_0_r.
Qed.

(** A fraction of a second has a width of its own. *)
Lemma put_fraction suffix us n str l s :
  0 <= us < 1000000 -> lenZ suffix = n - 7 -> n < 10 -> lenZ str = 17 -> written l s ->
  exists s', (u ← Fmt (bs "." ++ fmt_0d 6 us ++ suffix); _ ← assert_ (bool_decide (u.2 = n));
              t ← T str 17; s ← put_T t s; v ← T u.1 n; put_T v s) = Ok s' /\
    written (l ++ [Str str; Str (bs "." ++ fmt_0d 6 us ++ suffix)]) s'.
Proof.
  intros Hus Hsuf Hn Hstr Hw. set (x := bs "." ++ fmt_0d 6 us ++ suffix).
  assert (lenZ x = n) as Hx by (unfold x; rewrite !lenZ_app, Timestamp.lenZ_fmt_0d by (simpl; lia); change (lenZ (bs ".")) with 1; lia).
  assert (Fmt x = Ok (x, n)) as ->.
  { unfold Fmt. unfold snprintf. rewrite take_ge by (unfold lenZ in *; lia). rewrite Hx, check_true by (apply bool_decide_eq_true; lia). done. }
  cbn [mbind res_bind fst snd]. rewrite check_true by by apply bool_decide_eq_true. cbn [mbind res_bind].
  rewrite (T_ok str 17 Hstr), (T_ok x n Hx). cbn [mbind res_bind].
  destruct (put_T_str str 17 l s Hstr ltac:(lia) Hw) as (s1 & -> & Hw1). cbn [mbind res_bind].
  destruct (put_T_str x n (l ++ [Str str]) s1 Hx ltac:(lia) Hw1) as (s2 & H2 & Hw2).
  exists s2. split; [exact H2|]. by rewrite <- app_assoc in Hw2.
Qed.

(** What the thread has shown, after a line. *)
Definition shows (shown : option (Z * option TimeZone.Data)) (cur : option TimeZone.Data) (now : Z) : option (Z * option TimeZone.Data) :=
  Some (now / 1000000, zone_shown shown cur now).

Lemma formatTime_spec shown cur now gettid th :
  let tz := zone_shown shown cur now in
  printable tz now -> thread_ok shown gettid th ->
  exists th' s, formatTime cur now th (FixedBuffer.create kSmallBuffer) = Ok (th', s) /\ thread_ok (shows shown cur now) gettid th' /\
    written (time_items tz cur now) s.
Proof.
  intros tz Hp Hth. pose proof Hp as ((Hs & Hmax) & Hr & _). unfold formatTime. change Timestamp.kMicroSecondsPerSecond with 1000000.
  assert (0 < now) by div_lia. rewrite Z.quot_div_nonneg, Z.rem_mod_nonneg by lia.
  pose proof (Z.mod_pos_bound now 1000000 ltac:(lia)) as Hus. rewrite (swrap_small 32 (now mod 1000000)) by (unfold s_in; lia).
  set (secs := now / 1000000) in *. set (us := now mod 1000000) in *.
  assert (lenZ (date_text (local_tm tz secs)) = 17) as Hlen by (by apply date_text_length).
  assert (exists th', (if bool_decide (secs <> t_lastSecond th) then
          tm_time ← broken_time cur secs;
          let '(t_time, len) := snprintf 64 (date_text tm_time) in
          _ ← assert_ (bool_decide (len = 17));
          mret (mk_thread t_time secs (current th))
        else mret th) = Ok th' /\ t_time th' = date_text (local_tm tz secs) /\ thread_ok (Some (secs, tz)) gettid th') as (th' & -> & Ht & Hth').
  { destruct Hth as [Htime Htid]. destruct (bool_decide_reflect (secs <> t_lastSecond th)) as [Hne|Heq].
    - assert (tz = cur) as Htz.
      { unfold tz, zone_shown. destruct shown as [[second z]|]; [|done]. destruct Htime as [<- _]. by rewrite decide_False. }
      rewrite <- Htz. unfold secs. rewrite (broken_time_spec tz now Hp). fold secs. cbn [mbind res_bind]. unfold snprintf.
      rewrite take_ge by (unfold lenZ in *; lia). rewrite Hlen, check_true by done. eexists. split; [reflexivity|]. split; [done|].
      split; [done|done].
    - apply dec_stable in Heq. exists th. split; [done|]. destruct shown as [[second z]|]; [|lia]. destruct Htime as [Hls Htime].
      assert (tz = z) as Htz by (unfold tz, zone_shown; rewrite decide_True by (fold secs; congruence); done).
      rewrite <- Htz in Htime. replace second with secs in * by congruence. split; [done|]. split; [|done]. by split. }
  cbn [mbind res_bind]. rewrite Ht. destruct cur as [d|].
  - destruct (put_fraction (bs " ") us 8 _ [] _ Hus ltac:(done) ltac:(lia) Hlen written_nil) as (s' & -> & Hw). by exists th', s'.
  - destruct (put_fraction (bs "Z ") us 9 _ [] _ Hus ltac:(done) ltac:(lia) Hlen written_nil) as (s' & -> & Hw). by exists th', s'.
Qed.

Lemma tid_text_length gettid : 0 < gettid < 2 ^ 31 -> lenZ (tid_text gettid) <= 12.
Proof.
  intros Hg. unfold tid_text, fmt_d, pad. pose proof (dec_length_int gettid ltac:(unfold s_in; lia)).
  unfold lenZ. rewrite !length_app, length_replicate. simpl. lia.
Qed.

Lemma tid_spec shown gettid th :
  0 < gettid < 2 ^ 31 -> thread_ok shown gettid th ->
  CurrentThread.tid gettid (current th) = (gettid, CurrentThread.mk gettid (tid_text gettid) (lenZ (tid_text gettid))).
Proof.
  intros Hg [_ [->| ->]]; unfold CurrentThread.tid, CurrentThread.cacheTid; cbn [CurrentThread.t_cachedTid CurrentThread.start].
  - rewrite !bool_decide_eq_true_2 by done. unfold snprintf. fold (tid_text gettid). pose proof (tid_text_length gettid Hg).
    by rewrite take_ge by (unfold lenZ in *; lia).
  - by rewrite bool_decide_eq_false_2 by lia.
Qed.

(** Each thread's last second with the zone that it showed. *)
Abbreviation history := (gmap Z (Z * option TimeZone.Data)).

Section lines.
Context (strerror_tl : Z -> bytes).

Definition errno_items (e : Z) : list item :=
  if decide (e = 0) then [] else [CStr (Some (strerror_tl e)); CStr (Some (bs " (errno=")); Int e; CStr (Some (bs ") "))].
Definition func_items (f : option bytes) : list item :=
  match f with Some f => [CStr (Some f); Char " "%byte] | None => [] end.

Definition head_items (tz cur : option TimeZone.Data) (now gettid : Z) (m : macro) : list item :=
  time_items tz cur now ++ [Str (tid_text gettid); Str (LogLevelName (macro_level m))].
Definition rest_items (errno : Z) (m : macro) (base : bytes) (line : Z) (func : bytes) (items : list item) : list item :=
  errno_items (macro_errno m errno) ++ func_items (macro_func m func) ++ items ++
  [CStr (Some (bs " - ")); Str base; Char ":"%byte; Int line; Char LF].

(** ** A statement *)

(** GNU's [strerror_r] returns a string in a buffer of 512 bytes or a constant. *)
Definition strerror_ok : Prop := forall e, lenZ (strerror_tl e) < 512.

Lemma errno_items_ok e : strerror_ok -> s_in 32 e -> Forall item_ok (errno_items e).
Proof.
  intros Herr He. unfold errno_items. case_decide; [constructor|]. pose proof (Herr e).
  repeat (apply list.Forall_cons; split; [simpl; try lia; try done; unfold s_in, u_in in *; lia|]). constructor.
Qed.

Lemma file_size path : size_ (SourceFile_array path) = lenZ (data_ (SourceFile_array path)) /\ lenZ (data_ (SourceFile_array path)) <= lenZ path.
Proof.
  unfold SourceFile_array. destruct (find_last_of slash path) as [i|] eqn:E; simpl; [|lia].
  apply find_last_of_Some in E as (a & b & -> & _ & ->). unfold lenZ. rewrite length_drop, !length_app. simpl. lia.
Qed.

Lemma create_impl_spec shown cur now gettid m e file line th :
  let tz := zone_shown shown cur now in
  strerror_ok -> printable tz now -> 0 < gettid < 2 ^ 31 -> s_in 32 e -> thread_ok shown gettid th ->
  exists s th', create_impl strerror_tl cur now gettid (macro_level m) e file line th = Ok (mk_impl now s (macro_level m) line file, th') /\
    thread_ok (shows shown cur now) gettid th' /\ written (head_items tz cur now gettid m ++ errno_items e) s.
Proof.
  intros tz Herr Hp Hg He Hth. unfold create_impl.
  destruct (formatTime_spec shown cur now gettid th Hp Hth) as (th1 & s1 & -> & Hth1 & Hw1). fold tz in Hw1. cbn [mbind res_bind].
  rewrite (tid_spec _ gettid th1 Hg Hth1). cbn [CurrentThread.t_tidString CurrentThread.t_tidStringLength].
  pose proof (tid_text_length gettid Hg). rewrite !T_ok by (done || by destruct m). cbn [mbind res_bind].
  destruct (put_T_str (tid_text gettid) _ _ s1 eq_refl ltac:(lia) Hw1) as (s2 & -> & Hw2). cbn [mbind res_bind].
  destruct (put_T_str (LogLevelName (macro_level m)) 6 _ s2 ltac:(by destruct m) ltac:(lia) Hw2) as (s3 & -> & Hw3). cbn [mbind res_bind].
  rewrite <- !app_assoc in Hw3. change (written (head_items tz cur now gettid m) s3) in Hw3.
  pose proof (errno_items_ok e Herr He) as Hok.
  destruct (written_all _ _ _ Hw3 Hok) as (s4 & Hs4 & Hw4). exists s4. eexists.
  assert ((if bool_decide (e <> 0) then
         s ← put_cstr (Some (strerror_tl e)) s3;
         s ← put_cstr (Some (bs " (errno=")) s;
         s ← put_int e s;
         put_cstr (Some (bs ") ")) s
       else mret s3) = Ok s4) as ->.
  { rewrite <- Hs4. unfold errno_items. destruct (decide (e = 0)) as [->|Hne]; [done|]. rewrite bool_decide_eq_true_2 by done.
    do 3 (rewrite put_all_cons; cbn [put]; unfold put_int;
      match goal with |- (?m ≫= _) = _ => destruct m; [|done] end; cbn [mbind res_bind]).
    rewrite put_all_cons. cbn [put]. by destruct (put_cstr _ _). }
  split; [reflexivity|]. split; [|done]. destruct Hth1. split; [done|by right].
Qed.

Lemma finish_spec l s now lvl line path :
  written l s -> lenZ path < 2 ^ 31 -> s_in 32 line ->
  exists s', finish (mk_impl now s lvl line (SourceFile_array path)) = Ok (mk_impl now s' lvl line (SourceFile_array path)) /\
    written (l ++ [CStr (Some (bs " - ")); Str (data_ (SourceFile_array path)); Char ":"%byte; Int line; Char LF]) s'.
Proof.
  intros Hw Hpath Hline. unfold finish. cbn [stream_ basename_ line_ time_ level_].
  destruct (file_size path) as [Hsize Hle].
  destruct (written_put (CStr (Some (bs " - "))) _ _ Hw ltac:(done)) as (s1 & H1 & Hw1). cbn [put] in H1. rewrite H1. cbn [mbind res_bind].
  unfold put_file. rewrite Hsize. destruct (append_str (data_ (SourceFile_array path)) _ s1 ltac:(lia) Hw1) as (s2 & -> & Hw2). cbn [mbind res_bind].
  destruct (written_put (Char ":"%byte) _ _ Hw2 ltac:(done)) as (s3 & H3 & Hw3). cbn [put] in H3. rewrite H3. cbn [mbind res_bind].
  destruct (written_put (Int line) _ _ Hw3) as (s4 & H4 & Hw4); [left; unfold s_in in *; lia|].
  cbn [put] in H4. unfold put_int. rewrite H4. cbn [mbind res_bind].
  destruct (written_put (Char LF) _ _ Hw4 ltac:(done)) as (s5 & H5 & Hw5). cbn [put] in H5. rewrite H5. cbn [mbind res_bind].
  exists s5. split; [reflexivity|]. by rewrite <- !app_assoc in Hw5.
Qed.

(** The line that a statement hands to the output. *)
Definition line_of (tz cur : option TimeZone.Data) (now gettid errno : Z) (m : macro) (path : bytes) (line : Z) (func : bytes)
    (items : list item) (msg : bytes) : Prop :=
  let base := data_ (SourceFile_array path) in
  (exists dir, path = dir ++ base /\ slash ∉ base /\ (dir = [] \/ list.last dir = Some slash)) /\
  concat (map render (head_items tz cur now gettid m)) `prefix_of` msg /\
  exists kept, kept `sublist_of` head_items tz cur now gettid m ++ rest_items errno m base line func items /\ msg = concat (map render kept) /\
    (lenZ (concat (map render (head_items tz cur now gettid m ++ rest_items errno m base line func items))) + kMaxNumericSize <= kSmallBuffer ->
     kept = head_items tz cur now gettid m ++ rest_items errno m base line func items).

Definition args_ok (gettid errno : Z) (path : bytes) (line : Z) (func : bytes) (items : list item) : Prop :=
  0 < gettid < 2 ^ 31 /\ s_in 32 errno /\ lenZ path < 2 ^ 31 /\ s_in 32 line /\ lenZ func < 2 ^ 31 /\ Forall item_ok items.

Lemma time_items_ok tz cur now : printable tz now -> Forall item_ok (time_items tz cur now).
Proof.
  intros (Hs & Hr & _). apply list.Forall_cons. split.
  { simpl. unfold local_tm. rewrite date_text_length by done. lia. }
  apply list.Forall_cons. split; [|constructor]. cbn [item_ok]. pose proof (Z.mod_pos_bound now 1000000 ltac:(lia)).
  rewrite !lenZ_app, Timestamp.lenZ_fmt_0d by (simpl; lia). by destruct cur.
Qed.

Lemma head_items_ok tz cur now gettid m : printable tz now -> 0 < gettid < 2 ^ 31 -> Forall item_ok (head_items tz cur now gettid m).
Proof.
  intros Hp Hg. apply list.Forall_app. split; [by apply time_items_ok|]. pose proof (tid_text_length gettid Hg).
  repeat (apply list.Forall_cons; split; [simpl; try lia; by destruct m|]). constructor.
Qed.

Lemma rest_items_ok errno m path line func items :
  strerror_ok -> s_in 32 (macro_errno m errno) -> lenZ path < 2 ^ 31 -> s_in 32 line -> lenZ func < 2 ^ 31 -> Forall item_ok items ->
  Forall item_ok (rest_items errno m (data_ (SourceFile_array path)) line func items).
Proof.
  intros Herr He Hpath Hline Hfunc Hitems. unfold rest_items. destruct (file_size path) as [_ Hle].
  repeat (apply list.Forall_app; split); try done.
  - by apply errno_items_ok.
  - destruct m; simpl; repeat constructor; done.
  - repeat (apply list.Forall_cons; split; [simpl; try lia; try done; left; unfold s_in in *; lia|]). constructor.
Qed.

(** There is always room for the head. *)
Lemma head_kept tz cur now gettid m l s :
  printable tz now -> 0 < gettid < 2 ^ 31 -> Forall item_ok l -> written (head_items tz cur now gettid m ++ l) s ->
  concat (map render (head_items tz cur now gettid m)) `prefix_of` FixedBuffer.data s.
Proof.
  intros Hp Hg Hl [Hput _]. pose proof (head_items_ok tz cur now gettid m Hp Hg) as Hhead.
  destruct (written_all _ _ _ written_nil Hhead) as (s1 & Hs1 & Hw1). simpl in Hw1.
  rewrite put_all_app, Hs1 in Hput. cbn [mbind res_bind] in Hput.
  destruct (written_content _ _ Hhead Hw1) as (_ & kept & _ & Hd & Hall).
  destruct Hw1 as [_ Hwf1]. destruct (put_all_spec l s1 Hwf1 Hl) as (s' & kept' & Hs' & _ & _ & _ & Hd' & _).
  rewrite Hput in Hs'. injection Hs' as <-. exists (concat (map render kept')). rewrite Hd', Hd. f_equal. f_equal. f_equal. apply Hall.
  destruct Hp as (Hs & Hr & _). pose proof (tid_text_length gettid Hg). pose proof (Z.mod_pos_bound now 1000000 ltac:(lia)).
  unfold head_items, time_items, local_tm. cbn [map app concat render]. rewrite !lenZ_app, date_text_length, Timestamp.lenZ_fmt_0d by (done || simpl; lia).
  assert (lenZ (LogLevelName (macro_level m)) = 6) as -> by by destruct m.
  assert (lenZ (match cur with Some _ => bs " " | None => bs "Z " end) <= 2) by by destruct cur.
  change (lenZ (bs ".")) with 1. change (lenZ (@nil byte)) with 0. unfold kMaxNumericSize, kSmallBuffer. lia.
Qed.

Lemma file_spec path :
  let base := data_ (SourceFile_array path) in exists dir, path = dir ++ base /\ slash ∉ base /\ (dir = [] \/ list.last dir = Some slash).
Proof.
  unfold SourceFile_array. destruct (find_last_of slash path) as [i|] eqn:E; simpl.
  - apply find_last_of_Some in E as (a & b & -> & Hb & ->). exists (a ++ [slash]).
    assert (drop (S (length a)) (a ++ slash :: b) = b) as ->.
    { replace (S (length a)) with (length a + 1)%nat by lia. by rewrite <- drop_drop, drop_app_length. }
    rewrite <- app_assoc. split_and!; [done|done|]. right. by rewrite list.last_snoc.
  - apply find_last_of_None in E. exists []. split_and!; [done|done|by left].
Qed.

Lemma log_statement_spec shown cur now gettid errno m path line func items th :
  let tz := zone_shown shown cur now in
  strerror_ok -> printable tz now -> args_ok gettid errno path line func items -> thread_ok shown gettid th ->
  exists msg th', log_statement strerror_tl cur now gettid errno m (SourceFile_array path) line func items th =
      Ok (Output msg :: (if decide (macro_level m = FATAL) then [Flush; Abort] else []), th') /\
    thread_ok (shows shown cur now) gettid th' /\ line_of tz cur now gettid errno m path line func items msg.
Proof.
  intros tz Herr Hp (Hg & He & Hpath & Hline & Hfunc & Hitems) Hth. unfold log_statement.
  assert (s_in 32 (macro_errno m errno)) as He' by (destruct m; done || by unfold s_in).
  destruct (create_impl_spec shown cur now gettid m _ (SourceFile_array path) line th Herr Hp Hg He' Hth) as (s1 & th1 & -> & Hth1 & Hw1).
  cbn [mbind res_bind stream_ time_ level_ line_ basename_].
  assert (exists s2, (match macro_func m func with
       | Some f => s ← put_cstr (Some f) s1; put_char " "%byte s
       | None => mret s1
       end) = Ok s2 /\ written ((head_items tz cur now gettid m ++ errno_items (macro_errno m errno)) ++ func_items (macro_func m func)) s2)
    as (s2 & -> & Hw2).
  { destruct (macro_func m func) as [f|] eqn:Ef.
    - assert (f = func) as -> by (by destruct m; simplify_eq/=).
      destruct (written_put (CStr (Some func)) _ _ Hw1 Hfunc) as (s2 & H2 & Hw2). cbn [put] in H2. rewrite H2. cbn [mbind res_bind].
      destruct (written_put (Char " "%byte) _ _ Hw2 ltac:(done)) as (s3 & H3 & Hw3). exists s3. split; [exact H3|].
      by rewrite <- app_assoc in Hw3.
    - exists s1. split; [done|]. simpl. by rewrite app_nil_r. }
  cbn [mbind res_bind]. destruct (written_all items _ _ Hw2 Hitems) as (s3 & -> & Hw3). cbn [mbind res_bind].
  unfold destruct_logger. destruct (finish_spec _ s3 now (macro_level m) line path Hw3 Hpath Hline) as (s4 & -> & Hw4).
  cbn [mbind res_bind stream_ level_].
  assert (written (head_items tz cur now gettid m ++ rest_items errno m (data_ (SourceFile_array path)) line func items) s4) as Hw.
  { unfold rest_items. by rewrite <- !app_assoc in Hw4. }
  pose proof Hw as [Hput Hwf]. set (all := head_items tz cur now gettid m ++ _) in *.
  assert (FixedBuffer.length s4 = lenZ (FixedBuffer.data s4)) as ->.
  { unfold FixedBuffer.length. unfold FixedBuffer.wf in Hwf. pose proof (lenZ_nonneg (FixedBuffer.data s4)).
    apply swrap_small; [lia|]. unfold s_in. lia. }
  rewrite check_true by (apply bool_decide_eq_true; lia). cbn [mbind res_bind].
  rewrite take_ge by (unfold lenZ; lia). exists (FixedBuffer.data s4), th1.
  split; [by destruct m|]. split; [done|]. pose proof (head_items_ok tz cur now gettid m Hp Hg) as Hhead.
  pose proof (rest_items_ok errno m path line func items Herr He' Hpath Hline Hfunc Hitems) as Hrest. split_and!.
  - apply file_spec.
  - by eapply (head_kept _ _ _ _ _ _ s4 Hp Hg Hrest).
  - apply written_content; [|done]. subst all. by apply list.Forall_app.
Qed.

(** ** A process that logs *)

Definition event_ok (h : history) (w : t) (e : event) : Prop :=
  match e with
  | Log gettid now errno m path line func items =>
      printable (zone_shown (h !! gettid) (g_logTimeZone w) now) now /\ args_ok gettid errno path line func items
  | SetLogLevel _ | SetTimeZone _ => True
  end.

(** The history after an event. *)
Definition logged (e : event) (h : history) (w : t) : history :=
  match e with
  | Log gettid now _ m _ _ _ _ =>
      if enabled (g_logLevel w) m then <[gettid := (now / 1000000, zone_shown (h !! gettid) (g_logTimeZone w) now)]> h else h
  | _ => h
  end.

Inductive reachable : history -> t -> Prop :=
  | reach_start level tz : reachable ∅ (mk level tz ∅)
  | reach_event h w e o w' :
      reachable h w -> event_ok h w e -> handle strerror_tl e w = Ok (o, w') -> Abort ∉ o -> reachable (logged e h w) w'.

Definition inv (h : history) (w : t) : Prop :=
  forall gettid, thread_ok (h !! gettid) gettid (default new_thread (threads w !! gettid)).

(** What an event does. *)
Definition event_done (h : history) (e : event) (w : t) (o : list effect) (w' : t) : Prop :=
  match e with
  | Log gettid now errno m path line func items =>
      if enabled (g_logLevel w) m then
        exists msg, o = Output msg :: (if decide (macro_level m = FATAL) then [Flush; Abort] else []) /\
          line_of (zone_shown (h !! gettid) (g_logTimeZone w) now) (g_logTimeZone w) now gettid errno m path line func items msg
      else o = [] /\ w' = w
  | SetLogLevel level => o = [] /\ w' = mk level (g_logTimeZone w) (threads w)
  | SetTimeZone tz => o = [] /\ w' = mk (g_logLevel w) tz (threads w)
  end.

Lemma handle_spec h e w :
  strerror_ok -> inv h w -> event_ok h w e ->
  exists o w', handle strerror_tl e w = Ok (o, w') /\ event_done h e w o w' /\ inv (logged e h w) w'.
Proof.
  intros Herr Hth He. destruct e as [gettid now errno m path line func items|level|tz]; [|eexists _, _; split; [reflexivity|split; [done|exact Hth]]..].
  destruct He as [Hp Hargs]. simpl. destruct (enabled (g_logLevel w) m) eqn:En;
    [|eexists _, _; split; [reflexivity|split; [done|exact Hth]]].
  destruct (log_statement_spec _ _ now gettid errno m path line func items _ Herr Hp Hargs (Hth gettid)) as (msg & th' & -> & Hth' & Hmsg).
  eexists _, _. split; [reflexivity|]. split; [by exists msg|]. intros g. simpl.
  destruct (decide (g = gettid)) as [->|Hne]; [rewrite !lookup_insert_eq; exact Hth'|rewrite !lookup_insert_ne by done; apply Hth].
Qed.

Lemma log_reachable h w : strerror_ok -> reachable h w -> inv h w.
Proof.
  intros Herr. induction 1 as [level tz|h w e o w' _ IH He Hrun _].
  - intros g. rewrite !lookup_empty. split; [done|by left].
  - destruct (handle_spec h e w Herr IH He) as (o2 & w2 & Hrun2 & _ & Hinv). rewrite Hrun in Hrun2. by injection Hrun2 as <- <-.
Qed.

(** C27: a line says when, who and how serious.  In every reachable state, with the texts that
    the threads keep and whatever time zones and levels were set before, a statement whose
    macro the level of the process lets through, at a time between the first second of 1970
    and the year 10000, hands exactly one message to the output and no assertion fails.  The
    message begins with the date and time of the statement's second and its microseconds,
    the number of its thread and its level.  The date and time are those of the zone that is
    set, unless the thread has logged in this very second already: then they are those of the
    zone that it showed there.  After that come whole items of what the caller streams and of
    the tail with the base name of the file (the path behind its last slash), the line and
    the line feed: all of them when this leaves 32 bytes of the line's 4000, while in a longer
    line items may be left out, the line feed too.  FATAL flushes and aborts; a statement
    below the level does nothing. *)
Theorem logger_lines h w e :
  strerror_ok -> reachable h w -> event_ok h w e ->
  exists o w', handle strerror_tl e w = Ok (o, w') /\ event_done h e w o w'.
Proof.
  intros Herr Hw He. destruct (handle_spec h e w Herr (log_reachable h w Herr Hw) He) as (o & w' & ? & ? & _). by exists o, w'.
Qed.
End lines.

Definition strerror_demo (e : Z) : bytes := bs "No such file or directory".

(** Two lines of one thread within a second, in New York, the second one with an error number. *)
Definition demo_zone : option TimeZone.Data := Some TimeZone.new_york.
Definition demo_first : event := Log 77 1572759000000005 0 LOG_INFO (bs "muduo/net/TcpServer.cc") 80 [] [CStr (Some (bs "up"))].
Definition demo_second : event := Log 77 1572759000000009 2 LOG_SYSERR (bs "main.cc") 7 [] [Int (-1)].

Definition demo_start : t := mk INFO demo_zone ∅.
Definition demo_history : history := logged demo_first ∅ demo_start.

Lemma demo_events_ok w : g_logTimeZone w = demo_zone -> event_ok ∅ demo_start demo_first /\ event_ok demo_history w demo_second.
Proof.
  intros Hw. unfold event_ok, demo_second, demo_first at 1. rewrite Hw.
  assert (zone_shown (demo_history !! 77) demo_zone 1572759000000009 = demo_zone) as -> by (vm_compute; reflexivity).
  assert (zone_shown ((∅ : history) !! 77) (g_logTimeZone demo_start) 1572759000000005 = demo_zone) as -> by (vm_compute; reflexivity).
  unfold printable, args_ok, s_in.
  repeat match goal with |- _ /\ _ => split end.
  all: try (apply list.Forall_cons; split; [first [done|left; split; vm_compute; [discriminate|reflexivity]]|constructor]).
  all: vm_compute; first [reflexivity|discriminate].
Qed.

Lemma logger_lines_witness :
  exists o w w', handle strerror_demo demo_first demo_start =
      Ok ([Output (bs "20191103 01:30:00.000005    77 INFO  up - TcpServer.cc:80" ++ [LF])], w) /\
    handle strerror_demo demo_second w = Ok (o, w') /\ event_done strerror_demo demo_history demo_second w o w' /\
    o = [Output (bs "20191103 01:30:00.000009    77 ERROR No such file or directory (errno=2) -1 - main.cc:7" ++ [LF])].
Proof.
  assert (exists o w, handle strerror_demo demo_first demo_start = Ok (o, w) /\ g_logTimeZone w = demo_zone /\
    o = [Output (bs "20191103 01:30:00.000005    77 INFO  up - TcpServer.cc:80" ++ [LF])]) as (o1 & w & H1 & Hz & Ho1).
  { eexists _, _. split; [vm_compute; reflexivity|]. split; vm_compute; reflexivity. }
  destruct (demo_events_ok w Hz) as [Hok1 Hok2].
  destruct (logger_lines strerror_demo demo_history w demo_second) as (o & w' & Hrun & Hdone).
  - intros e. vm_compute. reflexivity.
  - refine (reach_event strerror_demo ∅ demo_start demo_first o1 w (reach_start _ INFO demo_zone) Hok1 H1 _).
    rewrite Ho1. intros [Hc|Hc]%elem_of_cons; [discriminate Hc|by apply elem_of_nil in Hc].
  - exact Hok2.
  - exists o, w, w'. split; [rewrite <- Ho1; exact H1|]. split; [exact Hrun|]. split; [exact Hdone|].
    vm_compute in H1. injection H1 as _ <-. vm_compute in Hrun. injection Hrun as <- _. reflexivity.
Defined.

(** A zone set within a second does not show before the next one: the thread keeps the text
    of the old zone. *)
Lemma zone_set_within_second :
  exists w1 w2 w3 o, handle strerror_demo demo_first (mk INFO None ∅) = Ok (o, w1) /\
    handle strerror_demo (SetTimeZone demo_zone) w1 = Ok ([], w2) /\
    handle strerror_demo demo_second w2 =
      Ok ([Output (bs "20191103 05:30:00.000009    77 ERROR No such file or directory (errno=2) -1 - main.cc:7" ++ [LF])], w3).
Proof. eexists _, _, _, _. split; [vm_compute; reflexivity|]. split; [reflexivity|]. vm_compute. reflexivity. Qed.

(** A line that fills the stream loses its line feed. *)
Lemma full_line_has_no_end :
  exists msg w, handle strerror_demo (Log 77 1572759000000005 0 LOG_INFO (bs "main.cc") 7 [] [Str (replicate 3958 "x"%byte)]) (mk INFO None ∅) =
    Ok ([Output msg], w) /\ list.last msg = Some " "%byte.
Proof. eexists _, _. split; vm_compute; reflexivity. Qed.
End Logger.
