(* ===== verification/NetBuffer.v ===== *)
(** The network buffer ([muduo/net/Buffer.h], [Buffer.cc]).

    [Module Buffer] translates every operation; pointers into [buffer_] are offsets.
    Each [assert] is a [check]: the theorems show that none fails in a state satisfying
    the invariant [wf], so they hold of the Debug and of the NDEBUG build. *)
From S2P Require Import Prelude Endian StringPiece.
Open Scope Z_scope.

Module Buffer.

Definition kCheapPrepend : Z := 8.
Definition kInitialSize : Z := 1024.
Definition kCRLF : bytes := [CR; LF].

Record t := mk {
  buffer_ : bytes;
  readerIndex_ : Z;
  writerIndex_ : Z
}.

#[global] Instance t_eq_dec : EqDecision t.
Proof. solve_decision. Defined.

Definition readableBytes (b : t) : Z := size_sub (writerIndex_ b) (readerIndex_ b).
Definition writableBytes (b : t) : Z := size_sub (lenZ (buffer_ b)) (writerIndex_ b).
Definition prependableBytes (b : t) : Z := readerIndex_ b.

(** [Buffer(size_t initialSize)]. *)
Definition Buffer (initialSize : Z) : res t :=
  mem ← vector_resize (size_add kCheapPrepend initialSize) [];
  let b := mk mem kCheapPrepend kCheapPrepend in
  _ ← assert_ (bool_decide (readableBytes b = 0));
  _ ← assert_ (bool_decide (writableBytes b = initialSize));
  _ ← assert_ (bool_decide (prependableBytes b = kCheapPrepend));
  mret b.

(** [swap]: the pair is exchanged. *)
Definition swap (b rhs : t) : t * t := (rhs, b).

Definition peek (b : t) : Z := readerIndex_ b.
Definition beginWrite (b : t) : Z := writerIndex_ b.

(** The bytes between two offsets; outside the vector the access is undefined. *)
Definition range (i j : Z) (b : t) : res bytes :=
  _ ← check OutOfBounds (bool_decide (0 <= i <= j) && bool_decide (j <= lenZ (buffer_ b)));
  mret (slice i j (buffer_ b)).

(** [findCRLF(start)]; [None] is the null pointer. *)
Definition findCRLF_from (start : Z) (b : t) : res (option Z) :=
  _ ← assert_ (bool_decide (peek b <= start));
  _ ← assert_ (bool_decide (start <= beginWrite b));
  s ← range start (beginWrite b) b;
  mret ((fun i => start + Z.of_nat i) <$> search kCRLF s).

Definition findCRLF (b : t) : res (option Z) :=
  s ← range (peek b) (beginWrite b) b;
  mret ((fun i => peek b + Z.of_nat i) <$> search kCRLF s).

Definition findEOL_from (start : Z) (b : t) : res (option Z) :=
  _ ← assert_ (bool_decide (peek b <= start));
  _ ← assert_ (bool_decide (start <= beginWrite b));
  s ← range start (beginWrite b) b;
  mret ((fun i => start + Z.of_nat i) <$> find_byte LF s).

Definition findEOL (b : t) : res (option Z) :=
  s ← range (peek b) (peek b + readableBytes b) b;
  mret ((fun i => peek b + Z.of_nat i) <$> find_byte LF s).

Definition retrieveAll (b : t) : t := mk (buffer_ b) kCheapPrepend kCheapPrepend.

Definition retrieve (len : Z) (b : t) : res t :=
  _ ← assert_ (bool_decide (len <= readableBytes b));
  mret (if bool_decide (len < readableBytes b)
        then mk (buffer_ b) (size_add (readerIndex_ b) len) (writerIndex_ b)
        else retrieveAll b).

Definition retrieveUntil (end_ : Z) (b : t) : res t :=
  _ ← assert_ (bool_decide (peek b <= end_));
  _ ← assert_ (bool_decide (end_ <= beginWrite b));
  retrieve (end_ - peek b) b.

Definition retrieveInt64 : t -> res t := retrieve 8.
Definition retrieveInt32 : t -> res t := retrieve 4.
Definition retrieveInt16 : t -> res t := retrieve 2.
Definition retrieveInt8 : t -> res t := retrieve 1.

Definition retrieveAsString (len : Z) (b : t) : res (bytes * t) :=
  _ ← assert_ (bool_decide (len <= readableBytes b));
  result ← range (peek b) (peek b + len) b;
  b' ← retrieve len b;
  mret (result, b').

Definition retrieveAllAsString (b : t) : res (bytes * t) :=
  retrieveAsString (readableBytes b) b.

Definition toStringPiece (b : t) : StringPiece.t :=
  StringPiece.of_offset (drop (Z.to_nat (peek b)) (buffer_ b)) (swrap 32 (readableBytes b)).

Definition makeSpace (len : Z) (b : t) : res t :=
  if bool_decide (size_add (writableBytes b) (prependableBytes b) < size_add len kCheapPrepend)
  then
    mem ← vector_resize (size_add (writerIndex_ b) len) (buffer_ b);
    mret (mk mem (readerIndex_ b) (writerIndex_ b))
  else
    _ ← assert_ (bool_decide (kCheapPrepend < readerIndex_ b));
    let readable := readableBytes b in
    d ← range (readerIndex_ b) (writerIndex_ b) b;
    mem ← copy_to kCheapPrepend d (buffer_ b);
    let b' := mk mem kCheapPrepend (size_add kCheapPrepend readable) in
    _ ← assert_ (bool_decide (readable = readableBytes b'));
    mret b'.

Definition ensureWritableBytes (len : Z) (b : t) : res t :=
  b' ← (if bool_decide (writableBytes b < len) then makeSpace len b else mret b);
  _ ← assert_ (bool_decide (len <= writableBytes b'));
  mret b'.

Definition hasWritten (len : Z) (b : t) : res t :=
  _ ← assert_ (bool_decide (len <= writableBytes b));
  mret (mk (buffer_ b) (readerIndex_ b) (size_add (writerIndex_ b) len)).

Definition unwrite (len : Z) (b : t) : res t :=
  _ ← assert_ (bool_decide (len <= readableBytes b));
  mret (mk (buffer_ b) (readerIndex_ b) (size_sub (writerIndex_ b) len)).

(** [append(const char* data, size_t len)]: [data] is the region the pointer starts. *)
Definition append (data : bytes) (len : Z) (b : t) : res t :=
  b1 ← ensureWritableBytes len b;
  _ ← check OutOfBounds (bool_decide (len <= lenZ data));
  mem ← copy_to (beginWrite b1) (take (Z.to_nat len) data) (buffer_ b1);
  hasWritten len (mk mem (readerIndex_ b1) (writerIndex_ b1)).

(** [append(const StringPiece& str)]: the [int] size converts to [size_t]. *)
Definition append_piece (str : StringPiece.t) (b : t) : res t :=
  append (StringPiece.data str) (size_wrap (StringPiece.size str)) b.

Definition appendInt64 (x : Z) (b : t) : res t :=
  let be64 := swrap 64 (hostToNetwork64 x) in append (to_mem 8 be64) 8 b.
Definition appendInt32 (x : Z) (b : t) : res t :=
  let be32 := swrap 32 (hostToNetwork32 x) in append (to_mem 4 be32) 4 b.
Definition appendInt16 (x : Z) (b : t) : res t :=
  let be16 := swrap 16 (hostToNetwork16 x) in append (to_mem 2 be16) 2 b.
Definition appendInt8 (x : Z) (b : t) : res t := append (to_mem 1 x) 1 b.

(** The common body of [peekInt64/32/16]: assert, [memcpy], convert. *)
Definition peek_mem (n : Z) (b : t) : res bytes :=
  _ ← assert_ (bool_decide (n <= readableBytes b));
  range (peek b) (peek b + n) b.

Definition peekInt64 (b : t) : res Z :=
  m ← peek_mem 8 b; mret (swrap 64 (networkToHost64 (of_mem_s m))).
Definition peekInt32 (b : t) : res Z :=
  m ← peek_mem 4 b; mret (swrap 32 (networkToHost32 (of_mem_s m))).
Definition peekInt16 (b : t) : res Z :=
  m ← peek_mem 2 b; mret (swrap 16 (networkToHost16 (of_mem_s m))).
Definition peekInt8 (b : t) : res Z :=
  m ← peek_mem 1 b; mret (of_mem_s m).

Definition readInt64 (b : t) : res (Z * t) :=
  result ← peekInt64 b; b' ← retrieveInt64 b; mret (result, b').
Definition readInt32 (b : t) : res (Z * t) :=
  result ← peekInt32 b; b' ← retrieveInt32 b; mret (result, b').
Definition readInt16 (b : t) : res (Z * t) :=
  result ← peekInt16 b; b' ← retrieveInt16 b; mret (result, b').
Definition readInt8 (b : t) : res (Z * t) :=
  result ← peekInt8 b; b' ← retrieveInt8 b; mret (result, b').

Definition prepend (data : bytes) (len : Z) (b : t) : res t :=
  _ ← assert_ (bool_decide (len <= prependableBytes b));
  let r := size_sub (readerIndex_ b) len in
  _ ← check OutOfBounds (bool_decide (len <= lenZ data));
  mem ← copy_to r (take (Z.to_nat len) data) (buffer_ b);
  mret (mk mem r (writerIndex_ b)).

Definition prependInt64 (x : Z) (b : t) : res t :=
  let be64 := swrap 64 (hostToNetwork64 x) in prepend (to_mem 8 be64) 8 b.
Definition prependInt32 (x : Z) (b : t) : res t :=
  let be32 := swrap 32 (hostToNetwork32 x) in prepend (to_mem 4 be32) 4 b.
Definition prependInt16 (x : Z) (b : t) : res t :=
  let be16 := swrap 16 (hostToNetwork16 x) in prepend (to_mem 2 be16) 2 b.
Definition prependInt8 (x : Z) (b : t) : res t := prepend (to_mem 1 x) 1 b.

Definition shrink (reserve : Z) (b : t) : res t :=
  other ← Buffer kInitialSize;
  other ← ensureWritableBytes (size_add (readableBytes b) reserve) other;
  other ← append_piece (toStringPiece b) other;
  mret (fst (swap b other)).

(** What [readv(2)] reports for the offered number of bytes: an errno, or the bytes
    delivered (the kernel is outside the model and is a parameter of [readFd]). *)
Inductive readv_result :=
  | ReadvError (errno : Z)
  | ReadvData (d : bytes).

Definition extrabuf_size : Z := 65536.

(** [readFd]: the count it returns, the saved errno and the buffer after. *)
Definition readFd (readv : Z -> readv_result) (b : t) : res (Z * option Z * t) :=
  let writable := writableBytes b in
  let iovcnt2 := bool_decide (writable < extrabuf_size) in
  match readv (if iovcnt2 then writable + extrabuf_size else writable) with
  | ReadvError errno => mret (-1, Some errno, b)
  | ReadvData d =>
      let n := lenZ d in
      mem ← copy_to (writerIndex_ b) (take (Z.to_nat writable) d) (buffer_ b);
      let extra := drop (Z.to_nat writable) d in
      _ ← check OutOfBounds (bool_decide (lenZ extra <= if iovcnt2 then extrabuf_size else 0));
      if bool_decide (n <= writable) then
        mret (n, None, mk mem (readerIndex_ b) (size_add (writerIndex_ b) n))
      else
        b' ← append extra (n - writable) (mk mem (readerIndex_ b) (lenZ mem));
        mret (n, None, b')
  end.

(** ** Invariant and abstraction *)

(** [0 <= readerIndex_ <= writerIndex_ <= size()], and the vector is an allocated one
    that has room for the cheap prepend area. *)
Definition wf (b : t) : Prop :=
  0 <= readerIndex_ b <= writerIndex_ b /\
  writerIndex_ b <= lenZ (buffer_ b) /\
  kCheapPrepend <= lenZ (buffer_ b) <= vector_max_size.

#[global] Instance wf_dec b : Decision (wf b) := _.

(** What the buffer denotes: its readable bytes. *)
Definition content (b : t) : bytes := slice (readerIndex_ b) (writerIndex_ b) (buffer_ b).

(** ** Lemmas *)

Lemma lenZ_content b : wf b -> lenZ (content b) = writerIndex_ b - readerIndex_ b.
Proof. unfold wf, content. intros (? & ? & ?). apply lenZ_slice; lia. Qed.

Lemma readable_wf b : wf b -> readableBytes b = writerIndex_ b - readerIndex_ b.
Proof. unfold wf, readableBytes, vector_max_size. intros. apply size_sub_small; lia. Qed.

Lemma readable_content b : wf b -> readableBytes b = lenZ (content b).
Proof. intros. by rewrite readable_wf, lenZ_content. Qed.

Lemma writable_wf b : wf b -> writableBytes b = lenZ (buffer_ b) - writerIndex_ b.
Proof. unfold wf, writableBytes, vector_max_size. intros. apply size_sub_small; lia. Qed.

Lemma range_wf i j b :
  wf b -> 0 <= i <= j -> j <= writerIndex_ b -> range i j b = Ok (slice i j (buffer_ b)).
Proof.
  intros (? & ? & ?) ??. unfold range. rewrite !bool_decide_eq_true_2 by lia. done.
Qed.

Lemma range_content b : wf b -> range (peek b) (beginWrite b) b = Ok (content b).
Proof. intros Hb. pose proof Hb as (? & ? & ?). apply range_wf; unfold peek, beginWrite; [done|lia|lia]. Qed.

(** Unfolds the sizes of a well-formed buffer into linear arithmetic. *)
Ltac buf_lia :=
  unfold wf, peek, beginWrite, prependableBytes, retrieveAll in *; simpl in *;
  unfold kCheapPrepend, vector_max_size, size_add, size_sub in *;
  rewrite ?uwrap_small by (unfold u_in; lia); simpl in *; try lia.

(** [b'] denotes [c], is well-formed, and offers the cheap prepend area that [r] promises. *)
Lemma retrieve_spec len b :
  wf b -> 0 <= len <= readableBytes b ->
  exists b', retrieve len b = Ok b' /\ wf b' /\
    content b' = drop (Z.to_nat len) (content b) /\
    buffer_ b' = buffer_ b /\
    readerIndex_ b' = (if bool_decide (len < readableBytes b) then readerIndex_ b + len else 8).
Proof.
  intros Hb Hlen. unfold retrieve. rewrite (check_true AssertionFailed) by (apply bool_decide_eq_true; lia).
  eexists; split; [reflexivity|]. pose proof (readable_wf b Hb). case_bool_decide as Hl.
  - assert (size_add (readerIndex_ b) len = readerIndex_ b + len) as He
      by (apply size_add_small; buf_lia).
    split_and!; simpl; rewrite ?He; [buf_lia| |done|done].
    unfold content. simpl. symmetry. apply drop_slice; buf_lia.
  - split_and!; simpl; [buf_lia| |done|done].
    unfold content at 1. simpl. rewrite slice_nil, drop_ge; [done|].
    pose proof (lenZ_content b Hb). unfold lenZ in *. lia.
Qed.

Lemma makeSpace_spec len b :
  wf b -> writableBytes b < len <= vector_max_size ->
  (writableBytes b + prependableBytes b < len + kCheapPrepend -> writerIndex_ b + len <= vector_max_size) ->
  exists b', makeSpace len b = Ok b' /\ wf b' /\ content b' = content b /\
    len <= writableBytes b' /\ Z.min 8 (readerIndex_ b) <= readerIndex_ b' /\
    lenZ (buffer_ b') <= lenZ (buffer_ b) + len.
Proof.
  intros Hb Hlt Hmax. pose proof (readable_wf b Hb) as Hr. pose proof (writable_wf b Hb) as Hw.
  unfold makeSpace. rewrite Hw in *.
  rewrite !size_add_small by buf_lia.
  case_bool_decide as Hc.
  - unfold vector_resize. rewrite bool_decide_eq_true_2 by buf_lia. simpl.
    eexists; split; [reflexivity|].
    assert (lenZ (take (Z.to_nat (writerIndex_ b + len)) (buffer_ b) ++
      replicate (Z.to_nat (writerIndex_ b + len) - length (buffer_ b)) "000"%byte) =
      writerIndex_ b + len) as Hl.
    { unfold lenZ in *. rewrite length_app, length_take, length_replicate. buf_lia. }
    assert (wf (mk (take (Z.to_nat (writerIndex_ b + len)) (buffer_ b) ++
      replicate (Z.to_nat (writerIndex_ b + len) - length (buffer_ b)) "000"%byte)
      (readerIndex_ b) (writerIndex_ b))) as Hwf by (unfold wf in *; simpl; rewrite Hl; buf_lia).
    split_and!; [done| | |simpl; lia|].
    + unfold content. simpl. rewrite take_ge by (unfold lenZ in *; buf_lia).
      apply slice_app_l; buf_lia.
    + rewrite writable_wf by done. simpl. lia.
    + simpl. buf_lia.
  - rewrite check_true by (apply bool_decide_eq_true; buf_lia). simpl.
    change (range (readerIndex_ b) (writerIndex_ b) b) with (range (peek b) (beginWrite b) b).
    rewrite range_content by done. simpl.
    pose proof (lenZ_content b Hb) as Hlc.
    rewrite copy_to_ok by buf_lia. simpl.
    assert (lenZ (splice kCheapPrepend (content b) (buffer_ b)) = lenZ (buffer_ b)) as Hls
      by (apply lenZ_splice; buf_lia).
    set (b' := mk _ _ _).
    assert (wf b') as Hwf by (unfold wf, b'; simpl; rewrite Hls; buf_lia).
    rewrite check_true by (apply bool_decide_eq_true; rewrite (readable_wf b') by done; simpl; lia).
    simpl. exists b'. split_and!; [done|done| | |simpl; buf_lia|simpl; rewrite Hls; buf_lia].
    + unfold content at 1. unfold b'; simpl. rewrite Hr, <- Hlc. apply slice_splice; buf_lia.
    + rewrite writable_wf by done. unfold b'; simpl. rewrite Hls. buf_lia.
Qed.

Lemma ensureWritable_spec len b :
  wf b -> 0 <= len -> lenZ (buffer_ b) + len <= vector_max_size ->
  exists b', ensureWritableBytes len b = Ok b' /\ wf b' /\ content b' = content b /\
    len <= writableBytes b' /\ Z.min 8 (readerIndex_ b) <= readerIndex_ b' /\
    lenZ (buffer_ b') <= lenZ (buffer_ b) + len.
Proof.
  intros Hb Hlen Hmax. unfold ensureWritableBytes. case_bool_decide as Hc.
  - destruct (makeSpace_spec len b Hb) as (b' & -> & ? & ? & ? & ? & ?);
      [buf_lia..|]. simpl.
    rewrite check_true by (apply bool_decide_eq_true; lia). by exists b'.
  - simpl. rewrite check_true by (apply bool_decide_eq_true; lia). simpl.
    exists b. split_and!; done || lia.
Qed.

(** Writing [d] at [writerIndex_] and advancing it: the tail of [append] and of [readFd]. *)
Lemma write_tail_spec d b :
  wf b -> lenZ d <= writableBytes b ->
  let b' := mk (splice (writerIndex_ b) d (buffer_ b)) (readerIndex_ b) (writerIndex_ b + lenZ d) in
  copy_to (writerIndex_ b) d (buffer_ b) = Ok (splice (writerIndex_ b) d (buffer_ b)) /\
  wf b' /\ content b' = content b ++ d /\ lenZ (buffer_ b') = lenZ (buffer_ b).
Proof.
  intros Hb Hd b'. rewrite writable_wf in Hd by done. pose proof (lenZ_nonneg d).
  assert (lenZ (splice (writerIndex_ b) d (buffer_ b)) = lenZ (buffer_ b)) as Hls
    by (apply lenZ_splice; buf_lia).
  split_and!.
  - apply copy_to_ok; buf_lia.
  - unfold wf, b'. simpl. rewrite Hls. buf_lia.
  - unfold content, b'. simpl.
    rewrite (slice_cat _ (writerIndex_ b)) by buf_lia.
    rewrite slice_splice by buf_lia. by rewrite slice_splice_before by buf_lia.
  - done.
Qed.

(** [append] where [ensureWritableBytes len] gives [b1]: only [b1] matters. *)
Lemma append_after_ensure data len b b1 :
  ensureWritableBytes len b = Ok b1 -> wf b1 -> 0 <= len <= lenZ data -> len <= writableBytes b1 ->
  exists b', append data len b = Ok b' /\ wf b' /\
    content b' = content b1 ++ take (Z.to_nat len) data /\
    readerIndex_ b' = readerIndex_ b1 /\ lenZ (buffer_ b') = lenZ (buffer_ b1).
Proof.
  intros He H1 Hlen Hw. unfold append. rewrite He. simpl.
  rewrite check_true by (apply bool_decide_eq_true; lia). simpl. unfold beginWrite.
  set (d := take (Z.to_nat len) data).
  assert (lenZ d = len) as Hd by (unfold d, lenZ in *; rewrite length_take; lia).
  destruct (write_tail_spec d b1 H1) as (-> & Hwf & Hct & Hl); [lia|]. simpl in *.
  unfold hasWritten. rewrite check_true.
  2: { apply bool_decide_eq_true. unfold writableBytes in *. simpl. by rewrite Hl. }
  simpl. rewrite writable_wf in Hw by done. rewrite size_add_small by buf_lia.
  rewrite Hd in Hwf, Hct. eexists; split; [reflexivity|]. done.
Qed.

Lemma append_spec data b :
  wf b -> lenZ (buffer_ b) + lenZ data <= vector_max_size ->
  exists b', append data (lenZ data) b = Ok b' /\ wf b' /\
    content b' = content b ++ data /\
    Z.min 8 (readerIndex_ b) <= readerIndex_ b' /\
    lenZ (buffer_ b') <= lenZ (buffer_ b) + lenZ data.
Proof.
  intros Hb Hmax. pose proof (lenZ_nonneg data) as Hnn.
  destruct (ensureWritable_spec (lenZ data) b Hb Hnn Hmax) as (b1 & He & H1 & Hc & Hw & Hr & Hl).
  destruct (append_after_ensure data (lenZ data) b b1 He H1) as (b' & -> & ? & Hct & Hr' & Hl');
    [lia..|]. exists b'. rewrite Hr', Hl', Hct, Hc, take_ge by (unfold lenZ; lia). done.
Qed.

(** What is written into the room that there is moves nothing. *)
Lemma append_in_room data b :
  wf b -> lenZ data <= writableBytes b ->
  exists b', append data (lenZ data) b = Ok b' /\ wf b' /\ content b' = content b ++ data /\
    readerIndex_ b' = readerIndex_ b /\ lenZ (buffer_ b') = lenZ (buffer_ b).
Proof.
  intros Hb Hroom. pose proof (lenZ_nonneg data).
  assert (ensureWritableBytes (lenZ data) b = Ok b) as He.
  { unfold ensureWritableBytes. rewrite bool_decide_eq_false_2 by lia. simpl.
    by rewrite check_true by (apply bool_decide_eq_true; lia). }
  destruct (append_after_ensure data (lenZ data) b b He Hb) as (b' & -> & ? & Hc & ? & ?); [lia|done|].
  exists b'. rewrite Hc, take_ge by (unfold lenZ; lia). done.
Qed.

Lemma writable_content b : wf b -> writableBytes b = lenZ (buffer_ b) - readerIndex_ b - lenZ (content b).
Proof. intros Hb. rewrite writable_wf, lenZ_content by done. lia. Qed.

(** Whatever the sizes, [append] appends or throws. *)
Lemma append_total data len b :
  wf b -> 0 <= len <= lenZ data -> len <= vector_max_size ->
  match append data len b with
  | Ok b' => wf b' /\ content b' = content b ++ take (Z.to_nat len) data
  | Fail e => e = LengthError
  end.
Proof.
  intros Hb Hlen Hsmall. destruct (ensureWritableBytes len b) as [b1|e] eqn:He.
  - assert (wf b1 /\ content b1 = content b /\ len <= writableBytes b1) as (H1 & Hc1 & Hw1).
    { revert He. unfold ensureWritableBytes. case_bool_decide as Hw; simpl.
      - destruct (makeSpace len b) as [b'|] eqn:Hm; simpl; [|done].
        unfold check. case_bool_decide; [|done]. intros [= <-].
        destruct (makeSpace_spec len b Hb) as (b2 & Hm2 & ? & ? & ? & _); [buf_lia| |congruence || by rewrite Hm in Hm2; injection Hm2 as ->].
        intros Hgrow. revert Hm. unfold makeSpace, vector_resize. pose proof (writable_wf b Hb).
        rewrite !size_add_small by buf_lia. rewrite bool_decide_eq_true_2 by done.
        case_bool_decide; done.
      - unfold check. case_bool_decide; [|done]. by intros [= <-]. }
    destruct (append_after_ensure data len b b1 He H1 Hlen Hw1) as (b' & -> & ? & -> & _). by rewrite Hc1.
  - unfold append. rewrite He. simpl. revert He. unfold ensureWritableBytes. case_bool_decide as Hw; simpl.
    + destruct (decide (writableBytes b + prependableBytes b < len + kCheapPrepend -> writerIndex_ b + len <= vector_max_size)) as [Hok|Hno].
      * destruct (makeSpace_spec len b Hb ltac:(buf_lia) Hok) as (b' & -> & _ & _ & Hle & _). simpl.
        by rewrite check_true by (apply bool_decide_eq_true; lia).
      * unfold makeSpace, vector_resize. pose proof (writable_wf b Hb).
        rewrite !size_add_small by buf_lia. rewrite bool_decide_eq_true_2 by lia.
        rewrite bool_decide_eq_false_2 by lia. simpl. congruence.
    + by rewrite check_true by (apply bool_decide_eq_true; lia).
Qed.

Lemma prepend_spec data b :
  wf b -> lenZ data <= readerIndex_ b ->
  exists b', prepend data (lenZ data) b = Ok b' /\ wf b' /\
    content b' = data ++ content b /\ readerIndex_ b' = readerIndex_ b - lenZ data /\
    lenZ (buffer_ b') = lenZ (buffer_ b).
Proof.
  intros Hb Hd. pose proof (lenZ_nonneg data) as Hnn. unfold prepend, prependableBytes.
  rewrite !check_true by (apply bool_decide_eq_true; lia). simpl.
  rewrite size_sub_small by buf_lia.
  rewrite take_ge by (unfold lenZ; lia).
  rewrite copy_to_ok by buf_lia. simpl.
  assert (lenZ (splice (readerIndex_ b - lenZ data) data (buffer_ b)) = lenZ (buffer_ b)) as Hls
    by (apply lenZ_splice; buf_lia).
  eexists; split; [reflexivity|]. split_and!.
  - unfold wf. simpl. rewrite Hls. buf_lia.
  - unfold content. simpl. rewrite (slice_cat _ (readerIndex_ b)) by buf_lia. f_equal.
    + replace (slice (readerIndex_ b - lenZ data) (readerIndex_ b))
        with (slice (A:=byte) (readerIndex_ b - lenZ data) (readerIndex_ b - lenZ data + lenZ data))
        by (f_equal; lia).
      apply slice_splice; buf_lia.
    + apply slice_splice_after; buf_lia.
  - done.
  - done.
Qed.

Lemma unwrite_spec len b :
  wf b -> 0 <= len <= readableBytes b ->
  exists b', unwrite len b = Ok b' /\ wf b' /\
    content b' = take (Z.to_nat (lenZ (content b) - len)) (content b) /\
    readerIndex_ b' = readerIndex_ b /\ buffer_ b' = buffer_ b.
Proof.
  intros Hb Hlen. pose proof (readable_wf b Hb) as Hr. unfold unwrite.
  rewrite check_true by (apply bool_decide_eq_true; lia). simpl.
  rewrite size_sub_small by buf_lia. eexists; split; [reflexivity|].
  split_and!; [buf_lia| |done|done].
  rewrite (lenZ_content b Hb). unfold content at 2. rewrite take_slice by buf_lia.
  unfold content. simpl. f_equal. lia.
Qed.

Lemma retrieveAll_wf b : wf b -> wf (retrieveAll b).
Proof. intros. buf_lia. Qed.

Lemma retrieveAll_content b : content (retrieveAll b) = [].
Proof. apply slice_nil. Qed.

Lemma Buffer_spec n :
  0 <= n -> n + 8 <= vector_max_size ->
  exists b, Buffer n = Ok b /\ wf b /\ content b = [] /\ readerIndex_ b = 8 /\
    writerIndex_ b = 8 /\ lenZ (buffer_ b) = n + 8.
Proof.
  intros Hn Hmax. unfold Buffer. rewrite size_add_small by buf_lia.
  unfold vector_resize. rewrite bool_decide_eq_true_2 by buf_lia. simpl.
  rewrite take_nil. simpl. rewrite Nat.sub_0_r.
  set (mem := replicate _ _). assert (lenZ mem = n + 8) as Hmem.
  { unfold mem, lenZ. rewrite length_replicate. buf_lia. }
  set (b := mk mem kCheapPrepend kCheapPrepend).
  assert (wf b) as Hb by (unfold wf, b; simpl; rewrite Hmem; buf_lia).
  rewrite check_true by (apply bool_decide_eq_true; rewrite writable_wf by done; simpl; buf_lia). simpl.
  exists b. split_and!; try done.
Qed.

Lemma data_toStringPiece b :
  wf b -> take (length (content b)) (StringPiece.data (toStringPiece b)) = content b.
Proof.
  intros Hb. pose proof (lenZ_content b Hb) as Hl. unfold lenZ in Hl. simpl.
  unfold content, slice, peek in *. f_equal. lia.
Qed.

Lemma peek_mem_spec n b :
  wf b -> 0 <= n <= lenZ (content b) ->
  peek_mem n b = Ok (take (Z.to_nat n) (content b)).
Proof.
  intros Hb Hn. pose proof (lenZ_content b Hb). unfold peek_mem.
  rewrite check_true by (apply bool_decide_eq_true; rewrite readable_content by done; lia).
  simpl. rewrite range_wf by (done || buf_lia). unfold content.
  rewrite take_slice by buf_lia. done.
Qed.

(** A read is a peek followed by a retrieve of the same size. *)
Lemma peek_retrieve_spec n b :
  wf b -> 0 <= n <= lenZ (content b) ->
  exists b', peek_mem n b = Ok (take (Z.to_nat n) (content b)) /\ retrieve n b = Ok b' /\
    wf b' /\ content b' = drop (Z.to_nat n) (content b).
Proof.
  intros Hb Hn. destruct (retrieve_spec n b Hb) as (b' & Hr & ? & ? & _).
  { by rewrite readable_content. }
  exists b'. split_and!; [by apply peek_mem_spec|done..].
Qed.

(** The four integer widths behave alike; [w] is the width in bits and [n] in bytes. *)
Lemma int_image n w x (c : bytes) :
  0 < w -> w = 8 * Z.of_nat n -> s_in w x ->
  take n (be_bytes n x ++ c) = be_bytes n x /\ drop n (be_bytes n x ++ c) = c /\
  swrap w (bswap n (uwrap w (of_mem_s (be_bytes n x)))) = x.
Proof.
  intros Hw Heq Hx. pose proof (lenZ_be_bytes n x) as Hl. unfold lenZ in Hl.
  split_and!; [|apply drop_app_length'; lia|by apply be_decode].
  apply take_app_length'. lia.
Qed.

Lemma readInt64_spec x c b :
  wf b -> s_in 64 x -> content b = be_bytes 8 x ++ c ->
  exists b', readInt64 b = Ok (x, b') /\ wf b' /\ content b' = c.
Proof.
  intros Hb Hx Hc. destruct (int_image 8 64 x c) as (Ht & Hd & Hv); [lia..|done|].
  pose proof (lenZ_be_bytes 8 x). pose proof (lenZ_nonneg c).
  destruct (peek_retrieve_spec 8 b Hb) as (b' & Hp & Hr & ? & Hcb); [rewrite Hc, lenZ_app; lia|].
  exists b'. unfold readInt64, peekInt64, retrieveInt64. rewrite Hp, Hr. simpl.
  change (Z.to_nat 8) with 8%nat in *. rewrite Hc in *. rewrite Ht.
  unfold networkToHost64. rewrite Hv. split_and!; [done..|by rewrite Hcb, Hd].
Qed.

Lemma readInt32_spec x c b :
  wf b -> s_in 32 x -> content b = be_bytes 4 x ++ c ->
  exists b', readInt32 b = Ok (x, b') /\ wf b' /\ content b' = c.
Proof.
  intros Hb Hx Hc. destruct (int_image 4 32 x c) as (Ht & Hd & Hv); [lia..|done|].
  pose proof (lenZ_be_bytes 4 x). pose proof (lenZ_nonneg c).
  destruct (peek_retrieve_spec 4 b Hb) as (b' & Hp & Hr & ? & Hcb); [rewrite Hc, lenZ_app; lia|].
  exists b'. unfold readInt32, peekInt32, retrieveInt32. rewrite Hp, Hr. simpl.
  change (Z.to_nat 4) with 4%nat in *. rewrite Hc in *. rewrite Ht.
  unfold networkToHost32. rewrite Hv. split_and!; [done..|by rewrite Hcb, Hd].
Qed.

Lemma readInt16_spec x c b :
  wf b -> s_in 16 x -> content b = be_bytes 2 x ++ c ->
  exists b', readInt16 b = Ok (x, b') /\ wf b' /\ content b' = c.
Proof.
  intros Hb Hx Hc. destruct (int_image 2 16 x c) as (Ht & Hd & Hv); [lia..|done|].
  pose proof (lenZ_be_bytes 2 x). pose proof (lenZ_nonneg c).
  destruct (peek_retrieve_spec 2 b Hb) as (b' & Hp & Hr & ? & Hcb); [rewrite Hc, lenZ_app; lia|].
  exists b'. unfold readInt16, peekInt16, retrieveInt16. rewrite Hp, Hr. simpl.
  change (Z.to_nat 2) with 2%nat in *. rewrite Hc in *. rewrite Ht.
  unfold networkToHost16. rewrite Hv. split_and!; [done..|by rewrite Hcb, Hd].
Qed.

(** One byte needs no swap. *)
Lemma readInt8_spec x c b :
  wf b -> s_in 8 x -> content b = to_mem 1 x ++ c ->
  exists b', readInt8 b = Ok (x, b') /\ wf b' /\ content b' = c.
Proof.
  intros Hb Hx Hc. pose proof (lenZ_to_mem 1 x) as Hl. pose proof (lenZ_nonneg c).
  destruct (peek_retrieve_spec 1 b Hb) as (b' & Hp & Hr & ? & Hcb); [rewrite Hc, lenZ_app; lia|].
  exists b'. unfold readInt8, peekInt8, retrieveInt8. rewrite Hp, Hr. simpl.
  change (Z.to_nat 1) with 1%nat in *. rewrite Hc in *.
  rewrite take_app_length' by (unfold lenZ in Hl; lia).
  rewrite drop_app_length' in Hcb by (unfold lenZ in Hl; lia).
  split_and!; [|done..]. do 2 f_equal. unfold of_mem_s. rewrite Hl.
  unfold to_mem. rewrite LittleEndianList.le_combine_split.
  change (Z.of_nat 1 * 8) with 8. change (8 * Z.of_nat 1) with 8.
  fold (uwrap 8 x). rewrite swrap_uwrap by lia. by apply swrap_small.
Qed.

(** What the appends and prepends of integers put on the wire. *)
Lemma int_wire x :
  to_mem 8 (swrap 64 (hostToNetwork64 x)) = be_bytes 8 x /\
  to_mem 4 (swrap 32 (hostToNetwork32 x)) = be_bytes 4 x /\
  to_mem 2 (swrap 16 (hostToNetwork16 x)) = be_bytes 2 x.
Proof. split_and!; apply be_image; lia. Qed.

(** [readFd]: the bytes the kernel delivered are appended, wherever they landed. *)
Lemma readFd_spec readv b d :
  wf b ->
  readv (if bool_decide (writableBytes b < extrabuf_size)
         then writableBytes b + extrabuf_size else writableBytes b) = ReadvData d ->
  lenZ d <= (if bool_decide (writableBytes b < extrabuf_size)
             then writableBytes b + extrabuf_size else writableBytes b) ->
  lenZ (buffer_ b) + extrabuf_size <= vector_max_size ->
  exists b', readFd readv b = Ok (lenZ d, None, b') /\ wf b' /\ content b' = content b ++ d /\
    Z.min 8 (readerIndex_ b) <= readerIndex_ b' /\ lenZ (buffer_ b') <= lenZ (buffer_ b) + extrabuf_size.
Proof.
  intros Hb Hrv Hd Hmax. unfold readFd. rewrite Hrv.
  pose proof (writable_wf b Hb) as Hw. pose proof (lenZ_nonneg d).
  assert (0 <= writableBytes b) by (rewrite Hw; buf_lia).
  set (w := Z.to_nat (writableBytes b)).
  assert (lenZ (take w d) <= writableBytes b) as Ht
    by (unfold lenZ, w; rewrite length_take; lia).
  destruct (write_tail_spec (take w d) b Hb Ht) as (-> & Hwf & Hct & Hlen). simpl.
  rewrite check_true.
  2: { apply bool_decide_eq_true. unfold lenZ, w in *. rewrite length_drop.
       unfold extrabuf_size in *. case_bool_decide; lia. }
  simpl. destruct (bool_decide_reflect (lenZ d <= writableBytes b)) as [Hn|Hn].
  - rewrite take_ge in * by (unfold lenZ, w in *; lia).
    eexists; split; [|split_and!; [exact Hwf|exact Hct|cbn [readerIndex_]; lia|rewrite Hlen; unfold extrabuf_size; lia]].
    rewrite size_add_small by (rewrite Hw in Hn; buf_lia). done.
  - assert (lenZ (take w d) = writableBytes b) as Htl
      by (unfold lenZ, w in *; rewrite length_take; lia).
    simpl in Hlen. rewrite Hlen. rewrite Htl, Hw in Hwf, Hct.
    replace (writerIndex_ b + (lenZ (buffer_ b) - writerIndex_ b)) with (lenZ (buffer_ b))
      in Hwf, Hct by lia.
    assert (lenZ d - writableBytes b = lenZ (drop w d)) as ->
      by (unfold lenZ, w in *; rewrite length_drop; lia).
    assert (lenZ (drop w d) <= extrabuf_size) as Hextra
      by (unfold lenZ, w in *; rewrite length_drop; unfold extrabuf_size in *; case_bool_decide; lia).
    destruct (append_spec (drop w d) _ Hwf) as (b' & -> & ? & Hc & Hr' & Hl'); [simpl; rewrite Hlen; lia|].
    cbn [readerIndex_ buffer_] in Hr', Hl'. rewrite Hlen in Hl'.
    exists b'. simpl. split_and!; [done..| |done|lia]. rewrite Hc, Hct, <- app_assoc. f_equal.
    apply take_drop.
Qed.

(** Whatever the kernel delivers of what it was offered, [readFd] appends it or throws. *)
Lemma readFd_total readv b :
  wf b -> (forall n d, 0 <= n -> readv n = ReadvData d -> lenZ d <= n) ->
  match readFd readv b with
  | Ok (n, _, b') => wf b' /\ exists d, content b' = content b ++ d /\ (n = lenZ d \/ n = -1 /\ d = [])
  | Fail e => e = LengthError
  end.
Proof.
  intros Hb Hk. unfold readFd. pose proof (writable_wf b Hb) as Hw.
  assert (0 <= writableBytes b) as Hw0 by (rewrite Hw; buf_lia).
  set (offer := if bool_decide _ then _ else _).
  assert (0 <= offer) by (unfold offer, extrabuf_size; case_bool_decide; lia).
  destruct (readv offer) as [errno|d] eqn:Hrv; [simpl; split; [done|]; exists []; by rewrite app_nil_r; auto|].
  apply Hk in Hrv; [|done]. pose proof (lenZ_nonneg d). set (w := Z.to_nat (writableBytes b)).
  assert (lenZ (take w d) <= writableBytes b) as Ht by (unfold lenZ, w; rewrite length_take; lia).
  destruct (write_tail_spec (take w d) b Hb Ht) as (-> & Hwf & Hct & Hlen). simpl.
  rewrite check_true.
  2: { apply bool_decide_eq_true. unfold lenZ, w, offer in *. rewrite length_drop.
       unfold extrabuf_size in *. case_bool_decide; lia. }
  simpl. destruct (bool_decide_reflect (lenZ d <= writableBytes b)) as [Hn|Hn].
  - rewrite take_ge in * by (unfold lenZ, w in *; lia).
    rewrite size_add_small by (rewrite Hw in Hn; buf_lia). simpl. eauto.
  - assert (lenZ (take w d) = writableBytes b) as Htl by (unfold lenZ, w in *; rewrite length_take; lia).
    simpl in Hlen. rewrite Hlen. rewrite Htl, Hw in Hwf, Hct.
    replace (writerIndex_ b + (lenZ (buffer_ b) - writerIndex_ b)) with (lenZ (buffer_ b)) in Hwf, Hct by lia.
    assert (lenZ d - writableBytes b = lenZ (drop w d)) as -> by (unfold lenZ, w in *; rewrite length_drop; lia).
    pose proof (append_total (drop w d) (lenZ (drop w d)) _ Hwf) as Ha.
    destruct (append _ _ _) as [b'|e]; simpl; [destruct Ha as [? Hc]|apply Ha].
    all: try (pose proof (lenZ_nonneg (drop w d)); lia).
    all: try (unfold offer, lenZ, w, extrabuf_size, vector_max_size in *; rewrite length_drop; case_bool_decide; lia).
    split; [done|]. exists d. split; [|by left]. rewrite Hc, Hct, (take_ge (drop w d)) by (unfold lenZ; lia).
    by rewrite <- app_assoc, take_drop.
Qed.

Lemma shrink_spec reserve b :
  wf b -> 0 <= reserve -> lenZ (content b) < 2 ^ 31 ->
  1032 + lenZ (content b) + reserve <= vector_max_size ->
  exists b', shrink reserve b = Ok b' /\ wf b' /\ content b' = content b /\
    8 <= readerIndex_ b' /\ lenZ (buffer_ b') <= 1032 + lenZ (content b) + reserve /\ reserve <= writableBytes b'.
Proof.
  intros Hb Hres H31 Hmax. pose proof (lenZ_nonneg (content b)) as Hnn. unfold shrink.
  destruct (Buffer_spec kInitialSize) as (o & -> & Ho & Hco & Hro & Hwo & Hlo);
    [unfold kInitialSize; buf_lia..|]. simpl.
  rewrite readable_content by done. rewrite size_add_small by buf_lia.
  destruct (ensureWritable_spec (lenZ (content b) + reserve) o Ho)
    as (o1 & -> & Ho1 & Hco1 & Hwo1 & Hro1 & Hlo1); [lia|rewrite Hlo; unfold kInitialSize; buf_lia|].
  simpl. unfold append_piece, toStringPiece. simpl. rewrite readable_content by done.
  rewrite (swrap_small 32) by (unfold s_in; simpl; lia).
  rewrite (uwrap_small 64) by (unfold u_in; buf_lia).
  pose proof (lenZ_content b Hb) as Hlc. pose proof (data_toStringPiece b Hb) as Hdata.
  simpl in Hdata.
  assert (ensureWritableBytes (lenZ (content b)) o1 = Ok o1) as He.
  { unfold ensureWritableBytes. rewrite bool_decide_eq_false_2 by lia. simpl.
    by rewrite check_true by (apply bool_decide_eq_true; lia). }
  destruct (append_after_ensure (drop (Z.to_nat (peek b)) (buffer_ b)) _ o1 o1 He Ho1)
    as (b' & -> & ? & Hct & Hr' & Hl');
    [split; [done|]; unfold wf, peek, lenZ in *; rewrite length_drop; lia|lia|].
  replace (Z.to_nat (lenZ (content b))) with (length (content b)) in Hct by (unfold lenZ; lia).
  simpl. exists b'. rewrite Hct, Hdata, Hco1, Hco, Hr', Hl'.
  split_and!; [done..|lia|rewrite Hlo in *; unfold kInitialSize in *; lia|].
  rewrite writable_content in Hwo1 |- * by done. rewrite Hco1, Hco in Hwo1. rewrite Hr', Hl', Hct, Hdata, Hco1, Hco.
  cbn [app] in *. unfold lenZ in *. simpl in *. lia.
Qed.

(** The result of [findCRLF]: the offset of the first CRLF of the content. *)
Lemma findCRLF_spec b :
  wf b -> findCRLF b = Ok ((fun i => readerIndex_ b + Z.of_nat i) <$> search kCRLF (content b)).
Proof. intros Hb. unfold findCRLF. by rewrite range_content by done. Qed.

(** ** Properties *)

(** The operations on integers of each width. *)
Inductive width := W8 | W16 | W32 | W64.

Definition bits (w : width) : Z := match w with W8 => 8 | W16 => 16 | W32 => 32 | W64 => 64 end.
Definition append_int (w : width) : Z -> t -> res t :=
  match w with W8 => appendInt8 | W16 => appendInt16 | W32 => appendInt32 | W64 => appendInt64 end.
Definition prepend_int (w : width) : Z -> t -> res t :=
  match w with W8 => prependInt8 | W16 => prependInt16 | W32 => prependInt32 | W64 => prependInt64 end.
Definition read_int (w : width) : t -> res (Z * t) :=
  match w with W8 => readInt8 | W16 => readInt16 | W32 => readInt32 | W64 => readInt64 end.
Definition wire (w : width) (x : Z) : bytes :=
  match w with W8 => to_mem 1 x | W16 => be_bytes 2 x | W32 => be_bytes 4 x | W64 => be_bytes 8 x end.

Lemma lenZ_wire w x : 8 * lenZ (wire w x) = bits w.
Proof. destruct w; simpl; rewrite ?lenZ_to_mem, ?lenZ_be_bytes; done. Qed.

Lemma append_int_wire w x : append_int w x = append (wire w x) (lenZ (wire w x)).
Proof.
  destruct (int_wire x) as (H64 & H32 & H16).
  destruct w; simpl; rewrite ?lenZ_to_mem, ?lenZ_be_bytes;
    unfold appendInt8, appendInt16, appendInt32, appendInt64; by rewrite ?H16, ?H32, ?H64.
Qed.

Lemma prepend_int_wire w x : prepend_int w x = prepend (wire w x) (lenZ (wire w x)).
Proof.
  destruct (int_wire x) as (H64 & H32 & H16).
  destruct w; simpl; rewrite ?lenZ_to_mem, ?lenZ_be_bytes;
    unfold prependInt8, prependInt16, prependInt32, prependInt64; by rewrite ?H16, ?H32, ?H64.
Qed.

Lemma read_int_wire w x c b :
  wf b -> s_in (bits w) x -> content b = wire w x ++ c ->
  exists b', read_int w b = Ok (x, b') /\ wf b' /\ content b' = c.
Proof.
  destruct w; simpl; [apply readInt8_spec|apply readInt16_spec|apply readInt32_spec|apply readInt64_spec].
Qed.

(** integers of every width survive the wire.  A value in the range of the type,
    appended to a buffer, is read back after the bytes before it are retrieved, and the
    bytes between are untouched; a prepended one is read back at once and leaves the
    content as it was. *)
Theorem buffer_int_roundtrip w x b :
  wf b -> s_in (bits w) x -> lenZ (buffer_ b) + 8 <= vector_max_size -> 8 <= readerIndex_ b ->
  (exists b1 c b2 b3, append_int w x b = Ok b1 /\
     retrieveAsString (readableBytes b) b1 = Ok (c, b2) /\ c = content b /\
     read_int w b2 = Ok (x, b3) /\ wf b3 /\ content b3 = []) /\
  (exists b1 b2, prepend_int w x b = Ok b1 /\
     read_int w b1 = Ok (x, b2) /\ wf b2 /\ content b2 = content b).
Proof.
  intros Hb Hx Hmax Hr. pose proof (lenZ_wire w x) as Hl.
  assert (lenZ (wire w x) <= 8) as Hl8 by (destruct w; simpl in *; lia). split.
  - rewrite append_int_wire.
    destruct (append_spec (wire w x) b Hb) as (b1 & -> & H1 & Hc1 & _); [lia|].
    assert (0 <= readableBytes b <= readableBytes b1) as Hle.
    { rewrite !readable_content, Hc1, lenZ_app by done.
      pose proof (lenZ_nonneg (content b)). pose proof (lenZ_nonneg (wire w x)). lia. }
    destruct (retrieve_spec (readableBytes b) b1 H1 Hle) as (b2 & Hr2 & H2 & Hc2 & _).
    rewrite readable_content in Hle, Hr2, Hc2 |- * by done.
    rewrite readable_content in Hle by done.
    rewrite Hc1 in Hc2. unfold lenZ at 1 in Hc2. rewrite Nat2Z.id, drop_app_length in Hc2.
    destruct (read_int_wire w x [] b2 H2 Hx) as (b3 & Hr3 & H3 & Hc3); [by rewrite app_nil_r|].
    exists b1, (content b), b2, b3. split_and!; [done| |done..].
    unfold retrieveAsString. rewrite check_true
      by (apply bool_decide_eq_true; rewrite (readable_content b1) by done; lia).
    simpl. pose proof (lenZ_content b1 H1).
    rewrite range_wf by (done || buf_lia). rewrite Hr2. simpl. unfold mret, res_ret. do 2 f_equal.
    rewrite <- (take_slice (lenZ (content b)) _ (writerIndex_ b1)) by buf_lia.
    change (slice (peek b1) (writerIndex_ b1) (buffer_ b1)) with (content b1).
    rewrite Hc1. apply take_app_length'. unfold lenZ; lia.
  - rewrite prepend_int_wire.
    destruct (prepend_spec (wire w x) b Hb) as (b1 & -> & H1 & Hc1 & _); [lia|].
    destruct (read_int_wire w x (content b) b1 H1 Hx Hc1) as (b2 & Hr2 & H2 & Hc2).
    by exists b1, b2.
Qed.

(** [readFd] loses and invents nothing.  Whatever the kernel delivers within the
    space it was offered is appended to the content, whether it fitted the writable
    area or spilled into the stack buffer, and the count is returned; on an error the
    buffer is unchanged and the errno is saved. *)
Theorem readFd_appends readv b :
  wf b -> lenZ (buffer_ b) + extrabuf_size <= vector_max_size ->
  (forall n d, 0 <= n -> readv n = ReadvData d -> lenZ d <= n) ->
  exists n e b', readFd readv b = Ok (n, e, b') /\ wf b' /\
    match readv (if bool_decide (writableBytes b < extrabuf_size)
                 then writableBytes b + extrabuf_size else writableBytes b) with
    | ReadvError errno => n = -1 /\ e = Some errno /\ b' = b
    | ReadvData d => n = lenZ d /\ e = None /\ content b' = content b ++ d
    end.
Proof.
  intros Hb Hmax Hk. destruct (readv _) as [errno|d] eqn:Hrv.
  - exists (-1), (Some errno), b. unfold readFd. by rewrite Hrv.
  - assert (0 <= writableBytes b) as Hw by (rewrite writable_wf by done; buf_lia).
    destruct (readFd_spec readv b d Hb Hrv) as (b' & -> & ? & ? & _); [|done|].
    { eapply Hk, Hrv. clear Hrv. unfold extrabuf_size. case_bool_decide; lia. }
    by exists (lenZ d), None, b'.
Qed.

(** [findCRLF] and [retrieveUntil] split off the first line.  When the content has a
    CRLF, the pointer found is the first one, and retrieving up to two bytes past it
    leaves exactly what follows it; otherwise the null pointer is returned. *)
Theorem findCRLF_first_line b :
  wf b ->
  match search kCRLF (content b) with
  | Some i =>
      findCRLF b = Ok (Some (readerIndex_ b + Z.of_nat i)) /\
      (exists rest, content b = take i (content b) ++ kCRLF ++ rest /\
        (forall j, (j < i)%nat -> ~ kCRLF `prefix_of` drop j (content b)) /\
        exists b', retrieveUntil (readerIndex_ b + Z.of_nat i + 2) b = Ok b' /\
          wf b' /\ content b' = rest)
  | None =>
      findCRLF b = Ok None /\ forall j, ~ kCRLF `prefix_of` drop j (content b)
  end.
Proof.
  intros Hb. pose proof (lenZ_content b Hb) as Hlc. rewrite findCRLF_spec by done.
  destruct (search kCRLF (content b)) as [i|] eqn:Hs; simpl.
  - split; [done|]. apply search_Some in Hs as ([rest Hrest] & Hi & Hmin).
    exists rest.
    assert (content b = take i (content b) ++ kCRLF ++ rest) as Hsplit
      by (rewrite <- Hrest; symmetry; apply take_drop).
    split_and!; [done..|].
    assert (Z.of_nat i + 2 <= lenZ (content b)) as Hle.
    { rewrite Hsplit. unfold lenZ. rewrite !length_app, length_take. simpl. lia. }
    destruct (retrieve_spec (Z.of_nat i + 2) b Hb) as (b' & Hr & Hwf & Hc & _).
    { rewrite readable_content by done. lia. }
    exists b'. split_and!; [|done|].
    + unfold retrieveUntil. rewrite check_true by (apply bool_decide_eq_true; buf_lia). simpl.
      rewrite check_true by (apply bool_decide_eq_true; buf_lia). simpl.
      unfold peek. replace (_ - _) with (Z.of_nat i + 2) by lia. done.
    + rewrite Hc. replace (Z.to_nat (Z.of_nat i + 2)) with (i + 2)%nat by lia.
      rewrite <- drop_drop, Hrest. done.
  - split; [done|]. intros j. destruct (decide (j <= length (content b))%nat) as [Hj|Hj].
    + by apply search_None.
    + rewrite drop_ge by lia. by intros [? ?].
Qed.

(** ** Witnesses *)

Definition sample : t := mk (bs "12345678abc" ++ replicate 9 Byte.x00) 8 11.

Lemma buffer_int_roundtrip_witness :
  (exists b1 c b2 b3, append_int W32 (-2) sample = Ok b1 /\
     retrieveAsString (readableBytes sample) b1 = Ok (c, b2) /\ c = bs "abc" /\
     read_int W32 b2 = Ok (-2, b3) /\ wf b3 /\ content b3 = []) /\
  (exists b1 b2, prepend_int W32 (-2) sample = Ok b1 /\
     read_int W32 b1 = Ok (-2, b2) /\ wf b2 /\ content b2 = bs "abc").
Proof.
  apply (buffer_int_roundtrip W32 (-2) sample); vm_compute; repeat split; discriminate.
Defined.

Lemma readFd_appends_witness :
  exists n e b', readFd (fun n => ReadvData (take (Z.to_nat n) (bs "0123456789xyz"))) sample = Ok (n, e, b') /\
    wf b' /\ n = 13 /\ e = None /\ content b' = bs "abc0123456789xyz".
Proof.
  apply (readFd_appends (fun n => ReadvData (take (Z.to_nat n) (bs "0123456789xyz"))) sample).
  - vm_compute; repeat split; discriminate.
  - vm_compute; discriminate.
  - intros n d Hn [= <-]. unfold lenZ. rewrite length_take. lia.
Defined.

Lemma findCRLF_first_line_witness :
  let b := mk (bs "12345678GET /" ++ kCRLF ++ bs "rest") 8 19 in
  findCRLF b = Ok (Some 13) /\
  (exists rest, content b = bs "GET /" ++ kCRLF ++ rest /\
    (forall j, (j < 5)%nat -> ~ kCRLF `prefix_of` drop j (content b)) /\
    exists b', retrieveUntil 15 b = Ok b' /\ wf b' /\ content b' = rest).
Proof.
  apply (findCRLF_first_line (mk (bs "12345678GET /" ++ kCRLF ++ bs "rest") 8 19)).
  vm_compute; repeat split; discriminate.
Defined.

End Buffer.
