(* ===== verification/BufferQueue.v ===== *)
(** What a [Buffer] (NetBuffer.v) promises to its users: it is a queue of bytes.

    [Module BufferQueue] states every member function of [net/Buffer.h] by what it needs
    ([pre]) and what it does to a queue ([post]), runs the code on two buffers (which can be
    swapped), and shows that the code keeps to it. *)
From coqutil Require Import Byte Word.LittleEndianList.
From S2P Require Import Prelude StringPiece Endian NetBuffer.
Import Buffer.
Open Scope Z_scope.

Module BufferQueue.

(** ** Integers on the wire *)

Definition size_of (w : width) : nat := match w with W8 => 1 | W16 => 2 | W32 => 4 | W64 => 8 end.

Fixpoint be_value (acc : Z) (m : bytes) : Z :=
  match m with [] => acc | c :: m => be_value (256 * acc + byte.unsigned c) m end.

(** The signed integer that bytes in network order are. *)
Definition int_value (w : width) (m : bytes) : Z := swrap (bits w) (be_value 0 m).

Definition peek_int (w : width) : t -> res Z :=
  match w with W8 => peekInt8 | W16 => peekInt16 | W32 => peekInt32 | W64 => peekInt64 end.
Definition retrieve_int (w : width) : t -> res t :=
  match w with W8 => retrieveInt8 | W16 => retrieveInt16 | W32 => retrieveInt32 | W64 => retrieveInt64 end.

(** ** The queue and its operations *)

(** The bytes, and bounds: at least [q_cheap] bytes can be prepended and at least [q_room]
    bytes written without moving, and the vector has at most [q_size] bytes. *)
Record queue := mkQueue { q_bytes : bytes; q_cheap : Z; q_room : Z; q_size : Z }.

Inductive op :=
  | OpSizes
  | OpToStringPiece
  | OpFindCRLF (start : option Z)
  | OpFindEOL (start : option Z)
  | OpPeekInt (w : width)
  | OpReadInt (w : width)
  | OpRetrieve (len : Z)
  | OpRetrieveUntil (end_ : Z)
  | OpRetrieveInt (w : width)
  | OpRetrieveAll
  | OpRetrieveAsString (len : Z)
  | OpRetrieveAllAsString
  | OpAppend (d : bytes)
  | OpAppendPiece (p : StringPiece.t)
  | OpAppendInt (w : width) (x : Z)
  | OpWrite (d : bytes)
  | OpUnwrite (len : Z)
  | OpEnsureWritable (len : Z)
  | OpPrepend (d : bytes)
  | OpPrependInt (w : width) (x : Z)
  | OpShrink (reserve : Z)
  | OpReadFd (readv : Z -> readv_result).

(** What an operation tells its caller; positions are offsets from [peek()]. *)
Inductive obs :=
  | Nothing
  | Sizes (readable writable prependable : Z)
  | Bytes (d : bytes)
  | Int (x : Z)
  | Position (p : option Z)
  | Count (n : Z) (savedErrno : option Z).

(** What the caller must see to. *)
Definition pre (o : op) (q : queue) : Prop :=
  let len := lenZ (q_bytes q) in
  match o with
  | OpSizes | OpFindCRLF None | OpFindEOL None | OpRetrieveAll | OpRetrieveAllAsString => True
  | OpToStringPiece => len < 2 ^ 31
  | OpFindCRLF (Some i) | OpFindEOL (Some i) => 0 <= i <= len
  | OpPeekInt w | OpReadInt w | OpRetrieveInt w => Z.of_nat (size_of w) <= len
  | OpRetrieve n | OpRetrieveUntil n | OpRetrieveAsString n | OpUnwrite n => 0 <= n <= len
  | OpAppend d => q_size q + lenZ d <= vector_max_size
  | OpAppendPiece p => 0 <= StringPiece.length_ p <= lenZ (StringPiece.ptr_ p) /\ q_size q + StringPiece.length_ p <= vector_max_size
  | OpAppendInt w x => q_size q + Z.of_nat (size_of w) <= vector_max_size
  | OpWrite d => lenZ d <= q_room q
  | OpEnsureWritable n => 0 <= n /\ q_size q + n <= vector_max_size
  | OpPrepend d => lenZ d <= q_cheap q
  | OpPrependInt w x => Z.of_nat (size_of w) <= q_cheap q
  | OpShrink r => 0 <= r /\ len < 2 ^ 31 /\ 1032 + len + r <= vector_max_size
  | OpReadFd readv => q_size q + extrabuf_size <= vector_max_size /\ forall n d, 0 <= n -> readv n = ReadvData d -> lenZ d <= n
  end.

(** [d] goes to the end; [n] bytes of space may have to be made. *)
Definition appended (d : bytes) (q : queue) : queue :=
  mkQueue (q_bytes q ++ d) (Z.min 8 (q_cheap q)) (Z.max 0 (q_room q - lenZ d)) (q_size q + lenZ d).
Definition prepended (d : bytes) (q : queue) : queue :=
  mkQueue (d ++ q_bytes q) (q_cheap q - lenZ d) (q_room q) (q_size q).

(** [n] bytes leave at the front; when none is left the indices start again. *)
Definition emptied (q : queue) : queue :=
  mkQueue [] 8 (if bool_decide (8 <= q_cheap q + lenZ (q_bytes q)) then q_room q else Z.max 0 (q_room q - 8)) (q_size q).
Definition retrieved (n : Z) (q : queue) : queue :=
  if bool_decide (n < lenZ (q_bytes q)) then mkQueue (drop (Z.to_nat n) (q_bytes q)) (q_cheap q + n) (q_room q) (q_size q)
  else emptied q.

(** Where the first [pat] is from offset [i] on. *)
Definition found (f : bytes -> option nat) (i : Z) (q : queue) : option Z :=
  (fun k => i + Z.of_nat k) <$> f (drop (Z.to_nat i) (q_bytes q)).

Definition first (w : width) (q : queue) : Z := int_value w (take (size_of w) (q_bytes q)).

Definition post (o : op) (q : queue) (x : obs) (q' : queue) : Prop :=
  let len := lenZ (q_bytes q) in
  match o with
  | OpSizes => q' = q /\ exists w p, x = Sizes len w p /\ q_room q <= w /\ q_cheap q <= p
  | OpToStringPiece => x = Bytes (q_bytes q) /\ q' = q
  | OpFindCRLF i => x = Position (found (search kCRLF) (default 0 i) q) /\ q' = q
  | OpFindEOL i => x = Position (found (find_byte LF) (default 0 i) q) /\ q' = q
  | OpPeekInt w => x = Int (first w q) /\ q' = q
  | OpReadInt w => x = Int (first w q) /\ q' = retrieved (Z.of_nat (size_of w)) q
  | OpRetrieve n | OpRetrieveUntil n => x = Nothing /\ q' = retrieved n q
  | OpRetrieveInt w => x = Nothing /\ q' = retrieved (Z.of_nat (size_of w)) q
  | OpRetrieveAll => x = Nothing /\ q' = emptied q
  | OpRetrieveAsString n => x = Bytes (take (Z.to_nat n) (q_bytes q)) /\ q' = retrieved n q
  | OpRetrieveAllAsString => x = Bytes (q_bytes q) /\ q' = emptied q
  | OpAppend d => x = Nothing /\ q' = appended d q
  | OpAppendPiece p => x = Nothing /\ q' = appended (take (Z.to_nat (StringPiece.length_ p)) (StringPiece.ptr_ p)) q
  | OpAppendInt w v => x = Nothing /\ q' = appended (wire w v) q
  | OpWrite d => x = Nothing /\ q' = mkQueue (q_bytes q ++ d) (q_cheap q) (q_room q - lenZ d) (q_size q)
  | OpUnwrite n => x = Nothing /\ q' = mkQueue (take (Z.to_nat (len - n)) (q_bytes q)) (q_cheap q) (q_room q + n) (q_size q)
  | OpEnsureWritable n => x = Nothing /\ q' = mkQueue (q_bytes q) (Z.min 8 (q_cheap q)) (Z.max (q_room q) n) (q_size q + n)
  | OpPrepend d => x = Nothing /\ q' = prepended d q
  | OpPrependInt w v => x = Nothing /\ q' = prepended (wire w v) q
  | OpShrink r => x = Nothing /\ q' = mkQueue (q_bytes q) 8 r (1032 + len + r)
  | OpReadFd readv => exists n, extrabuf_size <= n /\
      match readv n with
      | ReadvError errno => x = Count (-1) (Some errno) /\ q' = q
      | ReadvData d => x = Count (lenZ d) None /\ q' = mkQueue (q_bytes q ++ d) (Z.min 8 (q_cheap q)) 0 (q_size q + extrabuf_size)
      end
  end.

(** ** The code *)

Definition silent (m : res t) : res (obs * t) := b ← m; mret (Nothing, b).
Definition from_peek (b : t) (p : option Z) : obs := Position ((fun i => i - peek b) <$> p).

Definition step (o : op) (b : t) : res (obs * t) :=
  match o with
  | OpSizes => mret (Sizes (readableBytes b) (writableBytes b) (prependableBytes b), b)
  | OpToStringPiece =>
      let p := toStringPiece b in
      mret (Bytes (take (Z.to_nat (StringPiece.size p)) (StringPiece.data p)), b)
  | OpFindCRLF None => p ← findCRLF b; mret (from_peek b p, b)
  | OpFindCRLF (Some i) => p ← findCRLF_from (peek b + i) b; mret (from_peek b p, b)
  | OpFindEOL None => p ← findEOL b; mret (from_peek b p, b)
  | OpFindEOL (Some i) => p ← findEOL_from (peek b + i) b; mret (from_peek b p, b)
  | OpPeekInt w => x ← peek_int w b; mret (Int x, b)
  | OpReadInt w => '(x, b) ← read_int w b; mret (Int x, b)
  | OpRetrieve n => silent (retrieve n b)
  | OpRetrieveUntil n => silent (retrieveUntil (peek b + n) b)
  | OpRetrieveInt w => silent (retrieve_int w b)
  | OpRetrieveAll => silent (mret (retrieveAll b))
  | OpRetrieveAsString n => '(d, b) ← retrieveAsString n b; mret (Bytes d, b)
  | OpRetrieveAllAsString => '(d, b) ← retrieveAllAsString b; mret (Bytes d, b)
  | OpAppend d => silent (append d (lenZ d) b)
  | OpAppendPiece p => silent (append_piece p b)
  | OpAppendInt w x => silent (append_int w x b)
  | OpWrite d => silent (mem ← copy_to (beginWrite b) d (buffer_ b); hasWritten (lenZ d) (mk mem (readerIndex_ b) (writerIndex_ b)))
  | OpUnwrite n => silent (unwrite n b)
  | OpEnsureWritable n => silent (ensureWritableBytes n b)
  | OpPrepend d => silent (prepend d (lenZ d) b)
  | OpPrependInt w x => silent (prepend_int w x b)
  | OpShrink r => silent (shrink r b)
  | OpReadFd readv => '(n, e, b) ← readFd readv b; mret (Count n e, b)
  end.

Record refines (q : queue) (b : t) : Prop := {
  ref_wf : wf b;
  ref_bytes : content b = q_bytes q;
  ref_cheap : 0 <= q_cheap q <= readerIndex_ b;
  ref_room : 0 <= q_room q <= writableBytes b;
  ref_size : lenZ (buffer_ b) <= q_size q
}.

(** ** The lemmas *)

Lemma lor_shiftl a c n : 0 <= n -> 0 <= a < 2 ^ n -> Z.lor a (Z.shiftl c n) = a + c * 2 ^ n.
Proof.
  intros Hn Ha. rewrite <- Z.shiftl_mul_pow2 by done. symmetry. apply Z.add_nocarry_lor.
  apply Z.bits_inj'. intros i Hi. rewrite Z.land_spec, Z.bits_0, Z.shiftl_spec by done.
  destruct (decide (i < n)); [by rewrite (Z.testbit_neg_r c) by lia; rewrite andb_false_r|].
  rewrite <- (Z.mod_small a (2 ^ n)) by done. by rewrite Z.mod_pow2_bits_high by lia.
Qed.

Lemma be_value_combine acc m : be_value acc m = 2 ^ (8 * lenZ m) * acc + le_combine (rev m).
Proof.
  revert acc. induction m as [|c m IH]; intros acc; [unfold lenZ; cbn [be_value rev length]; change (8 * Z.of_nat 0) with 0; change (le_combine []) with 0; rewrite Z.pow_0_r; lia|]. cbn [be_value rev]. rewrite IH, le_combine_app.
  pose proof (le_combine_bound (rev m)) as Hb. rewrite length_rev in *. rewrite lor_shiftl by (rewrite ?(Z.mul_comm _ 8); lia || done).
  assert (le_combine [c] = byte.unsigned c) as -> by (change (Z.lor (byte.unsigned c) 0 = byte.unsigned c); apply Z.lor_0_r).
  unfold lenZ. cbn [length]. replace (8 * Z.of_nat (S (length m))) with (8 * Z.of_nat (length m) + 8) by lia.
  rewrite Z.pow_add_r, (Z.mul_comm (Z.of_nat _) 8) by lia. change (2 ^ 8) with 256. lia.
Qed.

Lemma swapped_value n w m :
  0 < w -> w = 8 * Z.of_nat n -> length m = n -> swrap w (bswap n (uwrap w (of_mem_s m))) = swrap w (be_value 0 m).
Proof.
  intros Hw Hn Hm. f_equal. rewrite be_value_combine, Z.mul_0_r, Z.add_0_l. unfold of_mem_s, lenZ. rewrite Hm, <- Hn, uwrap_swrap by done.
  unfold bswap. rewrite (le_split_uwrap n w) by done. rewrite <- Hm at 1. by rewrite split_le_combine.
Qed.

Section refinement.
Context (q : queue) (b : t) (R : refines q b).

Lemma readable_q : readableBytes b = lenZ (q_bytes q).
Proof using R. destruct R as [Hwf Hb _ _ _]. by rewrite readable_content, Hb. Qed.

Lemma emptied_refines : refines (emptied q) (retrieveAll b).
Proof using R.
  destruct R as [Hwf Hb Hc Hr Hs]. pose proof (lenZ_content b Hwf) as Hl. rewrite Hb in Hl. rewrite (writable_wf b Hwf) in Hr.
  pose proof (retrieveAll_wf b Hwf) as Hwf'.
  split; [done|apply retrieveAll_content|simpl; unfold kCheapPrepend; lia| |done].
  rewrite (writable_wf _ Hwf'). unfold wf in *. cbn [emptied q_room retrieveAll buffer_ writerIndex_] in *. unfold kCheapPrepend in *.
  case_bool_decide; lia.
Qed.

Lemma retrieved_refines n : 0 <= n <= lenZ (q_bytes q) -> exists b', retrieve n b = Ok b' /\ refines (retrieved n q) b'.
Proof using R.
  intros Hn. pose proof readable_q as Hq. pose proof R as [Hwf Hb Hc Hr Hs].
  destruct (retrieve_spec n b Hwf) as (b' & Hrun & Hwf' & Hc' & Hb' & Hr'); [by rewrite Hq|].
  exists b'. split; [done|]. unfold retrieved. rewrite Hq in Hr'. destruct (bool_decide_reflect (n < lenZ (q_bytes q))) as [Hlt|Hge].
  - split; cbn [q_bytes q_cheap q_room q_size]; [done|by rewrite Hc', Hb|lia| |by rewrite Hb'].
    rewrite !writable_content in * by done. rewrite Hb' at 1. rewrite Hc', Hr', Hb. rewrite Hb in Hr.
    unfold lenZ in *. rewrite length_drop. lia.
  - revert Hrun. unfold retrieve. rewrite Hq, bool_decide_eq_false_2 by done.
    rewrite check_true by (apply bool_decide_eq_true; lia). intros [= <-]. apply emptied_refines.
Qed.

Lemma appended_refines d : q_size q + lenZ d <= vector_max_size -> exists b', append d (lenZ d) b = Ok b' /\ refines (appended d q) b'.
Proof using R.
  intros Hmax. pose proof R as [Hwf Hb Hc Hr Hs]. destruct (append_spec d b Hwf) as (b' & Hrun & Hwf' & Hc' & Hr' & Hl'); [lia|].
  exists b'. split; [done|]. split; cbn [appended q_bytes q_cheap q_room q_size]; [done|by rewrite Hc', Hb|lia| |lia].
  split; [lia|]. destruct (decide (lenZ d <= writableBytes b)) as [Hroom|Hroom].
  - destruct (append_in_room d b Hwf Hroom) as (b2 & Hrun2 & _ & _ & Hr2 & Hl2). rewrite Hrun in Hrun2. injection Hrun2 as <-.
    rewrite !writable_content in * by done. rewrite Hr2, Hl2, Hc', lenZ_app. lia.
  - pose proof Hwf' as (? & ? & _). rewrite (writable_wf b') by done. lia.
Qed.

Lemma prepended_refines d : lenZ d <= q_cheap q -> exists b', prepend d (lenZ d) b = Ok b' /\ refines (prepended d q) b'.
Proof using R.
  intros Hd. pose proof R as [Hwf Hb Hc Hr Hs]. destruct (prepend_spec d b Hwf) as (b' & Hrun & Hwf' & Hc' & Hr' & Hl'); [lia|].
  exists b'. split; [done|]. split; cbn [prepended q_bytes q_cheap q_room q_size]; [done|by rewrite Hc', Hb|lia| |lia].
  rewrite !writable_content in * by done. rewrite Hr', Hl', Hc', lenZ_app. lia.
Qed.

Lemma peek_int_q w : Z.of_nat (size_of w) <= lenZ (q_bytes q) -> peek_int w b = Ok (first w q).
Proof using R.
  intros Hw. pose proof R as [Hwf Hb _ _ _].
  assert (forall k, k = Z.of_nat (size_of w) -> peek_mem k b = Ok (take (size_of w) (q_bytes q))) as Hm.
  { intros k ->. rewrite peek_mem_spec, Hb, Nat2Z.id by (done || rewrite Hb; lia). done. }
  assert (length (take (size_of w) (q_bytes q)) = size_of w) as Hl by (rewrite length_take; unfold lenZ in Hw; lia).
  unfold first, int_value. revert Hm Hl. generalize (take (size_of w) (q_bytes q)). intros m Hm Hl.
  destruct w; cbn [size_of peek_int bits] in *; unfold peekInt8, peekInt16, peekInt32, peekInt64;
    rewrite Hm by done; cbn [mbind res_bind]; unfold mret, res_ret; f_equal.
  - destruct m as [|c [|]]; [done| |done]. unfold of_mem_s. rewrite be_value_combine. simpl (lenZ _). simpl (rev _). by rewrite Z.mul_0_r, Z.add_0_l.
  - by apply swapped_value.
  - by apply swapped_value.
  - by apply swapped_value.
Qed.

Lemma read_int_q w : read_int w b = (x ← peek_int w b; b' ← retrieve (Z.of_nat (size_of w)) b; mret (x, b')).
Proof. by destruct w. Qed.

Lemma retrieve_int_q w : retrieve_int w b = retrieve (Z.of_nat (size_of w)) b.
Proof. by destruct w. Qed.

Lemma lenZ_wire_size w x : lenZ (wire w x) = Z.of_nat (size_of w).
Proof. pose proof (lenZ_wire w x) as H. destruct w; cbn [bits size_of] in *; lia. Qed.

(** The bytes from an offset on. *)
Lemma tail_q i : 0 <= i <= lenZ (q_bytes q) -> range (peek b + i) (beginWrite b) b = Ok (drop (Z.to_nat i) (q_bytes q)).
Proof using R.
  intros Hi. pose proof R as [Hwf Hb _ _ _]. pose proof (lenZ_content b Hwf) as Hl. rewrite Hb in Hl. pose proof Hwf as (? & ? & _).
  unfold peek, beginWrite. rewrite range_wf by (done || lia). rewrite <- Hb. unfold content. by rewrite drop_slice by lia.
Qed.

Lemma find_q (f : bytes -> option nat) i s :
  s = drop (Z.to_nat i) (q_bytes q) ->
  from_peek b ((fun k => peek b + i + Z.of_nat k) <$> f s) = Position (found f i q).
Proof.
  intros ->. unfold from_peek, found. f_equal. destruct (f _); simpl; [|done]. f_equal. lia.
Qed.

Lemma retrieveAsString_q n : 0 <= n <= lenZ (q_bytes q) ->
  retrieveAsString n b = (b' ← retrieve n b; mret (take (Z.to_nat n) (q_bytes q), b')).
Proof using R.
  intros Hn. pose proof R as [Hwf Hb _ _ _]. unfold retrieveAsString. pose proof readable_q as Hq. rewrite Hq.
  rewrite check_true by (apply bool_decide_eq_true; lia). cbn [mbind res_bind].
  pose proof (lenZ_content b Hwf) as Hl. rewrite Hb in Hl. pose proof Hwf as (? & ? & _). unfold peek.
  rewrite range_wf by (done || lia). cbn [mbind res_bind]. rewrite <- Hb. unfold content. by rewrite take_slice by lia.
Qed.

(** Writing after [peek() + readableBytes()]. *)
Lemma written_q d : lenZ d <= q_room q ->
  exists b', (mem ← copy_to (beginWrite b) d (buffer_ b); hasWritten (lenZ d) (mk mem (readerIndex_ b) (writerIndex_ b))) = Ok b' /\
    refines (mkQueue (q_bytes q ++ d) (q_cheap q) (q_room q - lenZ d) (q_size q)) b'.
Proof using R.
  intros Hd. pose proof R as [Hwf Hb Hc Hr Hs]. pose proof (lenZ_nonneg d). destruct (write_tail_spec d b Hwf) as (Hcopy & Hwf' & Hc' & Hl'); [lia|].
  unfold beginWrite. rewrite Hcopy. cbn [mbind res_bind]. unfold hasWritten. cbn [buffer_ readerIndex_ writerIndex_] in *.
  assert (writableBytes (mk (splice (writerIndex_ b) d (buffer_ b)) (readerIndex_ b) (writerIndex_ b)) = writableBytes b) as ->
    by (unfold writableBytes; cbn [buffer_ writerIndex_]; by rewrite Hl').
  rewrite check_true by (apply bool_decide_eq_true; lia). cbn [mbind res_bind].
  pose proof (writable_wf b Hwf) as Hw. pose proof Hwf as (? & ? & ? & ?). unfold vector_max_size in *. rewrite size_add_small by lia.
  eexists; split; [done|]. split; cbn [q_bytes q_cheap q_room q_size]; [done|by rewrite Hc', Hb|done| |by cbn [buffer_]; rewrite Hl'].
  rewrite writable_wf by done. cbn [buffer_ writerIndex_]. rewrite Hl'. lia.
Qed.

Lemma unwritten_q n : 0 <= n <= lenZ (q_bytes q) ->
  exists b', unwrite n b = Ok b' /\
    refines (mkQueue (take (Z.to_nat (lenZ (q_bytes q) - n)) (q_bytes q)) (q_cheap q) (q_room q + n) (q_size q)) b'.
Proof using R.
  intros Hn. pose proof R as [Hwf Hb Hc Hr Hs]. destruct (unwrite_spec n b Hwf) as (b' & Hrun & Hwf' & Hc' & Hr' & Hb'); [by rewrite readable_q|].
  exists b'. split; [done|]. rewrite Hb in Hc'. split; cbn [q_bytes q_cheap q_room q_size]; [done|done|by rewrite Hr'| |by rewrite Hb'].
  rewrite !writable_content in * by done. rewrite Hb', Hr', Hc'. rewrite Hb in Hr. unfold lenZ in *. rewrite length_take. lia.
Qed.

Lemma ensured_q n : 0 <= n -> q_size q + n <= vector_max_size ->
  exists b', ensureWritableBytes n b = Ok b' /\ refines (mkQueue (q_bytes q) (Z.min 8 (q_cheap q)) (Z.max (q_room q) n) (q_size q + n)) b'.
Proof using R.
  intros Hn Hmax. pose proof R as [Hwf Hb Hc Hr Hs]. destruct (ensureWritable_spec n b Hwf Hn) as (b' & Hrun & Hwf' & Hc' & Hw' & Hr' & Hl'); [lia|].
  exists b'. split; [done|]. split; cbn [q_bytes q_cheap q_room q_size]; [done|by rewrite Hc'|lia| |lia]. split; [lia|].
  destruct (decide (n <= writableBytes b)) as [Hle|Hgt]; [|lia].
  revert Hrun. unfold ensureWritableBytes. rewrite bool_decide_eq_false_2 by lia. cbn [mbind res_bind mret res_ret].
  rewrite check_true by (apply bool_decide_eq_true; lia). cbn [mbind res_bind mret res_ret]. intros [= <-]. lia.
Qed.

End refinement.

(** What [readFd] needs of space, and leaves. *)
Lemma readFd_q q b readv :
  refines q b -> q_size q + extrabuf_size <= vector_max_size -> (forall n d, 0 <= n -> readv n = ReadvData d -> lenZ d <= n) ->
  exists x b' q', (let m := '(n, e, b) ← readFd readv b; mret (Count n e, b) in m = Ok (x, b')) /\
    post (OpReadFd readv) q x q' /\ refines q' b'.
Proof.
  intros R Hmax Hk. pose proof R as [Hwf Hb Hc Hr Hs]. cbv zeta. unfold readFd.
  set (offer := if bool_decide (writableBytes b < extrabuf_size) then _ else _).
  assert (extrabuf_size <= offer) as Ho by (unfold offer, extrabuf_size in *; case_bool_decide; lia).
  destruct (readv offer) as [errno|d] eqn:Hrv.
  - exists (Count (-1) (Some errno)), b, q. split_and!; [done| |done]. exists offer. by rewrite Hrv.
  - pose proof (Hk offer d ltac:(unfold extrabuf_size in Ho; lia) Hrv) as Hd. pose proof (lenZ_nonneg d) as Hd0.
    destruct (readFd_spec readv b d Hwf Hrv Hd ltac:(lia)) as (b' & Hrun & Hwf' & Hc' & Hr' & Hl').
    unfold readFd in Hrun. fold offer in Hrun. rewrite Hrv in Hrun. rewrite Hrun. cbn [mbind res_bind].
    eexists _, b', _. split_and!; [done|exists offer; rewrite Hrv; split_and!; [done|reflexivity|reflexivity]|].
    split; cbn [q_bytes q_cheap q_room q_size]; [done|by rewrite Hc', Hb|lia| |lia].
    split; [lia|]. pose proof Hwf' as (? & ? & _). rewrite writable_wf by done. lia.
Qed.

Ltac solve_step H := destruct H as (? & -> & ?); cbn [mbind res_bind mret res_ret]; eexists _, _, _; split_and!; [reflexivity|done|done|done].

(** Every operation does what it says. *)
Lemma step_refines o q b : refines q b -> pre o q -> exists x b' q', step o b = Ok (x, b') /\ post o q x q' /\ refines q' b'.
Proof.
  intros R Hpre. pose proof R as [Hwf Hb Hc Hr Hs]. pose proof (readable_q q b R) as Hq. pose proof (lenZ_nonneg (q_bytes q)) as Hnn.
  destruct o; cbn [pre step post] in *; unfold silent.
  - eexists _, b, q. split_and!; [reflexivity|done| |done]. eexists _, _. rewrite Hq. split_and!; [done|lia|unfold prependableBytes; lia].
  - eexists _, b, q. split_and!; [reflexivity| |done|done]. do 2 f_equal.
    rewrite <- Hb, <- (data_toStringPiece b Hwf). f_equal. cbn [toStringPiece StringPiece.size StringPiece.of_offset StringPiece.length_].
    rewrite Hq, <- Hb, swrap_small by (unfold s_in; rewrite ?Hb; change (2 ^ (32 - 1)) with (2 ^ 31); lia). unfold lenZ. lia.
  - destruct start as [i|]; cbn [default] in *.
    + unfold findCRLF_from. pose proof Hwf as (? & ? & _). pose proof (lenZ_content b Hwf) as Hl. rewrite Hb in Hl.
      rewrite !check_true by (apply bool_decide_eq_true; unfold peek, beginWrite; lia). cbn [mbind res_bind].
      rewrite (tail_q q b R i Hpre). cbn [mbind res_bind mret res_ret]. eexists _, b, q. split_and!; [reflexivity| |done|done]. by apply find_q.
    + unfold findCRLF. rewrite range_content by done. cbn [mbind res_bind mret res_ret]. eexists _, b, q. split_and!; [reflexivity| |done|done].
      rewrite <- (find_q q b _ 0 (content b)) by (by rewrite Hb). unfold from_peek. f_equal. by rewrite Z.add_0_r.
  - destruct start as [i|]; cbn [default] in *.
    + unfold findEOL_from. pose proof Hwf as (? & ? & _). pose proof (lenZ_content b Hwf) as Hl. rewrite Hb in Hl.
      rewrite !check_true by (apply bool_decide_eq_true; unfold peek, beginWrite; lia). cbn [mbind res_bind].
      rewrite (tail_q q b R i Hpre). cbn [mbind res_bind mret res_ret]. eexists _, b, q. split_and!; [reflexivity| |done|done]. by apply find_q.
    + unfold findEOL. rewrite (readable_wf b Hwf). pose proof (range_content b Hwf) as Hrange. unfold beginWrite in Hrange.
      replace (peek b + (writerIndex_ b - readerIndex_ b)) with (writerIndex_ b) by (unfold peek; lia).
      rewrite Hrange. cbn [mbind res_bind mret res_ret]. eexists _, b, q. split_and!; [reflexivity| |done|done].
      rewrite <- (find_q q b _ 0 (content b)) by (by rewrite Hb). unfold from_peek. f_equal. by rewrite Z.add_0_r.
  - rewrite (peek_int_q q b R w Hpre). by eexists _, b, q.
  - rewrite read_int_q, (peek_int_q q b R w Hpre). cbn [mbind res_bind].
    solve_step (retrieved_refines q b R (Z.of_nat (size_of w)) ltac:(lia)).
  - solve_step (retrieved_refines q b R len Hpre).
  - unfold retrieveUntil. pose proof Hwf as (? & ? & _). pose proof (lenZ_content b Hwf) as Hl. rewrite Hb in Hl.
    rewrite !check_true by (apply bool_decide_eq_true; unfold peek, beginWrite; lia). cbn [mbind res_bind].
    replace (peek b + end_ - peek b) with end_ by lia. solve_step (retrieved_refines q b R end_ Hpre).
  - rewrite retrieve_int_q. solve_step (retrieved_refines q b R (Z.of_nat (size_of w)) ltac:(lia)).
  - eexists _, _, _. split_and!; [reflexivity|done|done|by apply emptied_refines].
  - rewrite (retrieveAsString_q q b R len Hpre). destruct (retrieved_refines q b R len Hpre) as (? & -> & ?). by eexists _, _, _.
  - unfold retrieveAllAsString. rewrite Hq, (retrieveAsString_q q b R (lenZ (q_bytes q)) ltac:(lia)).
    destruct (retrieved_refines q b R (lenZ (q_bytes q)) ltac:(lia)) as (b' & -> & R'). cbn [mbind res_bind mret res_ret].
    eexists _, _, _. split_and!; [reflexivity| |done|]. { f_equal. apply take_ge. unfold lenZ. lia. }
    unfold retrieved in R'. by rewrite bool_decide_eq_false_2 in R' by lia.
  - solve_step (appended_refines q b R d Hpre).
  - destruct Hpre as [Hp Hmax]. assert (lenZ (take (Z.to_nat (StringPiece.length_ p)) (StringPiece.ptr_ p)) = StringPiece.length_ p) as Hlen
      by (unfold lenZ in *; rewrite length_take; lia).
    assert (append_piece p b = append (take (Z.to_nat (StringPiece.length_ p)) (StringPiece.ptr_ p)) (StringPiece.length_ p) b) as ->.
    { unfold append_piece, append, StringPiece.size, StringPiece.data.
      rewrite uwrap_small by (unfold u_in; pose proof Hwf as (_ & _ & ?); unfold vector_max_size, kCheapPrepend in *; lia).
      destruct (ensureWritableBytes _ b) as [b1|]; [|done]. cbn [mbind res_bind].
      rewrite !check_true by (apply bool_decide_eq_true; lia). cbn [mbind res_bind]. by rewrite take_take, Nat.min_id. }
    pose proof (appended_refines q b R _ ltac:(rewrite Hlen; lia)) as Happ. rewrite Hlen in Happ. solve_step Happ.
  - rewrite append_int_wire. solve_step (appended_refines q b R (wire w x) ltac:(rewrite lenZ_wire_size; lia)).
  - solve_step (written_q q b R d Hpre).
  - solve_step (unwritten_q q b R len Hpre).
  - destruct Hpre as [Hn Hmax]. solve_step (ensured_q q b R len Hn Hmax).
  - solve_step (prepended_refines q b R d Hpre).
  - rewrite prepend_int_wire. solve_step (prepended_refines q b R (wire w x) ltac:(rewrite lenZ_wire_size; lia)).
  - destruct Hpre as (Hres & H31 & Hmax). rewrite <- Hb in H31, Hmax. destruct (shrink_spec reserve b Hwf Hres H31 Hmax) as (b' & -> & Hwf' & Hc' & Hr' & Hl' & Hroom).
    cbn [mbind res_bind mret res_ret]. eexists _, _, _. split_and!; [reflexivity|done|done|]. rewrite <- Hb. split; cbn [q_bytes q_cheap q_room q_size]; done || lia.
  - destruct Hpre as [Hmax Hk]. by apply readFd_q.
Qed.

(** ** Two buffers, which can be swapped *)

Inductive cmd := First (o : op) | Second (o : op) | Swap.

Definition cmd_step (c : cmd) (b : t * t) : res (obs * (t * t)) :=
  match c with
  | First o => '(x, b1) ← step o b.1; mret (x, (b1, b.2))
  | Second o => '(x, b2) ← step o b.2; mret (x, (b.1, b2))
  | Swap => mret (Nothing, swap b.1 b.2)
  end.

Fixpoint run (cs : list cmd) (b : t * t) : res (list obs * (t * t)) :=
  match cs with
  | [] => mret ([], b)
  | c :: cs =>
      '(x, b) ← cmd_step c b;
      '(xs, b) ← run cs b;
      mret (x :: xs, b)
  end.

Definition cmd_pre (c : cmd) (q : queue * queue) : Prop :=
  match c with First o => pre o q.1 | Second o => pre o q.2 | Swap => True end.

Definition cmd_post (c : cmd) (q : queue * queue) (x : obs) (q' : queue * queue) : Prop :=
  match c with
  | First o => post o q.1 x q'.1 /\ q'.2 = q.2
  | Second o => post o q.2 x q'.2 /\ q'.1 = q.1
  | Swap => x = Nothing /\ q' = (q.2, q.1)
  end.

(** The caller sees to what each operation needs, whatever the earlier ones did. *)
Fixpoint legal (cs : list cmd) (q : queue * queue) : Prop :=
  match cs with
  | [] => True
  | c :: cs => cmd_pre c q /\ forall x q', cmd_post c q x q' -> legal cs q'
  end.

(** What the caller is told by a queue. *)
Fixpoint outcome (cs : list cmd) (q : queue * queue) (xs : list obs) (q' : queue * queue) : Prop :=
  match cs with
  | [] => xs = [] /\ q' = q
  | c :: cs => exists x q1 xs', xs = x :: xs' /\ cmd_post c q x q1 /\ outcome cs q1 xs' q'
  end.

Definition refines2 (q : queue * queue) (b : t * t) : Prop := refines q.1 b.1 /\ refines q.2 b.2.

Lemma cmd_step_refines c q b : refines2 q b -> cmd_pre c q ->
  exists x b' q', cmd_step c b = Ok (x, b') /\ cmd_post c q x q' /\ refines2 q' b'.
Proof.
  destruct q as [q1 q2], b as [b1 b2]. intros [R1 R2] Hpre. destruct c as [o|o|]; cbn [cmd_pre cmd_post cmd_step fst snd] in *.
  - destruct (step_refines o q1 b1 R1 Hpre) as (x & b' & q' & -> & Hpost & R'). by exists x, (b', b2), (q', q2).
  - destruct (step_refines o q2 b2 R2 Hpre) as (x & b' & q' & -> & Hpost & R'). by exists x, (b1, b'), (q1, q').
  - by exists Nothing, (b2, b1), (q2, q1).
Qed.

Lemma run_refines cs q b : refines2 q b -> legal cs q ->
  exists xs b' q', run cs b = Ok (xs, b') /\ outcome cs q xs q' /\ refines2 q' b'.
Proof.
  revert q b. induction cs as [|c cs IH]; intros q b R Hlegal; cbn [run legal outcome] in *; [by exists [], b, q|].
  destruct Hlegal as [Hpre Hnext]. destruct (cmd_step_refines c q b R Hpre) as (x & b1 & q1 & -> & Hpost & R1). cbn [mbind res_bind].
  destruct (IH q1 b1 R1 (Hnext x q1 Hpost)) as (xs & b' & q' & -> & Hout & R'). cbn [mbind res_bind mret res_ret].
  exists (x :: xs), b', q'. split; [done|]. split; [|exact R']. by exists x, q1, xs.
Qed.

Definition fresh (n : Z) : queue := mkQueue [] 8 n (n + 8).

Lemma fresh_refines n : 0 <= n -> n + 8 <= vector_max_size -> exists b, Buffer n = Ok b /\ refines (fresh n) b.
Proof.
  intros Hn Hmax. destruct (Buffer_spec n Hn Hmax) as (b & -> & Hwf & Hc & Hr & Hw & Hl). exists b. split; [done|].
  split; cbn [fresh q_bytes q_cheap q_room q_size]; [done|done| | |]; rewrite ?writable_wf by done; lia.
Qed.

(** C1: buffers built by the constructor refine byte queues.  For every sequence of
    operations on two buffers, swaps among them, in which the caller keeps to the contract
    of each operation ([pre]: no more bytes retrieved than there are, no more prepended
    than the cheap-prepend area holds, sizes below [max_size()]), no assertion fails and no
    access leaves the vector, every operation gives its caller what the queue gives (bytes,
    integers in network order, positions of the first CRLF and line feed, what [readv]
    read), the readable bytes are at the end those of the queue, and at least the promised
    space can be prepended and written. *)
Theorem buffer_refines_queue n1 n2 cs :
  0 <= n1 -> n1 + 8 <= vector_max_size -> 0 <= n2 -> n2 + 8 <= vector_max_size ->
  legal cs (fresh n1, fresh n2) ->
  exists xs b1 b2 q1 q2,
    (c1 ← Buffer n1; c2 ← Buffer n2; run cs (c1, c2)) = Ok (xs, (b1, b2)) /\
    outcome cs (fresh n1, fresh n2) xs (q1, q2) /\
    wf b1 /\ content b1 = q_bytes q1 /\ q_cheap q1 <= prependableBytes b1 /\ q_room q1 <= writableBytes b1 /\
    wf b2 /\ content b2 = q_bytes q2 /\ q_cheap q2 <= prependableBytes b2 /\ q_room q2 <= writableBytes b2.
Proof.
  intros Hn1 Hm1 Hn2 Hm2 Hlegal. destruct (fresh_refines n1 Hn1 Hm1) as (c1 & -> & R1). destruct (fresh_refines n2 Hn2 Hm2) as (c2 & -> & R2).
  cbn [mbind res_bind]. destruct (run_refines cs (fresh n1, fresh n2) (c1, c2) (conj R1 R2) Hlegal) as (xs & [b1 b2] & [q1 q2] & Hrun & Hout & [S1 S2]).
  exists xs, b1, b2, q1, q2. split; [done|]. split; [done|]. destruct S1 as [? ? ? ? ?], S2 as [? ? ? ? ?]. cbn [fst snd] in *.
  unfold prependableBytes. by split_and!; try lia.
Qed.

(** ** Witness *)

Definition sample_readv (n : Z) : readv_result := ReadvData (if bool_decide (8 <= n) then bs "xyz" ++ kCRLF else []).

Definition sample_cmds : list cmd :=
  [First (OpAppend (bs "hello")); First (OpPrependInt W32 5); Second (OpReadFd sample_readv); First (OpReadInt W32);
   Second (OpFindCRLF None); Swap; First OpRetrieveAllAsString; Second (OpRetrieve 2); Second (OpAppendInt W16 (-2)); Second OpToStringPiece].

Definition sample_outcome : list obs :=
  [Nothing; Nothing; Count 5 None; Int 5; Position (Some 3); Nothing; Bytes (bs "xyz" ++ kCRLF); Nothing; Nothing;
   Bytes (bs "llo" ++ [Byte.xff; Byte.xfe])].

Lemma buffer_refines_queue_witness :
  (exists xs b1 b2 q1 q2,
    (c1 ← Buffer 4; c2 ← Buffer 0; run sample_cmds (c1, c2)) = Ok (xs, (b1, b2)) /\
    outcome sample_cmds (fresh 4, fresh 0) xs (q1, q2) /\
    wf b1 /\ content b1 = q_bytes q1 /\ q_cheap q1 <= prependableBytes b1 /\ q_room q1 <= writableBytes b1 /\
    wf b2 /\ content b2 = q_bytes q2 /\ q_cheap q2 <= prependableBytes b2 /\ q_room q2 <= writableBytes b2) /\
  (exists b, (c1 ← Buffer 4; c2 ← Buffer 0; run sample_cmds (c1, c2)) = Ok (sample_outcome, b)).
Proof.
  split; [|eexists; vm_compute; reflexivity]. apply (buffer_refines_queue 4 0 sample_cmds); [done..|].
  assert (forall n, extrabuf_size <= n -> sample_readv n = ReadvData (bs "xyz" ++ kCRLF)) as Hrv.
  { intros n Hn. unfold extrabuf_size in Hn. unfold sample_readv. by rewrite bool_decide_eq_true_2 by lia. }
  unfold sample_cmds.
  split; [vm_compute; discriminate|intros x0 [p0 r0] [[-> Hp0] Hr0]; cbn [fst snd] in *; subst].
  split; [vm_compute; discriminate|intros x1 [p1 r1] [[-> Hp1] Hr1]; cbn [fst snd] in *; subst].
  split; [|intros x2 [p2 r2] [[n [Hn Hx]] Hp2]; cbn [fst snd] in *; rewrite (Hrv n Hn) in Hx; destruct Hx as [-> ->]; subst].
  { split; [vm_compute; discriminate|]. intros n d Hn. unfold sample_readv. case_bool_decide; intros [= <-]; [transitivity 8; [vm_compute; discriminate|done]|exact Hn]. }
  do 5 (split; [vm_compute; first [done | discriminate | split; discriminate]|intros ? [? ?] Hpost; cbn [cmd_post post fst snd] in Hpost; destruct_and!; simplify_eq]).
  do 2 (split; [vm_compute; first [done | discriminate | split; discriminate]|intros ? [? ?] Hpost; cbn [cmd_post post fst snd] in Hpost; destruct_and!; simplify_eq]).
  done.
Defined.

End BufferQueue.
