(* ===== verification/Address.v ===== *)
(** Addresses and the checks of system calls ([muduo/net/InetAddress.*], [SocketsOps.*],
    [Socket.cc]).

    An address is its memory image: the union of a [sockaddr_in] and a [sockaddr_in6].  The
    notation of addresses, [inet_ntop] and [inet_pton], is a class with the laws that POSIX
    states; what the system calls return is input. *)
From coqutil Require Import Byte Word.LittleEndianList.
From S2P Require Import Prelude Endian Decimal.
Open Scope Z_scope.

(** ** The notation of addresses *)

Definition AF_INET : Z := 2.
Definition AF_INET6 : Z := 10.
Definition INET_ADDRSTRLEN : Z := 16.
Definition INET6_ADDRSTRLEN : Z := 46.

(** The number of bytes of an address. *)
Definition address_size (af : Z) : nat := if bool_decide (af = AF_INET) then 4 else 16.
Definition text_size (af : Z) : Z := if bool_decide (af = AF_INET) then INET_ADDRSTRLEN else INET6_ADDRSTRLEN.

(** [inet_ntop] gives the text of an address, which is nowhere longer than the constants
    say, [inet_pton] the address of a text. *)
Class InetText := {
  inet_ntop : Z -> bytes -> bytes;
  inet_pton : Z -> bytes -> option bytes
}.

Class InetTextLaws `{InetText} : Prop := {
  pton_ntop af a : (af = AF_INET \/ af = AF_INET6) -> length a = address_size af -> inet_pton af (inet_ntop af a) = Some a;
  ntop_fits af a : (af = AF_INET \/ af = AF_INET6) -> length a = address_size af -> lenZ (inet_ntop af a) < text_size af;
  pton_size af s a : inet_pton af s = Some a -> length a = address_size af
}.

Module InetAddress.
Section address.
Context `{InetText}.

Definition t : Type := bytes.

(** The members of the two structures. *)
Definition family (a : t) : Z := of_mem_u (slice 0 2 a).
Definition portNetEndian (a : t) : Z := of_mem_u (slice 2 4 a).
Definition s_addr (a : t) : bytes := slice 4 8 a.
Definition sin6_addr (a : t) : bytes := slice 8 24 a.
Definition set_family (v : Z) (a : t) : t := splice 0 (to_mem 2 v) a.
Definition set_port (v : Z) (a : t) : t := splice 2 (to_mem 2 v) a.
Definition set_s_addr (v : bytes) (a : t) : t := splice 4 v a.
Definition set_sin6_addr (v : bytes) (a : t) : t := splice 8 v a.

(** [memZero] of the structure that the address will be; [fresh] is what the memory of the
    object holds at first. *)
Definition zeroed (ipv6 : bool) (fresh : t) : t := splice 0 (replicate (if ipv6 then 28 else 16) Byte.x00) fresh.

Definition loopback6 : bytes := replicate 15 Byte.x00 ++ [Byte.x01].

(** [InetAddress(port, loopbackOnly, ipv6)] *)
Definition of_port (fresh : t) (port : Z) (loopbackOnly ipv6 : bool) : t :=
  let a := zeroed ipv6 fresh in
  if ipv6 then
    set_port (hostToNetwork16 port)
      (set_sin6_addr (if loopbackOnly then loopback6 else replicate 16 Byte.x00) (set_family AF_INET6 a))
  else
    set_port (hostToNetwork16 port)
      (set_s_addr (to_mem 4 (hostToNetwork32 (if loopbackOnly then 0x7f000001 else 0))) (set_family AF_INET a)).

(** [sockets::fromIpPort], for either structure. *)
Definition fromIpPort4 (ip : bytes) (port : Z) (a : t) : t :=
  let a := set_port (hostToNetwork16 port) (set_family AF_INET a) in
  match inet_pton AF_INET ip with Some b => set_s_addr b a | None => a end.
Definition fromIpPort6 (ip : bytes) (port : Z) (a : t) : t :=
  let a := set_port (hostToNetwork16 port) (set_family AF_INET6 a) in
  match inet_pton AF_INET6 ip with Some b => set_sin6_addr b a | None => a end.

(** [InetAddress(ip, port, ipv6)] *)
Definition of_ip (fresh : t) (ip : bytes) (port : Z) (ipv6 : bool) : t :=
  if ipv6 then fromIpPort6 ip port (zeroed true fresh) else fromIpPort4 ip port (zeroed false fresh).

(** [sockets::toIp] into an array of [size] bytes that holds the empty string. *)
Definition toIp_into (size : Z) (a : t) : res bytes :=
  let ntop text := if bool_decide (lenZ text < size) then text else [] in
  if bool_decide (family a = AF_INET) then
    _ ← assert_ (bool_decide (size >= INET_ADDRSTRLEN));
    mret (ntop (inet_ntop AF_INET (s_addr a)))
  else if bool_decide (family a = AF_INET6) then
    _ ← assert_ (bool_decide (size >= INET6_ADDRSTRLEN));
    mret (ntop (inet_ntop AF_INET6 (sin6_addr a)))
  else mret [].

Definition toPort (a : t) : Z := networkToHost16 (portNetEndian a).

(** [sockets::toIpPort] *)
Definition toIpPort_into (size : Z) (a : t) : res bytes :=
  buf ← toIp_into size a;
  let end_ := lenZ buf in
  _ ← assert_ (bool_decide (size > end_));
  mret (buf ++ (snprintf (Z.to_nat (size - end_)) (bs ":" ++ dec (networkToHost16 (portNetEndian a)))).1).

Definition toIp (a : t) : res bytes := toIp_into 64 a.
Definition toIpPort (a : t) : res bytes := toIpPort_into 64 a.

Definition ipNetEndian (a : t) : res Z :=
  _ ← assert_ (bool_decide (family a = AF_INET));
  mret (of_mem_u (s_addr a)).

(** What [gethostbyname_r] finds: the type of the address, its length, its bytes. *)
Definition resolve (ret : Z) (he : option (Z * Z * bytes)) (out : t) : res (bool * t) :=
  match he with
  | Some (h_addrtype, h_length, h_addr) =>
      if bool_decide (ret = 0) then
        _ ← assert_ (bool_decide (h_addrtype = AF_INET) && bool_decide (h_length = 4));
        mret (true, set_s_addr (take 4 h_addr) out)
      else mret (false, out)
  | None => mret (false, out)
  end.

Definition setScopeId (scope_id : Z) (a : t) : t :=
  if bool_decide (family a = AF_INET6) then splice 24 (to_mem 4 scope_id) a else a.

(** [sockets::isSelfConnect], with the two ends of the socket. *)
Definition isSelfConnect (localaddr peeraddr : t) : res bool :=
  if bool_decide (family localaddr = AF_INET) then
    mret (bool_decide (portNetEndian localaddr = portNetEndian peeraddr) && bool_decide (of_mem_u (s_addr localaddr) = of_mem_u (s_addr peeraddr)))
  else if bool_decide (family localaddr = AF_INET6) then
    if bool_decide (portNetEndian localaddr = portNetEndian peeraddr) then
      c ← memcmp 16 (sin6_addr localaddr) (sin6_addr peeraddr);
      mret (bool_decide (c = 0))
    else mret false
  else mret false.
End address.
End InetAddress.

(** ** System calls that must not fail *)

Module sockets.

Definition EPERM : Z := 1.
Definition EINTR : Z := 4.
Definition EAGAIN : Z := 11.
Definition EMFILE : Z := 24.
Definition EPROTO : Z := 71.
Definition ECONNABORTED : Z := 103.

(** [LOG_SYSFATAL] when the call returns a negative value. *)
Definition createNonblockingOrDie (sockfd : Z) : res Z := _ ← check LogFatal (negb (bool_decide (sockfd < 0))); mret sockfd.
Definition bindOrDie (ret : Z) : res unit := check LogFatal (negb (bool_decide (ret < 0))).
Definition listenOrDie (ret : Z) : res unit := check LogFatal (negb (bool_decide (ret < 0))).

(** What [accept4] returns, and [errno]; the result is what [accept] returns, and the [errno]
    that it leaves. *)
Definition accept (connfd errno : Z) : res (Z * Z) :=
  if bool_decide (connfd < 0) then
    if bool_decide (errno ∈ [EAGAIN; ECONNABORTED; EINTR; EPROTO; EPERM; EMFILE]) then mret (connfd, errno)
    else Fail LogFatal
  else mret (connfd, errno).

(** [getsockopt]: its result, the value it stores, [errno]. *)
Definition getSocketError (ret optval errno : Z) : Z := if bool_decide (ret < 0) then errno else optval.

(** [Socket::accept]: the peer's address is stored for a new connection only. *)
Definition Socket_accept (connfd errno : Z) (addr peeraddr : InetAddress.t) : res (Z * InetAddress.t) :=
  '(connfd, _) ← accept connfd errno;
  mret (connfd, if bool_decide (connfd >= 0) then addr else peeraddr).
End sockets.

(** ** Addresses and their texts *)

Module InetProofs.
Import InetAddress.

Section proofs.
Context `{IT : InetText, HL : !InetTextLaws}.

(** The port goes to network order and back. *)
Lemma port_back port : u_in 16 port -> networkToHost16 (of_mem_u (to_mem 2 (hostToNetwork16 port))) = port.
Proof.
  intros Hp. unfold networkToHost16, hostToNetwork16. rewrite (uwrap_small 16 port) by done. pose proof (bswap_range 2 port) as Hb.
  unfold of_mem_u, to_mem. rewrite le_combine_split. change (2 ^ (Z.of_nat 2 * 8)) with (2 ^ 16). rewrite Z.mod_small by exact Hb.
  rewrite (uwrap_small 16 (bswap 2 port)) by exact Hb. rewrite bswap_involutive. by apply uwrap_small.
Qed.

Lemma length_zeroed ipv6 fresh : lenZ fresh = 28 -> lenZ (zeroed ipv6 fresh) = 28.
Proof. intros Hf. unfold zeroed. rewrite lenZ_splice; [done|lia|]. unfold lenZ at 1. rewrite length_replicate. destruct ipv6; lia. Qed.

Definition the_address (a : t) : bytes := if bool_decide (family a = AF_INET) then s_addr a else sin6_addr a.

(** The fields of an address of [af], whatever was in the memory before. *)
Lemma fields af port v a :
  lenZ a = 28 -> u_in 16 port -> (af = AF_INET \/ af = AF_INET6) -> length v = address_size af ->
  let a' := splice (if bool_decide (af = AF_INET) then 4 else 8) v (set_port (hostToNetwork16 port) (set_family af a)) in
  lenZ a' = 28 /\ family a' = af /\ toPort a' = port /\ the_address a' = v.
Proof.
  intros Ha Hp Haf Hv. cbn zeta. set (a1 := set_family af a). set (a2 := set_port (hostToNetwork16 port) a1).
  set (k := if bool_decide (af = AF_INET) then 4 else 8).
  assert (lenZ a1 = 28) as Ha1 by (unfold a1, set_family; rewrite lenZ_splice; rewrite ?lenZ_to_mem; lia).
  assert (lenZ a2 = 28) as Ha2 by (unfold a2, set_port; rewrite lenZ_splice; rewrite ?lenZ_to_mem; lia).
  assert (4 <= k /\ k + lenZ v <= 28 /\ k + lenZ v = if bool_decide (af = AF_INET) then 8 else 24) as (Hk & Hkv & Hend).
  { unfold k, lenZ. rewrite Hv. unfold address_size. case_bool_decide; simpl; lia. }
  assert (family (splice k v a2) = af) as Hfam.
  { unfold family. rewrite slice_splice_before by lia. unfold a2, set_port. rewrite slice_splice_before by (rewrite ?lenZ_to_mem; lia).
    unfold a1, set_family. pose proof (slice_splice 0 (to_mem 2 af) a ltac:(lia) ltac:(rewrite lenZ_to_mem; lia)) as Hs.
    rewrite lenZ_to_mem in Hs. change (0 + Z.of_nat 2) with 2 in Hs. rewrite Hs. by destruct Haf as [->| ->]. }
  split_and!; [rewrite lenZ_splice; lia|exact Hfam| |].
  - unfold toPort, portNetEndian. rewrite slice_splice_before by lia. unfold a2, set_port.
    pose proof (slice_splice 2 (to_mem 2 (hostToNetwork16 port)) a1 ltac:(lia) ltac:(rewrite lenZ_to_mem; lia)) as Hs.
    rewrite lenZ_to_mem in Hs. change (2 + Z.of_nat 2) with 4 in Hs. rewrite Hs. by apply port_back.
  - unfold the_address. rewrite Hfam. unfold s_addr, sin6_addr.
    pose proof (slice_splice k v a2 ltac:(lia) ltac:(lia)) as Hs. rewrite Hend in Hs. unfold k in *. by case_bool_decide.
Qed.

Abbreviation af_of ipv6 := (if ipv6 then AF_INET6 else AF_INET).

Lemma af_known (ipv6 : bool) : af_of ipv6 = AF_INET \/ af_of ipv6 = AF_INET6.
Proof. destruct ipv6; auto. Qed.

(** Bytes of one length are equal when their numbers are. *)
Lemma mem_inj (v v' : bytes) : length v = length v' -> of_mem_u v = of_mem_u v' <-> v = v'.
Proof.
  intros Hl. split; [|by intros ->]. unfold of_mem_u. intros He.
  rewrite <- (split_le_combine v), <- (split_le_combine v'). by rewrite Hl, He.
Qed.

Lemma port_net_inj a a' : toPort a = toPort a' <-> portNetEndian a = portNetEndian a'.
Proof.
  split; [|by unfold toPort; intros ->]. intros He.
  assert (forall b, portNetEndian b = networkToHost16 (toPort b)) as Hback.
  { intros b. assert (u_in 16 (portNetEndian b)) as Hb.
    { unfold portNetEndian, of_mem_u. pose proof (le_combine_bound (slice 2 4 b)) as Hbound.
      assert (length (slice 2 4 b) <= 2)%nat as Hs by (unfold slice; rewrite length_take; lia).
      unfold u_in. split; [lia|]. eapply Z.lt_le_trans; [apply Hbound|]. apply Z.pow_le_mono_r; lia. }
    unfold toPort, networkToHost16. pose proof (bswap_range 2 (uwrap 16 (portNetEndian b))) as Hr.
    rewrite (uwrap_small 16 (bswap 2 _)) by exact Hr. rewrite bswap_involutive. change (8 * Z.of_nat 2) with 16.
    by rewrite !uwrap_small by (rewrite ?uwrap_small; done). }
  by rewrite (Hback a), (Hback a'), He.
Qed.

(** The address that a text denotes. *)
Lemma of_ip_fields fresh v port (ipv6 : bool) :
  lenZ fresh = 28 -> u_in 16 port -> length v = address_size (af_of ipv6) ->
  let a := of_ip fresh (inet_ntop (af_of ipv6) v) port ipv6 in
  lenZ a = 28 /\ family a = af_of ipv6 /\ toPort a = port /\ the_address a = v.
Proof using HL.
  intros Hf Hp Hv. cbn zeta. pose proof (pton_ntop _ v (af_known ipv6) Hv) as Hpton. pose proof (length_zeroed ipv6 fresh Hf) as Hz.
  pose proof (fields (af_of ipv6) port v _ Hz Hp (af_known ipv6) Hv) as Hfields. cbn zeta in Hfields.
  unfold of_ip. destruct ipv6; simpl in *; unfold fromIpPort4, fromIpPort6; rewrite Hpton; exact Hfields.
Qed.

(** The texts of an address, and why they fit the array. *)
Lemma texts a (ipv6 : bool) :
  family a = af_of ipv6 -> length (the_address a) = address_size (af_of ipv6) ->
  toIp a = Ok (inet_ntop (af_of ipv6) (the_address a)) /\
  toIpPort a = Ok (inet_ntop (af_of ipv6) (the_address a) ++ bs ":" ++ dec (toPort a)).
Proof using HL.
  intros Hf Hl. pose proof (ntop_fits _ _ (af_known ipv6) Hl) as Hfit.
  assert (toIp a = Ok (inet_ntop (af_of ipv6) (the_address a))) as Hip.
  { unfold toIp, toIp_into. rewrite Hf. unfold the_address in *. rewrite Hf in *. destruct ipv6; simpl in *.
    - rewrite bool_decide_eq_true_2; [done|]. unfold text_size, INET6_ADDRSTRLEN in Hfit. simpl in Hfit. lia.
    - rewrite bool_decide_eq_true_2; [done|]. unfold text_size, INET_ADDRSTRLEN in Hfit. simpl in Hfit. lia. }
  split; [exact Hip|]. unfold toIpPort, toIpPort_into. unfold toIp in Hip. rewrite Hip. cbn [mbind res_bind].
  set (text := inet_ntop _ _) in *. assert (lenZ text < 46) as Ht.
  { destruct ipv6; unfold text_size, INET_ADDRSTRLEN, INET6_ADDRSTRLEN in Hfit; simpl in Hfit; lia. }
  rewrite check_true by (apply bool_decide_eq_true; lia). cbn [mbind res_bind]. fold (toPort a).
  rewrite snprintf_fits; [done|]. rewrite length_app.
  assert (s_in 32 (toPort a)) as Hport.
  { unfold toPort, networkToHost16. pose proof (bswap_range 2 (uwrap 16 (portNetEndian a))). unfold s_in. simpl in *. lia. }
  pose proof (dec_length_int _ Hport). unfold lenZ in *. simpl. lia.
Qed.

(** C35: An address that is made from the text of an IP address and a port, in memory that held
    anything before, has that family, address and port; its texts are that text, and that
    text with a colon and the port in decimal, never cut by the array of 64 bytes and past
    every assertion, so that the address comes back from its own texts.  A socket is connected
    to itself exactly when its two ends have the same address and the same port. *)
Theorem address_roundtrip fresh fresh' v port v' port' (ipv6 : bool) :
  lenZ fresh = 28 -> lenZ fresh' = 28 -> u_in 16 port -> u_in 16 port' ->
  length v = address_size (af_of ipv6) -> length v' = address_size (af_of ipv6) ->
  let a := of_ip fresh (inet_ntop (af_of ipv6) v) port ipv6 in
  let a' := of_ip fresh' (inet_ntop (af_of ipv6) v') port' ipv6 in
  family a = af_of ipv6 /\ toPort a = port /\ the_address a = v /\
  toIp a = Ok (inet_ntop (af_of ipv6) v) /\
  toIpPort a = Ok (inet_ntop (af_of ipv6) v ++ bs ":" ++ dec port) /\
  isSelfConnect a a' = Ok (bool_decide (v = v' /\ port = port')).
Proof using HL.
  intros Hf Hf' Hp Hp' Hv Hv'. cbn zeta.
  destruct (of_ip_fields fresh v port ipv6 Hf Hp Hv) as (Hl & Hfam & Hport & Haddr).
  destruct (of_ip_fields fresh' v' port' ipv6 Hf' Hp' Hv') as (Hl' & Hfam' & Hport' & Haddr').
  set (a := of_ip fresh _ _ _) in *. set (a' := of_ip fresh' _ _ _) in *.
  destruct (texts a ipv6 Hfam ltac:(by rewrite Haddr)) as [Hip Hipp]. rewrite Haddr in Hip, Hipp. rewrite Hport in Hipp.
  split_and!; try done. unfold isSelfConnect. rewrite Hfam.
  assert (bool_decide (portNetEndian a = portNetEndian a') = bool_decide (port = port')) as Hpe.
  { apply bool_decide_ext. rewrite <- Hport, <- Hport'. by rewrite (port_net_inj a a'). }
  unfold the_address in *. rewrite Hfam in Haddr. rewrite Hfam' in Haddr'. destruct ipv6; simpl in *.
  - rewrite Haddr, Haddr', Hpe. destruct (decide (port = port')) as [Heq|Heq].
    + rewrite (bool_decide_eq_true_2 (port = port')) by done. unfold memcmp.
      rewrite !(bool_decide_eq_true_2 (16 <= _)%Z) by (unfold lenZ; rewrite ?Hv, ?Hv'; done). cbn [andb check mbind res_bind].
      change (Z.to_nat 16) with 16%nat. unfold mret, res_ret. cbn [mbind res_bind]. f_equal.
      apply bool_decide_ext. change (address_size AF_INET6) with 16%nat in *. rewrite (bytes_cmp_eq 16) by lia. rewrite !take_ge by lia. tauto.
    + rewrite !bool_decide_eq_false_2; [done|by intros [_ ?]|done].
  - rewrite Haddr, Haddr', Hpe. unfold mret, res_ret. f_equal. rewrite <- bool_decide_and. apply bool_decide_ext.
    rewrite (mem_inj v v') by (by rewrite Hv, Hv'). tauto.
Qed.
End proofs.

(** A plain notation that keeps the laws: two hexadecimal digits for each byte. *)
Fixpoint unhex (s : bytes) : bytes :=
  match s with
  | x :: y :: s => byte.of_Z (16 * digit_value x + digit_value y) :: unhex s
  | _ => []
  end.

Definition hex (a : bytes) : bytes := concat (map (fun b => [digit (byte.unsigned b / 16); digit (byte.unsigned b mod 16)]) a).

#[export] Instance hex_text : InetText := {
  inet_ntop _ a := hex a;
  inet_pton af s := if bool_decide (length (unhex s) = address_size af) then Some (unhex s) else None
}.

Lemma unhex_hex a : unhex (hex a) = a.
Proof.
  induction a as [|b a IH]; [done|]. unfold hex in *. cbn [map concat app unhex]. rewrite IH. f_equal.
  pose proof (byte.unsigned_range b) as Hb. rewrite !digit_value_digit by div_lia.
  rewrite <- (byte.of_Z_unsigned b) at 3. f_equal. div_lia.
Qed.

#[export] Instance hex_laws : InetTextLaws.
Proof.
  split; simpl.
  - intros af a _ Ha. rewrite unhex_hex. by rewrite bool_decide_eq_true_2.
  - intros af a Haf Ha. assert (length (hex a) = 2 * length a)%nat as Hl by (clear; unfold hex; induction a; simpl in *; lia).
    unfold lenZ. rewrite Hl, Ha. by destruct Haf as [->| ->].
  - intros af s a. case_bool_decide; [by intros [= <-]|done].
Qed.

Lemma address_roundtrip_witness :
  let a := of_ip (replicate 28 Byte.x2a) (hex [Byte.x7f; Byte.x00; Byte.x00; Byte.x01]) 8080 false in
  toIpPort a = Ok (bs "7F000001:8080") /\ isSelfConnect a a = Ok true.
Proof.
  destruct (address_roundtrip (replicate 28 Byte.x2a) (replicate 28 Byte.x2a) [Byte.x7f; Byte.x00; Byte.x00; Byte.x01] 8080
    [Byte.x7f; Byte.x00; Byte.x00; Byte.x01] 8080 false) as (_ & _ & _ & _ & Hipp & Hself).
  - reflexivity.
  - reflexivity.
  - split; [discriminate|reflexivity].
  - split; [discriminate|reflexivity].
  - reflexivity.
  - reflexivity.
  - split; [exact Hipp|]. exact Hself.
Defined.
End InetProofs.
