(* ===== verification/Channel.v ===== *)
(** Channels and pollers ([muduo/net/Channel.h], [Channel.cc], [Poller.h], [Poller.cc],
    [poller/PollPoller.*], [poller/EPollPoller.*]).

    A [Channel] is an object that the poller points to, so channels live in a store
    indexed by their address. [Class Poller] is the virtual interface and [PollerSpec] what
    a poller promises its loop; [PollPoller] and [EPollPoller] are the two instances. *)
From S2P Require Import Prelude State.
Open Scope Z_scope.

(** The flags of [poll(2)], which are also those of [epoll(7)]. *)
Definition POLLIN : Z := 1.
Definition POLLPRI : Z := 2.
Definition POLLOUT : Z := 4.
Definition POLLERR : Z := 8.
Definition POLLHUP : Z := 16.
Definition POLLNVAL : Z := 32.
Definition POLLRDHUP : Z := 8192.

(** [flags & mask] as a condition. *)
Definition has (flags mask : Z) : bool := negb (bool_decide (Z.land flags mask = 0)).

Module Channel.

Definition kNoneEvent : Z := 0.
Definition kReadEvent : Z := Z.lor POLLIN POLLPRI.
Definition kWriteEvent : Z := POLLOUT.

(** A callback is set or not; [tie_] is whether the tied object still exists. *)
Record t := mk {
  fd_ : Z;
  events_ : Z;
  revents_ : Z;
  index_ : Z;
  logHup_ : bool;
  tie_ : bool;
  tied_ : bool;
  eventHandling_ : bool;
  addedToLoop_ : bool;
  readCallback_ : bool;
  writeCallback_ : bool;
  closeCallback_ : bool;
  errorCallback_ : bool
}.

Definition Channel (fd : Z) : t :=
  mk fd 0 0 (-1) true false false false false false false false false.

Definition set_events e c := mk (fd_ c) e (revents_ c) (index_ c) (logHup_ c) (tie_ c) (tied_ c)
  (eventHandling_ c) (addedToLoop_ c) (readCallback_ c) (writeCallback_ c) (closeCallback_ c) (errorCallback_ c).
Definition set_revents revt c := mk (fd_ c) (events_ c) revt (index_ c) (logHup_ c) (tie_ c) (tied_ c)
  (eventHandling_ c) (addedToLoop_ c) (readCallback_ c) (writeCallback_ c) (closeCallback_ c) (errorCallback_ c).
Definition set_index idx c := mk (fd_ c) (events_ c) (revents_ c) idx (logHup_ c) (tie_ c) (tied_ c)
  (eventHandling_ c) (addedToLoop_ c) (readCallback_ c) (writeCallback_ c) (closeCallback_ c) (errorCallback_ c).
Definition set_added b c := mk (fd_ c) (events_ c) (revents_ c) (index_ c) (logHup_ c) (tie_ c) (tied_ c)
  (eventHandling_ c) b (readCallback_ c) (writeCallback_ c) (closeCallback_ c) (errorCallback_ c).
Definition tie (alive : bool) c := mk (fd_ c) (events_ c) (revents_ c) (index_ c) (logHup_ c) alive true
  (eventHandling_ c) (addedToLoop_ c) (readCallback_ c) (writeCallback_ c) (closeCallback_ c) (errorCallback_ c).
Definition set_callbacks r w cl e c := mk (fd_ c) (events_ c) (revents_ c) (index_ c) (logHup_ c) (tie_ c) (tied_ c)
  (eventHandling_ c) (addedToLoop_ c) r w cl e.

Definition isNoneEvent (c : t) : bool := bool_decide (events_ c = kNoneEvent).
Definition isWriting (c : t) : bool := has (events_ c) kWriteEvent.
Definition isReading (c : t) : bool := has (events_ c) kReadEvent.

(** The new value of [events_] in [enableReading], ..., [disableAll]. *)
Definition reading_on (e : Z) : Z := Z.lor e kReadEvent.
Definition reading_off (e : Z) : Z := Z.land e (Z.lnot kReadEvent).
Definition writing_on (e : Z) : Z := Z.lor e kWriteEvent.
Definition writing_off (e : Z) : Z := Z.land e (Z.lnot kWriteEvent).

(** The callbacks that [handleEventWithGuard] calls, in order. *)
Inductive callback := Read | Write | Close | Error.

#[global] Instance callback_eq_dec : EqDecision callback.
Proof. solve_decision. Defined.

Definition handleEventWithGuard (c : t) : list callback :=
  (if has (revents_ c) POLLHUP && negb (has (revents_ c) POLLIN) && closeCallback_ c then [Close] else []) ++
  (if has (revents_ c) (Z.lor POLLERR POLLNVAL) && errorCallback_ c then [Error] else []) ++
  (if has (revents_ c) (Z.lor (Z.lor POLLIN POLLPRI) POLLRDHUP) && readCallback_ c then [Read] else []) ++
  (if has (revents_ c) POLLOUT && writeCallback_ c then [Write] else []).

(** A channel tied to an object that is gone does nothing. *)
Definition handleEvent (c : t) : list callback :=
  if tied_ c then (if tie_ c then handleEventWithGuard c else []) else handleEventWithGuard c.

Definition eventsToString_flags (ev : Z) : bytes :=
  (if has ev POLLIN then bs "IN " else []) ++ (if has ev POLLPRI then bs "PRI " else []) ++
  (if has ev POLLOUT then bs "OUT " else []) ++ (if has ev POLLHUP then bs "HUP " else []) ++
  (if has ev POLLRDHUP then bs "RDHUP " else []) ++ (if has ev POLLERR then bs "ERR " else []) ++
  (if has ev POLLNVAL then bs "NVAL " else []).

End Channel.

(** ** The poller interface *)

(** The channels by address, and the state of the loop's poller. *)
Record world (P : Type) := mk_world { chans : gmap Z Channel.t; poller : P }.
Arguments mk_world {P} _ _.
Arguments chans {P} _.
Arguments poller {P} _.

Abbreviation W P := (ST (world P)).

Lemma world_eta {P} (w : world P) : mk_world (chans w) (poller w) = w.
Proof. by destruct w. Qed.

Section channel_store.
Context {P : Type}.

Definition channel (a : Z) : W P Channel.t :=
  h ← gets chans;
  match h !! a with Some c => mret c | None => fail UseAfterFree end.

Definition update_chan (f : Channel.t -> Channel.t) (a : Z) : W P unit :=
  c ← channel a;
  modify (fun w => mk_world (<[a := f c]> (chans w)) (poller w)).

Definition set_poller (p : P) : W P unit := modify (fun w => mk_world (chans w) p).
End channel_store.

(** The virtual functions of [Poller]; the kernel's answer to [poll] is the list of the
    ready descriptors with their events. *)
Class Poller (P : Type) := {
  poll : list (Z * Z) -> W P (list Z);
  updateChannel : Z -> W P unit;
  removeChannel : Z -> W P unit;
  channels_ : P -> gmap Z Z
}.

(** [Poller::hasChannel]. *)
Definition hasChannel `{Poller P} (a : Z) : W P bool :=
  c ← channel a;
  p ← gets poller;
  mret (bool_decide (channels_ p !! Channel.fd_ c = Some a)).

Section channel_ops.
Context `{Poller P}.

(** [Channel::update] and [Channel::remove], through [EventLoop] to the poller. *)
Definition update (a : Z) : W P unit :=
  _ ← update_chan (Channel.set_added true) a;
  updateChannel a.

Definition set_events_and_update (f : Z -> Z) (a : Z) : W P unit :=
  _ ← update_chan (fun c => Channel.set_events (f (Channel.events_ c)) c) a;
  update a.

Definition enableReading : Z -> W P unit := set_events_and_update Channel.reading_on.
Definition disableReading : Z -> W P unit := set_events_and_update Channel.reading_off.
Definition enableWriting : Z -> W P unit := set_events_and_update Channel.writing_on.
Definition disableWriting : Z -> W P unit := set_events_and_update Channel.writing_off.
Definition disableAll : Z -> W P unit := set_events_and_update (fun _ => Channel.kNoneEvent).

Definition channel_remove (a : Z) : W P unit :=
  c ← channel a;
  _ ← sassert (Channel.isNoneEvent c);
  _ ← update_chan (Channel.set_added false) a;
  removeChannel a.
End channel_ops.

(** ** [PollPoller] *)

Module PollPoller.

Record pollfd := mk_pfd { fd : Z; events : Z; revents : Z }.
Record t := mk { channels : gmap Z Z; pollfds_ : list pollfd }.

Definition init : t := mk ∅ [].

Definition updateChannel (a : Z) : W t unit :=
  c ← channel a;
  p ← gets poller;
  let fd := Channel.fd_ c in
  if bool_decide (Channel.index_ c < 0) then
    _ ← sassert (bool_decide (channels p !! fd = None));
    let pfd := mk_pfd fd (swrap 16 (Channel.events_ c)) 0 in
    let pollfds := pollfds_ p ++ [pfd] in
    let idx := swrap 32 (lenZ pollfds) - 1 in
    _ ← update_chan (Channel.set_index idx) a;
    set_poller (mk (<[fd := a]> (channels p)) pollfds)
  else
    _ ← sassert (bool_decide (is_Some (channels p !! fd)));
    _ ← sassert (bool_decide (channels p !! fd = Some a));
    let idx := Channel.index_ c in
    _ ← sassert (bool_decide (0 <= idx /\ idx < swrap 32 (lenZ (pollfds_ p))));
    match pollfds_ p !! Z.to_nat idx with
    | None => fail OutOfBounds
    | Some pfd =>
        _ ← sassert (bool_decide (PollPoller.fd pfd = fd \/ PollPoller.fd pfd = - fd - 1));
        let pfd := mk_pfd (if Channel.isNoneEvent c then - fd - 1 else fd) (swrap 16 (Channel.events_ c)) 0 in
        set_poller (mk (channels p) (<[Z.to_nat idx := pfd]> (pollfds_ p)))
    end.

Definition removeChannel (a : Z) : W t unit :=
  c ← channel a;
  p ← gets poller;
  let fd := Channel.fd_ c in
  _ ← sassert (bool_decide (is_Some (channels p !! fd)));
  _ ← sassert (bool_decide (channels p !! fd = Some a));
  _ ← sassert (Channel.isNoneEvent c);
  let idx := Channel.index_ c in
  _ ← sassert (bool_decide (0 <= idx /\ idx < swrap 32 (lenZ (pollfds_ p))));
  match pollfds_ p !! Z.to_nat idx, list.last (pollfds_ p) with
  | Some pfd, Some back =>
      _ ← sassert (bool_decide (PollPoller.fd pfd = - fd - 1 /\ events pfd = Channel.events_ c));
      let channels' := delete fd (channels p) in
      if bool_decide (idx = size_sub (lenZ (pollfds_ p)) 1) then
        set_poller (mk channels' (take (length (pollfds_ p) - 1) (pollfds_ p)))
      else
        let channelAtEnd := PollPoller.fd back in
        let swapped := <[Z.to_nat idx := back]> (<[(length (pollfds_ p) - 1)%nat := pfd]> (pollfds_ p)) in
        let channelAtEnd := if bool_decide (channelAtEnd < 0) then - channelAtEnd - 1 else channelAtEnd in
        (* operator[] of a missing key gives a null pointer *)
        match channels' !! channelAtEnd with
        | None => fail NullPointer
        | Some b =>
            _ ← update_chan (Channel.set_index idx) b;
            set_poller (mk channels' (take (length (pollfds_ p) - 1) swapped))
        end
  | _, _ => fail OutOfBounds
  end.

(** [fillActiveChannels]: the loop stops when [numEvents] entries have been found. *)
Fixpoint fillActiveChannels (l : list pollfd) (numEvents : Z) (active : list Z) : W t (list Z) :=
  match l with
  | [] => mret active
  | pfd :: l' =>
      if bool_decide (numEvents > 0) then
        if bool_decide (revents pfd > 0) then
          p ← gets poller;
          match channels p !! fd pfd with
          | None => fail AssertionFailed
          | Some a =>
              c ← channel a;
              _ ← sassert (bool_decide (Channel.fd_ c = fd pfd));
              _ ← update_chan (Channel.set_revents (revents pfd)) a;
              fillActiveChannels l' (numEvents - 1) (active ++ [a])
          end
        else fillActiveChannels l' numEvents active
      else mret active
  end.

(** [poll(2)] stores the events of each entry, 0 for a negative descriptor, and returns
    the number of entries with events. *)
Definition kernel_poll (ready : list (Z * Z)) (l : list pollfd) : list pollfd :=
  map (fun pfd => mk_pfd (fd pfd) (events pfd)
         (if bool_decide (fd pfd < 0) then 0
          else default 0 (list_to_map (M := gmap Z Z) ready !! fd pfd))) l.

(** An error of [poll(2)], which is at most logged, is like [ready] being empty: no channel
    is active, and the [revents] of the array are not read before the next call writes them. *)
Definition poll (ready : list (Z * Z)) : W t (list Z) :=
  p ← gets poller;
  let l := kernel_poll ready (pollfds_ p) in
  _ ← set_poller (mk (channels p) l);
  let numEvents := Z.of_nat (length (filter (fun pfd => revents pfd <> 0) l)) in
  if bool_decide (numEvents > 0) then fillActiveChannels l numEvents [] else mret [].

End PollPoller.

#[global] Instance PollPoller_Poller : Poller PollPoller.t := {
  poll := PollPoller.poll;
  updateChannel := PollPoller.updateChannel;
  removeChannel := PollPoller.removeChannel;
  channels_ := PollPoller.channels
}.

(** ** [EPollPoller] *)

Module EPollPoller.

Definition kNew : Z := -1.
Definition kAdded : Z := 1.
Definition kDeleted : Z := 2.
Definition kInitEventListSize : Z := 16.

Inductive operation := ADD | DEL | MOD.

(** [interest] is the kernel's table behind [epollfd_]: the events and the pointer
    registered for each descriptor; [events_size] the size of the vector [events_]. *)
Record t := mk { channels : gmap Z Z; events_size : Z; interest : gmap Z (Z * Z) }.

Definition init : t := mk ∅ kInitEventListSize ∅.

(** [epoll_ctl(2)]: [ADD] of a registered descriptor and [MOD] or [DEL] of another one fail. *)
Definition epoll_ctl (op : operation) (fd : Z) (event : Z * Z) (m : gmap Z (Z * Z)) : option (gmap Z (Z * Z)) :=
  match op, m !! fd with
  | ADD, None | MOD, Some _ => Some (<[fd := event]> m)
  | DEL, Some _ => Some (delete fd m)
  | _, _ => None
  end.

(** A failing [DEL] is only logged, the others are fatal. *)
Definition update (op : operation) (a : Z) : W t unit :=
  c ← channel a;
  p ← gets poller;
  match epoll_ctl op (Channel.fd_ c) (Channel.events_ c, a) (interest p) with
  | Some m => set_poller (mk (channels p) (events_size p) m)
  | None => match op with DEL => mret tt | _ => fail LogFatal end
  end.

Definition updateChannel (a : Z) : W t unit :=
  c ← channel a;
  p ← gets poller;
  let index := Channel.index_ c in
  let fd := Channel.fd_ c in
  if bool_decide (index = kNew \/ index = kDeleted) then
    _ ← (if bool_decide (index = kNew) then
           _ ← sassert (bool_decide (channels p !! fd = None));
           set_poller (mk (<[fd := a]> (channels p)) (events_size p) (interest p))
         else
           _ ← sassert (bool_decide (is_Some (channels p !! fd)));
           sassert (bool_decide (channels p !! fd = Some a)));
    _ ← update_chan (Channel.set_index kAdded) a;
    update ADD a
  else
    _ ← sassert (bool_decide (is_Some (channels p !! fd)));
    _ ← sassert (bool_decide (channels p !! fd = Some a));
    _ ← sassert (bool_decide (index = kAdded));
    if Channel.isNoneEvent c then
      _ ← update DEL a;
      update_chan (Channel.set_index kDeleted) a
    else update MOD a.

Definition removeChannel (a : Z) : W t unit :=
  c ← channel a;
  p ← gets poller;
  let fd := Channel.fd_ c in
  _ ← sassert (bool_decide (is_Some (channels p !! fd)));
  _ ← sassert (bool_decide (channels p !! fd = Some a));
  _ ← sassert (Channel.isNoneEvent c);
  let index := Channel.index_ c in
  _ ← sassert (bool_decide (index = kAdded \/ index = kDeleted));
  _ ← set_poller (mk (delete fd (channels p)) (events_size p) (interest p));
  _ ← when_ (bool_decide (index = kAdded)) (update DEL a);
  update_chan (Channel.set_index kNew) a.

Definition fill_one (ev : Z * Z) : W t unit :=
  let '(a, revents) := ev in
  c ← channel a;
  p ← gets poller;
  _ ← sassert (bool_decide (channels p !! Channel.fd_ c = Some a));
  update_chan (Channel.set_revents revents) a.

(** The events that [epoll_wait(2)] stores: pointers of registered descriptors, at most
    [maxevents] of them. *)
Definition epoll_wait (maxevents : Z) (ready : list (Z * Z)) (m : gmap Z (Z * Z)) : list (Z * Z) :=
  take (Z.to_nat maxevents)
    (omap (fun '(fd, revents) => (fun '(_, a) => (a, revents)) <$> m !! fd) ready).

(** An error of [epoll_wait(2)], which is at most logged, is like [ready] being empty. *)
Definition poll (ready : list (Z * Z)) : W t (list Z) :=
  p ← gets poller;
  let evs := epoll_wait (events_size p) ready (interest p) in
  let numEvents := lenZ evs in
  _ ← sassert (bool_decide (numEvents <= events_size p));
  _ ← for_each fill_one evs;
  _ ← when_ (bool_decide (numEvents > 0 /\ numEvents = events_size p))
        (set_poller (mk (channels p) (events_size p * 2) (interest p)));
  mret evs.*1.

End EPollPoller.

#[global] Instance EPollPoller_Poller : Poller EPollPoller.t := {
  poll := EPollPoller.poll;
  updateChannel := EPollPoller.updateChannel;
  removeChannel := EPollPoller.removeChannel;
  channels_ := EPollPoller.channels
}.

(** ** What a poller promises *)

(** A channel but for the fields that belong to the poller. *)
Definition client_view (c : Channel.t) : Channel.t := Channel.set_revents 0 (Channel.set_index 0 c).

Definition events_ok (e : Z) : Prop := 0 <= e < 2 ^ 15.

(** Nothing but the poller's own fields of the channels has changed. *)
Definition chans_kept (h h' : gmap Z Channel.t) : Prop :=
  forall a, client_view <$> h' !! a = client_view <$> h !! a.

(** Channels that are not registered are not touched. *)
Definition unregistered_kept (reg : gmap Z Z) (h h' : gmap Z Channel.t) : Prop :=
  forall b, (forall fd, reg !! fd <> Some b) -> h' !! b = h !! b.

(** The fields of a channel that a poller reads. *)
Definition poller_fields (c : Channel.t) : Z * Z * Z := (Channel.fd_ c, Channel.index_ c, Channel.events_ c).

Definition fields_kept (h h' : gmap Z Channel.t) : Prop :=
  forall a, poller_fields <$> h' !! a = poller_fields <$> h !! a.

Class PollerSpec (P : Type) `{Poller P} := {
  (** The invariant of the poller and the channels it points to. *)
  pinv : world P -> Prop;
  (** The kernel has been asked for the events [e] of [fd]. *)
  watches : P -> Z -> Z -> Prop;

  (** A new channel object concerns no poller. *)
  alloc_ok : forall w a c, pinv w -> chans w !! a = None -> pinv (mk_world (<[a := c]> (chans w)) (poller w));

  (** The other fields of a channel are its client's. *)
  fields_ok : forall w h, pinv w -> fields_kept (chans w) h -> pinv (mk_world h (poller w));

  registered_ok : forall w fd a, pinv w -> channels_ (poller w) !! fd = Some a ->
    exists c, chans w !! a = Some c /\ Channel.fd_ c = fd;

  (** Exactly the enabled events of the registered channels are asked for. *)
  watches_ok : forall w fd e, pinv w ->
    watches (poller w) fd e <-> e <> 0 /\ exists a c, channels_ (poller w) !! fd = Some a /\
      chans w !! a = Some c /\ Channel.events_ c = e;

  (** Changing the events of a registered channel, or registering a new channel. *)
  update_ok : forall w a c f, pinv w -> chans w !! a = Some c -> events_ok (f (Channel.events_ c)) ->
    channels_ (poller w) !! Channel.fd_ c = Some a \/
      (channels_ (poller w) !! Channel.fd_ c = None /\ Channel.index_ c = -1 /\
       0 <= Channel.fd_ c /\ f (Channel.events_ c) <> 0 /\
       Z.of_nat (size (channels_ (poller w))) < 2 ^ 31 - 1) ->
    exists w', set_events_and_update f a w = Ok (tt, w') /\ pinv w' /\
      channels_ (poller w') = <[Channel.fd_ c := a]> (channels_ (poller w)) /\
      chans_kept (<[a := Channel.set_added true (Channel.set_events (f (Channel.events_ c)) c)]> (chans w))
        (chans w') /\
      unregistered_kept (channels_ (poller w')) (chans w) (chans w');

  (** Removing a disabled channel. *)
  remove_ok : forall w a c, pinv w -> chans w !! a = Some c ->
    channels_ (poller w) !! Channel.fd_ c = Some a -> Channel.events_ c = 0 ->
    exists w', channel_remove a w = Ok (tt, w') /\ pinv w' /\
      channels_ (poller w') = delete (Channel.fd_ c) (channels_ (poller w)) /\
      chans_kept (<[a := Channel.set_added false c]> (chans w)) (chans w') /\
      unregistered_kept (channels_ (poller w)) (chans w) (chans w');

  (** Polling reports ready channels only, each with its events, and some of them. *)
  poll_ok : forall w ready, pinv w -> NoDup ready.*1 ->
    (forall fd r, (fd, r) ∈ ready -> 0 < r /\ exists e, watches (poller w) fd e) ->
    exists w' active, poll ready w = Ok (active, w') /\ pinv w' /\
      channels_ (poller w') = channels_ (poller w) /\ chans_kept (chans w) (chans w') /\
      unregistered_kept (channels_ (poller w)) (chans w) (chans w') /\
      NoDup active /\ (ready <> [] -> active <> []) /\
      (forall a, a ∈ active -> exists fd r c, (fd, r) ∈ ready /\ channels_ (poller w) !! fd = Some a /\
         chans w' !! a = Some c /\ Channel.revents_ c = r)
}.

Lemma unregistered_set reg fd h a c : reg !! fd = Some a -> unregistered_kept reg h (<[a := c]> h).
Proof. intros Hfd b Hb. rewrite lookup_insert_ne; [done|]. intros ->. by apply (Hb fd). Qed.

Lemma unregistered_trans reg h1 h2 h3 :
  unregistered_kept reg h1 h2 -> unregistered_kept reg h2 h3 -> unregistered_kept reg h1 h3.
Proof. intros H1 H2 b Hb. by rewrite H2, H1. Qed.

Lemma chans_kept_refl h : chans_kept h h.
Proof. by intros a. Qed.

Lemma chans_kept_trans h1 h2 h3 : chans_kept h1 h2 -> chans_kept h2 h3 -> chans_kept h1 h3.
Proof. intros H1 H2 a. by rewrite H2, H1. Qed.

Lemma chans_kept_insert h a c c' : h !! a = Some c -> client_view c' = client_view c -> chans_kept h (<[a := c']> h).
Proof.
  intros Ha Hc b. destruct (decide (b = a)) as [->|Hb].
  - rewrite lookup_insert_eq, Ha. simpl. by rewrite Hc.
  - by rewrite lookup_insert_ne.
Qed.

Lemma chans_kept_reinsert h a c c' :
  client_view c' = client_view c -> chans_kept (<[a := c]> h) (<[a := c']> h).
Proof.
  intros Hc b. destruct (decide (b = a)) as [->|Hb].
  - rewrite !lookup_insert_eq. simpl. by rewrite Hc.
  - by rewrite !lookup_insert_ne.
Qed.

Lemma chans_kept_lookup h h' a c :
  chans_kept h h' -> h !! a = Some c -> exists c', h' !! a = Some c' /\ client_view c' = client_view c.
Proof.
  intros Hk Ha. specialize (Hk a). rewrite Ha in Hk. destruct (h' !! a) as [c'|]; simpl in Hk; [|done].
  exists c'. split; [done|]. congruence.
Qed.

(** Running the first operations on a channel that exists. *)
Lemma channel_run {P B} a (c : Channel.t) (k : Channel.t -> W P B) (w : world P) :
  chans w !! a = Some c -> (channel a ≫= k) w = k c w.
Proof. intros Ha. unfold channel, gets, mbind, st_bind. by rewrite Ha. Qed.

Lemma update_chan_run {P} a c f (w : world P) :
  chans w !! a = Some c -> update_chan f a w = Ok (tt, mk_world (<[a := f c]> (chans w)) (poller w)).
Proof. intros Ha. unfold update_chan. by rewrite (channel_run a c). Qed.

(** What [set_events_and_update] does before it calls the poller. *)
Lemma set_events_run `{Poller P} f a c (w : world P) :
  chans w !! a = Some c ->
  set_events_and_update f a w =
    updateChannel a (mk_world (<[a := Channel.set_added true (Channel.set_events (f (Channel.events_ c)) c)]> (chans w))
      (poller w)).
Proof.
  intros Ha. unfold set_events_and_update, update. unfold mbind at 1, st_bind at 1.
  rewrite (update_chan_run a c) by done. unfold mbind, st_bind.
  rewrite (update_chan_run a (Channel.set_events (f (Channel.events_ c)) c)) by apply lookup_insert_eq.
  simpl. by rewrite insert_insert_eq.
Qed.

Lemma remove_run `{Poller P} a c (w : world P) :
  chans w !! a = Some c -> Channel.events_ c = 0 ->
  channel_remove a w = removeChannel a (mk_world (<[a := Channel.set_added false c]> (chans w)) (poller w)).
Proof.
  intros Ha He. unfold channel_remove. rewrite (channel_run a c) by done.
  unfold sassert, lift, Channel.isNoneEvent. rewrite He. simpl. unfold mbind, st_bind.
  by rewrite (update_chan_run a c).
Qed.

(** Only [revents_] has changed. *)
Definition revents_kept (h h' : gmap Z Channel.t) : Prop :=
  forall a, Channel.set_revents 0 <$> h' !! a = Channel.set_revents 0 <$> h !! a.

Lemma revents_kept_kept h h' : revents_kept h h' -> chans_kept h h'.
Proof.
  intros Hk a. specialize (Hk a). destruct (h !! a) as [[]|], (h' !! a) as [[]|]; simpl in *; try done.
  injection Hk as -> -> -> -> -> -> -> -> -> -> -> ->. done.
Qed.

Lemma revents_kept_trans h1 h2 h3 : revents_kept h1 h2 -> revents_kept h2 h3 -> revents_kept h1 h3.
Proof. intros H1 H2 a. by rewrite H2, H1. Qed.

Lemma revents_kept_fields h h' : revents_kept h h' -> fields_kept h h'.
Proof.
  intros Hk a. specialize (Hk a). destruct (h !! a) as [[]|], (h' !! a) as [[]|]; simpl in *; try done.
  by simplify_eq.
Qed.

Lemma fields_kept_lookup h h' a c : fields_kept h h' -> h !! a = Some c ->
  exists c', h' !! a = Some c' /\ Channel.fd_ c' = Channel.fd_ c /\ Channel.index_ c' = Channel.index_ c /\
    Channel.events_ c' = Channel.events_ c.
Proof.
  intros Hk Ha. specialize (Hk a). rewrite Ha in Hk.
  destruct (h' !! a) as [c'|]; [|done]. exists c'. destruct c, c'; simpl in *. by simplify_eq.
Qed.

Lemma revents_kept_lookup h h' a c : revents_kept h h' -> h !! a = Some c ->
  exists c', h' !! a = Some c' /\ Channel.fd_ c' = Channel.fd_ c /\ Channel.index_ c' = Channel.index_ c /\
    Channel.events_ c' = Channel.events_ c.
Proof. intros Hk. apply fields_kept_lookup. by apply revents_kept_fields. Qed.

Lemma fields_kept_set h a c c' : h !! a = Some c -> poller_fields c' = poller_fields c -> fields_kept h (<[a := c']> h).
Proof.
  intros Ha Hc b. destruct (decide (b = a)) as [->|Hb].
  - rewrite lookup_insert_eq, Ha. simpl. by rewrite Hc.
  - by rewrite lookup_insert_ne.
Qed.

Lemma revents_kept_set h a c r : h !! a = Some c -> revents_kept h (<[a := Channel.set_revents r c]> h).
Proof.
  intros Ha b. destruct (decide (b = a)) as [->|Hb].
  - by rewrite lookup_insert_eq, Ha.
  - by rewrite lookup_insert_ne.
Qed.
