(* ===== verification/Poller.v ===== *)
(** Both pollers keep the promise of [PollerSpec].

    [EPollPoller]: the kernel's table against the index states of the channels.
    [PollPoller]: the array of [pollfd], in which removal moves the last entry. *)
From S2P Require Import Prelude State Channel.
Open Scope Z_scope.

Module EPollProofs.
Import EPollPoller.

(** A registered channel is in the kernel's table with its events ([kAdded]) or disabled
    and out of it ([kDeleted]). *)
Record inv (w : world t) : Prop := {
  inv_chan : forall fd a, channels (poller w) !! fd = Some a ->
    exists c, chans w !! a = Some c /\ Channel.fd_ c = fd /\
      ((Channel.index_ c = kAdded /\ interest (poller w) !! fd = Some (Channel.events_ c, a)) \/
       (Channel.index_ c = kDeleted /\ Channel.events_ c = 0 /\ interest (poller w) !! fd = None));
  inv_table : forall fd, channels (poller w) !! fd = None -> interest (poller w) !! fd = None;
  inv_size : 0 < events_size (poller w)
}.

Definition epoll_watches (p : t) (fd e : Z) : Prop := e <> 0 /\ exists a, interest p !! fd = Some (e, a).

Lemma epoll_inv_channel w fd a c :
  inv w -> channels (poller w) !! fd = Some a -> chans w !! a = Some c -> Channel.fd_ c = fd /\
  ((Channel.index_ c = kAdded /\ interest (poller w) !! fd = Some (Channel.events_ c, a)) \/
   (Channel.index_ c = kDeleted /\ Channel.events_ c = 0 /\ interest (poller w) !! fd = None)).
Proof. intros Hi Hfd Ha. destruct (inv_chan _ Hi fd a Hfd) as (c' & Ha' & ? & ?). by simplify_eq. Qed.

(** One channel and its entries change together. *)
Lemma inv_update w a c c' p' :
  inv w -> chans w !! a = Some c ->
  channels (poller w) !! Channel.fd_ c = Some a \/ channels (poller w) !! Channel.fd_ c = None ->
  Channel.fd_ c' = Channel.fd_ c ->
  channels p' = <[Channel.fd_ c := a]> (channels (poller w)) ->
  (forall fd, fd <> Channel.fd_ c -> interest p' !! fd = interest (poller w) !! fd) ->
  0 < events_size p' ->
  ((Channel.index_ c' = kAdded /\ interest p' !! Channel.fd_ c = Some (Channel.events_ c', a)) \/
   (Channel.index_ c' = kDeleted /\ Channel.events_ c' = 0 /\ interest p' !! Channel.fd_ c = None)) ->
  inv (mk_world (<[a := c']> (chans w)) p').
Proof.
  intros Hi Ha Hreg Hfd Hch Hint Hsz Hst. split; simpl; [| |done].
  - intros fd b. rewrite Hch. intros [[<- <-]|[Hne Hb]]%lookup_insert_Some.
    + exists c'. rewrite lookup_insert_eq. done.
    + destruct (inv_chan _ Hi fd b Hb) as (cb & Hcb & Hfdb & Hstb).
      assert (b <> a) as Hba by (intros ->; simplify_eq).
      exists cb. rewrite lookup_insert_ne by done. rewrite Hint by done. done.
  - intros fd. rewrite Hch. intros [Hn Hne]%lookup_insert_None. rewrite Hint by done.
    by apply (inv_table _ Hi).
Qed.

Lemma update_run op a c w :
  chans w !! a = Some c ->
  update op a w =
    match epoll_ctl op (Channel.fd_ c) (Channel.events_ c, a) (interest (poller w)) with
    | Some m => Ok (tt, mk_world (chans w) (mk (channels (poller w)) (events_size (poller w)) m))
    | None => match op with DEL => Ok (tt, w) | _ => Fail LogFatal end
    end.
Proof.
  intros Ha. unfold update. rewrite (channel_run a c) by done. unfold gets, mbind, st_bind.
  destruct (epoll_ctl _ _ _ _); [done|]. by destruct op.
Qed.

(** The branch of [updateChannel] that adds the descriptor to the table. *)
Lemma add_spec w a c c1 p1 :
  inv w -> chans w !! a = Some c ->
  channels (poller w) !! Channel.fd_ c = Some a \/ channels (poller w) !! Channel.fd_ c = None ->
  Channel.fd_ c1 = Channel.fd_ c -> interest (poller w) !! Channel.fd_ c = None ->
  channels p1 = <[Channel.fd_ c := a]> (channels (poller w)) ->
  interest p1 = interest (poller w) -> events_size p1 = events_size (poller w) ->
  exists w', (_ ← update_chan (Channel.set_index kAdded) a; update ADD a)
      (mk_world (<[a := c1]> (chans w)) p1) = Ok (tt, w') /\ inv w' /\
    channels (poller w') = <[Channel.fd_ c := a]> (channels (poller w)) /\
    chans_kept (<[a := c1]> (chans w)) (chans w') /\
    unregistered_kept (channels (poller w')) (chans w) (chans w').
Proof.
  intros Hi Ha Hreg Hfd Hint Hch Hin Hsz. unfold mbind, st_bind.
  rewrite (update_chan_run a c1) by apply lookup_insert_eq. cbn [chans poller]. rewrite insert_insert_eq.
  rewrite (update_run ADD a (Channel.set_index kAdded c1)) by apply lookup_insert_eq. cbn [poller chans].
  change (Channel.fd_ (Channel.set_index kAdded c1)) with (Channel.fd_ c1).
  rewrite Hfd, Hin. unfold epoll_ctl. rewrite Hint. eexists. split; [reflexivity|].
  cbn [poller chans channels].
  split_and!; [|done|by apply chans_kept_reinsert|apply (unregistered_set _ (Channel.fd_ c)); rewrite Hch; apply lookup_insert_eq].
  eapply inv_update; [exact Hi|exact Ha|exact Hreg|exact Hfd|exact Hch| | |].
  - intros fd' Hne. simpl. by rewrite lookup_insert_ne.
  - simpl. rewrite Hsz. apply Hi.
  - left. simpl. by rewrite lookup_insert_eq.
Qed.

(** [updateChannel] on a channel whose events have just been changed. *)
Lemma epoll_updateChannel_spec w a c e :
  inv w -> chans w !! a = Some c ->
  channels (poller w) !! Channel.fd_ c = Some a \/
    (channels (poller w) !! Channel.fd_ c = None /\ Channel.index_ c = -1) ->
  let c1 := Channel.set_added true (Channel.set_events e c) in
  exists w', updateChannel a (mk_world (<[a := c1]> (chans w)) (poller w)) = Ok (tt, w') /\ inv w' /\
    channels (poller w') = <[Channel.fd_ c := a]> (channels (poller w)) /\
    chans_kept (<[a := c1]> (chans w)) (chans w') /\
    unregistered_kept (channels (poller w')) (chans w) (chans w').
Proof.
  intros Hi Ha Hreg c1. unfold updateChannel.
  rewrite (channel_run a c1) by apply lookup_insert_eq. unfold gets, mbind at 1, st_bind at 1. cbn [poller].
  change (Channel.index_ c1) with (Channel.index_ c). change (Channel.fd_ c1) with (Channel.fd_ c).
  pose proof (inv_size _ Hi) as Hsz.
  destruct Hreg as [Hreg|[Hn Hix]].
  - destruct (epoll_inv_channel _ _ _ _ Hi Hreg Ha) as [_ [[Hix Hint]|(Hix & He & Hint)]]; rewrite Hix.
    + rewrite bool_decide_eq_false_2 by (unfold kAdded, kNew, kDeleted; lia).
      rewrite Hreg. run_asserts. unfold mbind, st_bind.
      unfold Channel.isNoneEvent. change (Channel.events_ c1) with e.
      case_bool_decide as H0.
      * rewrite (update_run DEL a c1) by apply lookup_insert_eq. cbn [poller chans].
        change (Channel.fd_ c1) with (Channel.fd_ c). unfold epoll_ctl. rewrite Hint.
        rewrite (update_chan_run a c1) by apply lookup_insert_eq. cbn [poller chans].
        eexists. split; [reflexivity|]. cbn [poller chans channels]. rewrite insert_insert_eq.
        split_and!; [|by rewrite insert_id|by apply chans_kept_reinsert|by eapply unregistered_set].
        eapply inv_update; [exact Hi|exact Ha|by left|done|cbn [channels poller]; by rewrite insert_id| |done|].
        -- intros fd' Hne. simpl. by rewrite lookup_delete_ne.
        -- right. simpl. rewrite lookup_delete_eq. done.
      * rewrite (update_run MOD a c1) by apply lookup_insert_eq. cbn [poller chans].
        change (Channel.fd_ c1) with (Channel.fd_ c). unfold epoll_ctl. rewrite Hint.
        eexists. split; [reflexivity|]. cbn [poller chans channels].
        split_and!; [|by rewrite insert_id|apply chans_kept_refl|by eapply unregistered_set].
        eapply inv_update; [exact Hi|exact Ha|by left|done|cbn [channels poller]; by rewrite insert_id| |done|].
        -- intros fd' Hne. simpl. by rewrite lookup_insert_ne.
        -- left. simpl. rewrite lookup_insert_eq. split; [exact Hix|done].
    + rewrite bool_decide_eq_true_2 by (by right). rewrite bool_decide_eq_false_2 by done.
      rewrite Hreg. unfold sassert, lift, check, mbind at 1 2, st_bind at 1 2. rewrite !bool_decide_eq_true_2 by eauto.
      eapply add_spec; [exact Hi|exact Ha|by left|done|exact Hint|cbn [channels poller]; by rewrite insert_id|done|done].
  - rewrite Hix. rewrite bool_decide_eq_true_2 by (by left). rewrite bool_decide_eq_true_2 by done.
    rewrite Hn. unfold sassert, lift, check, mbind at 1 2, st_bind at 1 2. rewrite bool_decide_eq_true_2 by done.
    unfold set_poller at 1, modify at 1. cbn [chans poller].
    eapply add_spec; [exact Hi|exact Ha|by right|done|by apply (inv_table _ Hi)|done..].
Qed.

Lemma epoll_removeChannel_spec w a c :
  inv w -> chans w !! a = Some c -> channels (poller w) !! Channel.fd_ c = Some a -> Channel.events_ c = 0 ->
  let c1 := Channel.set_added false c in
  exists w', removeChannel a (mk_world (<[a := c1]> (chans w)) (poller w)) = Ok (tt, w') /\ inv w' /\
    channels (poller w') = delete (Channel.fd_ c) (channels (poller w)) /\
    chans_kept (<[a := c1]> (chans w)) (chans w') /\
    unregistered_kept (channels (poller w)) (chans w) (chans w').
Proof.
  intros Hi Ha Hreg He c1. unfold removeChannel.
  rewrite (channel_run a c1) by apply lookup_insert_eq. unfold gets, mbind at 1, st_bind at 1. cbn [poller].
  change (Channel.index_ c1) with (Channel.index_ c). change (Channel.fd_ c1) with (Channel.fd_ c).
  rewrite Hreg. unfold Channel.isNoneEvent. change (Channel.events_ c1) with (Channel.events_ c). rewrite He.
  pose proof (epoll_inv_channel _ _ _ _ Hi Hreg Ha) as [_ Hst].
  assert (Channel.index_ c = kAdded \/ Channel.index_ c = kDeleted) as Hix by tauto.
  run_asserts. unfold mbind at 1, st_bind at 1, set_poller, modify. cbn [poller chans].
  set (w2 := mk_world _ _).
  assert (exists m, when_ (bool_decide (Channel.index_ c = kAdded)) (update DEL a) w2 =
    Ok (tt, mk_world (chans w2) (mk (channels (poller w2)) (events_size (poller w)) m)) /\
    m = delete (Channel.fd_ c) (interest (poller w))) as (m & Hm & ->).
  { destruct Hst as [[Hix' Hint]|(Hix' & _ & Hint)].
    - rewrite bool_decide_eq_true_2 by done. unfold when_.
      rewrite (update_run DEL a c1) by apply lookup_insert_eq. simpl. rewrite Hint. eauto.
    - rewrite bool_decide_eq_false_2 by (rewrite Hix'; done). unfold when_. simpl.
      eexists. split; [|done]. unfold mret, st_ret. subst w2. simpl. by rewrite (delete_id (interest _)). }
  simpl. unfold mbind, st_bind. rewrite Hm.
  rewrite (update_chan_run a c1) by apply lookup_insert_eq. cbn [chans poller].
  eexists. split; [reflexivity|]. subst w2. cbn [chans poller channels]. rewrite insert_insert_eq.
  split_and!; [|done|by apply chans_kept_reinsert|by eapply unregistered_set].
  split; simpl.
  - intros fd b [Hne Hb]%lookup_delete_Some. destruct (inv_chan _ Hi fd b Hb) as (cb & Hcb & Hfdb & Hstb).
    assert (b <> a) by (intros ->; simplify_eq). exists cb. rewrite lookup_insert_ne by done.
    by rewrite lookup_delete_ne.
  - intros fd Hn. destruct (decide (fd = Channel.fd_ c)) as [->|Hne]; [apply lookup_delete_eq|].
    rewrite lookup_delete_ne in Hn by done. rewrite lookup_delete_ne by done. by apply (inv_table _ Hi).
  - apply Hi.
Qed.

Lemma epoll_inv_fields w h' : inv w -> fields_kept (chans w) h' -> inv (mk_world h' (poller w)).
Proof.
  intros Hi Hk. split; simpl; [|apply Hi..].
  intros fd a Hfd. destruct (inv_chan _ Hi fd a Hfd) as (c & Ha & Hf & Hst).
  destruct (fields_kept_lookup _ _ _ _ Hk Ha) as (c' & Ha' & Hf' & Hix' & He').
  exists c'. rewrite Hf', Hix', He'. done.
Qed.

Lemma epoll_inv_revents w h' : inv w -> revents_kept (chans w) h' -> inv (mk_world h' (poller w)).
Proof. intros Hi Hk. by apply epoll_inv_fields; [|apply revents_kept_fields]. Qed.

Lemma epoll_fill_loop (evs : list (Z * Z)) w :
  NoDup evs.*1 ->
  (forall a r, (a, r) ∈ evs -> exists c, chans w !! a = Some c /\ channels (poller w) !! Channel.fd_ c = Some a) ->
  exists h', for_each fill_one evs w = Ok (tt, mk_world h' (poller w)) /\ revents_kept (chans w) h' /\
    (forall a, a ∉ evs.*1 -> h' !! a = chans w !! a) /\
    (forall a r, (a, r) ∈ evs -> exists c, h' !! a = Some c /\ Channel.revents_ c = r).
Proof.
  revert w; induction evs as [|[a r] evs IH]; intros w Hnd Hin; simpl.
  - exists (chans w). destruct w. split_and!; [done|done|done|]. intros a r Hx. by apply elem_of_nil in Hx.
  - apply list.NoDup_cons in Hnd as [Hna Hnd]. destruct (Hin a r) as (c & Ha & Hc); [left|].
    assert (fill_one (a, r) w = Ok (tt, mk_world (<[a := Channel.set_revents r c]> (chans w)) (poller w))) as Hone.
    { unfold fill_one. rewrite (channel_run a c) by done. rewrite gets_run. run_asserts.
      by rewrite (update_chan_run a c). }
    rewrite (bind_run _ _ _ _ _ Hone).
    pose proof (revents_kept_set _ _ _ r Ha) as Hk.
    destruct (IH (mk_world (<[a := Channel.set_revents r c]> (chans w)) (poller w)) Hnd)
      as (h' & Hrun & Hk' & Hout & Hset).
    { intros b r' Hb. destruct (Hin b r') as (cb & Hcb & Hch); [by right|]. simpl.
      destruct (revents_kept_lookup _ _ _ _ Hk Hcb) as (cb' & Hcb' & Hf & _). exists cb'. by rewrite Hf. }
    exists h'. simpl in *. split_and!; [done|by eapply revents_kept_trans| |].
    + intros b [Hba Hb]%not_elem_of_cons. rewrite Hout by done. by rewrite lookup_insert_ne.
    + intros b r' [[= -> ->]|Hb]%elem_of_cons; [|by apply Hset].
      exists (Channel.set_revents r c). rewrite Hout by done. by rewrite lookup_insert_eq.
Qed.

(** The kernel's table names the registered channel. *)
Lemma interest_channel w fd e a :
  inv w -> interest (poller w) !! fd = Some (e, a) ->
  channels (poller w) !! fd = Some a /\ exists c, chans w !! a = Some c /\ Channel.fd_ c = fd /\ Channel.events_ c = e.
Proof.
  intros Hi Hint. destruct (channels (poller w) !! fd) as [b|] eqn:Hb.
  - destruct (inv_chan _ Hi fd b Hb) as (c & Hc & Hfd & [[_ Hi']|(_ & _ & Hi')]); [|congruence].
    rewrite Hi' in Hint. simplify_eq. eauto.
  - apply (inv_table _ Hi) in Hb. congruence.
Qed.

(** The events that [epoll_wait] returns come from distinct registered channels. *)
Lemma epoll_wait_channels w n ready :
  inv w -> NoDup ready.*1 ->
  let evs := epoll_wait n ready (interest (poller w)) in
  NoDup evs.*1 /\ lenZ evs <= Z.max 0 n /\
  (forall a r, (a, r) ∈ evs -> exists fd c, (fd, r) ∈ ready /\ channels (poller w) !! fd = Some a /\
     chans w !! a = Some c /\ Channel.fd_ c = fd).
Proof.
  intros Hi Hnd evs.
  set (all := omap (fun '(fd, revents) => (fun '(_, a) => (a, revents)) <$> interest (poller w) !! fd) ready).
  assert (forall a r, (a, r) ∈ all -> exists fd c, (fd, r) ∈ ready /\ channels (poller w) !! fd = Some a /\
     chans w !! a = Some c /\ Channel.fd_ c = fd) as Hall.
  { intros a r ([fd r'] & Hin & Hx)%list_elem_of_omap.
    apply fmap_Some in Hx as ([e b] & Hint & [= -> ->]).
    destruct (interest_channel _ _ _ _ Hi Hint) as (Hch & c & Hc & Hfd & _). eauto 10. }
  assert (NoDup all.*1) as Hnda.
  { clear Hall. subst all evs. induction ready as [|[fd r] ready IH]; [constructor|]. simpl.
    apply list.NoDup_cons in Hnd as [Hn Hnd]. specialize (IH Hnd).
    destruct (interest (poller w) !! fd) as [[e a]|] eqn:Hint; simpl; [|done].
    apply list.NoDup_cons. split; [|done]. intros Ha.
    apply list_elem_of_fmap in Ha as ([b r'] & -> & ([fd' r''] & Hin & Hx)%list_elem_of_omap).
    apply fmap_Some in Hx as ([e' b'] & Hint' & [= -> ->]).
    destruct (interest_channel _ _ _ _ Hi Hint) as (_ & c & Hc & Hfd & _).
    destruct (interest_channel _ _ _ _ Hi Hint') as (_ & c' & Hc' & Hfd' & _). simpl in *.
    apply Hn. apply list_elem_of_fmap. exists (fd', r''). split; [|done]. simpl. congruence. }
  subst evs. unfold epoll_wait. fold all. split_and!.
  - rewrite fmap_take. by apply NoDup_take.
  - unfold lenZ. rewrite length_take. lia.
  - intros a r Hin. apply Hall. by eapply elem_of_take_1.
Qed.

Lemma epoll_poll_spec w ready :
  inv w -> NoDup ready.*1 ->
  (forall fd r, (fd, r) ∈ ready -> 0 < r /\ exists e, epoll_watches (poller w) fd e) ->
  exists w' active, poll ready w = Ok (active, w') /\ inv w' /\
    channels (poller w') = channels (poller w) /\ chans_kept (chans w) (chans w') /\
    unregistered_kept (channels (poller w)) (chans w) (chans w') /\
    NoDup active /\ (ready <> [] -> active <> []) /\
    (forall a, a ∈ active -> exists fd r c, (fd, r) ∈ ready /\ channels (poller w) !! fd = Some a /\
       chans w' !! a = Some c /\ Channel.revents_ c = r).
Proof.
  intros Hi Hnd Hready. pose proof (inv_size _ Hi) as Hsz.
  destruct (epoll_wait_channels w (events_size (poller w)) ready Hi Hnd) as (Hnde & Hlen & Hin).
  unfold poll. rewrite gets_run.
  assert (ready <> [] -> epoll_wait (events_size (poller w)) ready (interest (poller w)) <> []) as Hne.
  { intros Hr. destruct ready as [|[fd r] ready]; [done|].
    destruct (Hready fd r) as (_ & e & _ & a & Hint); [left|].
    unfold epoll_wait. simpl. rewrite Hint. simpl.
    destruct (Z.to_nat _) eqn:Hz; [lia|]. done. }
  set (evs := epoll_wait (events_size (poller w)) ready (interest (poller w))) in *.
  destruct (epoll_fill_loop evs w Hnde) as (h' & Hrun & Hk & Hout & Hset).
  { intros a r Hx. destruct (Hin a r Hx) as (fd & c & _ & Hch & Hc & <-). eauto. }
  pose proof (epoll_inv_revents w h' Hi Hk) as Hi'.
  rewrite assert_run by (apply bool_decide_eq_true; lia). rewrite (bind_run _ _ _ _ _ Hrun).
  assert (forall w2, chans w2 = h' -> channels (poller w2) = channels (poller w) -> inv w2 ->
    exists w' active, Ok (evs.*1, w2) = Ok (active, w') /\ inv w' /\
      channels (poller w') = channels (poller w) /\ chans_kept (chans w) (chans w') /\
    unregistered_kept (channels (poller w)) (chans w) (chans w') /\
      NoDup active /\ (ready <> [] -> active <> []) /\
      (forall a, a ∈ active -> exists fd r c, (fd, r) ∈ ready /\ channels (poller w) !! fd = Some a /\
         chans w' !! a = Some c /\ Channel.revents_ c = r)) as Hfin.
  { intros w2 Hw2 Hch2 Hi2. exists w2, evs.*1. rewrite Hw2.
    split_and!; [done|done|done|by apply revents_kept_kept| |done| |].
    - intros b Hb. apply Hout. intros ([b' r] & -> & Hin')%list_elem_of_fmap.
      destruct (Hin _ _ Hin') as (fd & c & _ & Hch & _). by apply (Hb fd).
    - intros Hr He. apply fmap_nil_inv in He. by apply Hne.
    - intros a ([b r] & -> & Hab)%list_elem_of_fmap.
      destruct (Hin _ _ Hab) as (fd & c & Hfd & Hch & _). destruct (Hset _ _ Hab) as (c' & Hc' & Hr).
      by exists fd, r, c'. }
  unfold when_. case_bool_decide as Hfull.
  - apply Hfin; [done..|]. destruct Hi' as [I1 I2 I3]. split; simpl in *; [done..|lia].
  - apply Hfin; done.
Qed.

#[global] Instance EPollPoller_spec : PollerSpec EPollPoller.t.
Proof.
  refine {| pinv := inv; watches := epoll_watches |}.
  - intros w a c Hi Ha. split; simpl; [|apply Hi..]. intros fd b Hb.
    destruct (inv_chan _ Hi fd b Hb) as (cb & Hcb & Hst). exists cb.
    rewrite lookup_insert_ne by congruence. done.
  - apply epoll_inv_fields.
  - intros w fd a Hi Hfd. destruct (inv_chan _ Hi fd a Hfd) as (c & ? & ? & _). eauto.
  - intros w fd e Hi. unfold epoll_watches. split; (intros [He Hx]; split; [done|]).
    + destruct Hx as [a Hint]. destruct (interest_channel _ _ _ _ Hi Hint) as (Hch & c & Hc & _ & Hev).
      by exists a, c.
    + destruct Hx as (a & c & Hch & Hc & Hev).
      destruct (epoll_inv_channel _ _ _ _ Hi Hch Hc) as [_ [[_ Hint]|(_ & H0 & _)]]; [|congruence].
      exists a. by rewrite Hint, Hev.
  - intros w a c f Hi Ha _ Hreg. rewrite (set_events_run f a c) by done. simpl in *.
    apply epoll_updateChannel_spec; [done..|]. destruct Hreg as [?|(? & ? & _)]; auto.
  - intros w a c Hi Ha Hreg He. rewrite (remove_run a c) by done. by apply epoll_removeChannel_spec.
  - intros w ready Hi Hnd Hr. by apply epoll_poll_spec.
Defined.

(** No descriptor is in the kernel's table without events. *)
Definition no_idle (p : t) : Prop := forall fd e a, interest p !! fd = Some (e, a) -> e <> 0.

Lemma no_idle_insert p chs n m fd e a : no_idle p -> e <> 0 -> m = <[fd := (e, a)]> (interest p) -> no_idle (mk chs n m).
Proof.
  intros Hp He -> fd' e' a'. cbn [interest]. intros [[_ [= <- _]]|[_ H]]%lookup_insert_Some; [done|by eapply Hp].
Qed.

Lemma no_idle_delete p chs n m fd : no_idle p -> m = delete fd (interest p) -> no_idle (mk chs n m).
Proof. intros Hp -> fd' e' a'. cbn [interest]. intros [_ H]%lookup_delete_Some. by eapply Hp. Qed.

(** A disabled channel that is disabled again is the only way in. *)
Lemma updateChannel_no_idle w w' a c :
  chans w !! a = Some c -> Channel.events_ c <> 0 \/ Channel.index_ c = kAdded ->
  updateChannel a w = Ok (tt, w') -> no_idle (poller w) -> no_idle (poller w').
Proof.
  intros Ha Hc Hrun Hp. revert Hrun. unfold updateChannel. rewrite (channel_run a c) by done. rewrite gets_run.
  destruct (bool_decide_reflect (Channel.index_ c = kNew \/ Channel.index_ c = kDeleted)) as [Hix|Hix].
  - assert (Channel.events_ c <> 0) as He by (destruct Hc as [|Hc]; [done|]; rewrite Hc in Hix; unfold kAdded, kNew, kDeleted in Hix; lia).
    unfold mbind at 1, st_bind at 1. set (m := if bool_decide _ then _ else _).
    destruct (m w) as [[[] w1]|e] eqn:E1; [|done].
    assert (chans w1 = chans w /\ interest (poller w1) = interest (poller w)) as [Hch Hint].
    { revert E1. subst m. case_bool_decide; unfold sassert, lift, check, mbind, st_bind, set_poller, modify.
      - case_bool_decide; [|done]. by intros [= <-].
      - repeat (case_bool_decide; [|done]). by intros [= <-]. }
    unfold mbind at 1, st_bind at 1. rewrite (update_chan_run a c) by (by rewrite Hch).
    rewrite (update_run ADD a (Channel.set_index kAdded c)) by apply lookup_insert_eq. cbn [poller chans].
    unfold epoll_ctl. destruct (interest (poller w1) !! _); [done|]. intros [= <-]. cbn [poller].
    eapply no_idle_insert; [exact Hp|exact He|by rewrite <- Hint].
  - unfold sassert, lift, check, mbind at 1 2 3, st_bind at 1 2 3. repeat (case_bool_decide; [|done]).
    unfold Channel.isNoneEvent. destruct (bool_decide_reflect (Channel.events_ c = Channel.kNoneEvent)) as [He|He].
    + unfold mbind, st_bind. rewrite (update_run DEL a c) by done. unfold epoll_ctl. destruct (interest (poller w) !! _).
      * rewrite (update_chan_run a c) by done. intros [= <-]. by eapply no_idle_delete.
      * rewrite (update_chan_run a c) by done. by intros [= <-].
    + rewrite (update_run MOD a c) by done. unfold epoll_ctl. destruct (interest (poller w) !! _); [|done].
      intros [= <-]. by eapply no_idle_insert.
Qed.

Lemma removeChannel_no_idle w w' a :
  removeChannel a w = Ok (tt, w') -> no_idle (poller w) -> no_idle (poller w').
Proof.
  unfold removeChannel, channel, gets, mbind, st_bind, sassert, lift, check. destruct (chans w !! a) as [c|] eqn:Ha; [|done]. cbn [mret st_ret].
  repeat (case_bool_decide; [|done]). unfold Channel.isNoneEvent. repeat (case_bool_decide; [|done]).
  unfold set_poller at 1, modify at 1. unfold when_. case_bool_decide.
  - rewrite (update_run DEL a c) by done. cbn [poller chans interest]. unfold epoll_ctl. destruct (interest (poller w) !! _).
    + rewrite (update_chan_run a c) by done. intros [= <-] Hp. by eapply no_idle_delete.
    + rewrite (update_chan_run a c) by done. by intros [= <-].
  - unfold mret, st_ret. rewrite (update_chan_run a c) by done. by intros [= <-].
Qed.

Lemma poll_no_idle w w' ready active :
  poll ready w = Ok (active, w') -> no_idle (poller w) -> no_idle (poller w').
Proof.
  intros Hrun Hp. enough (interest (poller w') = interest (poller w)) as Hi by (intros fd e a; rewrite Hi; apply Hp).
  revert Hrun. unfold poll. rewrite gets_run. unfold sassert, lift, check, mbind at 1, st_bind at 1. case_bool_decide; [|done].
  unfold mbind at 1, st_bind at 1. destruct (for_each fill_one _ w) as [[[] w1]|] eqn:E1; [|done].
  assert (poller w1 = poller w) as Hw1.
  { revert E1. generalize (epoll_wait (events_size (poller w)) ready (interest (poller w))) as l. clear.
    intros l. revert w. induction l as [|[b r] l IH]; intros w; simpl; [by intros [= <-]|].
    unfold mbind, st_bind. unfold fill_one at 1, channel, gets, mbind, st_bind, sassert, lift, check.
    destruct (chans w !! b) as [c|] eqn:Hb; [|done]. cbn [mret st_ret]. case_bool_decide; [|done].
    rewrite (update_chan_run b c) by done. intros H1. by apply IH in H1. }
  unfold mbind, st_bind, when_. case_bool_decide; intros [= _ <-]; cbn [poller interest]; [done|]. by rewrite Hw1.
Qed.

Lemma epoll_inv_init h : inv (mk_world h init).
Proof.
  split; simpl; [|done|unfold kInitEventListSize; lia].
  intros fd a. by rewrite lookup_empty.
Qed.

End EPollProofs.

Module PollProofs.
Import PollPoller.

(** The entry of a channel: a disabled channel keeps its place under a negative number. *)
Definition entry (c : Channel.t) (r : Z) : pollfd :=
  mk_pfd (if Channel.isNoneEvent c then - Channel.fd_ c - 1 else Channel.fd_ c) (Channel.events_ c) r.

Record inv (w : world t) : Prop := {
  inv_chan : forall fd a, channels (poller w) !! fd = Some a ->
    0 <= fd /\ exists c i r, chans w !! a = Some c /\ Channel.fd_ c = fd /\ events_ok (Channel.events_ c) /\
      Channel.index_ c = Z.of_nat i /\ pollfds_ (poller w) !! i = Some (entry c r);
  inv_entry : forall i p, pollfds_ (poller w) !! i = Some p ->
    exists a c, channels (poller w) !! Channel.fd_ c = Some a /\ chans w !! a = Some c /\
      Channel.index_ c = Z.of_nat i;
  inv_len : length (pollfds_ (poller w)) = size (channels (poller w));
  inv_bound : Z.of_nat (size (channels (poller w))) < 2 ^ 31
}.

Definition poll_watches (p : t) (fd e : Z) : Prop :=
  0 <= fd /\ e <> 0 /\ exists i r, pollfds_ p !! i = Some (mk_pfd fd e r).

(** The channel registered under [fd], with its index and its entry. *)
Lemma ppoll_inv_channel w fd a c :
  inv w -> channels (poller w) !! fd = Some a -> chans w !! a = Some c ->
  0 <= fd /\ Channel.fd_ c = fd /\ events_ok (Channel.events_ c) /\
  exists i r, Channel.index_ c = Z.of_nat i /\ pollfds_ (poller w) !! i = Some (entry c r).
Proof.
  intros Hi Hfd Ha. destruct (inv_chan _ Hi fd a Hfd) as (H0 & c' & i & r & Ha' & ? & ? & ? & ?).
  simplify_eq. eauto 10.
Qed.

(** An entry and the channel it belongs to. *)
Lemma inv_owner w i p :
  inv w -> pollfds_ (poller w) !! i = Some p ->
  exists a c r, channels (poller w) !! Channel.fd_ c = Some a /\ chans w !! a = Some c /\
    Channel.index_ c = Z.of_nat i /\ p = entry c r /\ 0 <= Channel.fd_ c.
Proof.
  intros Hi Hp. destruct (inv_entry _ Hi i p Hp) as (a & c & Hfd & Ha & Hix).
  destruct (ppoll_inv_channel _ _ _ _ Hi Hfd Ha) as (H0 & _ & _ & j & r & Hj & Hpj).
  assert (j = i) as -> by lia. exists a, c, r. by simplify_eq.
Qed.

Lemma swrap_len w : inv w -> swrap 32 (lenZ (pollfds_ (poller w))) = lenZ (pollfds_ (poller w)).
Proof.
  intros Hi. apply swrap_small; [lia|]. pose proof (inv_bound _ Hi). unfold s_in, lenZ.
  rewrite (inv_len _ Hi). simpl. lia.
Qed.

Lemma swrap_events e : events_ok e -> swrap 16 e = e.
Proof. intros He. apply swrap_small; [lia|]. unfold events_ok in He. unfold s_in. simpl in *. lia. Qed.

(** Changing one channel in place. *)
Lemma inv_set w a c c' i r r' :
  inv w -> chans w !! a = Some c -> channels (poller w) !! Channel.fd_ c = Some a ->
  Channel.index_ c = Z.of_nat i -> pollfds_ (poller w) !! i = Some (entry c r) ->
  Channel.fd_ c' = Channel.fd_ c -> Channel.index_ c' = Channel.index_ c -> events_ok (Channel.events_ c') ->
  inv (mk_world (<[a := c']> (chans w)) (mk (channels (poller w)) (<[i := entry c' r']> (pollfds_ (poller w))))).
Proof.
  intros Hi Ha Hreg Hix Hp Hfd Hix' He. pose proof (lookup_lt_Some _ _ _ Hp) as Hlt.
  split; simpl; [| |rewrite length_insert; apply Hi|apply Hi].
  - intros fd b Hb. destruct (inv_chan _ Hi fd b Hb) as (H0 & cb & j & rb & Hcb & Hfdb & Heb & Hj & Hpj).
    split; [done|]. destruct (decide (b = a)) as [->|Hba].
    + simplify_eq. exists c', i, r'. rewrite lookup_insert_eq, list_lookup_insert_eq by done.
      split_and!; [done|congruence|done|congruence|done].
    + exists cb, j, rb. rewrite lookup_insert_ne by done.
      rewrite list_lookup_insert_ne; [done|]. intros ->.
      destruct (inv_entry _ Hi j _ Hpj) as (a' & c2 & Hr2 & Hc2 & Hx2).
      assert (entry c r = entry cb rb) as Heq by congruence.
      assert (Channel.fd_ c = Channel.fd_ cb) as Hff; [|congruence].
      destruct (ppoll_inv_channel _ _ _ _ Hi Hreg Ha) as [? _].
      assert (0 <= Channel.fd_ cb) by lia.
      unfold entry in Heq. injection Heq as Hx _ _. destruct (Channel.isNoneEvent c), (Channel.isNoneEvent cb); lia.
  - intros j p Hjp. destruct (decide (j = i)) as [->|Hji].
    + exists a, c'. rewrite Hfd, lookup_insert_eq. split_and!; [done|done|congruence].
    + rewrite list_lookup_insert_ne in Hjp by done.
      destruct (inv_entry _ Hi j p Hjp) as (b & cb & Hb & Hcb & Hj).
      destruct (decide (b = a)) as [->|Hba]; [simplify_eq; lia|].
      exists b, cb. by rewrite lookup_insert_ne.
Qed.

Lemma ppoll_updateChannel_spec w a c e :
  inv w -> chans w !! a = Some c -> events_ok e ->
  channels (poller w) !! Channel.fd_ c = Some a \/
    (channels (poller w) !! Channel.fd_ c = None /\ Channel.index_ c = -1 /\ 0 <= Channel.fd_ c /\ e <> 0 /\
     Z.of_nat (size (channels (poller w))) < 2 ^ 31 - 1) ->
  let c1 := Channel.set_added true (Channel.set_events e c) in
  exists w', updateChannel a (mk_world (<[a := c1]> (chans w)) (poller w)) = Ok (tt, w') /\ inv w' /\
    channels (poller w') = <[Channel.fd_ c := a]> (channels (poller w)) /\
    chans_kept (<[a := c1]> (chans w)) (chans w') /\
    unregistered_kept (channels (poller w')) (chans w) (chans w').
Proof.
  intros Hi Ha He Hreg c1. unfold updateChannel.
  rewrite (channel_run a c1) by apply lookup_insert_eq. rewrite gets_run. cbn [poller].
  change (Channel.index_ c1) with (Channel.index_ c). change (Channel.fd_ c1) with (Channel.fd_ c).
  change (Channel.events_ c1) with e. rewrite swrap_events by done.
  destruct Hreg as [Hreg|(Hn & Hix & H0 & Hne & Hroom)].
  - destruct (ppoll_inv_channel _ _ _ _ Hi Hreg Ha) as (H0 & _ & _ & i & r & Hix & Hp).
    pose proof (lookup_lt_Some _ _ _ Hp) as Hlt.
    rewrite bool_decide_eq_false_2 by lia. rewrite Hreg, Hix, Nat2Z.id, Hp, (swrap_len w Hi).
    run_asserts. rewrite assert_run by (apply bool_decide_eq_true; unfold lenZ; lia).
    rewrite assert_run.
    2: { apply bool_decide_eq_true. unfold entry. simpl. destruct (Channel.isNoneEvent c); [by right|by left]. }
    eexists. split; [reflexivity|]. cbn [chans poller channels].
    split_and!; [|by rewrite insert_id|apply chans_kept_refl|by eapply unregistered_set].
    apply (inv_set w a c c1 i r 0); done.
  - rewrite bool_decide_eq_true_2 by lia. rewrite Hn. run_asserts.
    assert (swrap 32 (lenZ (pollfds_ (poller w) ++ [mk_pfd (Channel.fd_ c) e 0])) - 1 =
      Z.of_nat (length (pollfds_ (poller w)))) as Hidx.
    { rewrite lenZ_app. unfold lenZ. simpl. rewrite (inv_len _ Hi). rewrite swrap_small; [lia|lia|].
      unfold s_in. simpl. lia. }
    rewrite Hidx. set (n := length (pollfds_ (poller w))) in *.
    unfold mbind, st_bind. rewrite (update_chan_run a c1) by apply lookup_insert_eq. cbn [chans poller].
    rewrite insert_insert_eq. eexists. split; [reflexivity|]. cbn [chans poller channels].
    split_and!; [|done|by apply chans_kept_reinsert|
      apply (unregistered_set _ (Channel.fd_ c)), lookup_insert_eq].
    assert (forall fd b, channels (poller w) !! fd = Some b -> b <> a) as Hfresh.
    { intros fd b Hb ->. destruct (ppoll_inv_channel _ _ _ _ Hi Hb Ha) as (_ & Hfd & _). congruence. }
    split; simpl.
    + intros fd b [[<- <-]|[Hf Hb]]%lookup_insert_Some.
      * split; [done|]. exists (Channel.set_index (Z.of_nat n) c1), n, 0. rewrite lookup_insert_eq.
        split_and!; [done..|]. rewrite lookup_app_r by lia. fold n. rewrite Nat.sub_diag.
        simpl. unfold entry, Channel.isNoneEvent. simpl. by rewrite bool_decide_eq_false_2.
      * pose proof (Hfresh _ _ Hb). destruct (inv_chan _ Hi fd b Hb) as (H1 & cb & j & rb & Hcb & ? & ? & ? & Hpj).
        split; [done|]. exists cb, j, rb. rewrite lookup_insert_ne by done.
        rewrite lookup_app_l by exact (lookup_lt_Some _ _ _ Hpj). done.
    + intros j p Hjp. apply lookup_app_Some in Hjp as [Hjp|[Hge Hjp]].
      * destruct (inv_entry _ Hi j p Hjp) as (b & cb & Hb & Hcb & Hj). exists b, cb.
        rewrite lookup_insert_ne by congruence. rewrite lookup_insert_ne by (by apply not_eq_sym, Hfresh with (Channel.fd_ cb)).
        done.
      * exists a, (Channel.set_index (Z.of_nat n) c1). rewrite !lookup_insert_eq. simpl.
        split_and!; [done|done|]. apply lookup_lt_Some in Hjp. simpl in Hjp. subst n. lia.
    + rewrite length_app, map_size_insert_None by done. simpl. rewrite (inv_len _ Hi). lia.
    + rewrite map_size_insert_None by done. lia.
Qed.

(** Two channels of one index are the same. *)
Lemma inv_index w fd1 fd2 a1 a2 c1 c2 :
  inv w -> channels (poller w) !! fd1 = Some a1 -> channels (poller w) !! fd2 = Some a2 ->
  chans w !! a1 = Some c1 -> chans w !! a2 = Some c2 -> Channel.index_ c1 = Channel.index_ c2 -> a1 = a2.
Proof.
  intros Hi H1 H2 Hc1 Hc2 Hix.
  destruct (ppoll_inv_channel _ _ _ _ Hi H1 Hc1) as (P1 & Hf1 & _ & i1 & r1 & Hi1 & Hp1).
  destruct (ppoll_inv_channel _ _ _ _ Hi H2 Hc2) as (P2 & Hf2 & _ & i2 & r2 & Hi2 & Hp2).
  assert (i1 = i2) as -> by lia. rewrite Hp1 in Hp2. injection Hp2 as Hff _ _.
  assert (Channel.fd_ c1 = Channel.fd_ c2) by (destruct (Channel.isNoneEvent c1), (Channel.isNoneEvent c2); lia).
  congruence.
Qed.

(** The last entry goes: the channel that had it is gone from the map. *)
Lemma inv_pop w a c c1 i r :
  inv w -> channels (poller w) !! Channel.fd_ c = Some a -> chans w !! a = Some c ->
  Channel.index_ c = Z.of_nat i -> pollfds_ (poller w) !! i = Some (entry c r) ->
  S i = length (pollfds_ (poller w)) ->
  inv (mk_world (<[a := c1]> (chans w)) (mk (delete (Channel.fd_ c) (channels (poller w))) (take i (pollfds_ (poller w))))).
Proof.
  intros Hi Hreg Ha Hix Hp Hlast. split; simpl.
  - intros fd b [Hne Hb]%lookup_delete_Some.
    destruct (inv_chan _ Hi fd b Hb) as (H0 & cb & j & rb & Hcb & Hfd & He & Hj & Hpj). split; [done|].
    assert (b <> a) as Hba by (intros ->; simplify_eq).
    exists cb, j, rb. rewrite lookup_insert_ne by done. rewrite lookup_take_lt; [done|].
    pose proof (lookup_lt_Some _ _ _ Hpj). assert (j <> i); [|lia].
    intros ->. apply Hba. eapply inv_index; [exact Hi|exact Hb|exact Hreg|exact Hcb|exact Ha|congruence].
  - intros j p [Hjp Hlt]%lookup_take_Some. destruct (inv_entry _ Hi j p Hjp) as (b & cb & Hb & Hcb & Hj).
    assert (b <> a) as Hba by (intros ->; simplify_eq; lia).
    exists b, cb. rewrite lookup_insert_ne by done. split_and!; [|done|done].
    rewrite lookup_delete_ne; [done|]. congruence.
  - rewrite length_take, map_size_delete_Some by eauto. rewrite <- (inv_len _ Hi). lia.
  - pose proof (inv_bound _ Hi). rewrite map_size_delete_Some by eauto. lia.
Qed.

(** The last entry moves to the place of the removed one. *)
Lemma inv_move w a c c1 i r b cb n back :
  inv w -> channels (poller w) !! Channel.fd_ c = Some a -> chans w !! a = Some c ->
  Channel.index_ c = Z.of_nat i -> pollfds_ (poller w) !! i = Some (entry c r) ->
  length (pollfds_ (poller w)) = S n -> (i < n)%nat ->
  pollfds_ (poller w) !! n = Some back ->
  channels (poller w) !! Channel.fd_ cb = Some b -> chans w !! b = Some cb -> Channel.index_ cb = Z.of_nat n ->
  inv (mk_world (<[b := Channel.set_index (Z.of_nat i) cb]> (<[a := c1]> (chans w)))
    (mk (delete (Channel.fd_ c) (channels (poller w))) (take n (<[i := back]> (<[n := entry c r]> (pollfds_ (poller w))))))).
Proof.
  intros Hi Hreg Ha Hix Hp Hlen Hlt Hback Hb Hcb Hixb.
  assert (b <> a) as Hba by (intros ->; simplify_eq; lia).
  destruct (ppoll_inv_channel _ _ _ _ Hi Hb Hcb) as (Hb0 & _ & Hbe & j & rb & Hj & Hpb).
  assert (j = n) as -> by lia. assert (back = entry cb rb) as -> by congruence.
  assert (Channel.fd_ c <> Channel.fd_ cb) as Hff by congruence.
  assert (forall k p, take n (<[i := entry cb rb]> (<[n := entry c r]> (pollfds_ (poller w)))) !! k = Some p <->
    (k < n)%nat /\ ((k = i /\ p = entry cb rb) \/ (k <> i /\ pollfds_ (poller w) !! k = Some p))) as Hlook.
  { intros k p. rewrite lookup_take_Some. split.
    - intros [Hk Hkn]. split; [done|]. destruct (decide (k = i)) as [->|Hki].
      + rewrite list_lookup_insert_eq in Hk by (rewrite length_insert; lia). left. by simplify_eq.
      + rewrite !list_lookup_insert_ne in Hk by lia. by right.
    - intros [Hkn [[-> ->]|[Hki Hk]]]; (split; [|done]).
      + apply list_lookup_insert_eq. rewrite length_insert. lia.
      + by rewrite !list_lookup_insert_ne by lia. }
  split; simpl.
  - intros fd d [Hne Hd]%lookup_delete_Some.
    destruct (inv_chan _ Hi fd d Hd) as (H0 & cd & k & rd & Hcd & Hfd & He & Hk & Hpk). split; [done|].
    destruct (decide (d = b)) as [->|Hdb].
    + simplify_eq. exists (Channel.set_index (Z.of_nat i) cb), i, rb. rewrite lookup_insert_eq.
      split_and!; [done..|]. apply Hlook. split; [done|by left].
    + assert (d <> a) as Hda by (intros ->; simplify_eq).
      exists cd, k, rd. rewrite !lookup_insert_ne by done. split_and!; [done..|].
      apply Hlook. pose proof (lookup_lt_Some _ _ _ Hpk).
      assert (k <> n).
      { intros ->. apply Hdb. eapply inv_index; [exact Hi|exact Hd|exact Hb|exact Hcd|exact Hcb|congruence]. }
      split; [lia|]. right. split; [|done]. intros ->. apply Hda.
      eapply inv_index; [exact Hi|exact Hd|exact Hreg|exact Hcd|exact Ha|congruence].
  - intros k p [Hkn [[-> ->]|[Hki Hk]]]%Hlook.
    + exists b, (Channel.set_index (Z.of_nat i) cb). rewrite lookup_insert_eq. simpl.
      by rewrite lookup_delete_ne.
    + destruct (inv_entry _ Hi k p Hk) as (d & cd & Hd & Hcd & Hkd).
      assert (d <> b) by (intros ->; simplify_eq; lia). assert (d <> a) by (intros ->; simplify_eq; lia).
      exists d, cd. rewrite !lookup_insert_ne by done. rewrite lookup_delete_ne by congruence. done.
  - rewrite length_take, !length_insert, map_size_delete_Some, Hlen by eauto. rewrite <- (inv_len _ Hi). lia.
  - pose proof (inv_bound _ Hi). rewrite map_size_delete_Some by eauto. lia.
Qed.

Lemma last_lookup_S {A} (l : list A) n x : length l = S n -> l !! n = Some x -> list.last l = Some x.
Proof. intros Hn Hx. rewrite list.last_lookup, Hn. done. Qed.

Lemma ppoll_removeChannel_spec w a c :
  inv w -> chans w !! a = Some c -> channels (poller w) !! Channel.fd_ c = Some a -> Channel.events_ c = 0 ->
  let c1 := Channel.set_added false c in
  exists w', removeChannel a (mk_world (<[a := c1]> (chans w)) (poller w)) = Ok (tt, w') /\ inv w' /\
    channels (poller w') = delete (Channel.fd_ c) (channels (poller w)) /\
    chans_kept (<[a := c1]> (chans w)) (chans w') /\
    unregistered_kept (channels (poller w)) (chans w) (chans w').
Proof.
  intros Hi Ha Hreg He c1. unfold removeChannel.
  destruct (ppoll_inv_channel _ _ _ _ Hi Hreg Ha) as (H0 & _ & _ & i & r & Hix & Hp).
  pose proof (lookup_lt_Some _ _ _ Hp) as Hlt.
  rewrite (channel_run a c1) by apply lookup_insert_eq. rewrite gets_run. cbn [poller].
  change (Channel.index_ c1) with (Channel.index_ c). change (Channel.fd_ c1) with (Channel.fd_ c).
  change (Channel.events_ c1) with (Channel.events_ c). change (Channel.isNoneEvent c1) with (Channel.isNoneEvent c).
  rewrite Hreg, Hix, Nat2Z.id, Hp, (swrap_len w Hi).
  assert (exists n, length (pollfds_ (poller w)) = S n) as [n Hlen]
    by (destruct (length (pollfds_ (poller w))) eqn:E; [lia|eauto]).
  destruct (lookup_lt_is_Some_2 (pollfds_ (poller w)) n ltac:(lia)) as [back Hback].
  rewrite (last_lookup_S _ n back Hlen Hback). run_asserts.
  rewrite assert_run by (apply bool_decide_eq_true; unfold lenZ; lia).
  rewrite assert_run.
  2: { apply bool_decide_eq_true. unfold entry, Channel.isNoneEvent. simpl. rewrite He. done. }
  pose proof (inv_bound _ Hi) as Hbound. rewrite <- (inv_len _ Hi) in Hbound.
  rewrite size_sub_small by (unfold lenZ; lia). rewrite Hlen. replace (S n - 1)%nat with n by lia.
  case_bool_decide as Hend.
  - unfold lenZ in Hend. rewrite Hlen in Hend. assert (i = n) as -> by lia.
    eexists. split; [reflexivity|]. cbn [chans poller channels].
    split_and!; [|done|apply chans_kept_refl|by eapply unregistered_set]. eapply inv_pop; done.
  - unfold lenZ in Hend. rewrite Hlen in Hend.
    destruct (inv_owner w n back Hi Hback) as (b & cb & rb & Hb & Hcb & Hixb & -> & Hb0).
    assert (b <> a) as Hba by (intros ->; simplify_eq; lia).
    assert ((if bool_decide (PollPoller.fd (entry cb rb) < 0) then - PollPoller.fd (entry cb rb) - 1
             else PollPoller.fd (entry cb rb)) = Channel.fd_ cb) as ->.
    { unfold entry. simpl. destruct (Channel.isNoneEvent cb); case_bool_decide; lia. }
    rewrite lookup_delete_ne by congruence. rewrite Hb.
    unfold mbind, st_bind. rewrite (update_chan_run b cb) by (simpl; by rewrite lookup_insert_ne).
    eexists. split; [reflexivity|]. cbn [chans poller channels].
    split_and!; [|done| |].
    + eapply inv_move; try done. lia.
    + apply (chans_kept_insert _ _ cb); [by rewrite lookup_insert_ne|done].
    + eapply unregistered_trans; by eapply unregistered_set.
Qed.

(** ** Polling *)

Definition revents_of (ready : list (Z * Z)) (pfd : pollfd) : Z :=
  if bool_decide (fd pfd < 0) then 0 else default 0 (list_to_map (M := gmap Z Z) ready !! fd pfd).

Lemma kernel_lookup ready l i :
  kernel_poll ready l !! i = (fun p => mk_pfd (fd p) (events p) (revents_of ready p)) <$> l !! i.
Proof. apply list_lookup_fmap. Qed.

Lemma inv_kernel w ready :
  inv w -> inv (mk_world (chans w) (mk (channels (poller w)) (kernel_poll ready (pollfds_ (poller w))))).
Proof.
  intros Hi. split; simpl; [| |unfold kernel_poll; rewrite length_map; apply Hi|apply Hi].
  - intros fd a Hfd. destruct (inv_chan _ Hi fd a Hfd) as (H0 & c & i & r & Hc & ? & ? & ? & Hp).
    split; [done|]. exists c, i, (revents_of ready (entry c r)). rewrite kernel_lookup, Hp. done.
  - intros i p Hp. rewrite kernel_lookup in Hp. apply fmap_Some in Hp as (p' & Hp & ->).
    by apply (inv_entry _ Hi i p').
Qed.

Lemma ppoll_inv_fields w h' : inv w -> fields_kept (chans w) h' -> inv (mk_world h' (poller w)).
Proof.
  intros Hi Hk. split; simpl; [| |apply Hi..].
  - intros fd a Hfd. destruct (inv_chan _ Hi fd a Hfd) as (H0 & c & i & r & Hc & Hf & He & Hix & Hp).
    destruct (fields_kept_lookup _ _ _ _ Hk Hc) as (c' & Hc' & Hf' & Hix' & He').
    split; [done|]. exists c', i, r. rewrite Hf', Hix', He'. unfold entry, Channel.isNoneEvent in *.
    rewrite He', Hf'. done.
  - intros i p Hp. destruct (inv_entry _ Hi i p Hp) as (a & c & Hf & Hc & Hix).
    destruct (fields_kept_lookup _ _ _ _ Hk Hc) as (c' & Hc' & Hf' & Hix' & _).
    exists a, c'. by rewrite Hf', Hix'.
Qed.

Lemma ppoll_inv_revents w h' : inv w -> revents_kept (chans w) h' -> inv (mk_world h' (poller w)).
Proof. intros Hi Hk. by apply ppoll_inv_fields; [|apply revents_kept_fields]. Qed.

(** The entries have different descriptors. *)
Lemma inv_fds w : inv w -> NoDup (map fd (pollfds_ (poller w))).
Proof.
  intros Hi. apply NoDup_alt. intros i j x. rewrite !list_lookup_fmap, !fmap_Some.
  intros (p1 & H1 & Hx1) (p2 & H2 & Hx2).
  destruct (inv_owner _ _ _ Hi H1) as (a1 & c1 & r1 & Hr1 & Hc1 & Hi1 & -> & P1).
  destruct (inv_owner _ _ _ Hi H2) as (a2 & c2 & r2 & Hr2 & Hc2 & Hi2 & -> & P2).
  unfold entry in *. simpl in *.
  assert (Channel.fd_ c1 = Channel.fd_ c2) as Hff by (destruct (Channel.isNoneEvent c1), (Channel.isNoneEvent c2); lia).
  rewrite Hff in Hr1. simplify_eq. lia.
Qed.

(** The channels that [fillActiveChannels] collects. *)
Definition actives (chs : gmap Z Z) (l : list pollfd) : list Z :=
  omap (fun p => if bool_decide (revents p > 0) then chs !! fd p else None) l.

Definition event_count (l : list pollfd) : Z := Z.of_nat (length (filter (fun p => revents p <> 0) l)).

Lemma event_count_pos p l : revents p > 0 -> event_count (p :: l) = event_count l + 1.
Proof. intros Hp. unfold event_count. rewrite filter_cons_True by lia. simpl length. lia. Qed.

Lemma event_count_zero p l : revents p = 0 -> event_count (p :: l) = event_count l.
Proof. intros Hp. unfold event_count. rewrite filter_cons_False by (rewrite Hp; auto). done. Qed.

Lemma event_count_nonneg l : 0 <= event_count l.
Proof. unfold event_count. lia. Qed.

Lemma actives_nil chs l : event_count l <= 0 -> actives chs l = [].
Proof.
  intros Hz. apply elem_of_nil_inv. intros b (q & Hq & Hx)%list_elem_of_omap.
  case_bool_decide as Hrq; [|done]. unfold event_count in Hz.
  assert (q ∈ filter (fun p => revents p <> 0) l) as Hqf by (apply list_elem_of_filter; split; [lia|done]).
  destruct (filter _ l); [by apply elem_of_nil in Hqf|]. simpl in Hz. lia.
Qed.

Lemma actives_nonempty chs l p a :
  p ∈ l -> revents p > 0 -> chs !! fd p = Some a -> a ∈ actives chs l /\ event_count l > 0.
Proof.
  intros Hp Hr Ha. assert (a ∈ actives chs l) as Hin.
  { apply list_elem_of_omap. exists p. split; [done|]. by rewrite bool_decide_eq_true_2. }
  split; [done|]. destruct (decide (event_count l > 0)) as [|Hz]; [done|].
  rewrite actives_nil in Hin by lia. by apply elem_of_nil in Hin.
Qed.

(** Each entry with events belongs to a registered channel. *)
Definition owned (w : world t) (l : list pollfd) : Prop := forall p, p ∈ l -> revents p > 0 ->
  exists a c, channels (poller w) !! fd p = Some a /\ chans w !! a = Some c /\ Channel.fd_ c = fd p.

Lemma actives_fresh w p l a c :
  owned w (p :: l) -> fd p ∉ map fd l -> chans w !! a = Some c -> Channel.fd_ c = fd p ->
  a ∉ actives (channels (poller w)) l.
Proof.
  intros Hin Hnp Hc Hfd (q & Hq & Hx)%list_elem_of_omap. case_bool_decide as Hrq; [|done].
  destruct (Hin q) as (b & cb & Hb & Hcb & Hfb); [by right|done|]. simplify_eq.
  apply Hnp. apply list_elem_of_fmap. exists q. split; [congruence|done].
Qed.

Lemma actives_nodup w l : owned w l -> NoDup (map fd l) -> NoDup (actives (channels (poller w)) l).
Proof.
  induction l as [|p l IH]; intros Hin Hnd; [constructor|]. apply list.NoDup_cons in Hnd as [Hnp Hnd].
  assert (NoDup (actives (channels (poller w)) l)) as HIH.
  { apply IH; [|done]. intros q Hq. apply Hin. by right. }
  unfold actives. simpl. case_bool_decide as Hr; [|done].
  destruct (Hin p) as (a & c & Ha & Hc & Hfd); [left|done|]. rewrite Ha.
  apply list.NoDup_cons. split; [|done]. by eapply actives_fresh.
Qed.

Lemma ppoll_fill_loop l w active :
  (forall p, p ∈ l -> 0 <= revents p) -> NoDup (map fd l) ->
  owned w l ->
  exists h', fillActiveChannels l (event_count l) active w =
      Ok (active ++ actives (channels (poller w)) l, mk_world h' (poller w)) /\
    revents_kept (chans w) h' /\
    (forall a, a ∉ actives (channels (poller w)) l -> h' !! a = chans w !! a) /\
    (forall p a, p ∈ l -> revents p > 0 -> channels (poller w) !! fd p = Some a ->
       exists c, h' !! a = Some c /\ Channel.revents_ c = revents p).
Proof.
  revert w active; induction l as [|p l IH]; intros w active Hnn Hnd Hin; simpl.
  - exists (chans w). rewrite app_nil_r, world_eta. split_and!; [done|done|done|].
    intros p a Hx. by apply elem_of_nil in Hx.
  - apply list.NoDup_cons in Hnd as [Hnp Hnd].
    pose proof (Hnn p ltac:(left)) as Hp0. unfold actives. simpl.
    destruct (bool_decide_reflect (revents p > 0)) as [Hr|Hr].
    + destruct (Hin p) as (a & c & Hch & Hc & Hfd); [left|done|].
      rewrite event_count_pos by done. pose proof (event_count_nonneg l).
      rewrite bool_decide_eq_true_2 by lia. rewrite gets_run, Hch, (channel_run a c) by done. run_asserts.
      unfold mbind at 1, st_bind at 1. rewrite (update_chan_run a c) by done.
      replace (event_count l + 1 - 1) with (event_count l) by lia.
      pose proof (revents_kept_set _ _ _ (revents p) Hc) as Hk.
      destruct (IH (mk_world (<[a := Channel.set_revents (revents p) c]> (chans w)) (poller w)) (active ++ [a]))
        as (h' & Hrun & Hk' & Hout & Hset).
      { intros q Hq. apply Hnn. by right. }
      { done. }
      { intros q Hq Hrq. destruct (Hin q) as (b & cb & Hb & Hcb & Hfb); [by right|done|]. simpl.
        destruct (revents_kept_lookup _ _ _ _ Hk Hcb) as (cb' & Hcb' & Hf & _). exists b, cb'. by rewrite Hf. }
      exists h'. simpl in *. split_and!.
      * rewrite Hrun. by rewrite <- app_assoc.
      * by eapply revents_kept_trans.
      * intros b [Hba Hb]%not_elem_of_cons. rewrite Hout by done. by rewrite lookup_insert_ne.
      * assert (a ∉ actives (channels (poller w)) l) as Hna by (by eapply actives_fresh).
        intros q b [->|Hq]%elem_of_cons Hrq Hqb; [|by eapply Hset].
        simplify_eq. exists (Channel.set_revents (revents p) c). rewrite Hout by done. by rewrite lookup_insert_eq.
    + rewrite event_count_zero by lia. fold (actives (channels (poller w)) l).
      destruct (bool_decide_reflect (event_count l > 0)) as [|Hz].
      * destruct (IH w active) as (h' & Hrun & Hk' & Hout & Hset).
        { intros q Hq. apply Hnn. by right. }
        { done. }
        { intros q Hq. apply Hin. by right. }
        exists h'. split_and!; [done|done|done|].
        intros q b [->|Hq]%elem_of_cons Hrq; [lia|by apply Hset].
      * rewrite actives_nil by lia. exists (chans w). rewrite app_nil_r, world_eta.
        split_and!; [done|done|done|]. intros q b Hq Hrq Hqb. exfalso.
        assert (event_count (p :: l) = 0) as Hc.
        { rewrite event_count_zero by lia. pose proof (event_count_nonneg l). lia. }
        by apply (actives_nonempty (channels (poller w)) (p :: l) q b) in Hq; [lia|..].
Qed.

Lemma ppoll_poll_spec w ready :
  inv w -> NoDup ready.*1 ->
  (forall fd r, (fd, r) ∈ ready -> 0 < r /\ exists e, poll_watches (poller w) fd e) ->
  exists w' active, poll ready w = Ok (active, w') /\ inv w' /\
    channels (poller w') = channels (poller w) /\ chans_kept (chans w) (chans w') /\
    unregistered_kept (channels (poller w)) (chans w) (chans w') /\
    NoDup active /\ (ready <> [] -> active <> []) /\
    (forall a, a ∈ active -> exists fd r c, (fd, r) ∈ ready /\ channels (poller w) !! fd = Some a /\
       chans w' !! a = Some c /\ Channel.revents_ c = r).
Proof.
  intros Hi Hnd Hready. unfold poll. rewrite gets_run.
  set (l := kernel_poll ready (pollfds_ (poller w))).
  set (w1 := mk_world (chans w) (mk (channels (poller w)) l)).
  assert (inv w1) as Hi1 by (by apply inv_kernel).
  assert (forall p, p ∈ l -> revents p <> 0 -> 0 <= fd p /\ (fd p, revents p) ∈ ready) as Hrev.
  { intros p (p0 & -> & Hp0)%list_elem_of_fmap Hr. simpl in *. unfold revents_of in *.
    destruct (bool_decide_reflect (fd p0 < 0)) as [|H0]; [done|]. split; [lia|].
    destruct (list_to_map ready !! fd p0) as [r|] eqn:E; simpl in *; [|done].
    by apply elem_of_list_to_map_2 in E. }
  assert (NoDup (map fd l)) as Hfds.
  { replace (map fd l) with (map fd (pollfds_ (poller w))); [by apply inv_fds|].
    subst l. unfold kernel_poll. rewrite map_map. done. }
  assert (forall p, p ∈ l -> 0 <= revents p) as Hnn.
  { intros p Hp. destruct (decide (revents p = 0)) as [|Hr]; [lia|].
    destruct (Hrev p Hp Hr) as [_ Hin]. apply Hready in Hin as [? _]. lia. }
  assert (owned w1 l) as Hown.
  { intros p Hp Hr. apply list_elem_of_lookup in Hp as [i Hp].
    destruct (Hrev p (list_elem_of_lookup_2 _ _ _ Hp) ltac:(lia)) as [H0 _].
    destruct (inv_owner w1 i p Hi1 Hp) as (a & c & r & Hch & Hc & _ & -> & Hc0).
    assert (fd (entry c r) = Channel.fd_ c) as Hf.
    { unfold entry in *. simpl in *. destruct (Channel.isNoneEvent c); [lia|done]. }
    exists a, c. by rewrite Hf. }
  destruct (ppoll_fill_loop l w1 [] Hnn Hfds Hown) as (h' & Hrun & Hk & Hout & Hset).
  rewrite (bind_run _ _ w tt w1) by done.
  assert ((if bool_decide (event_count l > 0) then fillActiveChannels l (event_count l) [] else mret []) w1 =
    Ok (actives (channels (poller w)) l, mk_world (if bool_decide (event_count l > 0) then h' else chans w) (poller w1))) as Hr.
  { case_bool_decide as Hz; [by rewrite Hrun|]. by rewrite actives_nil by lia. }
  cbv zeta. fold (event_count l). rewrite Hr. clear Hr.
  assert (revents_kept (chans w1) (if bool_decide (event_count l > 0) then h' else chans w)) as Hk'
    by (by case_bool_decide).
  eexists _, _. split; [reflexivity|]. cbn [chans poller].
  split_and!; [by apply (ppoll_inv_revents w1)|done|by apply revents_kept_kept| | | |].
  - case_bool_decide; [|by intros ?]. intros b Hb. apply Hout.
    intros (p & Hp & Hx)%list_elem_of_omap. case_bool_decide; [|done]. by apply (Hb (fd p)).
  - by apply (actives_nodup w1).
  - intros Hne Hnil. destruct ready as [|[f r] ready']; [done|].
    destruct (Hready f r) as (Hr & e & H0 & _ & i & r0 & Hp); [left|].
    assert (mk_pfd f e r ∈ l) as Hin.
    { apply (list_elem_of_lookup_2 _ i). subst l. rewrite kernel_lookup, Hp. simpl. do 2 f_equal.
      unfold revents_of. simpl. rewrite bool_decide_eq_false_2 by lia. by rewrite lookup_insert_eq. }
    destruct (Hown _ Hin) as (a & c & Ha & _); [simpl; lia|].
    destruct (actives_nonempty (channels (poller w)) l _ a Hin) as [Hact _]; [simpl; lia|done|].
    rewrite Hnil in Hact. by apply elem_of_nil in Hact.
  - intros a (p & Hp & Hx)%list_elem_of_omap. case_bool_decide as Hr; [|done].
    destruct (Hrev p Hp ltac:(lia)) as [_ Hin]. destruct (Hset p a Hp Hr Hx) as (c & Hc & Hrc).
    exists (fd p), (revents p), c. split_and!; [done|done| |done].
    rewrite bool_decide_eq_true_2; [done|]. by eapply actives_nonempty.
Qed.

#[global] Instance PollPoller_spec : PollerSpec PollPoller.t.
Proof.
  refine {| pinv := inv; watches := poll_watches |}.
  - intros w a c Hi Ha. split; simpl; [| |apply Hi..].
    + intros fd b Hb. destruct (inv_chan _ Hi fd b Hb) as (H0 & cb & i & r & Hcb & Hst).
      split; [done|]. exists cb, i, r. rewrite lookup_insert_ne by congruence. done.
    + intros i p Hp. destruct (inv_entry _ Hi i p Hp) as (b & cb & Hb & Hcb & Hix).
      exists b, cb. rewrite lookup_insert_ne by congruence. done.
  - apply ppoll_inv_fields.
  - intros w fd a Hi Hfd. destruct (inv_chan _ Hi fd a Hfd) as (_ & c & i & r & ? & ? & _). eauto.
  - intros w fd e Hi. unfold poll_watches. split.
    + intros (H0 & He & i & r & Hp). split; [done|].
      destruct (inv_owner _ _ _ Hi Hp) as (a & c & r' & Hch & Hc & _ & Heq & Hc0).
      unfold entry in Heq. injection Heq as Hf -> ->.
      exists a, c. destruct (Channel.isNoneEvent c); [lia|]. by subst fd.
    + intros (He & a & c & Hch & Hc & <-).
      destruct (ppoll_inv_channel _ _ _ _ Hi Hch Hc) as (H0 & Hfd & _ & i & r & _ & Hp).
      split_and!; [done|done|]. exists i, r. rewrite Hp. unfold entry, Channel.isNoneEvent.
      by rewrite bool_decide_eq_false_2, Hfd.
  - intros w a c f Hi Ha He Hreg. rewrite (set_events_run f a c) by done. simpl in *.
    by apply ppoll_updateChannel_spec.
  - intros w a c Hi Ha Hreg He. rewrite (remove_run a c) by done. by apply ppoll_removeChannel_spec.
  - intros w ready Hi Hnd Hr. by apply ppoll_poll_spec.
Defined.

Lemma ppoll_inv_init h : inv (mk_world h init).
Proof.
  split; simpl; [|done|done|by rewrite map_size_empty].
  intros fd a. by rewrite lookup_empty.
Qed.

End PollProofs.

(** ** What a client of a poller sees

    The abstract state of the channels of a loop: the descriptor and the enabled events
    of each channel object, the channel registered for each descriptor, and the objects
    that have never been registered. *)
Module Client.

Record t := mk { objs : gmap Z (Z * Z); reg : gmap Z Z; fresh : gset Z }.

Definition init : t := mk ∅ ∅ ∅.

(** The operations that change [events_]. *)
Inductive ev_op := EnableReading | DisableReading | EnableWriting | DisableWriting | DisableAll.

Definition ev_fun (o : ev_op) : Z -> Z :=
  match o with
  | EnableReading => Channel.reading_on
  | DisableReading => Channel.reading_off
  | EnableWriting => Channel.writing_on
  | DisableWriting => Channel.writing_off
  | DisableAll => fun _ => Channel.kNoneEvent
  end.

Inductive op :=
  | NewChannel (a fd : Z)
  | Change (o : ev_op) (a : Z)
  | Remove (a : Z)
  | Poll (ready : list (Z * Z)).

(** The descriptors with an enabled event. *)
Definition watched (s : t) (fd : Z) : option Z :=
  '(fd', e) ← reg s !! fd ≫= fun a => objs s !! a;
  if bool_decide (e = 0) then None else Some e.

(** The contract: a step is allowed when it returns a state.  A channel is first registered
    by enabling an event, and not registered again once it has been removed; only a
    disabled channel is removed; the kernel reports watched descriptors only. *)
Definition step (o : op) (s : t) : option t :=
  match o with
  | NewChannel a fd =>
      if bool_decide (objs s !! a = None /\ 0 <= fd)
      then Some (mk (<[a := (fd, 0)]> (objs s)) (reg s) ({[a]} ∪ fresh s)) else None
  | Change o a =>
      '(fd, e) ← objs s !! a;
      let e' := ev_fun o e in
      if bool_decide (reg s !! fd = Some a \/
           (reg s !! fd = None /\ a ∈ fresh s /\ e' <> 0 /\ Z.of_nat (size (reg s)) < 2 ^ 31 - 1))
      then Some (mk (<[a := (fd, e')]> (objs s)) (<[fd := a]> (reg s)) (fresh s ∖ {[a]})) else None
  | Remove a =>
      '(fd, e) ← objs s !! a;
      if bool_decide (reg s !! fd = Some a /\ e = 0)
      then Some (mk (objs s) (delete fd (reg s)) (fresh s)) else None
  | Poll ready =>
      if bool_decide (NoDup ready.*1) &&
         forallb (fun '(fd, r) => bool_decide (0 < r) && bool_decide (is_Some (watched s fd))) ready
      then Some s else None
  end.

Section client.
Context {P : Type} `{PollerSpec P}.

(** The same operation on channels and a poller; [poll] returns the active channels. *)
Definition run (o : op) : W P (list Z) :=
  match o with
  | NewChannel a fd =>
      _ ← modify (fun w => mk_world (<[a := Channel.Channel fd]> (chans w)) (poller w)); mret []
  | Change EnableReading a => _ ← enableReading a; mret []
  | Change DisableReading a => _ ← disableReading a; mret []
  | Change EnableWriting a => _ ← enableWriting a; mret []
  | Change DisableWriting a => _ ← disableWriting a; mret []
  | Change DisableAll a => _ ← disableAll a; mret []
  | Remove a => _ ← channel_remove a; mret []
  | Poll ready => poll ready
  end.

(** The concrete state shows the abstract one. *)
Record shows (s : t) (w : world P) : Prop := {
  sh_inv : pinv w;
  sh_reg : channels_ (poller w) = reg s;
  sh_objs : forall a, (fun c => (Channel.fd_ c, Channel.events_ c)) <$> chans w !! a = objs s !! a;
  sh_fresh : forall a c, a ∈ fresh s -> chans w !! a = Some c -> Channel.index_ c = -1;
  sh_unreg : forall a fd, a ∈ fresh s -> reg s !! fd <> Some a;
  sh_events : forall a fd e, objs s !! a = Some (fd, e) -> 0 <= fd /\ (e = 0 \/ e = 3 \/ e = 4 \/ e = 7);
  sh_reg_obj : forall fd a, reg s !! fd = Some a -> exists e, objs s !! a = Some (fd, e)
}.

Lemma ev_range o e : e = 0 \/ e = 3 \/ e = 4 \/ e = 7 ->
  let e' := ev_fun o e in e' = 0 \/ e' = 3 \/ e' = 4 \/ e' = 7.
Proof. destruct o; intros [->|[->|[->| ->]]]; vm_compute; auto. Qed.

Lemma run_change o a (w : world P) :
  run (Change o a) w = match set_events_and_update (ev_fun o) a w with
                       | Ok (_, w') => Ok ([], w') | Fail e => Fail e end.
Proof. by destruct o. Qed.

Lemma view_events c c' : client_view c' = client_view c ->
  (Channel.fd_ c', Channel.events_ c') = (Channel.fd_ c, Channel.events_ c).
Proof. destruct c, c'. unfold client_view. simpl. intros [=]. by subst. Qed.

Lemma objs_kept (h h' : gmap Z Channel.t) a :
  chans_kept h h' ->
  (fun c => (Channel.fd_ c, Channel.events_ c)) <$> h' !! a = (fun c => (Channel.fd_ c, Channel.events_ c)) <$> h !! a.
Proof.
  intros Hk. specialize (Hk a). destruct (h !! a) as [c|], (h' !! a) as [c'|]; simpl in *; try done.
  f_equal. apply view_events. congruence.
Qed.

Lemma shows_chan s w a fd e : shows s w -> objs s !! a = Some (fd, e) ->
  exists c, chans w !! a = Some c /\ Channel.fd_ c = fd /\ Channel.events_ c = e.
Proof.
  intros Hs Ha. rewrite <- (sh_objs _ _ Hs) in Ha. apply fmap_Some in Ha as (c & Hc & [= -> ->]). eauto.
Qed.

Lemma shows_objs (s : t) (h h' : gmap Z Channel.t) a fd e c :
  (forall b, (fun c => (Channel.fd_ c, Channel.events_ c)) <$> h !! b = objs s !! b) ->
  (Channel.fd_ c, Channel.events_ c) = (fd, e) -> chans_kept (<[a := c]> h) h' ->
  forall b, (fun c => (Channel.fd_ c, Channel.events_ c)) <$> h' !! b = <[a := (fd, e)]> (objs s) !! b.
Proof.
  intros Hs Hc Hk b. rewrite (objs_kept _ _ b Hk). destruct (decide (b = a)) as [->|Hb].
  - rewrite !lookup_insert_eq. simpl. by rewrite Hc.
  - rewrite !lookup_insert_ne by done. apply Hs.
Qed.

Lemma new_simulates s w a fd :
  shows s w -> objs s !! a = None -> 0 <= fd ->
  shows (mk (<[a := (fd, 0)]> (objs s)) (reg s) ({[a]} ∪ fresh s))
    (mk_world (<[a := Channel.Channel fd]> (chans w)) (poller w)).
Proof.
  intros Hs Ha Hfd. assert (chans w !! a = None) as Hn.
  { pose proof (sh_objs _ _ Hs a) as Ho. rewrite Ha in Ho. by apply fmap_None in Ho. }
  split; simpl; [by apply alloc_ok; [apply Hs|]|apply Hs|..].
  - apply (shows_objs s (chans w) _ a fd 0 (Channel.Channel fd)); [apply Hs|done|apply chans_kept_refl].
  - intros b c Hb Hc. destruct (decide (b = a)) as [->|Hba].
    + rewrite lookup_insert_eq in Hc. by injection Hc as <-.
    + rewrite lookup_insert_ne in Hc by done. eapply sh_fresh; [done| |done]. set_solver.
  - intros b fd' Hb Hr. destruct (sh_reg_obj _ _ Hs _ _ Hr) as [e He].
    eapply sh_unreg; [done| |done]. apply elem_of_union in Hb as [->%elem_of_singleton|Hb]; [congruence|done].
  - intros b f e [[<- [= <- <-]]|[_ Hb]]%lookup_insert_Some; [auto|by eapply sh_events].
  - intros f b Hb. destruct (sh_reg_obj _ _ Hs _ _ Hb) as [e He]. exists e.
    rewrite lookup_insert_ne; [done|]. intros <-. congruence.
Qed.

Lemma change_simulates o s w a fd e :
  shows s w -> objs s !! a = Some (fd, e) ->
  reg s !! fd = Some a \/ (reg s !! fd = None /\ a ∈ fresh s /\ ev_fun o e <> 0 /\ Z.of_nat (size (reg s)) < 2 ^ 31 - 1) ->
  exists w', run (Change o a) w = Ok ([], w') /\
    shows (mk (<[a := (fd, ev_fun o e)]> (objs s)) (<[fd := a]> (reg s)) (fresh s ∖ {[a]})) w'.
Proof.
  intros Hs Ha Hreg. destruct (shows_chan _ _ _ _ _ Hs Ha) as (c & Hc & <- & <-).
  destruct (sh_events _ _ Hs _ _ _ Ha) as [Hz He]. pose proof (ev_range o _ He) as He'. simpl in He'.
  pose proof (sh_reg _ _ Hs) as Hch.
  destruct (update_ok w a c (ev_fun o)) as (w' & Hrun & Hi' & Hch' & Hk & Hun).
  { apply Hs. }
  { done. }
  { unfold events_ok. lia. }
  { rewrite Hch. destruct Hreg as [?|(Hn & Hf & Hne & Hsz)]; [by left|right].
    split_and!; [done|by eapply sh_fresh|done|done|done]. }
  exists w'. rewrite run_change, Hrun. split; [done|].
  assert (forall fd', reg s !! fd' = Some a -> fd' = Channel.fd_ c) as Hone.
  { intros fd' Hr. destruct (sh_reg_obj _ _ Hs _ _ Hr) as [e Hx]. congruence. }
  split; simpl.
  - done.
  - by rewrite Hch', Hch.
  - eapply shows_objs; [apply Hs| |exact Hk]. done.
  - intros b cb [Hb Hba]%elem_of_difference Hcb. rewrite not_elem_of_singleton in Hba.
    rewrite Hun in Hcb; [by eapply sh_fresh|]. intros fd' Hr. rewrite Hch', Hch in Hr.
    apply lookup_insert_Some in Hr as [[_ ?]|[_ Hr]]; [done|]. by eapply sh_unreg.
  - intros b fd' [Hb Hba]%elem_of_difference Hr. rewrite not_elem_of_singleton in Hba.
    apply lookup_insert_Some in Hr as [[_ ?]|[_ Hr]]; [done|]. by eapply sh_unreg.
  - intros b f e [[<- [= <- <-]]|[_ Hb]]%lookup_insert_Some; [done|by eapply sh_events].
  - intros f b [[<- <-]|[Hne Hb]]%lookup_insert_Some; [rewrite lookup_insert_eq; eauto|].
    destruct (sh_reg_obj _ _ Hs _ _ Hb) as [e Hx]. exists e.
    rewrite lookup_insert_ne; [done|]. intros <-. apply Hne. symmetry. by apply Hone.
Qed.

Lemma remove_simulates s w a fd :
  shows s w -> objs s !! a = Some (fd, 0) -> reg s !! fd = Some a ->
  exists w', run (Remove a) w = Ok ([], w') /\ shows (mk (objs s) (delete fd (reg s)) (fresh s)) w'.
Proof.
  intros Hs Ha Hreg. destruct (shows_chan _ _ _ _ _ Hs Ha) as (c & Hc & <- & He).
  pose proof (sh_reg _ _ Hs) as Hch.
  destruct (remove_ok w a c) as (w' & Hrun & Hi' & Hch' & Hk & Hun); [apply Hs|done|by rewrite Hch|done|].
  exists w'. split; [unfold run, mbind, st_bind; by rewrite Hrun|].
  split; simpl.
  - done.
  - by rewrite Hch', Hch.
  - intros b. rewrite (shows_objs s (chans w) (chans w') a (Channel.fd_ c) 0 (Channel.set_added false c));
      [|apply Hs|simpl; by rewrite He|done].
    destruct (decide (b = a)) as [->|Hb]; [by rewrite lookup_insert_eq|by rewrite lookup_insert_ne].
  - intros b cb Hb Hcb. rewrite Hun in Hcb; [by eapply sh_fresh|]. intros fd' Hr. rewrite Hch in Hr.
    by eapply sh_unreg.
  - intros b fd' Hb [_ Hr]%lookup_delete_Some. by eapply sh_unreg.
  - apply Hs.
  - intros f b [_ Hb]%lookup_delete_Some. by apply (sh_reg_obj _ _ Hs).
Qed.

(** A client may change the fields that no poller reads. *)
Lemma client_simulates s w a c c' :
  shows s w -> chans w !! a = Some c -> poller_fields c' = poller_fields c ->
  shows s (mk_world (<[a := c']> (chans w)) (poller w)).
Proof.
  intros Hs Ha Hc. pose proof Hc as [= Hfd Hix Hev]. split; simpl; try apply Hs.
  - apply fields_ok; [apply Hs|by eapply fields_kept_set].
  - intros b. rewrite <- (sh_objs _ _ Hs b). destruct (decide (b = a)) as [->|Hb].
    + rewrite lookup_insert_eq, Ha. simpl. congruence.
    + by rewrite lookup_insert_ne.
  - intros b cb Hb [[<- <-]|[_ Hcb]]%lookup_insert_Some; [|by eapply sh_fresh].
    rewrite Hix. by eapply sh_fresh.
Qed.

Lemma watches_watched s w fd e : shows s w -> watches (poller w) fd e <-> watched s fd = Some e.
Proof.
  intros Hs. rewrite (watches_ok w fd e) by apply Hs. rewrite (sh_reg _ _ Hs). unfold watched. split.
  - intros (He & a & c & Ha & Hc & Hev). rewrite Ha. simpl.
    rewrite <- (sh_objs _ _ Hs), Hc. simpl. rewrite Hev. by rewrite bool_decide_eq_false_2.
  - intros Hx. apply bind_Some in Hx as ([f e'] & (a & Ha & Hx)%bind_Some & He).
    case_bool_decide as Hz; [done|]. injection He as ->. split; [done|].
    destruct (shows_chan _ _ _ _ _ Hs Hx) as (c & Hc & _ & Hev). by exists a, c.
Qed.

Lemma watched_watches s w fd :
  shows s w -> is_Some (watched s fd) <-> exists e, watches (poller w) fd e.
Proof. intros Hs. split; intros [e He]; exists e; by apply (watches_watched s w fd e Hs). Qed.

(** What the loop may rely on after [poll]. *)
Definition poll_result (s : t) (w' : world P) (o : op) (active : list Z) : Prop :=
  forall ready, o = Poll ready -> NoDup active /\ (ready <> [] -> active <> []) /\
    forall a, a ∈ active -> exists fd r c, (fd, r) ∈ ready /\ reg s !! fd = Some a /\
      chans w' !! a = Some c /\ Channel.revents_ c = r.

(** A concrete step simulates an allowed abstract one. *)
Lemma step_simulates o s s' w :
  shows s w -> step o s = Some s' ->
  exists active w', run o w = Ok (active, w') /\ shows s' w' /\ poll_result s w' o active.
Proof.
  intros Hs Hstep. destruct o as [a fd|o a|a|ready]; simpl in Hstep.
  - case_bool_decide as Hc; [|done]. destruct Hc as [Ha Hfd]. injection Hstep as <-.
    eexists [], _. split; [reflexivity|]. split; [by apply new_simulates|done].
  - apply bind_Some in Hstep as ([fd e] & Ha & Hx). case_bool_decide as Hc; [|done]. injection Hx as <-.
    destruct (change_simulates o s w a fd e Hs Ha Hc) as (w' & ? & ?). by exists [], w'.
  - apply bind_Some in Hstep as ([fd e] & Ha & Hx). case_bool_decide as Hc; [|done]. injection Hx as <-.
    destruct Hc as [Hr ->]. destruct (remove_simulates s w a fd Hs Ha Hr) as (w' & ? & ?). by exists [], w'.
  - case_bool_decide as Hnd; simpl in Hstep; [|done]. destruct (forallb _ ready) eqn:Hall; [|done].
    injection Hstep as <-. rewrite forallb_forall in Hall.
    destruct (poll_ok w ready) as (w' & active & Hrun & Hi' & Hch & Hk & Hun & Hnda & Hne & Hact); [apply Hs|done| |].
    { intros fd r Hin. specialize (Hall (fd, r) (proj1 (list_elem_of_In _ _) Hin)). simpl in Hall.
      apply andb_prop in Hall as [H1 H2]. apply bool_decide_eq_true in H1. apply bool_decide_eq_true in H2.
      split; [done|]. by apply (watched_watches s w fd Hs). }
    exists active, w'. rewrite (sh_reg _ _ Hs) in *. split_and!; [done| |].
    + split.
      * done.
      * by rewrite Hch.
      * intros b. rewrite (objs_kept _ _ b Hk). apply Hs.
      * intros b c Hb Hc. rewrite Hun in Hc; [by eapply sh_fresh|]. intros fd. by eapply sh_unreg.
      * apply Hs.
      * apply Hs.
      * apply Hs.
    + intros ready' [= <-]. done.
Qed.

Fixpoint steps (l : list op) (s : t) : option t :=
  match l with [] => Some s | o :: l' => step o s ≫= steps l' end.

Fixpoint runs (l : list op) : W P unit :=
  match l with [] => mret tt | o :: l' => _ ← run o; runs l' end.

Lemma steps_simulate l s s' w :
  shows s w -> steps l s = Some s' -> exists w', runs l w = Ok (tt, w') /\ shows s' w'.
Proof.
  revert s w; induction l as [|o l IH]; intros s w Hs Hl; simpl in *.
  - injection Hl as <-. by exists w.
  - apply bind_Some in Hl as (s1 & Hs1 & Hl).
    destruct (step_simulates o s s1 w Hs Hs1) as (active & w1 & Hrun & Hs1' & _).
    rewrite (bind_run _ _ _ _ _ Hrun). by eapply IH.
Qed.
End client.

Lemma shows_init {P} `{PollerSpec P} (p : P) :
  pinv (mk_world ∅ p) -> channels_ p = ∅ -> shows init (mk_world ∅ p).
Proof.
  intros Hi Hch. split; simpl; try done.
Qed.

(** ** Disabling twice *)

(** No registered channel without events is disabled again. *)
Definition fresh_change (o : op) (s : t) : Prop :=
  match o with
  | Change o a => forall fd, objs s !! a = Some (fd, 0) -> ev_fun o 0 <> 0
  | _ => True
  end.

Fixpoint no_double_disable (l : list op) (s : t) : Prop :=
  match l with
  | [] => True
  | o :: l => fresh_change o s /\ forall s', step o s = Some s' -> no_double_disable l s'
  end.

Lemma run_no_idle o s s' (w w' : world EPollPoller.t) active :
  shows s w -> step o s = Some s' -> fresh_change o s -> run o w = Ok (active, w') ->
  EPollProofs.no_idle (poller w) -> EPollProofs.no_idle (poller w').
Proof.
  intros Hs Hstep Hfresh Hrun Hp. destruct o as [a fd|o a|a|ready].
  - cbn [run] in Hrun. injection Hrun as _ <-. done.
  - rewrite run_change in Hrun. destruct (set_events_and_update (ev_fun o) a w) as [[[] w1]|] eqn:E; [|done]. injection Hrun as _ <-.
    cbn [step] in Hstep. apply bind_Some in Hstep as ([fd e] & Ha & Hx). case_bool_decide as Hreg; [|done].
    destruct (shows_chan _ _ _ _ _ Hs Ha) as (c & Hc & Hf & He). rewrite (set_events_run _ a c) in E by done.
    refine (EPollProofs.updateChannel_no_idle _ _ a _ (lookup_insert_eq _ _ _) _ E Hp). cbn [Channel.set_added Channel.set_events Channel.events_ Channel.index_].
    destruct (decide (ev_fun o e = 0)) as [Hz|Hz]; [|by left; rewrite He]. right.
    destruct (decide (e = 0)) as [He0|Hne]; [rewrite He0 in Ha, Hz; by destruct (Hfresh fd Ha Hz)|].
    destruct Hreg as [Hreg|(_ & _ & ? & _)]; [|done].
    rewrite <- (sh_reg _ _ Hs), <- Hf in Hreg.
    destruct (EPollProofs.epoll_inv_channel _ _ _ _ (sh_inv _ _ Hs) Hreg Hc) as [_ [[? _]|(_ & H0 & _)]]; [done|congruence].
  - unfold run, mbind, st_bind in Hrun. destruct (channel_remove a w) as [[[] w1]|] eqn:E; [|done]. injection Hrun as _ <-.
    cbn [step] in Hstep. apply bind_Some in Hstep as ([fd e] & Ha & Hx). case_bool_decide as Hreg; [|done]. destruct Hreg as [_ ->].
    destruct (shows_chan _ _ _ _ _ Hs Ha) as (c & Hc & Hf & He). rewrite (remove_run a c) in E by done.
    exact (EPollProofs.removeChannel_no_idle _ _ a E Hp).
  - exact (EPollProofs.poll_no_idle w w' ready active Hrun Hp).
Qed.

Lemma runs_no_idle l s s' (w w' : world EPollPoller.t) :
  shows s w -> steps l s = Some s' -> no_double_disable l s -> runs l w = Ok (tt, w') ->
  EPollProofs.no_idle (poller w) -> EPollProofs.no_idle (poller w').
Proof.
  revert s w. induction l as [|o l IH]; intros s w Hs Hl Hnd Hrun Hp; cbn [steps runs no_double_disable] in *.
  - by injection Hrun as <-.
  - destruct Hnd as [Hfresh Hnext]. apply bind_Some in Hl as (s1 & Hs1 & Hl).
    destruct (step_simulates o s s1 w Hs Hs1) as (active & w1 & Hrun1 & Hs1' & _).
    rewrite (bind_run _ _ _ _ _ Hrun1) in Hrun. 
    exact (IH s1 w1 Hs1' Hl (Hnext s1 Hs1) Hrun (run_no_idle o s s1 w w1 active Hs Hs1 Hfresh Hrun1 Hp)).
Qed.

(** ** Properties *)

(** C7: the two pollers are interchangeable.  For every history of channels created,
    enabled, disabled and removed and of polls that keeps the contract of the interface,
    neither [PollPoller] nor [EPollPoller] fails an assertion, accesses its array out of
    bounds or gets an error from [epoll_ctl]; at the end both have the same channels
    registered and both have asked the kernel for the enabled events of the registered
    channels.  [PollPoller] asks for nothing else; in [EPollPoller]'s table each entry is a
    registered channel with its own events, and when no disabled channel has been disabled
    again (which adds it to the table without events, for errors and hang-ups), the table
    has the channels with enabled events only. *)
Theorem pollers_interchangeable l s :
  steps l init = Some s ->
  exists w1 w2,
    runs l (mk_world ∅ PollPoller.init) = Ok (tt, w1) /\
    runs l (mk_world ∅ EPollPoller.init) = Ok (tt, w2) /\
    PollPoller.channels (poller w1) = reg s /\ EPollPoller.channels (poller w2) = reg s /\
    (forall fd e, PollProofs.poll_watches (poller w1) fd e <-> watched s fd = Some e) /\
    (forall fd e, EPollProofs.epoll_watches (poller w2) fd e <-> watched s fd = Some e) /\
    (forall p, p ∈ PollPoller.pollfds_ (poller w1) -> 0 <= PollPoller.fd p ->
       watched s (PollPoller.fd p) = Some (PollPoller.events p)) /\
    (forall fd e a, EPollPoller.interest (poller w2) !! fd = Some (e, a) ->
       reg s !! fd = Some a /\ objs s !! a = Some (fd, e) /\ (no_double_disable l init -> watched s fd = Some e)).
Proof.
  intros Hl.
  assert (shows init (mk_world ∅ EPollPoller.init)) as Hinit2 by (apply shows_init; [apply EPollProofs.epoll_inv_init|done]).
  destruct (steps_simulate l init s (mk_world ∅ PollPoller.init)) as (w1 & Hr1 & Hs1);
    [by apply shows_init; [apply PollProofs.ppoll_inv_init|]|done|].
  destruct (steps_simulate l init s (mk_world ∅ EPollPoller.init)) as (w2 & Hr2 & Hs2); [done|done|].
  exists w1, w2. split_and!; [done|done|apply (sh_reg _ _ Hs1)|apply (sh_reg _ _ Hs2)| | | |].
  - intros fd e. exact (watches_watched s w1 fd e Hs1).
  - intros fd e. exact (watches_watched s w2 fd e Hs2).
  - intros p Hp H0. apply list_elem_of_lookup in Hp as [i Hp]. apply (watches_watched s w1 _ _ Hs1).
    destruct (PollProofs.inv_owner w1 i p (sh_inv _ _ Hs1) Hp) as (a & c & r & _ & _ & _ & -> & Hc0).
    unfold PollProofs.entry, Channel.isNoneEvent in *. cbn [PollPoller.fd PollPoller.events] in *.
    destruct (bool_decide_reflect (Channel.events_ c = Channel.kNoneEvent)) as [|He]; [lia|]. split; [done|]. split; [exact He|]. by exists i, r.
  - intros fd e a Hint. destruct (EPollProofs.interest_channel w2 fd e a (sh_inv _ _ Hs2) Hint) as (Hreg & c & Hc & Hf & He).
    pose proof (sh_reg _ _ Hs2) as Hch. cbn [channels_ EPollPoller_Poller] in Hch. rewrite Hch in Hreg.
    split_and!; [done| |].
    + rewrite <- (sh_objs _ _ Hs2), Hc. cbn [fmap option_fmap option_map]. by rewrite Hf, He.
    + intros Hnd. apply (watches_watched s w2 fd e Hs2). split; [|by exists a].
      assert (EPollProofs.no_idle (poller w2)) as Hidle; [|by eapply Hidle].
      eapply (runs_no_idle l init s); [exact Hinit2|done|done|exact Hr2|]. intros fd' e' a'. cbn [poller EPollPoller.init EPollPoller.interest]. by rewrite lookup_empty.
Qed.

(** polling, with any poller that keeps the interface, returns distinct registered
    channels, each with the events the kernel reports for its descriptor, at least one
    when there are any, and changes nothing of the channels but [revents_] (and the
    poller's [index_]). *)
Theorem poll_returns_ready {P} `{PollerSpec P} s w ready :
  shows s w -> step (Poll ready) s = Some s ->
  exists active w', poll ready w = Ok (active, w') /\ shows s w' /\
    NoDup active /\ (ready <> [] -> active <> []) /\
    forall a, a ∈ active -> exists fd r c, (fd, r) ∈ ready /\ reg s !! fd = Some a /\
      chans w' !! a = Some c /\ Channel.revents_ c = r.
Proof.
  intros Hs Hst. destruct (step_simulates _ _ _ _ Hs Hst) as (active & w' & Hrun & Hs' & Hp).
  exists active, w'. destruct (Hp ready eq_refl) as (? & ? & ?). done.
Qed.

(** the contract is needed, and the two pollers differ outside it.  Removing a channel
    that was disabled without ever having been enabled (what [~Acceptor] does to an
    acceptor that never listened) and enabling a removed channel again both fail an
    assertion of [PollPoller], and both are accepted by [EPollPoller]; and disabling a
    disabled channel again makes [EPollPoller] add it to the kernel's table, without
    events, so that errors and hang-ups of its descriptor are reported. *)
Theorem poller_contract_is_needed :
  (let l := [NewChannel 1 5; Change DisableAll 1; Remove 1] in
   runs l (mk_world ∅ PollPoller.init) = Fail AssertionFailed /\
   is_ok (runs l (mk_world ∅ EPollPoller.init))) /\
  (let l := [NewChannel 1 5; Change EnableReading 1; Change DisableAll 1; Remove 1; Change EnableReading 1] in
   runs l (mk_world ∅ PollPoller.init) = Fail AssertionFailed /\
   is_ok (runs l (mk_world ∅ EPollPoller.init))) /\
  (exists w, runs [NewChannel 1 5; Change EnableReading 1; Change DisableReading 1; Change DisableAll 1]
      (mk_world ∅ EPollPoller.init) = Ok (tt, w) /\
    EPollPoller.interest (poller w) !! 5 = Some (0, 1)).
Proof.
  split; [|split].
  - split; [by vm_compute|]. eexists. vm_compute. reflexivity.
  - split; [by vm_compute|]. eexists. vm_compute. reflexivity.
  - eexists. split; [vm_compute; reflexivity|]. by vm_compute.
Qed.

(** ** Witnesses *)

Definition ex_history : list op :=
  [NewChannel 1 5; NewChannel 2 7; NewChannel 3 9; Change EnableReading 1; Change EnableReading 2;
   Change EnableWriting 3; Poll [(7, 1); (9, 4)]; Change DisableAll 1; Remove 1].

Lemma pollers_interchangeable_witness :
  exists s w1 w2, steps ex_history init = Some s /\
    runs ex_history (mk_world ∅ PollPoller.init) = Ok (tt, w1) /\
    runs ex_history (mk_world ∅ EPollPoller.init) = Ok (tt, w2) /\
    watched s 9 = Some 4 /\ PollProofs.poll_watches (poller w1) 9 4 /\
    EPollProofs.epoll_watches (poller w2) 9 4 /\ EPollPoller.interest (poller w2) !! 5 = None.
Proof.
  destruct (steps ex_history init) as [s|] eqn:Hs; [|by vm_compute in Hs].
  destruct (pollers_interchangeable ex_history s Hs) as (w1 & w2 & H1 & H2 & _ & _ & H3 & H4 & _ & H5).
  exists s, w1, w2. assert (watched s 9 = Some 4 /\ reg s !! 5 = None) as [Hw Hr] by (vm_compute in Hs; injection Hs as <-; by vm_compute).
  split_and!; [done|done|done|done|by apply H3|by apply H4|].
  destruct (EPollPoller.interest (poller w2) !! 5) as [[e a]|] eqn:E; [|done]. destruct (H5 5 e a E) as [? _]. congruence.
Defined.

Lemma poll_returns_ready_witness :
  exists s (w : world EPollPoller.t), shows s w /\ step (Poll [(7, 1)]) s = Some s /\
    exists active w', poll [(7, 1)] w = Ok (active, w') /\ active <> [].
Proof.
  destruct (steps [NewChannel 2 7; Change EnableReading 2] init) as [s|] eqn:Hs; [|by vm_compute in Hs].
  assert (shows init (mk_world ∅ EPollPoller.init)) as Hsh by (by apply shows_init; [apply EPollProofs.epoll_inv_init|]).
  destruct (steps_simulate _ init s _ Hsh Hs) as (w & _ & Hw).
  assert (step (Poll [(7, 1)]) s = Some s) as Hst by (vm_compute in Hs; injection Hs as <-; by vm_compute).
  exists s, w. split_and!; [done|done|].
  destruct (poll_returns_ready s w [(7, 1)] Hw Hst) as (active & w' & Hp & _ & _ & Hne & _).
  exists active, w'. split; [done|]. by apply Hne.
Defined.

End Client.
