(* ===== verification/Codec.v ===== *)
(** Messages on a byte stream ([muduo/net/protobuf/ProtobufCodecLite.*], and the codec of the
    chat example, [examples/asio/chat/codec.h]).

    A codec puts a length in front of each message and takes whole messages out of a
    connection's input [Buffer] however the bytes arrive.  [Module Framing] is what the
    codecs share.  Protobuf's serialisation and [adler32] are parameters. *)
From S2P Require Import Prelude Endian NetBuffer.
Open Scope Z_scope.

(** ** Framing *)

Module Framing.

(** What the first bytes of a stream are: an incomplete frame, a frame of [n] bytes with
    its effects, or something that ends the decoding. *)
Inductive step (E : Type) :=
  | Wait
  | Frame (out : list E) (n : nat)
  | Stop (out : list E).
Arguments Wait {E}.
Arguments Frame {E} out n.
Arguments Stop {E} out.

Lemma concat_map_singleton {A B} (f : A -> B) l : concat (map (fun a => [f a]) l) = map f l.
Proof. induction l as [|a l IH]; [done|]. simpl. by rewrite IH. Qed.

Section framing.
Context {E : Type} (decode1 : bytes -> step E).

(** A frame is not empty and is decided by its own bytes. *)
Class Laws : Prop := {
  frame_length c o n : decode1 c = Frame o n -> (0 < n <= length c)%nat;
  frame_app c d o n : decode1 c = Frame o n -> decode1 (c ++ d) = Frame o n
}.

(** The effects of a stream and what is left of it. *)
Fixpoint decode_loop (fuel : nat) (c : bytes) : list E * bytes :=
  match fuel with
  | O => ([], c)
  | S fuel =>
      match decode1 c with
      | Wait => ([], c)
      | Stop o => (o, c)
      | Frame o n => let '(o', rest) := decode_loop fuel (drop n c) in (o ++ o', rest)
      end
  end.
Definition decode (c : bytes) : list E * bytes := decode_loop (S (length c)) c.

Lemma decode_fuel `{Laws} f1 f2 c :
  (length c < f1)%nat -> (length c < f2)%nat -> decode_loop f1 c = decode_loop f2 c.
Proof.
  revert f2 c; induction f1 as [|f1 IH]; intros [|f2] c H1 H2; [lia..|]. simpl.
  destruct (decode1 c) as [|o n|o] eqn:E1; [done| |done]. pose proof (frame_length _ _ _ E1) as Hn.
  rewrite (IH f2); [done|rewrite length_drop; lia..].
Qed.

(** What the encoder writes for an item, and the item's effects. *)
Context {A : Type} (enc : A -> bytes) (out : A -> list E).

Definition decodable (a : A) : Prop :=
  (forall d, decode1 (enc a ++ d) = Frame (out a) (length (enc a))) /\
  (forall c d, enc a = c ++ d -> d <> [] -> decode1 c = Wait).

Abbreviation stream l := (concat (map enc l)).

(** Any part of a stream of items is decoded to its whole items. *)
Lemma decode_prefix `{Laws} l c later :
  Forall decodable l -> (forall a, a ∈ l -> enc a <> []) -> decode1 [] = Wait -> c ++ later = stream l ->
  exists l1 l2 rest, l = l1 ++ l2 /\ decode c = (concat (map out l1), rest) /\ rest ++ later = stream l2 /\
    (later = [] -> l2 = []).
Proof.
  intros Hl Hne H0. revert c. induction Hl as [|a l [Ha Hpart] Hl IH]; intros c Hc; simpl in Hc.
  - apply app_eq_nil in Hc as [-> ->]. exists [], [], []. unfold decode. simpl. rewrite H0. done.
  - destruct (decide (length (enc a) <= length c)%nat) as [Hle|Hgt].
    + assert (c = enc a ++ drop (length (enc a)) c) as Hsplit.
      { rewrite <- (take_drop (length (enc a)) c) at 1. f_equal.
        apply (f_equal (take (length (enc a)))) in Hc. rewrite take_app_le, take_app_length in Hc by done. done. }
      set (c2 := drop (length (enc a)) c) in *. clearbody c2. subst c. rewrite <- app_assoc in Hc. apply app_inv_head in Hc.
      destruct (IH ltac:(intros; apply Hne; by apply list_elem_of_further) c2 Hc) as (l1 & l2 & rest & -> & Hdec & Hrest & Hend).
      exists (a :: l1), l2, rest. split_and!; try done. unfold decode. cbn [decode_loop]. rewrite Ha, drop_app_length.
      assert (enc a <> []) as Hn by (apply Hne, list_elem_of_here).
      rewrite (decode_fuel _ (S (length c2))); [|rewrite length_app; destruct (enc a); simpl in *; [done|lia]|lia].
      unfold decode in Hdec. rewrite Hdec. done.
    + assert (enc a = c ++ drop (length c) (enc a) /\ drop (length c) (enc a) <> []) as [Hsplit Hd].
      { split.
        - rewrite <- (take_drop (length c) (enc a)) at 1. f_equal.
          apply (f_equal (take (length c))) in Hc. rewrite take_app_length, take_app_le in Hc by lia. done.
        - intros Hd. apply (f_equal length) in Hd. rewrite length_drop in Hd. simpl in Hd. lia. }
      exists [], (a :: l), c. split_and!; try done.
      * unfold decode. cbn [decode_loop]. by rewrite (Hpart _ _ Hsplit Hd).
      * intros ->. rewrite app_nil_r in Hc. subst c. rewrite length_app in Hgt. lia.
Qed.

(** ** On a buffer *)

(** A message callback that does to its buffer what [decode] does to the bytes. *)
Definition decodes (onMessage : Buffer.t -> res (list E * Buffer.t)) : Prop :=
  forall b, Buffer.wf b -> exists b', onMessage b = Ok ((decode (Buffer.content b)).1, b') /\ Buffer.wf b' /\
    Buffer.content b' = (decode (Buffer.content b)).2 /\ lenZ (Buffer.buffer_ b') = lenZ (Buffer.buffer_ b).

(** Each chunk that arrives is appended to the buffer, and the callback is called. *)
Fixpoint feed (onMessage : Buffer.t -> res (list E * Buffer.t)) (chunks : list bytes) (b : Buffer.t) : res (list E * Buffer.t) :=
  match chunks with
  | [] => mret ([], b)
  | d :: chunks =>
      b ← Buffer.append d (lenZ d) b;
      '(o, b) ← onMessage b;
      '(o', b) ← feed onMessage chunks b;
      mret (o ++ o', b)
  end.

Lemma feed_delivers `{Laws} onMessage l chunks b :
  decodes onMessage -> Forall decodable l -> (forall a, a ∈ l -> enc a <> []) -> decode1 [] = Wait ->
  Buffer.wf b -> Buffer.content b ++ concat chunks = stream l ->
  (Buffer.content b = [] \/ chunks <> []) ->
  lenZ (Buffer.buffer_ b) + lenZ (concat chunks) <= vector_max_size ->
  exists b', feed onMessage chunks b = Ok (concat (map out l), b') /\ Buffer.wf b' /\ Buffer.content b' = [].
Proof.
  intros Hdec Hl Hne H0. revert l Hl Hne b. induction chunks as [|d chunks IH]; intros l Hl Hne b Hwf Hc Hlast Hmem; simpl.
  - rewrite app_nil_r in Hc. destruct Hlast as [Hn|]; [|done]. rewrite Hn in Hc.
    assert (l = []) as ->. { destruct l as [|a l]; [done|]. symmetry in Hc. apply app_eq_nil in Hc as [Hc _]. by destruct (Hne a (list_elem_of_here _ _)). }
    by exists b.
  - simpl in Hmem. rewrite lenZ_app in Hmem. pose proof (lenZ_nonneg (concat chunks)).
    destruct (Buffer.append_spec d b Hwf ltac:(lia)) as (b1 & -> & Hwf1 & Hc1 & _ & Hlen1). simpl.
    destruct (Hdec b1 Hwf1) as (b2 & -> & Hwf2 & Hc2 & Hlen2). simpl.
    simpl in Hc. rewrite app_assoc, <- Hc1 in Hc.
    destruct (decode_prefix l _ _ Hl Hne H0 Hc) as (l1 & l2 & rest & -> & Hd & Hrest & Hend).
    rewrite Hd in Hc2 |- *. simpl in Hc2 |- *. apply list.Forall_app in Hl as [_ Hl2].
    destruct (IH l2 Hl2) with (b := b2) as (b3 & -> & Hwf3 & Hc3); try done.
    + intros a Ha. apply Hne. apply elem_of_app. by right.
    + by rewrite Hc2.
    + destruct chunks as [|d2 chunks]; [left|by right]. simpl in Hrest. rewrite (Hend eq_refl), app_nil_r in Hrest. by rewrite Hc2.
    + lia.
    + exists b3. simpl. by rewrite map_app, concat_app.
Qed.
(** ** A loop over rounds *)

(** A round says whether the loop goes on, what it calls, and what is left of the buffer. *)
Abbreviation round_of := (Buffer.t -> res (bool * list E * Buffer.t)).

Fixpoint step_loop (step : round_of) (fuel : nat) (buf : Buffer.t) : res (list E * Buffer.t) :=
  match fuel with
  | O => Fail NoEnd
  | S fuel =>
      '(more, o, buf) ← step buf;
      if more : bool then '(o', buf) ← step_loop step fuel buf; mret (o ++ o', buf) else mret (o, buf)
  end.

(** Rounds that do what [decode1] says of the bytes, on the buffers of [I]. *)
Definition rounds (I : Buffer.t -> Prop) (step : round_of) : Prop :=
  forall b, Buffer.wf b -> I b ->
  match decode1 (Buffer.content b) with
  | Wait => step b = Ok (false, [], b)
  | Stop o => step b = Ok (false, o, b)
  | Frame o n => exists b', step b = Ok (true, o, b') /\ Buffer.wf b' /\ I b' /\
      Buffer.content b' = drop n (Buffer.content b) /\ lenZ (Buffer.buffer_ b') = lenZ (Buffer.buffer_ b)
  end.

Lemma step_loop_decodes `{Laws} I step b :
  rounds I step -> Buffer.wf b -> I b -> exists b',
    step_loop step (S (Z.to_nat (Buffer.readableBytes b))) b = Ok ((decode (Buffer.content b)).1, b') /\ Buffer.wf b' /\ I b' /\
    Buffer.content b' = (decode (Buffer.content b)).2 /\ lenZ (Buffer.buffer_ b') = lenZ (Buffer.buffer_ b).
Proof.
  intros Hstep. assert (forall fuel b, Buffer.wf b -> I b -> (length (Buffer.content b) < fuel)%nat -> exists b',
    step_loop step fuel b = Ok ((decode (Buffer.content b)).1, b') /\ Buffer.wf b' /\ I b' /\
    Buffer.content b' = (decode (Buffer.content b)).2 /\ lenZ (Buffer.buffer_ b') = lenZ (Buffer.buffer_ b)) as Hgo.
  { induction fuel as [|fuel IH]; intros b1 Hwf HI Hf; [lia|]. cbn [step_loop].
    pose proof (Hstep b1 Hwf HI) as Hs. unfold decode. cbn [decode_loop].
    destruct (decode1 (Buffer.content b1)) as [|o n|o] eqn:E1.
    - rewrite Hs. by exists b1.
    - destruct Hs as (b2 & -> & Hwf2 & HI2 & Hc2 & Hl2). cbn [mbind res_bind]. pose proof (frame_length _ _ _ E1) as Hn.
      destruct (IH b2 Hwf2 HI2) as (b' & -> & Hwf' & HI' & Hc' & Hl'); [rewrite Hc2, length_drop; lia|].
      rewrite Hc2 in *. unfold decode in *.
      rewrite (decode_fuel (length (Buffer.content b1)) (S (length (drop n (Buffer.content b1))))) by (rewrite ?length_drop; lia).
      destruct (decode_loop _ (drop n (Buffer.content b1))) as [o' rest]. exists b'.
      split_and!; [done|done|done|done|by rewrite Hl'].
    - rewrite Hs. by exists b1. }
  intros Hwf HI. apply Hgo; [done|done|]. rewrite Buffer.readable_content by done. unfold lenZ. lia.
Qed.

Lemma step_loop_stop I step n b o :
  rounds I step -> Buffer.wf b -> I b -> decode1 (Buffer.content b) = Stop o -> step_loop step (S n) b = Ok (o, b).
Proof. intros Hstep Hwf HI Ho. cbn [step_loop]. pose proof (Hstep b Hwf HI) as Hs. rewrite Ho in Hs. by rewrite Hs. Qed.
End framing.
End Framing.

(** ** ProtobufCodecLite *)

Module ProtobufCodecLite.

Definition kHeaderLen : Z := 4.
Definition kChecksumLen : Z := 4.
Definition kMaxMessageLen : Z := 64 * 1024 * 1024.

Inductive ErrorCode := kNoError | kInvalidLength | kCheckSumError | kInvalidNameLen | kUnknownMessageType | kParseError.

Definition errorCodeToString (errorCode : ErrorCode) : bytes :=
  match errorCode with
  | kNoError => bs "NoError"
  | kInvalidLength => bs "InvalidLength"
  | kCheckSumError => bs "CheckSumError"
  | kInvalidNameLen => bs "InvalidNameLen"
  | kUnknownMessageType => bs "UnknownMessageType"
  | kParseError => bs "ParseError"
  end.

Section codec.
(** Protobuf: the bytes of a message, and the message of some bytes. *)
Context {Msg : Type} (SerializeToArray : Msg -> bytes) (ParseFromArray : bytes -> option Msg).
(** [adler32(1, ...)] of zlib, a [uLong]. *)
Context (adler32 : bytes -> Z).
(** The members [tag_] and [rawCb_] ([None]: none is installed). *)
Context (tag_ : bytes) (rawCb_ : option (bytes -> bool)).

Definition kMinMessageLen : Z := lenZ tag_ + kChecksumLen.

(** A pointer is the memory from it to the end of its object. *)
Definition asInt32 (buf : bytes) : res Z :=
  _ ← check OutOfBounds (bool_decide (4 <= lenZ buf));
  mret (swrap 32 (networkToHost32 (of_mem_s (take 4 buf)))).

Definition checksum (buf : bytes) (len : Z) : res Z :=
  _ ← check OutOfBounds (bool_decide (0 <= len <= lenZ buf));
  mret (swrap 32 (adler32 (take (Z.to_nat len) buf))).

Definition validateChecksum (buf : bytes) (len : Z) : res bool :=
  _ ← check OutOfBounds (bool_decide (0 <= len - kChecksumLen));
  expectedCheckSum ← asInt32 (drop (Z.to_nat (len - kChecksumLen)) buf);
  checkSum ← checksum buf (len - kChecksumLen);
  mret (bool_decide (checkSum = expectedCheckSum)).

Definition parse (buf : bytes) (len : Z) : res (ErrorCode * option Msg) :=
  valid ← validateChecksum buf len;
  if valid : bool then
    c ← memcmp (lenZ tag_) buf tag_;
    if bool_decide (c = 0) then
      let data := drop (length tag_) buf in
      let dataLen := len - kChecksumLen - lenZ tag_ in
      match ParseFromArray (take (Z.to_nat dataLen) data) with
      | Some message => mret (kNoError, Some message)
      | None => mret (kParseError, None)
      end
    else mret (kUnknownMessageType, None)
  else mret (kCheckSumError, None).

(** The callbacks [onMessage] calls; neither touches the buffer. *)
Inductive effect := MessageCallback (message : Msg) | ErrorCallback (errorCode : ErrorCode).

(** One round of the loop of [onMessage]: whether it goes on, what it calls, the buffer. *)
Definition onMessage_step (buf : Buffer.t) : res (bool * list effect * Buffer.t) :=
  if bool_decide (Buffer.readableBytes buf >= kMinMessageLen + kHeaderLen) then
    len ← Buffer.peekInt32 buf;
    if bool_decide (len > kMaxMessageLen) || bool_decide (len < kMinMessageLen) then
      mret (false, [ErrorCallback kInvalidLength], buf)
    else if bool_decide (Buffer.readableBytes buf >= kHeaderLen + len) then
      frame ← Buffer.range (Buffer.peek buf) (Buffer.peek buf + (kHeaderLen + len)) buf;
      if match rawCb_ with Some f => negb (f frame) | None => false end then
        buf ← Buffer.retrieve (kHeaderLen + len) buf;
        mret (true, [], buf)
      else
        r ← parse (drop (Z.to_nat (Buffer.peek buf + kHeaderLen)) (Buffer.buffer_ buf)) len;
        match r with
        | (kNoError, Some message) =>
            buf ← Buffer.retrieve (kHeaderLen + len) buf;
            mret (true, [MessageCallback message], buf)
        | (errorCode, _) => mret (false, [ErrorCallback errorCode], buf)
        end
    else mret (false, [], buf)
  else mret (false, [], buf).

Definition onMessage_loop : nat -> Buffer.t -> res (list effect * Buffer.t) := Framing.step_loop onMessage_step.

(** Each round that goes on takes bytes out. *)
Definition onMessage (buf : Buffer.t) : res (list effect * Buffer.t) :=
  onMessage_loop (S (Z.to_nat (Buffer.readableBytes buf))) buf.

Definition serializeToBuffer (message : Msg) (buf : Buffer.t) : res (Z * Buffer.t) :=
  let data := SerializeToArray message in
  let byte_size := lenZ data in
  buf ← Buffer.ensureWritableBytes (byte_size + kChecksumLen) buf;
  mem ← copy_to (Buffer.beginWrite buf) data (Buffer.buffer_ buf);
  buf ← Buffer.hasWritten byte_size (Buffer.mk mem (Buffer.readerIndex_ buf) (Buffer.writerIndex_ buf));
  mret (byte_size, buf).

Definition fillEmptyBuffer (message : Msg) (buf : Buffer.t) : res Buffer.t :=
  _ ← assert_ (bool_decide (Buffer.readableBytes buf = 0));
  buf ← Buffer.append tag_ (lenZ tag_) buf;
  '(byte_size, buf) ← serializeToBuffer message buf;
  checkSum ← checksum (drop (Z.to_nat (Buffer.peek buf)) (Buffer.buffer_ buf)) (swrap 32 (Buffer.readableBytes buf));
  buf ← Buffer.appendInt32 checkSum buf;
  _ ← assert_ (bool_decide (Buffer.readableBytes buf = lenZ tag_ + byte_size + kChecksumLen));
  let len := hostToNetwork32 (swrap 32 (Buffer.readableBytes buf)) in
  Buffer.prepend (to_mem 4 (swrap 32 len)) 4 buf.

(** [send]: the bytes handed to the connection. *)
Definition send (message : Msg) : res bytes :=
  buf ← Buffer.Buffer Buffer.kInitialSize;
  buf ← fillEmptyBuffer message buf;
  Buffer.range (Buffer.peek buf) (Buffer.beginWrite buf) buf.

(** ** The wire format *)

Definition body (message : Msg) : bytes := tag_ ++ SerializeToArray message.
Definition frame (message : Msg) : bytes :=
  be_bytes 4 (lenZ (body message) + 4) ++ body message ++ be_bytes 4 (swrap 32 (adler32 (body message))).

(** What the codec can carry. *)
Definition fits (message : Msg) : Prop := lenZ (body message) + 4 <= kMaxMessageLen.

Lemma lenZ_frame message : lenZ (frame message) = lenZ (body message) + 8.
Proof. unfold frame. rewrite !lenZ_app, !lenZ_be_bytes. lia. Qed.

Lemma lenZ_body_fits message : fits message -> 0 <= lenZ (body message) < 2 ^ 31 - 4.
Proof. unfold fits, kMaxMessageLen. pose proof (lenZ_nonneg (body message)). lia. Qed.

Lemma swrap32_in x : s_in 32 (swrap 32 x).
Proof. apply swrap_in. lia. Qed.

(** ** Sending *)

Lemma serialize_spec message b :
  Buffer.wf b -> lenZ (Buffer.buffer_ b) + lenZ (SerializeToArray message) + 4 <= vector_max_size ->
  exists b', serializeToBuffer message b = Ok (lenZ (SerializeToArray message), b') /\ Buffer.wf b' /\
    Buffer.content b' = Buffer.content b ++ SerializeToArray message /\
    Z.min 8 (Buffer.readerIndex_ b) <= Buffer.readerIndex_ b' /\
    lenZ (Buffer.buffer_ b') <= lenZ (Buffer.buffer_ b) + lenZ (SerializeToArray message) + 4.
Proof.
  intros Hwf Hmem. set (data := SerializeToArray message) in *. pose proof (lenZ_nonneg data) as Hd. unfold serializeToBuffer. fold data.
  unfold kChecksumLen. destruct (Buffer.ensureWritable_spec (lenZ data + 4) b Hwf) as (b1 & -> & Hwf1 & Hc1 & Hw1 & Hr1 & Hl1); [lia..|].
  cbn [mbind res_bind]. destruct (Buffer.write_tail_spec data b1 Hwf1) as (Hcopy & Hwf2 & Hc2 & Hl2); [lia|].
  unfold Buffer.beginWrite. rewrite Hcopy. cbn [mbind res_bind]. unfold Buffer.hasWritten.
  rewrite check_true.
  2: { apply bool_decide_eq_true. unfold Buffer.writableBytes in *. cbn [Buffer.buffer_ Buffer.writerIndex_] in *. rewrite Hl2. lia. }
  cbn [mbind res_bind Buffer.buffer_ Buffer.readerIndex_ Buffer.writerIndex_].
  destruct Hwf2 as (Hx1 & Hx2 & Hx3). cbn [Buffer.buffer_ Buffer.readerIndex_ Buffer.writerIndex_] in *.
  unfold vector_max_size in *. pose proof Hwf1 as (? & ? & ?).
  rewrite size_add_small by lia. eexists. split; [reflexivity|]. split; [by split; [|split]|]. cbn [Buffer.buffer_ Buffer.readerIndex_] in *.
  rewrite Hc2, Hc1. split_and!; try done. lia.
Qed.

(** The memory from [peek] on starts with the content. *)
Lemma region_content b : Buffer.wf b ->
  exists tail, drop (Z.to_nat (Buffer.peek b)) (Buffer.buffer_ b) = Buffer.content b ++ tail.
Proof.
  intros (? & ? & ?). exists (drop (Z.to_nat (Buffer.writerIndex_ b)) (Buffer.buffer_ b)).
  unfold Buffer.content, slice, Buffer.peek.
  rewrite <- (take_drop (Z.to_nat (Buffer.writerIndex_ b - Buffer.readerIndex_ b)) (drop (Z.to_nat (Buffer.readerIndex_ b)) _)) at 1.
  f_equal. rewrite drop_drop. f_equal. lia.
Qed.

Lemma fillEmptyBuffer_spec message b :
  fits message -> Buffer.wf b -> Buffer.content b = [] -> Buffer.readerIndex_ b = 8 -> lenZ (Buffer.buffer_ b) <= 2 ^ 40 ->
  exists b', fillEmptyBuffer message b = Ok b' /\ Buffer.wf b' /\ Buffer.content b' = frame message.
Proof.
  intros Hfit Hwf Hc Hr Hlen. pose proof (lenZ_body_fits message Hfit) as Hb. unfold body in Hb. rewrite lenZ_app in Hb.
  pose proof (lenZ_nonneg tag_). pose proof (lenZ_nonneg (SerializeToArray message)).
  assert (lenZ tag_ + lenZ (SerializeToArray message) + 4 < 2 ^ 31) as H31 by lia. clear Hb.
  unfold fillEmptyBuffer. rewrite check_true by (apply bool_decide_eq_true; rewrite Buffer.readable_content, Hc by done; done).
  cbn [mbind res_bind]. unfold vector_max_size in *.
  destruct (Buffer.append_spec tag_ b Hwf) as (b1 & -> & Hwf1 & Hc1 & Hr1 & Hl1); [unfold vector_max_size; lia|]. cbn [mbind res_bind].
  destruct (serialize_spec message b1 Hwf1) as (b2 & -> & Hwf2 & Hc2 & Hr2 & Hl2); [unfold vector_max_size; lia|]. cbn [mbind res_bind].
  rewrite Hc1, Hc in Hc2. simpl in Hc2. fold (body message) in Hc2.
  assert (Buffer.readableBytes b2 = lenZ (body message)) as Hread by by rewrite Buffer.readable_content, Hc2.
  assert (0 <= lenZ (body message) < 2 ^ 31 - 4) as Hb by (unfold body; rewrite lenZ_app; lia).
  rewrite Hread, swrap_small by (unfold s_in; lia).
  destruct (region_content b2 Hwf2) as [tail Htail]. rewrite Hc2 in Htail. unfold checksum. rewrite Htail.
  rewrite check_true by (apply bool_decide_eq_true; rewrite lenZ_app; pose proof (lenZ_nonneg tail); lia).
  cbn [mbind res_bind mret res_ret].
  replace (Z.to_nat (lenZ (body message))) with (length (body message)) by (unfold lenZ; lia). rewrite take_app_length.
  set (c := swrap 32 (adler32 (body message))).
  unfold Buffer.appendInt32. destruct (Buffer.int_wire c) as (_ & -> & _).
  destruct (Buffer.append_spec (be_bytes 4 c) b2 Hwf2) as (b3 & Happ & Hwf3 & Hc3 & Hr3 & Hl3).
  { rewrite lenZ_be_bytes. unfold vector_max_size. lia. }
  rewrite lenZ_be_bytes in Happ. change (Z.of_nat 4) with 4 in Happ. rewrite Happ. cbn [mbind res_bind].
  rewrite Hc2 in Hc3.
  assert (Buffer.readableBytes b3 = lenZ (body message) + 4) as Hread3 by (rewrite Buffer.readable_content, Hc3, lenZ_app, lenZ_be_bytes by done; lia).
  rewrite Hread3. rewrite check_true by (apply bool_decide_eq_true; unfold body, kChecksumLen; rewrite lenZ_app; lia).
  cbn [mbind res_bind]. rewrite (swrap_small 32 (lenZ (body message) + 4)) by (unfold s_in; lia).
  destruct (Buffer.int_wire (lenZ (body message) + 4)) as (_ & -> & _).
  destruct (Buffer.prepend_spec (be_bytes 4 (lenZ (body message) + 4)) b3 Hwf3) as (b4 & Hpre & Hwf4 & Hc4 & _).
  { rewrite lenZ_be_bytes. lia. }
  rewrite lenZ_be_bytes in Hpre. change (Z.of_nat 4) with 4 in Hpre. rewrite Hpre. exists b4. split_and!; [done..|].
  by rewrite Hc4, Hc3.
Qed.

Lemma codec_send_spec message : fits message -> send message = Ok (frame message).
Proof.
  intros Hfit. unfold send. destruct (Buffer.Buffer_spec Buffer.kInitialSize) as (b & -> & Hwf & Hc & Hr & _ & Hl);
    [unfold Buffer.kInitialSize; lia|unfold Buffer.kInitialSize, vector_max_size; lia|]. cbn [mbind res_bind].
  destruct (fillEmptyBuffer_spec message b Hfit Hwf Hc Hr) as (b' & -> & Hwf' & Hc'); [rewrite Hl; unfold Buffer.kInitialSize; lia|].
  cbn [mbind res_bind]. by rewrite Buffer.range_content, Hc'.
Qed.

(** ** Receiving *)

Definition int_of (c : bytes) : Z := swrap 32 (networkToHost32 (of_mem_s (take 4 c))).

Lemma int_of_be x c : s_in 32 x -> int_of (be_bytes 4 x ++ c) = x.
Proof. intros Hx. unfold int_of. destruct (Buffer.int_image 4 32 x c) as (-> & _ & Hv); [lia|done|done|exact Hv]. Qed.

(** [parse] of a whole frame without its length. *)
Definition parse_frame (fb : bytes) : ErrorCode * option Msg :=
  let n := (length fb - 4)%nat in
  if decide (swrap 32 (adler32 (take n fb)) = int_of (drop n fb)) then
    if decide (take (length tag_) fb = tag_) then
      match ParseFromArray (drop (length tag_) (take n fb)) with
      | Some message => (kNoError, Some message)
      | None => (kParseError, None)
      end
    else (kUnknownMessageType, None)
  else (kCheckSumError, None).

Lemma parse_spec buf len :
  kMinMessageLen <= len -> len <= lenZ buf -> parse buf len = Ok (parse_frame (take (Z.to_nat len) buf)).
Proof.
  unfold kMinMessageLen, kChecksumLen. pose proof (lenZ_nonneg tag_). intros Hmin Hlen.
  unfold parse, validateChecksum, asInt32, checksum, kChecksumLen.
  assert (length (take (Z.to_nat len) buf) = Z.to_nat len) as Hlt by (rewrite length_take; unfold lenZ in *; lia).
  rewrite !(check_true OutOfBounds); [|apply bool_decide_eq_true..]; [|lia| |lia].
  2: { unfold lenZ in *. rewrite length_drop. lia. }
  cbn [mbind res_bind mret res_ret]. unfold parse_frame. rewrite Hlt. cbv zeta.
  assert (Z.to_nat len - 4 = Z.to_nat (len - 4))%nat as -> by lia.
  rewrite take_take, Nat.min_l by lia.
  assert (int_of (drop (Z.to_nat (len - 4)) (take (Z.to_nat len) buf)) =
    swrap 32 (networkToHost32 (of_mem_s (take 4 (drop (Z.to_nat (len - 4)) buf))))) as ->.
  { unfold int_of. rewrite skipn_firstn_comm, take_take. do 4 f_equal. lia. }
  case_decide as Hsum; [rewrite bool_decide_eq_true_2 by done|by rewrite bool_decide_eq_false_2 by done].
  rewrite take_take, Nat.min_l by (unfold lenZ in *; lia).
  unfold memcmp. rewrite check_true by (apply andb_true_intro; split; apply bool_decide_eq_true; lia).
  cbn [mbind res_bind mret res_ret]. replace (Z.to_nat (lenZ tag_)) with (length tag_) by (unfold lenZ; lia).
  destruct (bool_decide_reflect (bytes_cmp (length tag_) buf tag_ = 0)) as [Hz|Hz];
    rewrite bytes_cmp_eq, firstn_all in Hz by (unfold lenZ in *; lia).
  - rewrite decide_True by done. assert (take (Z.to_nat (len - 4 - lenZ tag_)) (drop (length tag_) buf) =
      drop (length tag_) (take (Z.to_nat (len - 4)) buf)) as ->.
    { rewrite skipn_firstn_comm. f_equal. unfold lenZ. lia. }
    by destruct (ParseFromArray _).
  - by rewrite decide_False by done.
Qed.


Definition wanted (frame : bytes) : bool := match rawCb_ with Some f => f frame | None => true end.

(** What the codec makes of the first bytes of a stream. *)
Definition decode1 (c : bytes) : Framing.step effect :=
  if decide (lenZ c < kMinMessageLen + kHeaderLen) then Framing.Wait
  else
    let len := int_of c in
    if decide (kMinMessageLen <= len <= kMaxMessageLen) then
      if decide (kHeaderLen + len <= lenZ c) then
        if wanted (take (Z.to_nat (kHeaderLen + len)) c) then
          match parse_frame (take (Z.to_nat len) (drop 4 c)) with
          | (kNoError, Some message) => Framing.Frame [MessageCallback message] (Z.to_nat (kHeaderLen + len))
          | (errorCode, _) => Framing.Stop [ErrorCallback errorCode]
          end
        else Framing.Frame [] (Z.to_nat (kHeaderLen + len))
      else Framing.Wait
    else Framing.Stop [ErrorCallback kInvalidLength].

#[export] Instance codec_laws : Framing.Laws decode1.
Proof.
  split.
  - intros c o n. unfold decode1, kHeaderLen, kMinMessageLen, kChecksumLen. pose proof (lenZ_nonneg tag_).
    repeat case_decide; try done. destruct (wanted _); [destruct (parse_frame _) as [[] [m|]]; try done|];
      intros [= <- <-]; unfold lenZ in *; lia.
  - intros c d o n. unfold decode1, kHeaderLen, kMinMessageLen, kChecksumLen. pose proof (lenZ_nonneg tag_). pose proof (lenZ_nonneg d).
    destruct (decide (lenZ c < lenZ tag_ + 4 + 4)) as [H1|H1]; [done|].
    assert (int_of (c ++ d) = int_of c) as -> by (unfold int_of; rewrite take_app_le; [done|unfold lenZ in *; lia]).
    rewrite (decide_False (P := lenZ (c ++ d) < lenZ tag_ + 4 + 4)) by (rewrite lenZ_app; lia).
    destruct (decide (lenZ tag_ + 4 <= int_of c <= kMaxMessageLen)) as [H2|H2]; [|done].
    destruct (decide (4 + int_of c <= lenZ c)) as [H3|H3]; [|done]. rewrite decide_True by (rewrite lenZ_app; lia).
    rewrite take_app_le by (unfold lenZ in *; lia). rewrite drop_app_le by (unfold lenZ in *; lia).
    rewrite take_app_le by (rewrite length_drop; unfold lenZ in *; lia). done.
Qed.

Lemma peekInt32_spec b : Buffer.wf b -> 4 <= lenZ (Buffer.content b) -> Buffer.peekInt32 b = Ok (int_of (Buffer.content b)).
Proof. intros Hwf Hlen. unfold Buffer.peekInt32. by rewrite Buffer.peek_mem_spec by (done || lia). Qed.

Lemma onMessage_rounds : Framing.rounds decode1 (fun _ => True) onMessage_step.
Proof.
  intros b Hwf _. pose proof (lenZ_nonneg tag_) as Ht. unfold onMessage_step, decode1. rewrite Buffer.readable_content by done.
  assert (kMinMessageLen = lenZ tag_ + 4) as Hmin by done. unfold kHeaderLen.
  case_decide as H1; [by rewrite bool_decide_eq_false_2 by lia|]. rewrite bool_decide_eq_true_2 by lia.
  rewrite peekInt32_spec by (done || lia). cbn [mbind res_bind]. set (len := int_of (Buffer.content b)) in *.
  case_decide as H2.
  2: { assert (bool_decide (len > kMaxMessageLen) || bool_decide (len < kMinMessageLen) = true) as ->; [|done].
       apply orb_true_iff. rewrite !bool_decide_eq_true. lia. }
  rewrite !(bool_decide_eq_false_2 (len > _)), !(bool_decide_eq_false_2 (len < _)) by lia. cbn [orb].
  case_decide as H3; [|by rewrite bool_decide_eq_false_2 by lia]. rewrite bool_decide_eq_true_2 by lia.
  pose proof (Buffer.lenZ_content b Hwf) as Hlc. pose proof Hwf as (Hw1 & Hw2 & Hw3).
  rewrite Buffer.range_wf by (unfold Buffer.peek; done || lia). cbn [mbind res_bind].
  assert (slice (Buffer.peek b) (Buffer.peek b + (4 + len)) (Buffer.buffer_ b) = take (Z.to_nat (4 + len)) (Buffer.content b)) as ->.
  { unfold Buffer.content, Buffer.peek. symmetry. apply take_slice. lia. }
  destruct (Buffer.retrieve_spec (4 + len) b Hwf) as (b' & Hret & Hwf' & Hc' & Hb' & _); [rewrite Buffer.readable_content by done; lia|].
  assert (match rawCb_ with Some f => negb (f (take (Z.to_nat (4 + len)) (Buffer.content b))) | None => false end =
    negb (wanted (take (Z.to_nat (4 + len)) (Buffer.content b)))) as -> by (unfold wanted; by destruct rawCb_).
  destruct (wanted _); cbn [negb].
  2: { exists b'. rewrite Hret. split_and!; [done|done|done|done|by rewrite Hb']. }
  destruct (region_content b Hwf) as [tail Htail].
  assert (drop (Z.to_nat (Buffer.peek b + 4)) (Buffer.buffer_ b) = drop 4 (Buffer.content b) ++ tail) as ->.
  { unfold Buffer.peek in *. replace (Z.to_nat (Buffer.readerIndex_ b + 4)) with (Z.to_nat (Buffer.readerIndex_ b) + 4)%nat by lia.
    rewrite <- drop_drop, Htail. apply drop_app_le. unfold lenZ in *. lia. }
  rewrite parse_spec; [|lia|rewrite lenZ_app; pose proof (lenZ_nonneg tail); unfold lenZ in *; rewrite length_drop; lia].
  cbn [mbind res_bind]. rewrite take_app_le by (rewrite length_drop; unfold lenZ in *; lia).
  destruct (parse_frame _) as [e m]. destruct e, m; try done. exists b'. rewrite Hret. split_and!; [done|done|done|done|by rewrite Hb'].
Qed.

Lemma onMessage_decodes : Framing.decodes decode1 onMessage.
Proof.
  intros b Hwf. destruct (Framing.step_loop_decodes decode1 _ _ b onMessage_rounds Hwf I) as (b' & ? & ? & _ & ? & ?). by exists b'.
Qed.

(** ** Whole frames *)

Lemma parse_frame_body message :
  ParseFromArray (SerializeToArray message) = Some message ->
  parse_frame (body message ++ be_bytes 4 (swrap 32 (adler32 (body message)))) = (kNoError, Some message).
Proof.
  intros Hp. unfold parse_frame. set (c := swrap 32 (adler32 (body message))).
  assert (length (body message ++ be_bytes 4 c) - 4 = length (body message))%nat as ->.
  { rewrite length_app. pose proof (lenZ_be_bytes 4 c). unfold lenZ in *. lia. }
  rewrite take_app_length, drop_app_length. rewrite decide_True.
  2: { symmetry. rewrite <- (app_nil_r (be_bytes 4 c)). apply int_of_be, swrap32_in. }
  unfold body. rewrite <- app_assoc, take_app_length, decide_True by done. by rewrite drop_app_length, Hp.
Qed.

Definition out (message : Msg) : list effect := if wanted (frame message) then [MessageCallback message] else [].

Lemma frame_decodable message :
  fits message -> ParseFromArray (SerializeToArray message) = Some message ->
  Framing.decodable decode1 frame out message.
Proof.
  intros Hfit Hp. pose proof (lenZ_body_fits message Hfit) as Hb. pose proof (lenZ_nonneg tag_).
  pose proof (lenZ_frame message) as Hfl. set (len := lenZ (body message) + 4).
  assert (lenZ tag_ <= lenZ (body message)) as Htag by (unfold body; rewrite lenZ_app; pose proof (lenZ_nonneg (SerializeToArray message)); lia).
  assert (s_in 32 len) as Hs by (unfold s_in; subst len; lia).
  split.
  - intros d. pose proof (lenZ_nonneg d). unfold decode1, kHeaderLen, kMinMessageLen, kChecksumLen.
    assert (int_of (frame message ++ d) = len) as -> by (unfold frame; rewrite <- !app_assoc; by apply int_of_be).
    rewrite decide_False by (rewrite lenZ_app; lia). rewrite decide_True by (subst len; unfold fits in Hfit; lia).
    rewrite decide_True by (rewrite lenZ_app; lia).
    assert (Z.to_nat (4 + len) = length (frame message)) as -> by (unfold lenZ in *; lia). rewrite take_app_length. unfold out.
    destruct (wanted _); [|done].
    assert (take (Z.to_nat len) (drop 4 (frame message ++ d)) = body message ++ be_bytes 4 (swrap 32 (adler32 (body message)))) as ->.
    { pose proof (lenZ_be_bytes 4 len). pose proof (lenZ_be_bytes 4 (swrap 32 (adler32 (body message)))).
      unfold frame. fold len. rewrite <- (app_assoc (be_bytes 4 _)), drop_app_length' by (unfold lenZ in *; lia).
      apply take_app_length'. rewrite length_app. subst len. unfold lenZ in *. lia. }
    by rewrite parse_frame_body.
  - intros c d Hcd Hd. unfold decode1, kHeaderLen, kMinMessageLen, kChecksumLen.
    destruct (decide (lenZ c < lenZ tag_ + 4 + 4)) as [|Hlong]; [done|].
    assert (lenZ c < lenZ (frame message)) as Hlt.
    { rewrite Hcd, lenZ_app. destruct d; [done|]. unfold lenZ. simpl. lia. }
    assert (int_of c = len) as ->.
    { rewrite <- (int_of_be len (drop 4 c) Hs). f_equal. rewrite <- (take_drop 4 c) at 1. f_equal.
      pose proof (lenZ_be_bytes 4 len). apply (f_equal (take 4)) in Hcd.
      rewrite take_app_le in Hcd by (unfold lenZ in *; lia). rewrite <- Hcd. unfold frame. fold len.
      apply take_app_length'. unfold lenZ in *. lia. }
    rewrite decide_True by (subst len; unfold fits in Hfit; lia). rewrite decide_False by lia. done.
Qed.

Lemma concat_out messages : concat (map out messages) = map MessageCallback (filter (fun m => wanted (frame m) = true) messages).
Proof.
  induction messages as [|m l IH]; [done|]. cbn [map concat]. rewrite filter_cons, IH. unfold out.
  destruct (wanted (frame m)) eqn:E; [by rewrite decide_True|]. by rewrite decide_False.
Qed.

Lemma decode1_nil : decode1 [] = Framing.Wait.
Proof.
  unfold decode1, kMinMessageLen, kHeaderLen, kChecksumLen. pose proof (lenZ_nonneg tag_).
  rewrite decide_True; [done|]. unfold lenZ at 1. simpl. lia.
Qed.
End codec.

Section theorems.
Context {Msg : Type} (ser : Msg -> bytes) (par : bytes -> option Msg) (adler : bytes -> Z).
Context (tag : bytes) (raw : option (bytes -> bool)).

(** C25: messages arrive whole, once and in order, however the stream is cut.  For any
    serialisation that parses back (protobuf's promise) and any checksum: [send] writes
    the frame of the message, and when the frames of a list of messages arrive in any
    chunks, the callback is called for exactly these messages (those the raw callback
    lets through), in order, the buffer is empty at the end and no assertion fails. *)
Theorem codec_delivers messages chunks b :
  Forall (fits ser tag) messages -> Forall (fun m => par (ser m) = Some m) messages ->
  Buffer.wf b -> Buffer.content b = [] -> concat chunks = concat (map (frame ser adler tag) messages) ->
  lenZ (Buffer.buffer_ b) + lenZ (concat chunks) <= vector_max_size ->
  Forall (fun m => send ser adler tag m = Ok (frame ser adler tag m)) messages /\
  exists b', Framing.feed (onMessage par adler tag raw) chunks b =
      Ok (map MessageCallback (filter (fun m => wanted raw (frame ser adler tag m) = true) messages), b') /\
    Buffer.wf b' /\ Buffer.content b' = [].
Proof.
  intros Hfit Hpar Hwf Hc Hch Hmem. split.
  { eapply list.Forall_impl; [exact Hfit|]. intros m. apply codec_send_spec. }
  rewrite <- (concat_out ser adler tag raw).
  apply (Framing.feed_delivers (decode1 par adler tag raw) (frame ser adler tag)); try done.
  - apply codec_laws.
  - apply onMessage_decodes.
  - apply list.Forall_forall. intros m Hm. rewrite list.Forall_forall in Hfit, Hpar. apply frame_decodable; auto.
  - apply decode1_nil.
  - by rewrite Hc.
  - by left.
Qed.

(** what is no frame is reported and never delivered.  On any bytes [onMessage]
    returns, without a failing assertion and without reading outside the buffer.  When
    the first length is out of range, the checksum or the tag is wrong or the payload
    does not parse, the error callback gets the matching code, nothing else is called and
    the bytes stay in the buffer, where the next message finds them again. *)
Theorem codec_rejects b :
  Buffer.wf b ->
  is_ok (onMessage par adler tag raw b) /\
  (lenZ tag + 8 <= lenZ (Buffer.content b) -> ~ lenZ tag + 4 <= int_of (Buffer.content b) <= kMaxMessageLen ->
     onMessage par adler tag raw b = Ok ([ErrorCallback kInvalidLength], b)) /\
  (forall fb rest e, Buffer.content b = be_bytes 4 (lenZ fb) ++ fb ++ rest -> lenZ tag + 4 <= lenZ fb <= kMaxMessageLen ->
     wanted raw (be_bytes 4 (lenZ fb) ++ fb) = true ->
     e = (if decide (swrap 32 (adler (take (length fb - 4) fb)) = int_of (drop (length fb - 4) fb)) then
            if decide (take (length tag) fb = tag) then kParseError else kUnknownMessageType
          else kCheckSumError) ->
     (e = kParseError -> par (drop (length tag) (take (length fb - 4) fb)) = None) ->
     onMessage par adler tag raw b = Ok ([ErrorCallback e], b)).
Proof.
  intros Hwf. pose proof (lenZ_nonneg tag) as Ht.
  destruct (onMessage_decodes par adler tag raw b Hwf) as (b' & Hrun & _).
  assert (forall o, decode1 par adler tag raw (Buffer.content b) = Framing.Stop o -> onMessage par adler tag raw b = Ok (o, b)) as Hstop.
  { intros o. by apply (Framing.step_loop_stop _ _ _ _ _ _ (onMessage_rounds par adler tag raw)). }
  split_and!.
  - by eexists.
  - intros Hlen Hbad. apply Hstop. unfold decode1, kMinMessageLen, kHeaderLen, kChecksumLen.
    rewrite decide_False by lia. by rewrite decide_False by lia.
  - intros fb rest e Hc Hfb Hw He Hpar. apply Hstop. rewrite Hc. pose proof (lenZ_nonneg rest). pose proof (lenZ_be_bytes 4 (lenZ fb)) as Hb4.
    assert (s_in 32 (lenZ fb)) as Hs by (unfold s_in, kMaxMessageLen in *; lia).
    unfold decode1, kMinMessageLen, kHeaderLen, kChecksumLen. rewrite int_of_be by done. rewrite !lenZ_app, Hb4.
    rewrite decide_False by lia. rewrite decide_True by lia. rewrite decide_True by lia.
    rewrite app_assoc, take_app_length' by (rewrite length_app; unfold lenZ in *; lia). rewrite Hw.
    rewrite <- app_assoc, drop_app_length' by (unfold lenZ in *; lia).
    rewrite take_app_length' by (unfold lenZ; lia). unfold parse_frame. rewrite He in *.
    case_decide; [|done]. case_decide; [|done]. by rewrite Hpar.
Qed.
End theorems.

(** ** A concrete codec: strings as messages, the checksum of zlib, the tag RPC0 *)

Definition adler32_demo (l : bytes) : Z :=
  let '(a, b) := fold_left (fun '(a, b) x => let a := (a + Z.of_N (Byte.to_N x)) mod 65521 in (a, (b + a) mod 65521)) l (1, 0) in
  b * 65536 + a.

Definition frame_demo : bytes -> bytes := frame (fun m => m) adler32_demo (bs "RPC0").
Definition onMessage_demo : Buffer.t -> res (list effect * Buffer.t) := onMessage Some adler32_demo (bs "RPC0") None.
Definition empty_demo : Buffer.t := Buffer.mk (replicate 40 Byte.x00) 8 8.

Example adler_wikipedia : adler32_demo (bs "Wikipedia") = 300286872.
Proof. vm_compute. reflexivity. Qed.

(** Two messages that arrive in three pieces. *)
Definition chunks_demo : list bytes :=
  let l := frame_demo (bs "hello") ++ frame_demo (bs "world") in [take 3 l; take 15 (drop 3 l); drop 18 l].

Lemma codec_delivers_witness :
  exists b', Framing.feed onMessage_demo chunks_demo empty_demo = Ok ([MessageCallback (bs "hello"); MessageCallback (bs "world")], b') /\
    Buffer.content b' = [].
Proof.
  destruct (codec_delivers (fun m => m) Some adler32_demo (bs "RPC0") None [bs "hello"; bs "world"] chunks_demo empty_demo)
    as (_ & b' & Hrun & _ & Hc).
  - repeat (apply list.Forall_cons; split; [unfold fits, kMaxMessageLen; vm_compute; discriminate|]). constructor.
  - repeat constructor.
  - unfold Buffer.wf, Buffer.kCheapPrepend, vector_max_size. vm_compute. repeat split; discriminate.
  - vm_compute. reflexivity.
  - vm_compute. reflexivity.
  - vm_compute. discriminate.
  - exists b'. split; [exact Hrun|exact Hc].
Defined.

Definition bad_demo : bytes := bs "RPC0" ++ bs "hello" ++ be_bytes 4 0.
Definition bad_buffer : Buffer.t := Buffer.mk (replicate 8 Byte.x00 ++ be_bytes 4 13 ++ bad_demo) 8 25.

Lemma codec_rejects_witness : onMessage_demo bad_buffer = Ok ([ErrorCallback kCheckSumError], bad_buffer).
Proof.
  destruct (codec_rejects Some adler32_demo (bs "RPC0") None bad_buffer) as (_ & _ & Hbad).
  - unfold Buffer.wf, Buffer.kCheapPrepend, vector_max_size. vm_compute. repeat split; discriminate.
  - apply (Hbad bad_demo []).
    + vm_compute. reflexivity.
    + unfold kMaxMessageLen. vm_compute. split; discriminate.
    + reflexivity.
    + vm_compute. reflexivity.
    + intros H. discriminate H.
Defined.
End ProtobufCodecLite.
