(* ===== verification/ChatCodec.v ===== *)
(** The chat example's messages: [examples/asio/chat/codec.h].  [Module LengthHeaderCodec]
    is one more instance of [Framing], and is where a log statement reads a C string out
    of the input buffer: its loop has an invariant on the memory behind the bytes. *)
From S2P Require Import Prelude Endian StringPiece NetBuffer Codec.
Open Scope Z_scope.

Module LengthHeaderCodec.
Import ProtobufCodecLite (int_of, int_of_be).

Definition kHeaderLen : Z := 4.

(** What [onMessage] does to the rest of the program. *)
Inductive effect := MessageCallback (message : bytes) | Shutdown.

Section codec.
(** Whether the level of the log lets [LOG_INFO] through. *)
Context (log_info : bool).

(** One round of the loop of [onMessage].  [LOG_INFO] takes the length of the C string
    that starts at [peek()]. *)
Definition onMessage_step (buf : Buffer.t) : res (bool * list effect * Buffer.t) :=
  if bool_decide (Buffer.readableBytes buf >= kHeaderLen) then
    be32 ← Buffer.range (Buffer.peek buf) (Buffer.peek buf + 4) buf;
    let len := swrap 32 (networkToHost32 (of_mem_s be32)) in
    if bool_decide (len > 65536) || bool_decide (len < 0) then mret (false, [Shutdown], buf)
    else if bool_decide (Buffer.readableBytes buf >= len + kHeaderLen) then
      buf ← Buffer.retrieve kHeaderLen buf;
      _ ← (if log_info then
             _ ← StringPiece.of_cstr (drop (Z.to_nat (Buffer.peek buf)) (Buffer.buffer_ buf)); mret tt
           else mret tt);
      message ← Buffer.range (Buffer.peek buf) (Buffer.peek buf + len) buf;
      buf ← Buffer.retrieve len buf;
      mret (true, [MessageCallback message], buf)
    else mret (false, [], buf)
  else mret (false, [], buf).

Definition onMessage (buf : Buffer.t) : res (list effect * Buffer.t) :=
  Framing.step_loop onMessage_step (S (Z.to_nat (Buffer.readableBytes buf))) buf.

(** The bytes that [send] hands to the connection. *)
Definition send (message : StringPiece.t) : res bytes :=
  buf ← Buffer.Buffer Buffer.kInitialSize;
  buf ← Buffer.append (StringPiece.data message) (size_wrap (StringPiece.size message)) buf;
  let len := StringPiece.size message in
  let be32 := swrap 32 (hostToNetwork32 len) in
  buf ← Buffer.prepend (to_mem 4 be32) 4 buf;
  Buffer.range (Buffer.peek buf) (Buffer.beginWrite buf) buf.

(** ** The format *)

Definition frame (message : bytes) : bytes := be_bytes 4 (lenZ message) ++ message.
Definition fits (message : bytes) : Prop := lenZ message <= 65536.

Definition decode1 (c : bytes) : Framing.step effect :=
  if decide (lenZ c < 4) then Framing.Wait
  else
    let len := int_of c in
    if decide (0 <= len <= 65536) then
      if decide (len + 4 <= lenZ c) then
        Framing.Frame [MessageCallback (take (Z.to_nat len) (drop 4 c))] (Z.to_nat (4 + len))
      else Framing.Wait
    else Framing.Stop [Shutdown].

#[export] Instance chat_laws : Framing.Laws decode1.
Proof.
  split.
  - intros c o n. unfold decode1. destruct (decide (lenZ c < 4)) as [|H1]; [discriminate|].
    destruct (decide (0 <= int_of c <= 65536)) as [H2|]; [|discriminate].
    destruct (decide (int_of c + 4 <= lenZ c)) as [H3|]; [|discriminate].
    intros H. assert (Z.to_nat (4 + int_of c) = n) as <-; [|unfold lenZ in *; lia].
    exact (f_equal (fun s => match s with Framing.Frame _ n => n | _ => n end) H).
  - intros c d o n. unfold decode1. pose proof (lenZ_nonneg d).
    destruct (decide (lenZ c < 4)) as [H1|H1]; [discriminate|].
    assert (int_of (c ++ d) = int_of c) as -> by (unfold int_of; rewrite take_app_le; [done|unfold lenZ in *; lia]).
    rewrite (decide_False (P := lenZ (c ++ d) < 4)) by (rewrite lenZ_app; lia).
    destruct (decide (0 <= int_of c <= 65536)) as [H2|H2]; [|discriminate].
    destruct (decide (int_of c + 4 <= lenZ c)) as [H3|H3]; [|discriminate]. rewrite decide_True by (rewrite lenZ_app; lia).
    rewrite drop_app_le by (unfold lenZ in *; lia).
    rewrite take_app_le by (rewrite length_drop; unfold lenZ in *; lia). exact id.
Qed.

(** The memory behind the readable bytes has a NUL, so a C string that starts in them ends
    inside the vector; and it is behind the area of [prepend], where an emptied buffer
    starts again. *)
Definition stopped (buf : Buffer.t) : Prop :=
  Buffer.kCheapPrepend <= Buffer.writerIndex_ buf /\
  (log_info = true -> Byte.x00 ∈ drop (Z.to_nat (Buffer.writerIndex_ buf)) (Buffer.buffer_ buf)).

Lemma elem_of_drop_le {A} (x : A) i j l : (i <= j)%nat -> x ∈ drop j l -> x ∈ drop i l.
Proof.
  intros Hij Hx. replace j with (i + (j - i))%nat in Hx by lia. rewrite <- drop_drop in Hx.
  rewrite <- (take_drop (j - i) (drop i l)). apply elem_of_app. by right.
Qed.

Lemma retrieve_stopped len b :
  Buffer.wf b -> stopped b -> 0 <= len <= lenZ (Buffer.content b) ->
  exists b', Buffer.retrieve len b = Ok b' /\ Buffer.wf b' /\ stopped b' /\
    Buffer.content b' = drop (Z.to_nat len) (Buffer.content b) /\ Buffer.buffer_ b' = Buffer.buffer_ b.
Proof.
  intros Hwf [Hcheap HI] Hlen. pose proof Hwf as (Hw1 & Hw2 & Hw3). pose proof (Buffer.lenZ_content b Hwf) as Hlc.
  destruct (Buffer.retrieve_spec len b Hwf) as (b' & Hret & Hwf' & Hc' & Hb' & Hr'); [by rewrite Buffer.readable_content|].
  exists b'. assert (Buffer.kCheapPrepend <= Buffer.writerIndex_ b' <= Buffer.writerIndex_ b) as Hw'.
  2: { destruct Hw' as [Hw1' Hw2']. split_and!; [done|done|split; [done|]|done|done]. intros Hlog. rewrite Hb'. eapply elem_of_drop_le; [|by apply HI]. lia. }
  pose proof (Buffer.lenZ_content b' Hwf') as Hlc'. rewrite Hc' in Hlc'.
  rewrite Buffer.readable_content in Hr' by done. unfold Buffer.kCheapPrepend in *.
  assert (lenZ (drop (Z.to_nat len) (Buffer.content b)) = lenZ (Buffer.content b) - len) as Hd
    by (unfold lenZ in *; rewrite length_drop; lia).
  case_bool_decide; lia.
Qed.

Lemma log_stopped b : Buffer.wf b -> stopped b ->
  (if log_info then
     _ ← StringPiece.of_cstr (drop (Z.to_nat (Buffer.peek b)) (Buffer.buffer_ b)); mret tt
   else mret tt) = Ok tt.
Proof.
  intros Hwf [_ HI]. destruct log_info eqn:Hlog; [|done]. pose proof Hwf as (Hw1 & Hw2 & Hw3). unfold StringPiece.of_cstr.
  destruct (find_byte _ _) eqn:E; [done|]. apply find_byte_None in E. destruct E.
  eapply elem_of_drop_le; [|by apply HI]. unfold Buffer.peek. lia.
Qed.

Lemma chat_rounds : Framing.rounds decode1 stopped onMessage_step.
Proof.
  intros b Hwf HI. unfold onMessage_step, decode1, kHeaderLen. pose proof Hwf as (Hw1 & Hw2 & Hw3).
  pose proof (Buffer.lenZ_content b Hwf) as Hlc. rewrite Buffer.readable_content by done.
  case_decide as H1; [by rewrite bool_decide_eq_false_2 by lia|]. rewrite bool_decide_eq_true_2 by lia.
  rewrite Buffer.range_wf by (unfold Buffer.peek; done || lia). cbn [mbind res_bind].
  assert (swrap 32 (networkToHost32 (of_mem_s (slice (Buffer.peek b) (Buffer.peek b + 4) (Buffer.buffer_ b)))) =
    int_of (Buffer.content b)) as ->.
  { unfold int_of. do 3 f_equal. unfold Buffer.content, Buffer.peek. symmetry. apply (take_slice 4). lia. }
  set (len := int_of (Buffer.content b)) in *.
  case_decide as H2.
  2: { assert (bool_decide (len > 65536) || bool_decide (len < 0) = true) as ->; [|done].
       apply orb_true_iff. rewrite !bool_decide_eq_true. lia. }
  rewrite (bool_decide_eq_false_2 (len > _)), (bool_decide_eq_false_2 (len < _)) by lia. cbn [orb].
  case_decide as H3; [|by rewrite bool_decide_eq_false_2 by lia]. rewrite bool_decide_eq_true_2 by lia.
  destruct (retrieve_stopped 4 b Hwf HI ltac:(lia)) as (b1 & -> & Hwf1 & HI1 & Hc1 & Hb1). cbn [mbind res_bind].
  rewrite log_stopped by done. cbn [mbind res_bind].
  assert (lenZ (Buffer.content b1) = lenZ (Buffer.content b) - 4) as Hl1 by (rewrite Hc1; unfold lenZ in *; rewrite length_drop; lia).
  pose proof Hwf1 as (Hx1 & Hx2 & Hx3). pose proof (Buffer.lenZ_content b1 Hwf1) as Hlc1.
  rewrite Buffer.range_wf by (unfold Buffer.peek; done || lia). cbn [mbind res_bind].
  assert (slice (Buffer.peek b1) (Buffer.peek b1 + len) (Buffer.buffer_ b1) = take (Z.to_nat len) (Buffer.content b1)) as ->.
  { unfold Buffer.content, Buffer.peek. symmetry. apply take_slice. lia. }
  destruct (retrieve_stopped len b1 Hwf1 HI1 ltac:(lia)) as (b2 & -> & Hwf2 & HI2 & Hc2 & Hb2). cbn [mbind res_bind].
  rewrite Hc1. exists b2. split_and!; [done|done|done| |by rewrite Hb2, Hb1].
  rewrite Hc2, Hc1, drop_drop. f_equal. lia.
Qed.

Lemma chat_frame_decodable message : fits message -> Framing.decodable decode1 frame (fun m => [MessageCallback m]) message.
Proof.
  unfold fits. intros Hfit. pose proof (lenZ_nonneg message) as Hnn. pose proof (lenZ_be_bytes 4 (lenZ message)) as Hb4.
  assert (s_in 32 (lenZ message)) as Hs by (unfold s_in; lia).
  assert (lenZ (frame message) = lenZ message + 4) as Hfl by (unfold frame; rewrite lenZ_app; lia).
  split.
  - intros d. pose proof (lenZ_nonneg d). unfold decode1.
    assert (int_of (frame message ++ d) = lenZ message) as -> by (unfold frame; rewrite <- app_assoc; by apply int_of_be).
    rewrite decide_False by (rewrite lenZ_app; lia). rewrite decide_True by lia. rewrite decide_True by (rewrite lenZ_app; lia).
    unfold frame at 1. rewrite <- app_assoc, drop_app_length' by (unfold lenZ in *; lia).
    rewrite take_app_length' by (unfold lenZ; lia). f_equal. unfold lenZ in *. lia.
  - intros c d Hcd Hd. unfold decode1. destruct (decide (lenZ c < 4)) as [|Hlong]; [done|].
    assert (lenZ c < lenZ (frame message)) as Hlt.
    { rewrite Hcd, lenZ_app. destruct d; [done|]. unfold lenZ. simpl. lia. }
    assert (int_of c = lenZ message) as ->.
    { rewrite <- (int_of_be (lenZ message) (drop 4 c) Hs). f_equal. rewrite <- (take_drop 4 c) at 1. f_equal.
      apply (f_equal (take 4)) in Hcd. rewrite take_app_le in Hcd by (unfold lenZ in *; lia). rewrite <- Hcd. unfold frame.
      apply take_app_length'. unfold lenZ in *. lia. }
    rewrite decide_True by lia. by rewrite decide_False by lia.
Qed.

Lemma chat_send_spec message : lenZ message + 2000 < 2 ^ 31 -> send (StringPiece.of_offset message (lenZ message)) = Ok (frame message).
Proof.
  intros Hlen. pose proof (lenZ_nonneg message). unfold send.
  destruct (Buffer.Buffer_spec Buffer.kInitialSize) as (b & -> & Hwf & Hc & Hr & _ & Hl);
    [unfold Buffer.kInitialSize; lia|unfold Buffer.kInitialSize, vector_max_size; lia|]. cbn [mbind res_bind].
  cbn [StringPiece.of_offset StringPiece.data StringPiece.size StringPiece.ptr_ StringPiece.length_].
  rewrite uwrap_small by (unfold u_in; lia).
  destruct (Buffer.append_spec message b Hwf) as (b1 & -> & Hwf1 & Hc1 & Hr1 & _);
    [rewrite Hl; unfold Buffer.kInitialSize, vector_max_size; lia|]. cbn [mbind res_bind].
  destruct (Buffer.int_wire (lenZ message)) as (_ & -> & _).
  destruct (Buffer.prepend_spec (be_bytes 4 (lenZ message)) b1 Hwf1) as (b2 & Hpre & Hwf2 & Hc2 & _);
    [rewrite lenZ_be_bytes; lia|].
  rewrite lenZ_be_bytes in Hpre. change (Z.of_nat 4) with 4 in Hpre. rewrite Hpre. cbn [mbind res_bind].
  rewrite Buffer.range_content by done. by rewrite Hc2, Hc1, Hc.
Qed.
End codec.

(** C0: chat messages arrive whole and in order.  When the buffer holds any part of the
    frames of a list of messages, and a NUL is behind it, [onMessage] calls back with
    exactly the messages that are whole, leaves the rest, and returns; [send] writes these
    frames.  A length out of range shuts the connection down and stays in the buffer. *)
Theorem chat_delivers log_info messages b later :
  Forall fits messages -> Buffer.wf b -> stopped log_info b ->
  (Buffer.content b ++ later = concat (map frame messages) ->
   Forall (fun m => send (StringPiece.of_offset m (lenZ m)) = Ok (frame m)) messages /\
   exists l1 l2 b', messages = l1 ++ l2 /\ onMessage log_info b = Ok (map MessageCallback l1, b') /\ Buffer.wf b' /\
     Buffer.content b' ++ later = concat (map frame l2) /\ (later = [] -> l2 = [])) /\
  (4 <= lenZ (Buffer.content b) -> ~ 0 <= int_of (Buffer.content b) <= 65536 ->
   onMessage log_info b = Ok ([Shutdown], b)).
Proof.
  intros Hfit Hwf HI. split.
  - intros Hc. split.
    { eapply list.Forall_impl; [exact Hfit|]. unfold fits. intros m Hm. apply chat_send_spec. lia. }
    destruct (Framing.step_loop_decodes _ _ _ b (chat_rounds log_info) Hwf HI) as (b' & Hrun & Hwf' & _ & Hc' & _).
    destruct (Framing.decode_prefix decode1 frame (fun m => [MessageCallback m]) messages (Buffer.content b) later)
      as (l1 & l2 & rest & -> & Hdec & Hrest & Hend); try done.
    { eapply list.Forall_impl; [exact Hfit|]. intros m. apply chat_frame_decodable. }
    rewrite Hdec in *. cbn [fst snd] in *. exists l1, l2, b'. rewrite Hc'. split_and!; try done.
    unfold onMessage. by rewrite Hrun, Framing.concat_map_singleton.
  - intros Hlen Hbad. apply (Framing.step_loop_stop decode1 _ _ _ _ _ (chat_rounds log_info)); [done|done|].
    unfold decode1. rewrite decide_False by lia. by rewrite decide_False.
Qed.

(** ** Concrete messages *)

Definition chat_hi : list bytes := [bs "hi"; bs ""; bs "there"].
(** The stream less its last three bytes. *)
Definition chat_part : bytes := take 16 (concat (map frame chat_hi)).
Definition chat_buffer : Buffer.t := Buffer.mk (replicate 8 Byte.x00 ++ chat_part ++ replicate 9 Byte.x00) 8 24.

Lemma chat_delivers_witness :
  exists l1 l2 b', chat_hi = l1 ++ l2 /\ onMessage true chat_buffer = Ok (map MessageCallback l1, b') /\
    Buffer.content b' ++ bs "ere" = concat (map frame l2).
Proof.
  destruct (chat_delivers true chat_hi chat_buffer (bs "ere")) as [Hok _].
  - repeat (apply list.Forall_cons; split; [vm_compute; discriminate|]). constructor.
  - unfold Buffer.wf, Buffer.kCheapPrepend, vector_max_size. vm_compute. repeat split; discriminate.
  - split; [vm_compute; discriminate|]. intros _. vm_compute. left.
  - destruct Hok as (_ & l1 & l2 & b' & Hl & Hrun & _ & Hc & _); [vm_compute; reflexivity|].
    exists l1, l2, b'. split; [exact Hl|]. split; [exact Hrun|exact Hc].
Defined.

(** Without a NUL behind the bytes the log reads past the vector: a new buffer that the
    frame of 1020 bytes fills exactly. *)
Definition full_frame : bytes := frame (replicate 1020 "a"%byte).

Example chat_log_overruns :
  (b ← Buffer.Buffer Buffer.kInitialSize; b ← Buffer.append full_frame (lenZ full_frame) b; onMessage true b) = Fail OutOfBounds /\
  (b ← Buffer.Buffer Buffer.kInitialSize; b ← Buffer.append full_frame (lenZ full_frame) b; '(o, _) ← onMessage false b; mret o) =
    Ok [MessageCallback (replicate 1020 "a"%byte)].
Proof. vm_compute. split; reflexivity. Qed.
End LengthHeaderCodec.
