(* ===== verification/ChatServer.v ===== *)
(** The chat example's server ([examples/asio/chat/server_threaded_highperformance.cc]): one
    message goes to every connection of every loop. *)
From stdpp Require Import gmap.
From S2P Require Import Prelude State OrderedSet StringPiece ChatCodec.
Open Scope Z_scope.

Module ChatServer.
Import LengthHeaderCodec.

(** Loops and connections are their addresses.  [lock]: a thread is in [onStringMessage]
    with the mutex, and the loops it still has to queue the message for.  [sent]: what a
    connection was given to send; [accepted]: the messages in the order of the mutex. *)
Record t := mk {
  loops_ : list Z;
  lock : option (bytes * list Z);
  pendingFunctors : gmap Z (list bytes);
  localConnections : gmap Z (list Z);
  sent : gmap Z bytes;
  accepted : list bytes
}.

Definition set_loops l s := mk l (lock s) (pendingFunctors s) (localConnections s) (sent s) (accepted s).
Definition set_lock l s := mk (loops_ s) l (pendingFunctors s) (localConnections s) (sent s) (accepted s).
Definition set_functors f s := mk (loops_ s) (lock s) f (localConnections s) (sent s) (accepted s).
Definition set_connections c s := mk (loops_ s) (lock s) (pendingFunctors s) c (sent s) (accepted s).
Definition set_sent x s := mk (loops_ s) (lock s) (pendingFunctors s) (localConnections s) x (accepted s).
Definition set_accepted a s := mk (loops_ s) (lock s) (pendingFunctors s) (localConnections s) (sent s) a.

Definition ChatServer : t := mk [] None ∅ ∅ ∅ [].

(** What is queued for a loop; [ThreadLocalSingleton::instance()] makes an empty set. *)
Definition queue_of (x : Z) (s : t) : list bytes := default [] (pendingFunctors s !! x).
Definition instance (x : Z) (s : t) : list Z := default [] (localConnections s !! x).
Definition sent_to (c : Z) (s : t) : bytes := default [] (sent s !! c).

Definition threadInit (x : Z) : ST t unit :=
  s ← get;
  _ ← sassert (bool_decide (localConnections s !! x = None));
  _ ← modify (fun s => set_connections (<[x := instance x s]> (localConnections s)) s);
  s ← get;
  _ ← sassert (bool_decide (localConnections s !! x <> None));
  modify (fun s => set_loops (OrderedSet.insert x (loops_ s)).1 s).

Definition onConnection (x c : Z) (connected : bool) : ST t unit :=
  if connected then modify (fun s => set_connections (<[x := (OrderedSet.insert c (instance x s)).1]> (localConnections s)) s)
  else modify (fun s => set_connections (<[x := (OrderedSet.erase c (instance x s)).1]> (localConnections s)) s).

(** [onStringMessage]: the lock, one turn of the loop, the end of the block. *)
Definition onStringMessage_lock (message : bytes) : ST t unit :=
  modify (fun s => set_accepted (accepted s ++ [message]) (set_lock (Some (message, loops_ s)) s)).

Definition onStringMessage_turn : ST t unit :=
  s ← get;
  match lock s with
  | Some (message, x :: rest) =>
      modify (fun s => set_lock (Some (message, rest)) (set_functors (<[x := queue_of x s ++ [message]]> (pendingFunctors s)) s))
  | Some (message, []) => modify (set_lock None)
  | None => mret tt
  end.

(** [codec_.send] of the message to one connection. *)
Definition send_to (message : bytes) (c : Z) : ST t unit :=
  b ← lift (send (StringPiece.of_offset message (lenZ message)));
  modify (fun s => set_sent (<[c := sent_to c s ++ b]> (sent s)) s).

Definition distributeMessage (x : Z) (message : bytes) : ST t unit :=
  l ← gets (instance x); for_each (send_to message) l.

(** A loop runs the first functor of its queue. *)
Definition run_functor (x : Z) : ST t unit :=
  s ← get;
  match queue_of x s with
  | message :: q => _ ← modify (set_functors (<[x := q]> (pendingFunctors s))); distributeMessage x message
  | [] => mret tt
  end.

Inductive event :=
  | ThreadInit (x : Z) | Up (x c : Z) | Down (x c : Z) | Message (message : bytes) | Turn | Run (x : Z).

Definition handle (e : event) : ST t unit :=
  match e with
  | ThreadInit x => threadInit x
  | Up x c => onConnection x c true
  | Down x c => onConnection x c false
  | Message m => onStringMessage_lock m
  | Turn => onStringMessage_turn
  | Run x => run_functor x
  end.

(** The mutex excludes; each thread is initialised once, before its connections; a
    connection is new when it comes up; a message is one that [onMessage] delivers. *)
Definition enabled (e : event) (s : t) : Prop :=
  match e with
  | ThreadInit x => lock s = None /\ x ∉ loops_ s
  | Up x c => x ∈ loops_ s /\ sent s !! c = None /\ Forall (fun y => c ∉ instance y s) (loops_ s)
  | Down x c => c ∈ instance x s
  | Message m => lock s = None /\ fits m
  | Turn => lock s <> None
  | Run x => x ∈ loops_ s
  end.

#[global] Instance enabled_dec e s : Decision (enabled e s).
Proof. destruct e; simpl; unfold fits; apply _. Defined.

Inductive reachable : t -> Prop :=
  | reach_new : reachable ChatServer
  | reach_handle s e s' : reachable s -> enabled e s -> handle e s = Ok (tt, s') -> reachable s'.

(** The message under the mutex, for a loop that does not have it yet. *)
Definition coming (x : Z) (s : t) : list bytes :=
  match lock s with Some (m, rest) => if decide (x ∈ rest) then [m] else [] | None => [] end.
(** What a loop will still distribute. *)
Definition due (x : Z) (s : t) : list bytes := queue_of x s ++ coming x s.

Record inv (s : t) : Prop := {
  i_loops : OrderedSet.sorted (loops_ s);
  i_lock m rest : lock s = Some (m, rest) -> NoDup rest /\ forall x, x ∈ rest -> x ∈ loops_ s;
  i_local x : is_Some (localConnections s !! x) <-> x ∈ loops_ s;
  i_sorted x : OrderedSet.sorted (instance x s);
  i_queue x : x ∉ loops_ s -> queue_of x s = [];
  i_fits : Forall fits (accepted s);
  i_due x : x ∈ loops_ s -> exists past, accepted s = past ++ due x s;
  i_one x y c : c ∈ instance x s -> c ∈ instance y s -> x = y
}.


(** Each map after an update. *)
Lemma instance_set x y l s : instance y (set_connections (<[x := l]> (localConnections s)) s) = if decide (x = y) then l else instance y s.
Proof. unfold instance. simpl. case_decide as E; [subst; by rewrite lookup_insert_eq|by rewrite lookup_insert_ne]. Qed.
Lemma queue_set x y q s : queue_of y (set_functors (<[x := q]> (pendingFunctors s)) s) = if decide (x = y) then q else queue_of y s.
Proof. unfold queue_of. simpl. case_decide as E; [subst; by rewrite lookup_insert_eq|by rewrite lookup_insert_ne]. Qed.
Lemma sent_set c d b s : sent_to d (set_sent (<[c := b]> (sent s)) s) = if decide (c = d) then b else sent_to d s.
Proof. unfold sent_to. simpl. case_decide as E; [subst; by rewrite lookup_insert_eq|by rewrite lookup_insert_ne]. Qed.

(** Only a loop has connections. *)
Lemma in_loop x c s : inv s -> c ∈ instance x s -> x ∈ loops_ s.
Proof.
  intros Hinv Hc. apply (i_local s Hinv). unfold instance in Hc.
  destruct (localConnections s !! x); [by eexists|by apply elem_of_nil in Hc].
Qed.

Lemma chat_inv_new : inv ChatServer.
Proof.
  split; simpl; try done.
  - constructor.
  - intros x. rewrite lookup_empty. split; [by intros []|]. intros []%elem_of_nil.
  - intros x. constructor.
  - intros x []%elem_of_nil.
  - intros x y c []%elem_of_nil.
Qed.

Lemma threadInit_inv x s : inv s -> enabled (ThreadInit x) s -> exists s', handle (ThreadInit x) s = Ok (tt, s') /\ inv s'.
Proof.
  intros [] [Hl Hx]. assert (localConnections s !! x = None) as Hn.
  { destruct (localConnections s !! x) eqn:E; [|done]. destruct Hx. apply i_local0. by eexists. }
  simpl. unfold threadInit, mbind, st_bind, get, sassert, lift, modify.
  rewrite check_true by (by apply bool_decide_eq_true).
  rewrite check_true by (apply bool_decide_eq_true; simpl; by rewrite lookup_insert_eq).
  assert (instance x s = []) as Hi by (unfold instance; by rewrite Hn). rewrite Hi.
  assert (forall y, instance y (set_connections (<[x:=[]]> (localConnections s)) s) = instance y s) as Hinst.
  { intros y. rewrite instance_set. case_decide; [by subst|done]. }
  eexists. split; [reflexivity|]. split; simpl; try done.
  - by apply OrderedSet.sorted_insert.
  - by rewrite Hl.
  - intros y. rewrite OrderedSet.elem_of_insert, <- i_local0. destruct (decide (x = y)) as [->|Hxy].
    + rewrite lookup_insert_eq. split; [by left|by eexists].
    + rewrite lookup_insert_ne by done. split; [by right|by intros [->|]].
  - intros y. pose proof (i_sorted0 y) as H. by rewrite <- Hinst in H.
  - intros y Hy. apply i_queue0. intros Hin. apply Hy. apply OrderedSet.elem_of_insert. by right.
  - intros y [->|Hy]%OrderedSet.elem_of_insert; [|by apply i_due0].
    exists (accepted s). unfold due, coming. simpl. rewrite Hl, app_nil_r. pose proof (i_queue0 _ Hx) as Hq.
    unfold queue_of in *. simpl. by rewrite Hq, app_nil_r.
  - intros y z c Hy Hz. apply (i_one0 y z c); by rewrite <- Hinst.
Qed.

Lemma up_inv x c s : inv s -> enabled (Up x c) s -> exists s', handle (Up x c) s = Ok (tt, s') /\ inv s'.
Proof.
  intros Hinv (Hx & Hnew & Hf). pose proof Hinv as []. eexists. split; [reflexivity|].
  assert (forall y, c ∉ instance y s) as Hfresh.
  { intros y Hy. rewrite list.Forall_forall in Hf. apply (Hf y); [by eapply in_loop|done]. }
  clear Hf Hinv.
  assert (forall y d, d ∈ instance y (set_connections (<[x := (OrderedSet.insert c (instance x s)).1]> (localConnections s)) s) <->
    (y = x /\ d = c) \/ d ∈ instance y s) as Hinst.
  { intros y d. rewrite instance_set. case_decide as E; [subst; rewrite OrderedSet.elem_of_insert|]; naive_solver. }
  split; simpl; try done.
  - intros y. rewrite <- i_local0. destruct (decide (x = y)) as [->|Hxy].
    + rewrite lookup_insert_eq. split; [intros _; by apply i_local0|by eexists].
    + by rewrite lookup_insert_ne.
  - intros y. rewrite instance_set. case_decide; [by apply OrderedSet.sorted_insert|done].
  - intros y z d [[E1 E2]|Hy]%Hinst [[E3 E4]|Hz]%Hinst; subst; [done|by destruct (Hfresh z)|by destruct (Hfresh y)|by apply (i_one0 y z d)].
Qed.

Lemma down_inv x c s : inv s -> enabled (Down x c) s -> exists s', handle (Down x c) s = Ok (tt, s') /\ inv s'.
Proof.
  intros Hinv Hin. pose proof (in_loop x c s Hinv Hin) as Hx. destruct Hinv. eexists. split; [reflexivity|].
  assert (forall y d, d ∈ instance y (set_connections (<[x := (OrderedSet.erase c (instance x s)).1]> (localConnections s)) s) ->
    d ∈ instance y s) as Hinst.
  { intros y d. rewrite instance_set. case_decide as E; [subst; rewrite OrderedSet.elem_of_erase by done|]; naive_solver. }
  split; simpl; try done.
  - intros y. rewrite <- i_local0. destruct (decide (x = y)) as [->|Hxy].
    + rewrite lookup_insert_eq. split; [intros _; by apply i_local0|by eexists].
    + by rewrite lookup_insert_ne.
  - intros y. rewrite instance_set. case_decide; [by apply OrderedSet.sorted_erase|done].
  - intros y z d Hy%Hinst Hz%Hinst. by apply (i_one0 y z d).
Qed.

(** The mutex is taken: the message is accepted, and coming for every loop. *)
Lemma message_inv m s : inv s -> enabled (Message m) s -> exists s', handle (Message m) s = Ok (tt, s') /\ inv s'.
Proof.
  intros Hinv [Hl Hm]. pose proof (fun x c => in_loop x c s Hinv) as Hin. destruct Hinv. eexists. split; [reflexivity|].
  assert (forall x, x ∈ loops_ s ->
    due x (set_accepted (accepted s ++ [m]) (set_lock (Some (m, loops_ s)) s)) = due x s ++ [m]) as Hdue.
  { intros x Hx. unfold due, coming. simpl. rewrite Hl, decide_True by done. by rewrite app_nil_r. }
  split; simpl; try done.
  - intros m' rest [= <- <-]. split; [by apply OrderedSet.sorted_NoDup|done].
  - apply list.Forall_app. split; [done|]. by constructor.
  - intros x Hx. destruct (i_due0 x Hx) as [past Hp]. exists past. rewrite Hdue, Hp by done. by rewrite <- !app_assoc.
Qed.

Lemma turn_inv s : inv s -> enabled Turn s -> exists s', handle Turn s = Ok (tt, s') /\ inv s'.
Proof.
  intros [] Hl. simpl in *. unfold onStringMessage_turn, mbind, st_bind, get.
  destruct (lock s) as [[m [|x rest]]|] eqn:El; [|destruct (i_lock0 _ _ eq_refl) as [Hnd Hrest]|done].
  - eexists. split; [reflexivity|]. assert (forall x, due x (set_lock None s) = due x s) as Hdue.
    { intros x. unfold due, coming. simpl. by rewrite El. }
    split; simpl; try done. intros x Hx. rewrite Hdue. auto.
  - eexists. split; [reflexivity|]. apply list.NoDup_cons in Hnd as [Hx Hnd].
    set (s' := set_lock _ _). assert (forall y, due y s' = due y s) as Hdue.
    { intros y. unfold due, coming. simpl. rewrite El. change (queue_of y s') with
        (queue_of y (set_functors (<[x:=queue_of x s ++ [m]]> (pendingFunctors s)) s)).
      rewrite queue_set. destruct (decide (x = y)) as [<-|Hxy].
      - rewrite decide_False by done. rewrite decide_True by apply list_elem_of_here. by rewrite app_nil_r.
      - destruct (decide (y ∈ rest)); [rewrite decide_True by (by apply list_elem_of_further)|rewrite decide_False]; try done.
        by intros [->|]%elem_of_cons. }
    split; try done.
    + simpl. intros m' r [= <- <-]. split; [done|]. intros y Hy. apply Hrest. by apply list_elem_of_further.
    + intros y Hy. change (queue_of y s') with (queue_of y (set_functors (<[x:=queue_of x s ++ [m]]> (pendingFunctors s)) s)).
      rewrite queue_set, decide_False; [by apply i_queue0|]. intros <-. apply Hy. simpl. apply Hrest, list_elem_of_here.
    + intros y Hy. rewrite Hdue. by apply i_due0.
Qed.

Lemma send_to_run m c s : fits m -> send_to m c s = Ok (tt, set_sent (<[c := sent_to c s ++ frame m]> (sent s)) s).
Proof. unfold fits. intros Hm. unfold send_to, mbind, st_bind, lift. by rewrite chat_send_spec by lia. Qed.

(** [distributeMessage] gives the frame to each connection of the loop, once. *)
Lemma distribute_spec m l s : fits m -> NoDup l -> exists s',
  for_each (send_to m) l s = Ok (tt, s') /\
  (forall c, sent_to c s' = sent_to c s ++ (if decide (c ∈ l) then frame m else [])) /\
  s' = set_sent (sent s') s.
Proof.
  intros Hm Hl. revert s. induction Hl as [|c l Hc Hl IH]; intros s.
  - exists s. split_and!; [done| |by destruct s]. intros c. by rewrite app_nil_r.
  - simpl. rewrite (bind_run _ _ _ _ _ (send_to_run m c s Hm)).
    destruct (IH (set_sent (<[c := sent_to c s ++ frame m]> (sent s)) s)) as (s' & Hrun & Hs & He).
    rewrite Hrun. exists s'. split_and!; [done| |by rewrite He].
    intros d. rewrite Hs, sent_set. destruct (decide (c = d)) as [->|Hcd].
    + rewrite decide_False by done. rewrite decide_True by apply list_elem_of_here. by rewrite app_nil_r.
    + destruct (decide (d ∈ l)); [rewrite decide_True by (by apply list_elem_of_further)|rewrite decide_False]; try done.
      by intros [->|]%elem_of_cons.
Qed.

(** What is queued was accepted, so it fits. *)
Lemma queue_fits x m s : inv s -> x ∈ loops_ s -> m ∈ queue_of x s -> fits m.
Proof.
  intros Hinv Hx Hm. destruct (i_due s Hinv x Hx) as [past Hp]. pose proof (i_fits s Hinv) as Hf.
  unfold due in Hp. rewrite Hp in Hf. rewrite list.Forall_forall in Hf. apply Hf.
  apply elem_of_app. right. apply elem_of_app. by left.
Qed.

Lemma run_functor_inv x s : inv s -> enabled (Run x) s -> exists s', handle (Run x) s = Ok (tt, s') /\ inv s'.
Proof.
  intros Hinv Hx. simpl in *. unfold run_functor, mbind at 1, st_bind at 1, get.
  destruct (queue_of x s) as [|m q] eqn:Eq; [by exists s|].
  assert (fits m) as Hm by (eapply queue_fits; [..|rewrite Eq; apply list_elem_of_here]; done). destruct Hinv.
  set (s1 := set_functors (<[x := q]> (pendingFunctors s)) s).
  destruct (distribute_spec m (instance x s) s1 Hm) as (s2 & Hrun & Hs & He); [by apply OrderedSet.sorted_NoDup|].
  exists s2. split.
  { unfold mbind, st_bind, modify, distributeMessage, gets. exact Hrun. }
  clear Hrun. set (o := sent s2) in *. clearbody o. subst s2.
  assert (forall y, due y s = (if decide (x = y) then [m] else []) ++ due y (set_sent o s1)) as Hdue.
  { intros y. unfold due, coming. simpl. change (queue_of y (set_sent o s1)) with (queue_of y s1).
    unfold s1. rewrite queue_set. case_decide as E; [|done]. subst y. by rewrite Eq. }
  split; try done.
  - intros y Hy. change (queue_of y (set_sent o s1)) with (queue_of y s1). unfold s1. rewrite queue_set.
    case_decide as E; [by subst|by apply i_queue0].
  - intros y Hy. destruct (i_due0 y Hy) as [past Hp]. rewrite Hdue, app_assoc in Hp. by eexists.
Qed.

Lemma chat_step s e : inv s -> enabled e s -> exists s', handle e s = Ok (tt, s') /\ inv s'.
Proof. destruct e; [apply threadInit_inv|apply up_inv|apply down_inv|apply message_inv|apply turn_inv|apply run_functor_inv]. Qed.

Lemma reachable_chat_inv s : reachable s -> inv s.
Proof.
  induction 1 as [|s e s' _ IH He Hrun]; [apply chat_inv_new|].
  destruct (chat_step s e IH He) as (s2 & Hrun2 & Hinv). rewrite Hrun in Hrun2. by injection Hrun2 as ->.
Qed.

(** What a step adds to the accepted messages. *)
Definition accepts (e : event) : list bytes := match e with Message m => [m] | _ => [] end.

(** A step of the server, for a member [c] of loop [x] that does not leave: what the step
    takes from the messages due in the loop is what the member is given. *)
Definition passes (x c : Z) (s : t) (e : event) (s' : t) : Prop :=
  c ∈ instance x s' /\ accepted s' = accepted s ++ accepts e /\
  exists more, due x s ++ accepts e = more ++ due x s' /\ sent_to c s' = sent_to c s ++ concat (map frame more).

(** A step that leaves the member, the queue and the mutex as they are. *)
Lemma passes_same x c s e s' : c ∈ instance x s' -> accepts e = [] -> accepted s' = accepted s ->
  due x s' = due x s -> sent_to c s' = sent_to c s -> passes x c s e s'.
Proof.
  intros Hc He Ha Hd Hs. split_and!; [done|by rewrite Ha, He, app_nil_r|]. exists [].
  by rewrite He, Hd, Hs, !app_nil_r.
Qed.

Lemma message_passes x c m s s' : inv s -> enabled (Message m) s -> handle (Message m) s = Ok (tt, s') ->
  c ∈ instance x s -> passes x c s (Message m) s'.
Proof.
  intros Hinv [Hl _] [= <-] Hc. pose proof (in_loop x c s Hinv Hc) as Hx. split_and!; [done|done|]. exists [].
  unfold due, coming. simpl. rewrite Hl, decide_True by done. by rewrite !app_nil_r.
Qed.

Lemma turn_passes x c s s' : inv s -> handle Turn s = Ok (tt, s') -> c ∈ instance x s -> passes x c s Turn s'.
Proof.
  intros [] Hrun Hc. simpl in Hrun. unfold onStringMessage_turn, mbind, st_bind, get in Hrun.
  destruct (lock s) as [[m [|y rest]]|] eqn:El.
  - injection Hrun as <-. apply passes_same; try done. unfold due, coming. simpl. by rewrite El.
  - destruct (i_lock0 _ _ eq_refl) as [[Hy Hnd]%list.NoDup_cons Hrest]. injection Hrun as <-.
    apply passes_same; try done. unfold due, coming. simpl. rewrite El.
    change (queue_of x (set_lock (Some (m, rest)) (set_functors (<[y:=queue_of y s ++ [m]]> (pendingFunctors s)) s)))
      with (queue_of x (set_functors (<[y:=queue_of y s ++ [m]]> (pendingFunctors s)) s)).
    rewrite queue_set. destruct (decide (y = x)) as [<-|Hxy].
    + rewrite decide_False by done. rewrite decide_True by apply list_elem_of_here. by rewrite app_nil_r.
    + destruct (decide (x ∈ rest)); [rewrite decide_True by (by apply list_elem_of_further)|rewrite decide_False]; try done.
      by intros [->|]%elem_of_cons.
  - injection Hrun as <-. by apply passes_same.
Qed.

Lemma run_functor_passes x c y s s' : inv s -> enabled (Run y) s -> handle (Run y) s = Ok (tt, s') ->
  c ∈ instance x s -> passes x c s (Run y) s'.
Proof.
  intros Hinv Hy Hrun Hc. simpl in *. unfold run_functor, mbind at 1, st_bind at 1, get in Hrun.
  destruct (queue_of y s) as [|m q] eqn:Eq; [injection Hrun as <-; by apply passes_same|].
  set (s1 := set_functors (<[y := q]> (pendingFunctors s)) s) in *.
  destruct (distribute_spec m (instance y s) s1) as (s2 & Hd & Hs & He).
  { by eapply queue_fits; [..|rewrite Eq; apply list_elem_of_here]. }
  { apply OrderedSet.sorted_NoDup, Hinv. }
  assert (s' = s2) as ->.
  { enough (Ok (tt, s2) = Ok (tt, s')) by congruence. rewrite <- Hrun, <- Hd.
    unfold mbind, st_bind, modify, distributeMessage, gets. reflexivity. }
  specialize (Hs c). change (sent_to c s1) with (sent_to c s) in Hs. rewrite He in Hs |- *. clear Hrun Hd He.
  split_and!; [done|simpl; by rewrite app_nil_r|].
  exists (if decide (c ∈ instance y s) then [m] else []). rewrite Hs. simpl accepts. rewrite app_nil_r. split.
  - unfold due, coming. simpl. change (queue_of x (set_sent (sent s2) s1)) with (queue_of x s1). unfold s1.
    rewrite queue_set. destruct (decide (y = x)) as [->|Hxy].
    + rewrite decide_True by done. by rewrite Eq.
    + rewrite decide_False; [done|]. intros Hc'. by apply Hxy, (i_one s Hinv y x c).
  - f_equal. destruct (decide (c ∈ instance y s)); [|done]. simpl. by rewrite app_nil_r.
Qed.

Lemma step_passes x c s e s' : inv s -> enabled e s -> handle e s = Ok (tt, s') -> e <> Down x c ->
  c ∈ instance x s -> passes x c s e s'.
Proof.
  intros Hinv He Hrun Hdown Hc. destruct e as [y|y d|y d|m| |y].
  - simpl in Hrun. destruct (threadInit_inv y s Hinv He) as (s2 & Hrun2 & _). simpl in Hrun2.
    unfold threadInit, mbind, st_bind, get, sassert, lift, modify in Hrun.
    destruct (check _ _) in Hrun; [|done]. destruct (check _ _) in Hrun; [|done]. injection Hrun as <-.
    apply passes_same; try done. unfold instance at 1. simpl. destruct (decide (y = x)) as [->|Hxy].
    + by rewrite lookup_insert_eq.
    + by rewrite lookup_insert_ne.
  - injection Hrun as <-. apply passes_same; try done. rewrite instance_set. case_decide; [|done].
    subst. apply OrderedSet.elem_of_insert. by right.
  - injection Hrun as <-. apply passes_same; try done. rewrite instance_set. case_decide; [|done].
    subst. apply OrderedSet.elem_of_erase; [apply Hinv|]. split; [congruence|done].
  - by apply message_passes.
  - by apply turn_passes.
  - by apply run_functor_passes.
Qed.

(** The states since connection [c] came up in loop [x], in state [s0], as long as it has
    not gone down; with the messages accepted since. *)
Inductive member (x c : Z) (s0 : t) : list bytes -> t -> Prop :=
  | member_up s : enabled (Up x c) s0 -> handle (Up x c) s0 = Ok (tt, s) -> member x c s0 [] s
  | member_step since s e s' : member x c s0 since s -> enabled e s -> e <> Down x c ->
      handle e s = Ok (tt, s') -> member x c s0 (since ++ accepts e) s'.

Lemma member_got x c s0 since s : reachable s0 -> member x c s0 since s ->
  reachable s /\ c ∈ instance x s /\ accepted s = accepted s0 ++ since /\
  exists got, due x s0 ++ since = got ++ due x s /\ sent_to c s = concat (map frame got).
Proof.
  intros Hr. induction 1 as [s He Hrun|since s e s' _ IH He Hdown Hrun].
  - split; [by eapply reach_handle|]. destruct He as (_ & Hnew & _). injection Hrun as <-.
    split_and!; [rewrite instance_set, decide_True by done; apply OrderedSet.elem_of_insert; by left|by rewrite app_nil_r|].
    exists []. rewrite app_nil_r. split; [done|]. unfold sent_to. simpl. by rewrite Hnew.
  - destruct IH as (Hrs & Hc & Ha & got & Hd & Hs).
    destruct (step_passes x c s e s' (reachable_chat_inv s Hrs) He Hrun Hdown Hc) as (Hc' & Ha' & more & Hm & Hs').
    split_and!; [by eapply reach_handle|done|by rewrite Ha', Ha, app_assoc|]. exists (got ++ more).
    rewrite app_assoc, Hd, <- !app_assoc, Hm. split; [done|]. by rewrite Hs', Hs, map_app, concat_app.
Qed.

(** C36: every chat member sees the same conversation.  In any interleaving of the loops and
    of the threads that read messages, no step fails.  Take a connection from the time it
    comes up until it goes down: the messages that the mutex accepted since, preceded by
    those that its loop still had to distribute when it came up, are those the connection
    was given, each framed once, in that order and without a gap, followed by those still
    queued for its loop or on their way there.  So when the mutex is free and the queue of
    its loop is empty, the connection has everything accepted since it came up. *)
Theorem chat_one_order s0 :
  reachable s0 ->
  (forall e, enabled e s0 -> is_ok (handle e s0)) /\
  forall x c since s, member x c s0 since s ->
    accepted s = accepted s0 ++ since /\
    (exists got, due x s0 ++ since = got ++ due x s /\ sent_to c s = concat (map frame got)) /\
    (lock s = None -> queue_of x s = [] -> sent_to c s = concat (map frame (due x s0 ++ since))).
Proof.
  intros Hr. split.
  - intros e He. destruct (chat_step s0 e (reachable_chat_inv s0 Hr) He) as (s' & Hrun & _). by eexists.
  - intros x c since s Hm. destruct (member_got x c s0 since s Hr Hm) as (_ & _ & Ha & got & Hd & Hs).
    split_and!; [done|by exists got|]. intros Hl Hq.
    assert (due x s = []) as E by (unfold due, coming; by rewrite Hl, Hq). by rewrite Hd, E, app_nil_r.
Qed.

(** Two loops; the second distributes while the mutex is still held. *)
Definition chat_run : list event :=
  [ThreadInit 1; ThreadInit 2; Up 1 10; Up 2 20; Message (bs "a"); Turn; Turn; Run 2; Up 2 21; Turn; Message (bs "b");
   Turn; Turn; Turn; Run 1; Run 1; Run 2].

Fixpoint runs (l : list event) (s : t) : option t :=
  match l with
  | [] => Some s
  | e :: l => if decide (enabled e s) then match handle e s with Ok (_, s') => runs l s' | Fail _ => None end else None
  end.

Lemma runs_reachable l s s' : reachable s -> runs l s = Some s' -> reachable s'.
Proof.
  revert s; induction l as [|e l IH]; intros s Hr; simpl; [by intros [= <-]|].
  destruct (decide (enabled e s)) as [He|]; [|done]. destruct (handle e s) as [[[] s1]|] eqn:E; [|done].
  apply IH. by eapply reach_handle.
Qed.

(** The run until connection 21 comes up, and what is accepted after. *)
Definition chat_before : t := default ChatServer (runs (take 8 chat_run) ChatServer).
Definition chat_end : t := default ChatServer (runs (drop 8 chat_run) chat_before).

Lemma runs_member x c s0 since l s s' : member x c s0 since s -> Forall (fun e => e <> Down x c) l ->
  runs l s = Some s' -> member x c s0 (since ++ concat (map accepts l)) s'.
Proof.
  intros Hm Hl. revert since s Hm. induction Hl as [|e l He Hl IH]; intros since s Hm; simpl.
  - intros [= <-]. by rewrite app_nil_r.
  - destruct (decide (enabled e s)) as [Hen|]; [|done]. destruct (handle e s) as [[[] s1]|] eqn:E; [|done].
    intros Hrun. rewrite app_assoc. apply (IH _ s1); [by eapply member_step|done].
Qed.

Lemma chat_one_order_witness :
  due 2 chat_before = [] /\ accepted chat_before = [bs "a"] /\ sent_to 10 chat_end = frame (bs "a") ++ frame (bs "b") /\
  sent_to 21 chat_end = concat (map frame (due 2 chat_before ++ [bs "b"])).
Proof.
  split_and!; [vm_compute; reflexivity..|].
  destruct (chat_one_order chat_before) as [_ H].
  - apply (runs_reachable (take 8 chat_run) ChatServer); [constructor|vm_compute; reflexivity].
  - assert (member 2 21 chat_before [] (default chat_before (runs [Up 2 21] chat_before))) as Hup.
    { apply member_up; [|vm_compute; reflexivity]. apply (bool_decide_unpack _). vm_compute. exact I. }
    destruct (H 2 21 [bs "b"] chat_end) as (_ & _ & Hs).
    + apply (runs_member 2 21 chat_before [] (drop 9 chat_run) _ _ Hup); [|vm_compute; reflexivity].
      unfold chat_run. simpl drop. repeat constructor; discriminate.
    + apply Hs; vm_compute; reflexivity.
Defined.
End ChatServer.
