(* ===== verification/Packet.v ===== *)
(** The packets of the multiplexer example ([examples/multiplexer]): many connections share
    one.  [Module Packet] is what both ends do with the shared connection: packets of at
    most 255 bytes, each with its length and the number of its connection. *)
From coqutil Require Import Byte Z.bitblast.
From S2P Require Import Prelude State Endian NetBuffer Codec.
Open Scope Z_scope.

Module Packet.

Definition kMaxPacketLen : Z := 255.
Definition kHeaderLen : Z := 3.

(** [static_cast<uint8_t>] *)
Abbreviation uint8 := byte.of_Z.

Definition header (len id : Z) : bytes :=
  [uint8 len; uint8 (Z.land id 0xff); uint8 (Z.shiftr (Z.land id 0xff00) 8)].

(** [sendBackendPacket] and [sendServerPacket]: the header goes in front of the bytes in
    the buffer; the shared connection takes them out when there is one. *)
Definition send_packet (connected : bool) (id : Z) (buf : Buffer.t) : res (list bytes * Buffer.t) :=
  let len := Buffer.readableBytes buf in
  _ ← assert_ (bool_decide (len <= kMaxPacketLen));
  buf ← Buffer.prepend (header len id) kHeaderLen buf;
  if connected then
    sent ← Buffer.range (Buffer.peek buf) (Buffer.beginWrite buf) buf;
    mret ([sent], Buffer.retrieveAll buf)
  else mret ([], buf).

(** [sendBackendBuffer] and the body of [onSocksMessage]. *)
Fixpoint send_buffer_loop (fuel : nat) (connected : bool) (id : Z) (buf : Buffer.t) : res (list bytes * Buffer.t) :=
  match fuel with
  | O => Fail NoEnd
  | S fuel =>
      if bool_decide (Buffer.readableBytes buf > kMaxPacketLen) then
        packet ← Buffer.Buffer Buffer.kInitialSize;
        data ← Buffer.range (Buffer.peek buf) (Buffer.peek buf + kMaxPacketLen) buf;
        packet ← Buffer.append data kMaxPacketLen packet;
        buf ← Buffer.retrieve kMaxPacketLen buf;
        '(out, _) ← send_packet connected id packet;
        '(outs, buf) ← send_buffer_loop fuel connected id buf;
        mret (out ++ outs, buf)
      else if bool_decide (Buffer.readableBytes buf > 0) then send_packet connected id buf
      else mret ([], buf)
  end.

Definition send_buffer (connected : bool) (id : Z) (buf : Buffer.t) : res (list bytes * Buffer.t) :=
  send_buffer_loop (S (Z.to_nat (Buffer.readableBytes buf))) connected id buf.

(** [peek()[i]] as [uint8_t]. *)
Definition at_peek (i : Z) (buf : Buffer.t) : res Z :=
  m ← Buffer.range (Buffer.peek buf + i) (Buffer.peek buf + i + 1) buf;
  match m with [c] => mret (byte.unsigned c) | _ => Fail OutOfBounds end.

(** ** Receiving *)

Section receive.
Context {S : Type} (handle : Z -> bytes -> ST S unit).

(** One round of the loop of [sendToClient] and [onServerMessage]. *)
Definition receive_step (buf : Buffer.t) : ST S (bool * Buffer.t) :=
  if bool_decide (Buffer.readableBytes buf > kHeaderLen) then
    len ← lift (at_peek 0 buf);
    if bool_decide (Buffer.readableBytes buf < len + kHeaderLen) then mret (false, buf)
    else
      b1 ← lift (at_peek 1 buf);
      b2 ← lift (at_peek 2 buf);
      let id := Z.lor b1 (Z.shiftl b2 8) in
      data ← lift (Buffer.range (Buffer.peek buf + kHeaderLen) (Buffer.peek buf + kHeaderLen + len) buf);
      _ ← handle id data;
      buf ← lift (Buffer.retrieve (len + kHeaderLen) buf);
      mret (true, buf)
  else mret (false, buf).

Fixpoint receive_loop (fuel : nat) (buf : Buffer.t) : ST S Buffer.t :=
  match fuel with
  | O => fail NoEnd
  | Datatypes.S fuel =>
      '(more, buf) ← receive_step buf;
      if more : bool then receive_loop fuel buf else mret buf
  end.

(** Each round that goes on takes bytes out. *)
Definition receive (buf : Buffer.t) : ST S Buffer.t :=
  receive_loop (Datatypes.S (Z.to_nat (Buffer.readableBytes buf))) buf.
End receive.

(** ** The format *)

Definition packet (p : Z * bytes) : bytes := header (lenZ p.2) p.1 ++ p.2.
Definition fits (p : Z * bytes) : Prop := 0 <= p.1 < 2 ^ 16 /\ 0 < lenZ p.2 <= kMaxPacketLen.

(** A byte of the stream, and the number of the connection. *)
Definition u8 (i : nat) (c : bytes) : Z := match c !! i with Some x => byte.unsigned x | None => 0 end.
Definition id_of (c : bytes) : Z := Z.lor (u8 1 c) (Z.shiftl (u8 2 c) 8).

Definition decode1 (c : bytes) : Framing.step (Z * bytes) :=
  if decide (lenZ c <= 3) then Framing.Wait
  else if decide (lenZ c < u8 0 c + 3) then Framing.Wait
  else Framing.Frame [(id_of c, take (Z.to_nat (u8 0 c)) (drop 3 c))] (Z.to_nat (u8 0 c + 3)).

Lemma u8_range i c : 0 <= u8 i c < 256.
Proof. unfold u8. destruct (c !! i); [apply byte.unsigned_range|lia]. Qed.

Lemma u8_app i c d : (i < length c)%nat -> u8 i (c ++ d) = u8 i c.
Proof. intros Hi. unfold u8. by rewrite lookup_app_l. Qed.

#[export] Instance packet_laws : Framing.Laws decode1.
Proof.
  split.
  - intros c o n. unfold decode1. pose proof (u8_range 0 c). repeat case_decide; try done. intros [= _ <-]. unfold lenZ in *; lia.
  - intros c d o n. unfold decode1. pose proof (lenZ_nonneg d). pose proof (u8_range 0 c).
    destruct (decide (lenZ c <= 3)) as [H1|H1]; [done|].
    assert (u8 0 (c ++ d) = u8 0 c /\ id_of (c ++ d) = id_of c) as [-> ->].
    { unfold id_of. by rewrite !u8_app by (unfold lenZ in *; lia). }
    rewrite (decide_False (P := lenZ (c ++ d) <= 3)) by (rewrite lenZ_app; lia).
    destruct (decide (lenZ c < u8 0 c + 3)) as [H2|H2]; [done|]. rewrite decide_False by (rewrite lenZ_app; lia).
    rewrite drop_app_le by (unfold lenZ in *; lia). by rewrite take_app_le by (rewrite length_drop; unfold lenZ in *; lia).
Qed.

Lemma id_split id : Z.lor (Z.land id 0xff) (Z.shiftl (Z.shiftr id 8) 8) = id.
Proof. change 0xff with (Z.ones 8). Z.bitblast; destruct (Z.testbit id _); done. Qed.

Lemma id_high id : 0 <= id < 2 ^ 16 -> Z.shiftr (Z.land id 0xff00) 8 = Z.shiftr id 8.
Proof.
  intros Hid. assert (Z.shiftr (Z.land id 0xff00) 8 = Z.land (Z.shiftr id 8) (Z.ones 8)) as ->.
  { change 0xff00 with (Z.shiftl (Z.ones 8) 8). Z.bitblast. }
  rewrite Z.land_ones by lia. apply Z.mod_small. rewrite Z.shiftr_div_pow2 by lia. change (2 ^ 8) with 256. div_lia.
Qed.

Lemma id_header len id c : 0 <= id < 2 ^ 16 -> id_of (header len id ++ c) = id.
Proof.
  intros Hid. unfold id_of, u8. cbn [header app lookup list_lookup]. rewrite id_high by done.
  assert (0 <= Z.shiftr id 8 < 256) by (rewrite Z.shiftr_div_pow2 by lia; change (2 ^ 8) with 256; div_lia).
  rewrite !byte_of_Z_small; [apply id_split|done|].
  change 0xff with (Z.ones 8). rewrite Z.land_ones by lia. by apply Z.mod_pos_bound.
Qed.

Lemma lenZ_packet p : lenZ (packet p) = lenZ p.2 + 3.
Proof. unfold packet. rewrite lenZ_app. unfold header, lenZ. simpl. lia. Qed.

Lemma packet_decodable p : fits p -> Framing.decodable decode1 packet (fun p => [p]) p.
Proof.
  intros [Hid Hlen]. unfold kMaxPacketLen in Hlen. pose proof (lenZ_packet p) as Hpl. destruct p as [id data]. cbn [fst snd] in *.
  assert (forall c d, packet (id, data) = c ++ d -> 1 <= lenZ c -> u8 0 c = lenZ data) as Hfirst.
  { intros c d Hc Hl. destruct c as [|x c]; [unfold lenZ in Hl; simpl in Hl; lia|]. unfold packet, header in Hc. simpl in Hc.
    injection Hc as <- _. unfold u8. simpl. apply byte_of_Z_small. lia. }
  split.
  - intros d. pose proof (lenZ_nonneg d). unfold decode1.
    rewrite u8_app by (unfold lenZ in *; lia). rewrite (Hfirst _ []) by (rewrite ?app_nil_r; done || lia).
    rewrite !decide_False by (rewrite lenZ_app; lia).
    unfold packet at 1. cbn [fst snd]. rewrite <- app_assoc, id_header by done. do 3 f_equal.
    + unfold packet, header. cbn [fst snd app drop]. apply take_app_length'. unfold lenZ. lia.
    + unfold lenZ in *. lia.
  - intros c d Hcd Hd. unfold decode1. destruct (decide (lenZ c <= 3)) as [|Hlong]; [done|].
    rewrite (Hfirst _ _ Hcd) by lia. rewrite decide_True; [done|].
    apply (f_equal lenZ) in Hcd. rewrite lenZ_app in Hcd. destruct d; [done|]. unfold lenZ in *. simpl in *. lia.
Qed.

(** ** The loops *)

Lemma lenZ_header len id : lenZ (header len id) = 3.
Proof. done. Qed.

Lemma at_peek_spec i b : Buffer.wf b -> (i < length (Buffer.content b))%nat -> at_peek (Z.of_nat i) b = Ok (u8 i (Buffer.content b)).
Proof.
  intros Hwf Hi. pose proof Hwf as (H1 & H2 & H3). pose proof (Buffer.lenZ_content b Hwf) as Hl. unfold lenZ in Hl at 1.
  unfold at_peek, Buffer.peek. rewrite Buffer.range_wf by (done || lia). cbn [mbind res_bind].
  assert (slice (Buffer.readerIndex_ b + Z.of_nat i) (Buffer.readerIndex_ b + Z.of_nat i + 1) (Buffer.buffer_ b) =
    take 1 (drop i (Buffer.content b))) as ->.
  { unfold Buffer.content. replace i with (Z.to_nat (Z.of_nat i)) at 3 by lia. rewrite drop_slice by lia.
    change 1%nat with (Z.to_nat 1). rewrite take_slice by lia. done. }
  unfold u8. destruct (lookup_lt_is_Some_2 (Buffer.content b) i Hi) as [x Hx]. rewrite Hx.
  by rewrite (drop_S _ x i Hx).
Qed.

Section receive_proofs.
Context {S : Type} (handle : Z -> bytes -> ST S unit).

Lemma receive_step_spec b s : Buffer.wf b ->
  match decode1 (Buffer.content b) with
  | Framing.Frame o n => exists b', Buffer.wf b' /\ Buffer.content b' = drop n (Buffer.content b) /\
      lenZ (Buffer.buffer_ b') = lenZ (Buffer.buffer_ b) /\
      receive_step handle b s = match for_each (fun p => handle p.1 p.2) o s with Ok (_, s') => Ok ((true, b'), s') | Fail e => Fail e end
  | _ => receive_step handle b s = Ok ((false, b), s)
  end.
Proof.
  intros Hwf. pose proof Hwf as (H1 & H2 & H3). pose proof (Buffer.lenZ_content b Hwf) as Hl. pose proof (u8_range 0 (Buffer.content b)).
  unfold receive_step, decode1, kHeaderLen. rewrite Buffer.readable_content by done.
  destruct (decide (lenZ (Buffer.content b) <= 3)) as [Hs|Hs]; [by rewrite bool_decide_eq_false_2 by lia|].
  assert (forall i, (i < 3)%nat -> at_peek (Z.of_nat i) b = Ok (u8 i (Buffer.content b))) as Hat.
  { intros i Hi. apply at_peek_spec; [done|]. unfold lenZ in *. lia. }
  rewrite bool_decide_eq_true_2 by lia. rewrite (lift_run _ _ _ _ (Hat 0%nat ltac:(lia))).
  destruct (decide (lenZ (Buffer.content b) < u8 0 (Buffer.content b) + 3)) as [Hp|Hp]; [by rewrite bool_decide_eq_true_2 by lia|].
  rewrite bool_decide_eq_false_2 by lia.
  rewrite (lift_run _ _ _ _ (Hat 1%nat ltac:(lia))), (lift_run _ _ _ _ (Hat 2%nat ltac:(lia))).
  set (len := u8 0 (Buffer.content b)) in *. fold (id_of (Buffer.content b)).
  assert (Buffer.range (Buffer.peek b + 3) (Buffer.peek b + 3 + len) b = Ok (take (Z.to_nat len) (drop 3 (Buffer.content b)))) as Hdata.
  { unfold Buffer.peek. rewrite Buffer.range_wf by (done || lia). f_equal. unfold Buffer.content.
    change 3%nat with (Z.to_nat 3). rewrite drop_slice by lia. by rewrite take_slice by lia. }
  rewrite (lift_run _ _ _ _ Hdata).
  destruct (Buffer.retrieve_spec (len + 3) b Hwf) as (b' & Hret & Hwf' & Hc' & Hb' & _); [by rewrite Buffer.readable_content by done; lia|].
  exists b'. split_and!; [done|done|by rewrite Hb'|]. cbn [for_each fst snd]. unfold mbind, st_bind.
  destruct (handle _ _ s) as [[[] s']|e]; [|done]. unfold lift. by rewrite Hret.
Qed.

(** [receive] handles the packets that are whole, in order, and takes them out. *)
Lemma receive_loop_spec fuel b s :
  Buffer.wf b -> (length (Buffer.content b) < fuel)%nat -> exists b', Buffer.wf b' /\
    Buffer.content b' = (Framing.decode decode1 (Buffer.content b)).2 /\ lenZ (Buffer.buffer_ b') = lenZ (Buffer.buffer_ b) /\
    receive_loop handle fuel b s =
      match for_each (fun p => handle p.1 p.2) (Framing.decode decode1 (Buffer.content b)).1 s with
      | Ok (_, s') => Ok (b', s')
      | Fail e => Fail e
      end.
Proof.
  revert b s. induction fuel as [|fuel IH]; intros b s Hwf Hf; [lia|].
  pose proof (receive_step_spec b s Hwf) as Hstep. unfold Framing.decode. cbn [Framing.decode_loop receive_loop].
  destruct (decode1 (Buffer.content b)) as [|o n|o] eqn:E1.
  - exists b. by rewrite (bind_run _ _ _ _ _ Hstep).
  - destruct Hstep as (b1 & Hwf1 & Hc1 & Hl1 & Hstep). pose proof (Framing.frame_length _ _ _ _ E1) as Hn.
    rewrite (Framing.decode_fuel _ (length (Buffer.content b)) (Datatypes.S (length (drop n (Buffer.content b))))) by (rewrite ?length_drop; lia).
    assert (forall s, exists b', _) as Hgo by (intros s1; apply (IH b1 s1 Hwf1); rewrite Hc1, length_drop; lia). clear IH.
    unfold Framing.decode in Hgo. rewrite Hc1 in Hgo. destruct (Framing.decode_loop _ _ _) as [o' rest] eqn:Eo. cbn [fst snd] in *.
    rewrite <- Hl1. unfold mbind, st_bind. rewrite Hstep, for_each_app.
    destruct (for_each _ o s) as [[[] s1]|e]; [apply (Hgo s1)|]. destruct (Hgo s) as (b0 & ? & ? & ? & _). by exists b0.
  - unfold decode1 in E1. repeat case_decide; done.
Qed.

Lemma receive_spec b s : Buffer.wf b -> exists b', Buffer.wf b' /\
  Buffer.content b' = (Framing.decode decode1 (Buffer.content b)).2 /\ lenZ (Buffer.buffer_ b') = lenZ (Buffer.buffer_ b) /\
  receive handle b s =
    match for_each (fun p => handle p.1 p.2) (Framing.decode decode1 (Buffer.content b)).1 s with
    | Ok (_, s') => Ok (b', s')
    | Fail e => Fail e
    end.
Proof. intros Hwf. apply receive_loop_spec; [done|]. rewrite Buffer.readable_content by done. unfold lenZ. lia. Qed.
End receive_proofs.

(** The pieces in which the bytes of a connection travel. *)
Fixpoint pieces_loop (fuel : nat) (d : bytes) : list bytes :=
  match fuel with
  | O => []
  | S fuel => if decide (255 < lenZ d) then take 255 d :: pieces_loop fuel (drop 255 d) else if decide (d = []) then [] else [d]
  end.
Definition pieces (d : bytes) : list bytes := pieces_loop (S (length d)) d.

Lemma pieces_loop_concat fuel d : (length d < fuel)%nat -> concat (pieces_loop fuel d) = d.
Proof.
  revert d; induction fuel as [|fuel IH]; intros d Hf; [lia|]. cbn [pieces_loop]. case_decide as H1.
  - cbn [concat]. rewrite IH, take_drop; [done|]. rewrite length_drop. unfold lenZ in H1. lia.
  - case_decide; [by subst|]. cbn [concat]. by rewrite app_nil_r.
Qed.

Lemma pieces_concat d : concat (pieces d) = d.
Proof. apply pieces_loop_concat. lia. Qed.

Lemma pieces_loop_sizes fuel d : Forall (fun x => 0 < lenZ x <= 255) (pieces_loop fuel d).
Proof.
  revert d; induction fuel as [|fuel IH]; intros d; [constructor|]. cbn [pieces_loop]. case_decide as H1.
  - constructor; [|apply IH]. unfold lenZ in *. rewrite length_take. lia.
  - case_decide as H2; [constructor|]. apply list.Forall_cons. split; [|constructor]. destruct d; [done|]. unfold lenZ in *. simpl in *. lia.
Qed.

Lemma pieces_fit id d : 0 <= id < 2 ^ 16 -> Forall fits (map (pair id) (pieces d)).
Proof.
  intros Hid. apply List.Forall_map. eapply list.Forall_impl; [apply pieces_loop_sizes|]. intros x Hx. by split.
Qed.

Lemma send_packet_spec connected id b :
  Buffer.wf b -> lenZ (Buffer.content b) <= 255 -> 3 <= Buffer.readerIndex_ b ->
  exists b', send_packet connected id b =
      Ok (if connected then ([packet (id, Buffer.content b)], Buffer.retrieveAll b') else ([], b')) /\ Buffer.wf b' /\
    Buffer.content b' = packet (id, Buffer.content b) /\ Buffer.readerIndex_ b' = Buffer.readerIndex_ b - 3 /\
    lenZ (Buffer.buffer_ b') = lenZ (Buffer.buffer_ b).
Proof.
  intros Hwf Hc Hr. unfold send_packet, kMaxPacketLen, kHeaderLen. rewrite Buffer.readable_content by done.
  rewrite check_true by (by apply bool_decide_eq_true). cbn [mbind res_bind].
  destruct (Buffer.prepend_spec (header (lenZ (Buffer.content b)) id) b Hwf) as (b' & Hpre & Hwf' & Hc' & Hr' & Hl'); [done|].
  change (lenZ (header _ _)) with 3 in *. rewrite Hpre. cbn [mbind res_bind]. exists b'.
  change (Buffer.content b' = packet (id, Buffer.content b)) in Hc'.
  destruct connected; [|by split_and!]. rewrite Buffer.range_content by done. cbn [mbind res_bind mret res_ret]. rewrite Hc'. by split_and!.
Qed.

(** Without the shared connection the first piece, or the header, stays in the buffer. *)
Lemma send_buffer_spec id b :
  Buffer.wf b -> 3 <= Buffer.readerIndex_ b ->
  exists b', send_buffer true id b = Ok (map (fun d => packet (id, d)) (pieces (Buffer.content b)), b') /\ Buffer.wf b' /\
    Buffer.content b' = [] /\ 3 <= Buffer.readerIndex_ b' /\ lenZ (Buffer.buffer_ b') = lenZ (Buffer.buffer_ b).
Proof.
  unfold send_buffer. intros Hwf Hr. rewrite Buffer.readable_content by done. unfold pieces.
  replace (Z.to_nat (lenZ (Buffer.content b))) with (length (Buffer.content b)) by (unfold lenZ; lia).
  assert (length (Buffer.content b) < S (length (Buffer.content b)))%nat as Hf by lia. revert Hf.
  generalize (S (length (Buffer.content b))) as fuel. intros fuel. revert b Hwf Hr.
  induction fuel as [|fuel IH]; intros b Hwf Hr Hf; [lia|]. cbn [send_buffer_loop pieces_loop]. unfold kMaxPacketLen.
  rewrite !Buffer.readable_content by done. pose proof (lenZ_nonneg (Buffer.content b)). case_decide as H1.
  - rewrite bool_decide_eq_true_2 by lia. pose proof Hwf as (Hw1 & Hw2 & Hw3). pose proof (Buffer.lenZ_content b Hwf) as Hl.
    destruct (Buffer.Buffer_spec Buffer.kInitialSize) as (p & -> & Hwfp & Hcp & Hrp & _ & Hlp);
      [unfold Buffer.kInitialSize; lia|unfold Buffer.kInitialSize, vector_max_size; lia|]. cbn [mbind res_bind].
    unfold Buffer.peek. rewrite Buffer.range_wf by (done || lia). cbn [mbind res_bind].
    assert (slice (Buffer.readerIndex_ b) (Buffer.readerIndex_ b + 255) (Buffer.buffer_ b) = take 255 (Buffer.content b)) as ->.
    { unfold Buffer.content. symmetry. apply (take_slice 255). lia. }
    assert (lenZ (take 255 (Buffer.content b)) = 255) as Ht by (unfold lenZ in *; rewrite length_take; lia).
    destruct (Buffer.append_spec (take 255 (Buffer.content b)) p Hwfp) as (p1 & Happ & Hwfp1 & Hcp1 & Hrp1 & Hlp1);
      [rewrite Hlp, Ht; unfold Buffer.kInitialSize, vector_max_size; lia|].
    rewrite Ht in Happ. rewrite Happ. cbn [mbind res_bind].
    destruct (Buffer.retrieve_spec 255 b Hwf) as (b1 & -> & Hwf1 & Hc1 & Hb1 & Hr1); [rewrite Buffer.readable_content by done; lia|].
    cbn [mbind res_bind]. rewrite Hcp in Hcp1. cbn [app] in Hcp1.
    destruct (send_packet_spec true id p1 Hwfp1) as (p2 & -> & _); [rewrite Hcp1; lia|lia|]. cbn [mbind res_bind].
    destruct (IH b1 Hwf1) as (b' & -> & Hwf' & Hc' & Hr' & Hl').
    { rewrite Hr1. case_bool_decide; lia. }
    { rewrite Hc1, length_drop. unfold lenZ in *. lia. }
    cbn [mbind res_bind mret res_ret]. exists b'. rewrite Hcp1, Hc1. split_and!; [done|done|done|done|by rewrite Hl', Hb1].
  - rewrite bool_decide_eq_false_2 by lia. case_decide as H2.
    + rewrite H2, bool_decide_eq_false_2 by (unfold lenZ; simpl; lia). by exists b.
    + rewrite bool_decide_eq_true_2 by (destruct (Buffer.content b); [done|]; unfold lenZ; simpl; lia).
      destruct (send_packet_spec true id b Hwf) as (b' & -> & Hwf' & _ & _ & Hl'); [lia|done|].
      exists (Buffer.retrieveAll b'). split_and!; [done|by apply Buffer.retrieveAll_wf|by apply Buffer.retrieveAll_content|done|done].
Qed.

(** C37: what one end of the shared connection sends, the other end receives.  The bytes in
    the buffer of a connection go out as packets with its number, and the buffer is empty
    afterwards; and when packets arrive, in any pieces, the receiving loop handles those
    that are whole, in order and with their numbers and bytes, and leaves the rest in the
    buffer; it fails only if the handling of a packet does. *)
Theorem packets_roundtrip {S : Type} (handle : Z -> bytes -> ST S unit) id b l later inb s :
  0 <= id < 2 ^ 16 -> Buffer.wf b -> 3 <= Buffer.readerIndex_ b ->
  Forall fits l -> Buffer.wf inb -> Buffer.content inb ++ later = concat (map packet l) ->
  (exists b' ds, send_buffer true id b = Ok (map (fun d => packet (id, d)) ds, b') /\ Buffer.content b' = [] /\
     concat ds = Buffer.content b /\ Forall fits (map (pair id) ds)) /\
  exists l1 l2 inb', l = l1 ++ l2 /\ Buffer.wf inb' /\ Buffer.content inb' ++ later = concat (map packet l2) /\
    (later = [] -> l2 = []) /\
    receive handle inb s = match for_each (fun p => handle p.1 p.2) l1 s with Ok (_, s') => Ok (inb', s') | Fail e => Fail e end.
Proof.
  intros Hid Hwf Hr Hl Hin Hc. split.
  - destruct (send_buffer_spec id b Hwf Hr) as (b' & Hrun & _ & Hc' & _). exists b', (pieces (Buffer.content b)).
    split_and!; [done|done|apply pieces_concat|by apply pieces_fit].
  - destruct (receive_spec handle inb s Hin) as (inb' & Hwf' & Hc' & _ & Hrun).
    destruct (Framing.decode_prefix decode1 packet (fun p => [p]) l (Buffer.content inb) later) as (l1 & l2 & rest & -> & Hdec & Hrest & Hend); try done.
    { eapply list.Forall_impl; [exact Hl|]. apply packet_decodable. }
    rewrite Hdec in *. cbn [fst snd] in *. exists l1, l2, inb'. rewrite Hc'. split_and!; [done|done|done|done|].
    rewrite Hrun, Framing.concat_map_singleton, map_id. done.
Qed.

(** The bytes of three connections: eleven wait in a buffer for the seventh, and the first of
    two packets has arrived with two bytes of the header of the second. *)
Definition sample : Buffer.t := Buffer.mk (replicate 8 Byte.x00 ++ bs "hello world") 8 19.
Definition sample_packets : list (Z * bytes) := [(1, bs "he"); (258, bs "llo")].
Definition sample_stream : bytes := concat (map packet sample_packets).
Definition sample_arrived : Buffer.t := Buffer.mk (replicate 8 Byte.x00 ++ take 7 sample_stream) 8 15.
Definition record (id : Z) (data : bytes) : ST (list (Z * bytes)) unit := fun s => Ok (tt, s ++ [(id, data)]).

Lemma packets_roundtrip_witness :
  (exists b' ds, send_buffer true 7 sample = Ok (map (fun d => packet (7, d)) ds, b') /\ Buffer.content b' = [] /\
     concat ds = bs "hello world" /\ Forall fits (map (pair 7) ds)) /\
  (exists l1 l2 inb', sample_packets = l1 ++ l2 /\ Buffer.wf inb' /\ Buffer.content inb' ++ drop 7 sample_stream = concat (map packet l2) /\
    (drop 7 sample_stream = [] -> l2 = []) /\
    receive record sample_arrived [] = match for_each (fun p => record p.1 p.2) l1 [] with Ok (_, s') => Ok (inb', s') | Fail e => Fail e end) /\
  (exists inb', receive record sample_arrived [] = Ok (inb', [(1, bs "he")]) /\ Buffer.content inb' = take 2 (drop 5 sample_stream)).
Proof.
  assert (forall P Q R, P /\ Q -> R -> P /\ Q /\ R) as Hjoin by tauto. apply Hjoin.
  - apply (packets_roundtrip record 7 sample sample_packets (drop 7 sample_stream) sample_arrived []).
    + lia.
    + unfold Buffer.wf, Buffer.kCheapPrepend, vector_max_size. vm_compute. repeat split; discriminate.
    + vm_compute. discriminate.
    + repeat constructor; vm_compute; done.
    + unfold Buffer.wf, Buffer.kCheapPrepend, vector_max_size. vm_compute. repeat split; discriminate.
    + by vm_compute.
  - eexists. split; vm_compute; reflexivity.
Defined.
End Packet.
