(* ===== verification/Multiplexer.v ===== *)
(** The multiplexer ([examples/multiplexer/multiplexer_simple.cc]): it gives numbers to its
    clients, and sends what they say over one connection to the backend. *)
From stdpp Require Import gmap.
From S2P Require Import Prelude State OrderedSet Decimal NetBuffer Codec Packet.
Open Scope Z_scope.

Module MultiplexServer.

Definition kMaxConns : nat := 10.

(** What goes to the connections. *)
Inductive effect := ToBackend (packet : bytes) | ToClient (conn : Z) (data : bytes) | ShutdownClient (conn : Z).

(** Connections are their addresses; [contexts]: the context of a client's connection. *)
Record t := mk {
  backendConn_ : option Z;
  clientConns_ : list (Z * Z);
  availIds_ : list Z;
  contexts : gmap Z Z;
  out : list effect
}.

Definition MultiplexServer : t := mk None [] [] ∅ [].

Definition set_backend c s := mk c (clientConns_ s) (availIds_ s) (contexts s) (out s).
Definition set_clients l s := mk (backendConn_ s) l (availIds_ s) (contexts s) (out s).
Definition set_avail l s := mk (backendConn_ s) (clientConns_ s) l (contexts s) (out s).
Definition set_contexts m s := mk (backendConn_ s) (clientConns_ s) (availIds_ s) m (out s).
Definition emit l s := mk (backendConn_ s) (clientConns_ s) (availIds_ s) (contexts s) (out s ++ l).

Section server.
(** [conn->peerAddress().toIpPort()] *)
Context (toIpPort : Z -> bytes).

Definition connected (s : t) : bool := bool_decide (is_Some (backendConn_ s)).

Definition sendBackendPacket (id : Z) (buf : Buffer.t) : ST t Buffer.t :=
  s ← get;
  '(l, buf) ← lift (Packet.send_packet (connected s) id buf);
  _ ← modify (emit (map ToBackend l));
  mret buf.

Definition sendBackendString (id : Z) (msg : bytes) : ST t unit :=
  _ ← sassert (bool_decide (lenZ msg <= Packet.kMaxPacketLen));
  buf ← lift (Buffer.Buffer Buffer.kInitialSize);
  buf ← lift (Buffer.append msg (lenZ msg) buf);
  _ ← sendBackendPacket id buf;
  mret tt.

Definition sendBackendBuffer (id : Z) (buf : Buffer.t) : ST t Buffer.t :=
  s ← get;
  '(l, buf) ← lift (Packet.send_buffer (connected s) id buf);
  _ ← modify (emit (map ToBackend l));
  mret buf.

Definition up_text (id : Z) (conn : Z) : bytes :=
  (snprintf 256 (bs "CONN " ++ dec id ++ bs " FROM " ++ toIpPort conn ++ bs " IS UP" ++ [CR; LF])).1.
Definition down_text (id : Z) (conn : Z) : bytes :=
  (snprintf 256 (bs "CONN " ++ dec id ++ bs " FROM " ++ toIpPort conn ++ bs " IS DOWN" ++ [CR; LF])).1.

Definition onClientConnection (conn : Z) (up : bool) : ST t unit :=
  if up then
    s ← get;
    id ← (match availIds_ s with
          | id :: rest =>
              _ ← modify (fun s => set_clients (OrderedMap.set id conn (clientConns_ s)) (set_avail rest s));
              mret id
          | [] => mret (-1)
          end);
    if bool_decide (id <= 0) then modify (emit [ShutdownClient conn])
    else
      _ ← modify (fun s => set_contexts (<[conn := id]> (contexts s)) s);
      sendBackendString 0 (up_text id conn)
  else
    s ← get;
    match contexts s !! conn with
    | Some id =>
        _ ← sassert (bool_decide (0 < id <= Z.of_nat kMaxConns));
        _ ← sendBackendString 0 (down_text id conn);
        if connected s then
          modify (fun s => set_clients (OrderedMap.erase id (clientConns_ s)) (set_avail (availIds_ s ++ [id]) s))
        else
          _ ← sassert (bool_decide (availIds_ s = []));
          sassert (bool_decide (clientConns_ s = []))
    | None => mret tt
    end.

Definition onClientMessage (conn : Z) (buf : Buffer.t) : ST t Buffer.t :=
  s ← get;
  match contexts s !! conn with
  | Some id => sendBackendBuffer id buf
  | None => mret (Buffer.retrieveAll buf)
  end.

Definition onBackendConnection (conn : Z) (up : bool) : ST t unit :=
  if up then
    _ ← modify (set_backend (Some conn));
    s ← get;
    _ ← sassert (bool_decide (availIds_ s = []));
    for_each (fun i => modify (fun s => set_avail (availIds_ s ++ [i]) s)) (map Z.of_nat (seq 1 kMaxConns))
  else
    _ ← modify (set_backend None);
    s ← get;
    _ ← for_each (fun x => modify (emit [ShutdownClient x.2])) (clientConns_ s);
    _ ← modify (set_clients []);
    modify (set_avail []).

Definition kDisconnectCmd : bytes := bs "DISCONNECT ".

Definition doCommand (cmd : bytes) : ST t unit :=
  if bool_decide (lenZ cmd > lenZ kDisconnectCmd) && bool_decide (take (length kDisconnectCmd) cmd = kDisconnectCmd) then
    connId ← lift (atoi (drop (length kDisconnectCmd) cmd));
    s ← get;
    match OrderedMap.find connId (clientConns_ s) with
    | Some conn => modify (emit [ShutdownClient conn])
    | None => mret tt
    end
  else mret tt.

(** The body of the loop of [sendToClient]. *)
Definition handle_packet (id : Z) (data : bytes) : ST t unit :=
  if bool_decide (id <> 0) then
    s ← get;
    match OrderedMap.find id (clientConns_ s) with
    | Some conn => modify (emit [ToClient conn data])
    | None => mret tt
    end
  else doCommand data.

Definition sendToClient (buf : Buffer.t) : ST t Buffer.t := Packet.receive handle_packet buf.
Definition onBackendMessage (buf : Buffer.t) : ST t Buffer.t := sendToClient buf.

(** ** The program: callbacks with the input buffers of the connections *)

Record world := mk_world { mux : t; inputs : gmap Z Buffer.t; backend_input : Buffer.t }.

Definition new_buffer : Buffer.t := Buffer.mk (replicate 1032 Byte.x00) 8 8.
Definition start : world := mk_world MultiplexServer ∅ new_buffer.

Inductive event :=
  | ClientUp (conn : Z) | ClientDown (conn : Z) | ClientData (conn : Z) (data : bytes)
  | BackendUp (conn : Z) | BackendDown (conn : Z) | BackendData (data : bytes).

(** A callback that does not touch a buffer. *)
Definition callback (m : ST t unit) (w : world) : res world :=
  '(_, s) ← m (mux w); mret (mk_world s (inputs w) (backend_input w)).

Definition handle (e : event) (w : world) : res world :=
  match e with
  | ClientUp c =>
      callback (onClientConnection c true) (mk_world (mux w) (<[c := new_buffer]> (inputs w)) (backend_input w))
  | ClientDown c =>
      callback (onClientConnection c false) (mk_world (mux w) (delete c (inputs w)) (backend_input w))
  | ClientData c data =>
      match inputs w !! c with
      | Some b =>
          b ← Buffer.append data (lenZ data) b;
          '(b, s) ← onClientMessage c b (mux w);
          mret (mk_world s (<[c := b]> (inputs w)) (backend_input w))
      | None => Ok w
      end
  | BackendUp c => callback (onBackendConnection c true) (mk_world (mux w) (inputs w) new_buffer)
  | BackendDown c => callback (onBackendConnection c false) w
  | BackendData data =>
      b ← Buffer.append data (lenZ data) (backend_input w);
      '(b, s) ← onBackendMessage b (mux w);
      mret (mk_world s (inputs w) b)
  end.

Definition commands_ok (l : list (Z * bytes)) : Prop :=
  Forall (fun p => p.1 = 0 -> match atoi (drop (length kDisconnectCmd) p.2) with Ok _ => True | Fail _ => False end) l.

(** The conditions under which the program is used: connections are new when they come up;
    the backend comes back only when the clients of its last connection are gone, and
    these send nothing meanwhile; numbers in commands fit an [int]; memory suffices. *)
Definition enabled (e : event) (w : world) : Prop :=
  match e with
  | ClientUp c => inputs w !! c = None /\ contexts (mux w) !! c = None
  | ClientDown c => is_Some (inputs w !! c)
  | ClientData c d =>
      match inputs w !! c with
      | Some b => lenZ (Buffer.buffer_ b) + lenZ d <= vector_max_size /\
          (is_Some (contexts (mux w) !! c) -> is_Some (backendConn_ (mux w)))
      | None => False
      end
  | BackendUp _ => backendConn_ (mux w) = None /\ map_Forall (fun c _ => contexts (mux w) !! c = None) (inputs w)
  | BackendDown c => backendConn_ (mux w) = Some c
  | BackendData d => is_Some (backendConn_ (mux w)) /\
      lenZ (Buffer.buffer_ (backend_input w)) + lenZ d <= vector_max_size /\
      commands_ok (Framing.decode Packet.decode1 (Buffer.content (backend_input w) ++ d)).1
  end.

Inductive reachable : world -> Prop :=
  | reach_start : reachable start
  | reach_handle w e w' : reachable w -> enabled e w -> handle e w = Ok w' -> reachable w'.

Definition ids : list Z := map Z.of_nat (seq 1 kMaxConns).

Record inv (w : world) : Prop := {
  i_sorted : OrderedMap.sorted (clientConns_ (mux w));
  i_down : backendConn_ (mux w) = None -> availIds_ (mux w) = [] /\ clientConns_ (mux w) = [];
  i_ids : is_Some (backendConn_ (mux w)) -> Permutation (availIds_ (mux w) ++ map fst (clientConns_ (mux w))) ids;
  i_range c i : contexts (mux w) !! c = Some i -> 1 <= i <= 10;
  i_clients i c : (i, c) ∈ clientConns_ (mux w) -> contexts (mux w) !! c = Some i /\ is_Some (inputs w !! c);
  i_mine c i : is_Some (backendConn_ (mux w)) -> is_Some (inputs w !! c) -> contexts (mux w) !! c = Some i -> (i, c) ∈ clientConns_ (mux w);
  i_inputs c b : inputs w !! c = Some b -> Buffer.wf b /\ Buffer.content b = [] /\ 3 <= Buffer.readerIndex_ b;
  i_backend : Buffer.wf (backend_input w)
}.

Lemma ids_range i : i ∈ ids <-> 1 <= i <= 10.
Proof.
  unfold ids, kMaxConns. rewrite list_elem_of_fmap. split.
  - intros (n & -> & Hn). apply elem_of_seq in Hn. lia.
  - intros Hi. exists (Z.to_nat i). rewrite elem_of_seq. lia.
Qed.

Lemma ids_NoDup : NoDup ids.
Proof. apply NoDup_fmap; [|apply NoDup_seq]. intros x y. apply Nat2Z.inj. Qed.

(** [snprintf] keeps a command short. *)
Lemma lenZ_snprintf text : lenZ (snprintf 256 text).1 <= 255.
Proof. unfold snprintf, lenZ. cbn [fst]. rewrite length_take. lia. Qed.

Lemma sendBackendString_run id msg s : lenZ msg <= 255 ->
  sendBackendString id msg s = Ok (tt, emit (if connected s then [ToBackend (Packet.packet (id, msg))] else []) s).
Proof.
  intros Hm. pose proof (lenZ_nonneg msg). unfold sendBackendString, Packet.kMaxPacketLen.
  rewrite assert_run by (by apply bool_decide_eq_true).
  destruct (Buffer.Buffer_spec Buffer.kInitialSize) as (b & Hb & Hwf & Hc & Hr & _ & Hl);
    [unfold Buffer.kInitialSize; lia|unfold Buffer.kInitialSize, vector_max_size; lia|]. rewrite (lift_run _ _ _ _ Hb).
  destruct (Buffer.append_spec msg b Hwf) as (b1 & Happ & Hwf1 & Hc1 & Hr1 & _);
    [rewrite Hl; unfold Buffer.kInitialSize, vector_max_size; lia|]. rewrite (lift_run _ _ _ _ Happ). rewrite Hc in Hc1.
  destruct (Packet.send_packet_spec (connected s) id b1 Hwf1) as (b2 & Hsend & _); [by rewrite Hc1|lia|].
  unfold sendBackendPacket. unfold mbind, st_bind, get, lift, modify. rewrite Hsend, Hc1. by destruct (connected s).
Qed.

(** What each callback does to the state. *)
Lemma up_run c s : (forall id rest, availIds_ s = id :: rest -> 0 < id) ->
  onClientConnection c true s = Ok (tt,
    match availIds_ s with
    | [] => emit [ShutdownClient c] s
    | id :: rest =>
        emit (if connected s then [ToBackend (Packet.packet (0, up_text id c))] else [])
          (set_contexts (<[c := id]> (contexts s)) (set_clients (OrderedMap.set id c (clientConns_ s)) (set_avail rest s)))
    end).
Proof.
  intros Hid. unfold onClientConnection, mbind, st_bind, get, modify. destruct (availIds_ s) as [|id rest] eqn:Ea; [done|].
  cbn [mret st_ret]. rewrite bool_decide_eq_false_2 by (specialize (Hid _ _ eq_refl); lia). by rewrite sendBackendString_run by apply lenZ_snprintf.
Qed.

Lemma down_run c s :
  (forall id, contexts s !! c = Some id -> 1 <= id <= 10) -> (backendConn_ s = None -> availIds_ s = [] /\ clientConns_ s = []) ->
  onClientConnection c false s = Ok (tt,
    match contexts s !! c, connected s with
    | None, _ => s
    | Some id, true => set_clients (OrderedMap.erase id (clientConns_ s)) (set_avail (availIds_ s ++ [id])
                         (emit [ToBackend (Packet.packet (0, down_text id c))] s))
    | Some id, false => emit [] s
    end).
Proof.
  intros Hid Hdown. unfold onClientConnection. rewrite (bind_run get _ s s s eq_refl).
  destruct (contexts s !! c) as [id|]; [|done].
  rewrite assert_run by (apply bool_decide_eq_true; specialize (Hid _ eq_refl); unfold kMaxConns; lia).
  rewrite (bind_run _ _ _ _ _ (sendBackendString_run 0 (down_text id c) s (lenZ_snprintf _))). destruct (connected s) eqn:Ec; [done|].
  unfold connected in Ec. apply bool_decide_eq_false, eq_None_not_Some in Ec. destruct (Hdown Ec) as [Ha Hc].
  rewrite Ha, Hc. done.
Qed.

Lemma shutdown_all_run (l : list (Z * Z)) s :
  for_each (fun x => modify (emit [ShutdownClient x.2])) l s = Ok (tt, emit (map (fun x => ShutdownClient x.2) l) s).
Proof.
  revert s; induction l as [|x l IH]; intros s; simpl; [by destruct s; unfold emit; simpl; rewrite app_nil_r|].
  unfold mbind, st_bind, modify in *. rewrite IH. unfold emit. simpl. by rewrite <- app_assoc.
Qed.

Lemma push_all_run (l : list Z) s :
  for_each (fun i => modify (fun s => set_avail (availIds_ s ++ [i]) s)) l s = Ok (tt, set_avail (availIds_ s ++ l) s).
Proof.
  revert s; induction l as [|x l IH]; intros s; simpl; [by destruct s; unfold set_avail; simpl; rewrite app_nil_r|].
  unfold mbind, st_bind, modify in *. rewrite IH. unfold set_avail. simpl. by rewrite <- app_assoc.
Qed.

Lemma backendUp_run c s : availIds_ s = [] ->
  onBackendConnection c true s = Ok (tt, set_avail ids (set_backend (Some c) s)).
Proof.
  intros Ha. unfold onBackendConnection, mbind at 1 2, st_bind at 1 2, modify at 1, get.
  rewrite assert_run by (apply bool_decide_eq_true; done). rewrite push_all_run. simpl. by rewrite Ha.
Qed.

Lemma backendDown_run c s :
  onBackendConnection c false s = Ok (tt,
    set_avail [] (set_clients [] (emit (map (fun x => ShutdownClient x.2) (clientConns_ s)) (set_backend None s)))).
Proof.
  unfold onBackendConnection. rewrite (bind_run _ _ s tt (set_backend None s)) by done.
  rewrite (bind_run get _ _ _ _ eq_refl). rewrite (bind_run _ _ _ _ _ (shutdown_all_run _ _)). done.
Qed.

(** The invariant only looks at a part of the state. *)
Lemma inv_emit l s ins bin : inv (mk_world s ins bin) -> inv (mk_world (emit l s) ins bin).
Proof. intros []. by split. Qed.

Ltac state := cbn [mux inputs backend_input backendConn_ clientConns_ availIds_ contexts out
  set_backend set_clients set_avail set_contexts emit].

Lemma clientUp_inv c w : inv w -> enabled (ClientUp c) w -> exists w', handle (ClientUp c) w = Ok w' /\ inv w'.
Proof.
  intros [] [Hnew Hctx]. destruct w as [s ins bin]. cbn [mux inputs backend_input] in *.
  unfold handle, callback. cbn [mux inputs backend_input]. rewrite up_run.
  2: { intros id rest Ha. assert (id ∈ ids) as Hi; [|apply ids_range in Hi; lia].
       destruct (backendConn_ s) eqn:Eb; [|destruct (i_down0 eq_refl) as [H _]; by rewrite H in Ha].
       rewrite <- (i_ids0 ltac:(by eexists)), Ha. by left. }
  eexists. split; [reflexivity|].
  assert (forall c' b, <[c:=new_buffer]> ins !! c' = Some b -> Buffer.wf b /\ Buffer.content b = [] /\ 3 <= Buffer.readerIndex_ b) as Hins.
  { intros c' b [[<- <-]|[_ H]]%lookup_insert_Some; [|by eapply i_inputs0].
    unfold Buffer.wf, Buffer.kCheapPrepend, vector_max_size. vm_compute. repeat split; discriminate. }
  assert (forall c', is_Some (<[c:=new_buffer]> ins !! c') <-> c' = c \/ is_Some (ins !! c')) as Hsome.
  { intros c'. rewrite lookup_insert_is_Some. destruct (decide (c = c')); naive_solver. }
  destruct (availIds_ s) as [|id rest] eqn:Ea; apply inv_emit; split; state; rewrite ?Ea; try done.
  - intros i c' Hin. destruct (i_clients0 i c' Hin) as [? ?]. split; [done|]. apply Hsome. by right.
  - intros c' i Hb [->|Hc]%Hsome Hi; [by rewrite Hctx in Hi|by apply i_mine0].
  - by apply OrderedMap.set_sorted.
  - intros Hb. by destruct (i_down0 Hb).
  - intros Hb. specialize (i_ids0 Hb). rewrite OrderedMap.set_perm.
    + rewrite <- i_ids0. symmetry. apply Permutation_middle.
    + pose proof ids_NoDup as Hnd. rewrite <- i_ids0 in Hnd. simpl in Hnd. apply list.NoDup_cons in Hnd as [Hn _].
      intros Hin. apply Hn. apply elem_of_app. by right.
  - intros c' i [[<- <-]|[_ Hi]]%lookup_insert_Some; [|by eapply i_range0]. apply ids_range.
    destruct (backendConn_ s) eqn:Eb; [|by destruct (i_down0 eq_refl)]. rewrite <- (i_ids0 ltac:(by eexists)). by left.
  - intros i c' [[= -> ->]|[_ Hin]]%OrderedMap.elem_set; [| |done].
    + rewrite lookup_insert_eq. split; [done|]. apply Hsome. by left.
    + destruct (i_clients0 i c' Hin) as [Hi Hc]. rewrite lookup_insert_ne by (intros <-; by rewrite Hctx in Hi).
      split; [done|]. apply Hsome. by right.
  - intros c' i Hb [->|Hc]%Hsome Hi; apply OrderedMap.elem_set; try done.
    + rewrite lookup_insert_eq in Hi. injection Hi as ->. by left.
    + right. rewrite lookup_insert_ne in Hi by (intros <-; rewrite Hnew in Hc; by destruct Hc).
      split; [|by apply i_mine0]. cbn [fst]. intros ->. specialize (i_ids0 Hb). pose proof ids_NoDup as Hnd.
      rewrite <- i_ids0 in Hnd. simpl in Hnd. apply list.NoDup_cons in Hnd as [Hn _]. apply Hn. apply elem_of_app. right.
      apply list_elem_of_fmap. exists (id, c'). split; [done|]. by apply i_mine0.
Qed.

(** A connection without a number goes away. *)
Lemma inv_delete c s ins bin :
  inv (mk_world s ins bin) -> (forall i, (i, c) ∉ clientConns_ s) -> inv (mk_world s (delete c ins) bin).
Proof.
  intros [] Hno. cbn [mux inputs backend_input] in *. split; state; try done.
  - intros i c' Hin. destruct (i_clients0 i c' Hin) as [? ?]. split; [done|]. apply lookup_delete_is_Some.
    split; [|done]. intros ->. by apply (Hno i).
  - intros c' i Hb [_ Hc]%lookup_delete_is_Some. by apply i_mine0.
  - intros c' b [_ H]%lookup_delete_Some. by apply (i_inputs0 c').
Qed.

Lemma clientDown_inv c w : inv w -> enabled (ClientDown c) w -> exists w', handle (ClientDown c) w = Ok w' /\ inv w'.
Proof.
  intros Hinv Hc. pose proof Hinv as []. destruct w as [s ins bin]. cbn [mux inputs backend_input enabled] in *.
  unfold handle, callback. cbn [mux inputs backend_input]. rewrite down_run; [|intros id; by apply i_range0|done].
  eexists. split; [reflexivity|].
  destruct (contexts s !! c) as [id|] eqn:Ei; [destruct (connected s) eqn:Ec|].
  - unfold connected in Ec. apply bool_decide_eq_true in Ec. pose proof (i_mine0 c id Ec Hc Ei) as Hmine.
    pose proof (OrderedMap.erase_perm _ _ _ i_sorted0 Hmine) as Hperm.
    split; state; try done.
    + by apply OrderedMap.erase_sorted.
    + intros Hb. rewrite Hb in Ec. by destruct Ec.
    + intros Hb. rewrite <- (i_ids0 Hb), <- app_assoc. apply Permutation_app_head. rewrite Hperm at 2. done.
    + intros i c' [Hne Hin]%OrderedMap.elem_erase; [|done]. destruct (i_clients0 i c' Hin) as [Hi ?]. split; [done|].
      apply lookup_delete_is_Some. split; [|done]. intros <-. rewrite Ei in Hi. by injection Hi as ->.
    + intros c' i Hb [Hne Hin]%lookup_delete_is_Some Hi. apply OrderedMap.elem_erase; [done|].
      pose proof (i_mine0 c' i Hb Hin Hi) as Hmine'. split; [|done]. cbn [fst]. intros ->.
      apply OrderedMap.find_elem in Hmine, Hmine'; try done. rewrite Hmine in Hmine'. by injection Hmine'.
    + intros c' b [_ H]%lookup_delete_Some. by apply (i_inputs0 c').
  - apply inv_delete; [by apply inv_emit|]. intros i Hin. state. unfold connected in Ec.
    apply bool_decide_eq_false, eq_None_not_Some in Ec. destruct (i_down0 Ec) as [_ Hn]. cbn in Hin. rewrite Hn in Hin. by apply elem_of_nil in Hin.
  - apply inv_delete; [done|]. intros i Hin. destruct (i_clients0 i c Hin) as [Hi _]. by rewrite Ei in Hi.
Qed.

Lemma backendUp_inv c w : inv w -> enabled (BackendUp c) w -> exists w', handle (BackendUp c) w = Ok w' /\ inv w'.
Proof.
  intros [] [Hb Hstale]. destruct w as [s ins bin]. cbn [mux inputs backend_input enabled] in *. destruct (i_down0 Hb) as [Ha Hc].
  unfold handle, callback. cbn [mux inputs backend_input]. rewrite backendUp_run by done.
  eexists. split; [reflexivity|]. split; state; rewrite ?Hc; try done.
  - constructor.
  - by intros i c' Hin%elem_of_nil.
  - intros c' i _ [b Hin] Hi. by rewrite (Hstale c' b Hin) in Hi.
Qed.

Lemma backendDown_inv c w : inv w -> enabled (BackendDown c) w -> exists w', handle (BackendDown c) w = Ok w' /\ inv w'.
Proof.
  intros [] Hb. destruct w as [s ins bin]. cbn [mux inputs backend_input enabled] in *.
  unfold handle, callback. cbn [mux inputs backend_input]. rewrite backendDown_run.
  eexists. split; [reflexivity|]. split; state; try done.
  - constructor.
  - by intros i c' Hin%elem_of_nil.
Qed.

(** What a client sends goes out in packets with its number, or is dropped. *)
Lemma clientMessage_run c d w b :
  inv w -> inputs w !! c = Some b -> lenZ (Buffer.buffer_ b) + lenZ d <= vector_max_size ->
  (is_Some (contexts (mux w) !! c) -> is_Some (backendConn_ (mux w))) ->
  exists b' ds, handle (ClientData c d) w = Ok (mk_world (emit ds (mux w)) (<[c := b']> (inputs w)) (backend_input w)) /\
    Buffer.wf b' /\ Buffer.content b' = [] /\ 3 <= Buffer.readerIndex_ b' /\
    ds = match contexts (mux w) !! c with
         | Some id => map (fun x => ToBackend (Packet.packet (id, x))) (Packet.pieces d)
         | None => []
         end.
Proof.
  intros [] Hb Hmem Hback. destruct (i_inputs0 c b Hb) as (Hwf & Hc & Hr). unfold handle. rewrite Hb.
  destruct (Buffer.append_spec d b Hwf Hmem) as (b1 & -> & Hwf1 & Hc1 & Hr1 & _). cbn [mbind res_bind]. rewrite Hc in Hc1. cbn [app] in Hc1.
  unfold onClientMessage. rewrite (bind_run get _ _ _ _ eq_refl). destruct (contexts (mux w) !! c) as [id|].
  - assert (connected (mux w) = true) as Hcon by (apply bool_decide_eq_true, Hback; by eexists).
    destruct (Packet.send_buffer_spec id b1 Hwf1) as (b2 & Hsend & Hwf2 & Hc2 & Hr2 & _); [lia|].
    unfold sendBackendBuffer. rewrite (bind_run get _ _ _ _ eq_refl). rewrite Hcon, (lift_run _ _ _ _ Hsend), Hc1.
    eexists b2, _. split_and!; [|done..]. unfold mbind, st_bind, modify. cbn [res_bind]. by rewrite map_map.
  - exists (Buffer.retrieveAll b1), []. split_and!; [|by apply Buffer.retrieveAll_wf|by apply Buffer.retrieveAll_content|done|done].
    cbn. do 2 f_equal. destruct (mux w). unfold emit. cbn. by rewrite app_nil_r.
Qed.

Lemma clientData_inv c d w : inv w -> enabled (ClientData c d) w -> exists w', handle (ClientData c d) w = Ok w' /\ inv w'.
Proof.
  intros Hinv He. simpl in He. destruct (inputs w !! c) as [b|] eqn:Hb; [|done]. destruct He as [Hmem Hback].
  destruct (clientMessage_run c d w b Hinv Hb Hmem Hback) as (b' & ds & Hrun & Hwf' & Hc' & Hr' & _). eexists. split; [exact Hrun|].
  apply inv_emit. destruct Hinv. split; state; try done.
  - intros i c' Hin. destruct (i_clients0 i c' Hin) as [? ?]. split; [done|]. apply lookup_insert_is_Some. destruct (decide (c = c')); naive_solver.
  - intros c' i Hb2 Hc Hi. apply i_mine0; [done| |done]. destruct (decide (c = c')) as [<-|]; [by eexists|by rewrite lookup_insert_ne in Hc].
  - intros c' b2 [[<- <-]|[_ H]]%lookup_insert_Some; [done|by eapply i_inputs0].
Qed.

(** A packet only makes output. *)
Lemma handle_packet_run id data s :
  (id = 0 -> match atoi (drop (length kDisconnectCmd) data) with Ok _ => True | Fail _ => False end) ->
  exists l, handle_packet id data s = Ok (tt, emit l s) /\
    (forall c, 0 < id -> OrderedMap.find id (clientConns_ s) = Some c -> l = [ToClient c data]) /\
    (0 < id -> OrderedMap.find id (clientConns_ s) = None -> l = []).
Proof.
  intros Hcmd. assert (s = emit [] s) as Hnil by (destruct s; unfold emit; cbn; by rewrite app_nil_r).
  unfold handle_packet. destruct (bool_decide_reflect (id <> 0)) as [Hid|Hid].
  - rewrite (bind_run get _ _ _ _ eq_refl). destruct (OrderedMap.find id (clientConns_ s)) as [c|].
    + exists [ToClient c data]. split; [done|]. split; [by intros c' _ [= ->]|done].
    + exists []. split; [by rewrite <- Hnil|done].
  - assert (id = 0) as -> by lia. specialize (Hcmd eq_refl). unfold doCommand.
    destruct (bool_decide (lenZ data > lenZ kDisconnectCmd) && _).
    + destruct (atoi _) as [connId|] eqn:Ea; [|done]. rewrite (lift_run _ _ _ _ eq_refl), (bind_run get _ _ _ _ eq_refl).
      destruct (OrderedMap.find connId (clientConns_ s)) as [c|].
      * exists [ShutdownClient c]. split; [done|]. by split.
      * exists []. split; [by rewrite <- Hnil|]. by split.
    + exists []. split; [by rewrite <- Hnil|]. by split.
Qed.

Lemma handle_packets_run l s : commands_ok l -> exists o, for_each (fun p => handle_packet p.1 p.2) l s = Ok (tt, emit o s).
Proof.
  intros Hl. revert s. induction Hl as [|p l Hp Hl IH]; intros s.
  - exists []. destruct s; unfold emit; cbn; by rewrite app_nil_r.
  - simpl. destruct (handle_packet_run p.1 p.2 s Hp) as (o1 & Hrun & _). rewrite (bind_run _ _ _ _ _ Hrun).
    destruct (IH (emit o1 s)) as (o2 & ->). exists (o1 ++ o2). unfold emit. cbn. by rewrite app_assoc.
Qed.

Lemma backendData_inv d w : inv w -> enabled (BackendData d) w -> exists w', handle (BackendData d) w = Ok w' /\ inv w'.
Proof.
  intros Hinv (Hb & Hmem & Hcmds). unfold handle.
  destruct (Buffer.append_spec d _ (i_backend w Hinv) Hmem) as (b1 & -> & Hwf1 & Hc1 & _). cbn [mbind res_bind].
  unfold onBackendMessage, sendToClient. destruct (Packet.receive_spec handle_packet b1 (mux w) Hwf1) as (b2 & Hwf2 & _ & _ & ->).
  rewrite Hc1. destruct (handle_packets_run _ (mux w) Hcmds) as (o & ->). cbn [mbind res_bind mret res_ret]. eexists. split; [reflexivity|].
  apply inv_emit. destruct Hinv. by split.
Qed.

Lemma mux_step e w : inv w -> enabled e w -> exists w', handle e w = Ok w' /\ inv w'.
Proof. destruct e; [apply clientUp_inv|apply clientDown_inv|apply clientData_inv|apply backendUp_inv|apply backendDown_inv|apply backendData_inv]. Qed.

Lemma mux_inv w : reachable w -> inv w.
Proof.
  induction 1 as [|w e w' _ IH He Hrun].
  - split; cbn; try done.
    + constructor.
    + by intros i c Hin%elem_of_nil.
  - destruct (mux_step e w IH He) as (w2 & Hrun2 & Hinv). rewrite Hrun in Hrun2. by injection Hrun2 as ->.
Qed.

(** C38: the multiplexer keeps its clients apart.  Used as the conditions say, no callback
    fails.  While the backend is there, the free numbers and the numbers of clients are 1 to
    10, each once; a connected client with a number is the one the table has under it, so
    what it sends goes out as packets with this number, whole and in order, and a packet with
    this number goes to it and to nobody else. *)
Theorem mux_keeps_apart w :
  reachable w ->
  (forall e, enabled e w -> is_ok (handle e w)) /\
  (is_Some (backendConn_ (mux w)) -> Permutation (availIds_ (mux w) ++ map fst (clientConns_ (mux w))) ids) /\
  forall c i d, contexts (mux w) !! c = Some i -> enabled (ClientData c d) w ->
    OrderedMap.find i (clientConns_ (mux w)) = Some c /\
    (exists w' ds, handle (ClientData c d) w = Ok w' /\ concat ds = d /\ Forall Packet.fits (map (pair i) ds) /\
       out (mux w') = out (mux w) ++ map (fun x => ToBackend (Packet.packet (i, x))) ds) /\
    (forall data, handle_packet i data (mux w) = Ok (tt, emit [ToClient c data] (mux w))).
Proof.
  intros Hinv%mux_inv. split_and!.
  - intros e He. destruct (mux_step e w Hinv He) as (w' & Hrun & _). by eexists.
  - apply (i_ids w Hinv).
  - intros c i d Hi He. simpl in He. destruct (inputs w !! c) as [b|] eqn:Hb; [|done]. destruct He as [Hmem Hback].
    assert (OrderedMap.find i (clientConns_ (mux w)) = Some c) as Hfind.
    { apply OrderedMap.find_elem; [by apply (i_sorted w Hinv)|]. apply (i_mine w Hinv); [apply Hback| |done]; by eexists. }
    pose proof (i_range w Hinv c i Hi) as Hrange. split_and!; [done| |].
    + destruct (clientMessage_run c d w b Hinv Hb Hmem Hback) as (b' & ds & Hrun & _ & _ & _ & Hds). rewrite Hi in Hds.
      eexists _, (Packet.pieces d). split_and!; [exact Hrun|apply Packet.pieces_concat|apply Packet.pieces_fit; lia|by rewrite Hds].
    + intros data. destruct (handle_packet_run i data (mux w)) as (l & -> & Hl & _); [lia|]. by rewrite (Hl c) by (done || lia).
Qed.
End server.

(** ** A concrete run: two clients, each gets what is for it *)

#[global] Instance enabled_dec e w : Decision (enabled e w).
Proof.
  destruct e; cbn; try apply _.
  - destruct (inputs w !! conn); apply _.
  - unfold commands_ok. assert (forall p : Z * bytes, Decision (match atoi (drop (length kDisconnectCmd) p.2) with Ok _ => True | Fail _ => False end))
      by (intros p; destruct (atoi _); apply _). apply _.
Defined.

Fixpoint runs (peer : Z -> bytes) (l : list event) (w : world) : option world :=
  match l with
  | [] => Some w
  | e :: l => if decide (enabled e w) then match handle peer e w with Ok w' => runs peer l w' | Fail _ => None end else None
  end.

Lemma mux_runs_reachable peer l w w' : reachable peer w -> runs peer l w = Some w' -> reachable peer w'.
Proof.
  revert w; induction l as [|e l IH]; intros w Hr; simpl; [by intros [= <-]|].
  destruct (decide (enabled e w)) as [He|]; [|done]. destruct (handle peer e w) as [w1|] eqn:E; [|done].
  apply IH. by eapply reach_handle.
Qed.

Definition peer_demo (c : Z) : bytes := bs "10.0.0." ++ dec c ++ bs ":4000".
Definition mux_run : list event :=
  [BackendUp 100; ClientUp 7; ClientUp 8; ClientData 8 (bs "abc"); BackendData (Packet.packet (2, bs "xyz")); ClientDown 7].
Definition mux_end : world := default start (runs peer_demo mux_run start).

Lemma mux_keeps_apart_witness :
  out (mux mux_end) =
    [ToBackend (Packet.packet (0, bs "CONN 1 FROM 10.0.0.7:4000 IS UP" ++ [CR; LF]));
     ToBackend (Packet.packet (0, bs "CONN 2 FROM 10.0.0.8:4000 IS UP" ++ [CR; LF]));
     ToBackend (Packet.packet (2, bs "abc")); ToClient 8 (bs "xyz");
     ToBackend (Packet.packet (0, bs "CONN 1 FROM 10.0.0.7:4000 IS DOWN" ++ [CR; LF]))] /\
  handle_packet 2 (bs "more") (mux mux_end) = Ok (tt, emit [ToClient 8 (bs "more")] (mux mux_end)).
Proof.
  split; [vm_compute; reflexivity|]. destruct (mux_keeps_apart peer_demo mux_end) as (_ & _ & H).
  - apply (mux_runs_reachable peer_demo mux_run start); [constructor|]. vm_compute. reflexivity.
  - apply (H 8 2 []); [vm_compute; reflexivity|]. vm_compute. split; [discriminate|]. intros _. by eexists.
Defined.

(** Outside the conditions: a client of the last backend connection is still there. *)
Fixpoint all (l : list event) (w : world) : res world :=
  match l with [] => Ok w | e :: l => w ← handle peer_demo e w; all l w end.

(** It sends three short messages before it goes: the headers, which nobody takes, fill the
    front of its buffer, and the assertion of [prepend] fails.  It goes after the backend has
    come back: its number is given out twice, and the entry of the client that has it now is
    erased. *)
Example stale_clients :
  let stale := [BackendUp 100; ClientUp 7; BackendDown 100] in
  all (stale ++ [ClientData 7 (bs "a"); ClientData 7 (bs "b"); ClientData 7 (bs "c")]) start = Fail AssertionFailed /\
  exists w, all (stale ++ [BackendUp 101; ClientUp 8; ClientDown 7]) start = Ok w /\
    contexts (mux w) !! 8 = Some 1 /\ clientConns_ (mux w) = [] /\ availIds_ (mux w) = [2; 3; 4; 5; 6; 7; 8; 9; 10; 1].
Proof.
  split; [vm_compute; reflexivity|]. eexists. split; [vm_compute; reflexivity|]. vm_compute. done.
Qed.
End MultiplexServer.
