(* ===== verification/Demux.v ===== *)
(** The demultiplexer ([examples/multiplexer/demux.cc]), the multiplexer's backend: it makes a
    connection for each number. *)
From S2P Require Import Prelude State OrderedSet Decimal NetBuffer Codec Packet.
Open Scope Z_scope.

Module DemuxServer.

(** [Connect]: a [TcpClient] is made and told to connect. *)
Inductive effect :=
  | ToServer (packet : bytes) | ToSocks (conn : Z) (data : bytes)
  | ShutdownServer (conn : Z) | ShutdownSocks (conn : Z) | Connect (connId : Z) (name : bytes).

Record Entry := mk_entry { connId : Z; client : bytes; connection : option Z; pending : Buffer.t }.

(** [packets]: the packets handled so far, for the statements. *)
Record t := mk {
  serverConn_ : option Z;
  socksConns_ : list (Z * Entry);
  out : list effect;
  packets : list (Z * bytes)
}.

Definition DemuxServer : t := mk None [] [] [].

Definition set_server c s := mk c (socksConns_ s) (out s) (packets s).
Definition set_socks m s := mk (serverConn_ s) m (out s) (packets s).
Definition emit l s := mk (serverConn_ s) (socksConns_ s) (out s ++ l) (packets s).
Definition handled p s := mk (serverConn_ s) (socksConns_ s) (out s) (packets s ++ [p]).

Definition find (id : Z) (s : t) : option Entry := OrderedMap.find id (socksConns_ s).
Definition set_entry (id : Z) (e : Entry) (s : t) : t := set_socks (OrderedMap.set id e (socksConns_ s)) s.
Definition set_connection c e := mk_entry (connId e) (client e) c (pending e).
Definition set_pending b e := mk_entry (connId e) (client e) (connection e) b.

(** [assert(socksConns_.find(id) != socksConns_.end())], then [socksConns_[id]]. *)
Definition found (id : Z) : ST t Entry :=
  s ← get;
  match find id s with Some e => mret e | None => fail AssertionFailed end.

Definition connected (s : t) : bool := bool_decide (is_Some (serverConn_ s)).

Definition onServerConnection (conn : Z) (up : bool) : ST t unit :=
  s ← get;
  if up then
    if connected s then modify (emit [ShutdownServer conn]) else modify (set_server (Some conn))
  else if bool_decide (serverConn_ s = Some conn) then
    _ ← modify (set_server None);
    modify (set_socks [])
  else mret tt.

Definition sendServerPacket (id : Z) (buf : Buffer.t) : ST t Buffer.t :=
  s ← get;
  '(l, buf) ← lift (Packet.send_packet (connected s) id buf);
  _ ← modify (emit (map ToServer l));
  mret buf.

Definition kConn : bytes := bs "CONN ".

(** [atoi(&cmd[kConn.size()])] and [cmd.find(" IS UP") != npos]. *)
Definition command_id (cmd : bytes) : res Z :=
  _ ← check OutOfBounds (bool_decide (lenZ kConn <= lenZ cmd));
  atoi (drop (length kConn) cmd).
Definition isUp (cmd : bytes) : bool := bool_decide (is_Some (search (bs " IS UP") cmd)).

Definition doCommand (cmd : bytes) : ST t unit :=
  id ← lift (command_id cmd);
  if isUp cmd then
    s ← get;
    _ ← sassert (bool_decide (find id s = None));
    let connName := (snprintf 256 (bs "SocksClient " ++ dec id)).1 in
    pending ← lift (Buffer.Buffer Buffer.kInitialSize);
    _ ← modify (set_entry id (mk_entry id connName None pending));
    modify (emit [Connect id connName])
  else
    e ← found id;
    match connection e with
    | Some socksConn => modify (emit [ShutdownSocks socksConn])
    | None => modify (fun s => set_socks (OrderedMap.erase id (socksConns_ s)) s)
    end.

(** The body of the loop of [onServerMessage]. *)
Definition handle_packet (id : Z) (data : bytes) : ST t unit :=
  _ ← (if bool_decide (id <> 0) then
         e ← found id;
         match connection e with
         | Some socksConn =>
             _ ← sassert (bool_decide (Buffer.readableBytes (pending e) = 0));
             modify (emit [ToSocks socksConn data])
         | None =>
             b ← lift (Buffer.append data (lenZ data) (pending e));
             modify (set_entry id (set_pending b e))
         end
       else doCommand data);
  modify (handled (id, data)).

Definition onServerMessage (buf : Buffer.t) : ST t Buffer.t := Packet.receive handle_packet buf.

Definition onSocksConnection (id conn : Z) (up : bool) : ST t unit :=
  e ← found id;
  if up then
    _ ← modify (set_entry id (set_connection (Some conn) e));
    if bool_decide (Buffer.readableBytes (pending e) > 0) then
      data ← lift (Buffer.range (Buffer.peek (pending e)) (Buffer.beginWrite (pending e)) (pending e));
      _ ← modify (emit [ToSocks conn data]);
      modify (set_entry id (set_pending (Buffer.retrieveAll (pending e)) (set_connection (Some conn) e)))
    else mret tt
  else
    s ← get;
    if connected s then
      let text := (snprintf 256 (bs "DISCONNECT " ++ dec id ++ [CR; LF])).1 in
      buffer ← lift (Buffer.Buffer Buffer.kInitialSize);
      buffer ← lift (Buffer.append text (lenZ text) buffer);
      _ ← sendServerPacket 0 buffer;
      mret tt
    else modify (fun s => set_socks (OrderedMap.erase id (socksConns_ s)) s).

Definition onSocksMessage (id : Z) (buf : Buffer.t) : ST t Buffer.t :=
  _ ← found id;
  s ← get;
  '(l, buf) ← lift (Packet.send_buffer (connected s) id buf);
  _ ← modify (emit (map ToServer l));
  mret buf.

(** ** What a number carried *)

(** The bytes for [id] since its command came, in the packets. *)
Definition carried (id : Z) (l : list (Z * bytes)) : bytes :=
  fold_left (fun acc p =>
    if decide (p.1 = id) then acc ++ p.2
    else if decide (p.1 = 0 /\ isUp p.2 = true /\ command_id p.2 = Ok id) then [] else acc) l [].

(** All bytes that one connection was given, whatever the number they were for. *)
Definition given (conn : Z) (l : list effect) : bytes :=
  concat (map (fun e => match e with ToSocks c data => if decide (c = conn) then data else [] | _ => [] end) l).
Definition given_to (o : option Z) (l : list effect) : bytes := match o with Some c => given c l | None => [] end.

(** ** The callbacks, in any order, on any buffers *)

Inductive event :=
  | ServerUp (conn : Z) | ServerDown (conn : Z) | ServerData (buf : Buffer.t)
  | SocksUp (id conn : Z) | SocksDown (id conn : Z) | SocksData (id : Z) (buf : Buffer.t).

Definition handle (e : event) : ST t unit :=
  match e with
  | ServerUp c => onServerConnection c true
  | ServerDown c => onServerConnection c false
  | ServerData b => _ ← onServerMessage b; mret tt
  | SocksUp id c => onSocksConnection id c true
  | SocksDown id c => onSocksConnection id c false
  | SocksData id b => _ ← onSocksMessage id b; mret tt
  end.

(** A connection that comes up is a new one: nothing was sent on it, it is in no entry; and
    the client of an entry, which does not retry, connects once. *)
Definition fresh (conn : Z) (s : t) : Prop :=
  Forall (fun e => match e with ToSocks c _ => c <> conn | _ => True end) (out s) /\
  Forall (fun p => connection p.2 <> Some conn) (socksConns_ s).

Definition enabled (e : event) (s : t) : Prop :=
  match e with
  | ServerData b | SocksData _ b => Buffer.wf b
  | SocksUp id c => fresh c s /\ match find id s with Some e => connection e = None | None => True end
  | _ => True
  end.

Inductive reachable : t -> Prop :=
  | reach_new : reachable DemuxServer
  | reach_handle s e s' : reachable s -> enabled e s -> handle e s = Ok (tt, s') -> reachable s'.

Record entry_ok (s : t) (id : Z) (e : Entry) : Prop := {
  e_wf : Buffer.wf (pending e);
  e_connected : is_Some (connection e) -> Buffer.content (pending e) = [];
  e_carried : id <> 0 -> carried id (packets s) = given_to (connection e) (out s) ++ Buffer.content (pending e)
}.

Record inv (s : t) : Prop := {
  i_sorted : OrderedMap.sorted (socksConns_ s);
  i_entry id e : find id s = Some e -> entry_ok s id e;
  i_one id id' e e' c : find id s = Some e -> find id' s = Some e' ->
    connection e = Some c -> connection e' = Some c -> id = id'
}.

Arguments carried : simpl never.
Arguments given : simpl never.

Lemma carried_snoc id l p : carried id (l ++ [p]) =
  if decide (p.1 = id) then carried id l ++ p.2
  else if decide (p.1 = 0 /\ isUp p.2 = true /\ command_id p.2 = Ok id) then [] else carried id l.
Proof. unfold carried. by rewrite fold_left_app. Qed.

Lemma given_snoc c l e : given c (l ++ [e]) =
  given c l ++ match e with ToSocks c' data => if decide (c' = c) then data else [] | _ => [] end.
Proof. unfold given. rewrite map_app, concat_app. simpl. by rewrite app_nil_r. Qed.

Lemma given_same c l m : Forall (fun e => match e with ToSocks c' _ => c' <> c | _ => True end) m ->
  given c (l ++ m) = given c l.
Proof.
  intros Hm. revert l. induction Hm as [|e m He Hm IH]; intros l; [by rewrite app_nil_r|].
  rewrite cons_middle, app_assoc, IH, given_snoc. destruct e; rewrite ?decide_False by done; apply app_nil_r.
Qed.

Lemma given_fresh c s : fresh c s -> given c (out s) = [].
Proof. intros [H _]. by rewrite <- (app_nil_l (out s)), given_same. Qed.

(** What is sent elsewhere than to a backend connection changes nothing. *)
Lemma inv_given s l : inv s -> Forall (fun e => match e with ToSocks _ _ => False | _ => True end) l -> inv (emit l s).
Proof.
  intros [] Hl. split; [done| |done]. intros id e He. destruct (i_entry0 id e He). split; [done..|].
  intros Hid. cbn. rewrite (e_carried0 Hid). destruct (connection e); [|done]. cbn. f_equal. symmetry. apply given_same.
  eapply list.Forall_impl; [exact Hl|]. by intros [].
Qed.

Lemma inv_server s l : inv s -> inv (emit (map ToServer l) s).
Proof. intros Hinv. apply inv_given; [done|]. apply List.Forall_map. by apply list.Forall_true. Qed.

Lemma inv_erase s id : inv s -> inv (set_socks (OrderedMap.erase id (socksConns_ s)) s).
Proof.
  intros []. assert (forall id' e, OrderedMap.find id' (OrderedMap.erase id (socksConns_ s)) = Some e -> find id' s = Some e) as Hf.
  { intros id' e He. destruct (decide (id' = id)) as [->|Hne]; [by rewrite OrderedMap.find_erase_same in He|].
    by rewrite OrderedMap.find_erase_other in He. }
  split; [by apply OrderedMap.erase_sorted|intros id' e He%Hf; destruct (i_entry0 id' e He); by split|].
  intros i j e e' c Hi%Hf Hj%Hf. by apply (i_one0 i j e e' c).
Qed.

Lemma found_run id s e s' : found id s = Ok (e, s') -> find id s = Some e /\ s' = s.
Proof. unfold found, mbind, st_bind, get. destruct (find id s); [|done]. by intros [= -> ->]. Qed.

Lemma entry_same s s' id e :
  entry_ok s id e -> given_to (connection e) (out s') = given_to (connection e) (out s) ->
  (id <> 0 -> carried id (packets s') = carried id (packets s)) -> entry_ok s' id e.
Proof. intros [] Hg Hc. split; [done..|]. intros Hid. by rewrite Hg, Hc, e_carried0. Qed.

(** One entry changes, or none, with what was carried and given. *)
Lemma inv_change s s' id o :
  inv s -> socksConns_ s' = match o with Some e => OrderedMap.set id e (socksConns_ s) | None => socksConns_ s end ->
  (forall e, find id s' = Some e -> entry_ok s' id e) ->
  (forall id' e c, id' <> id -> find id' s = Some e -> connection e = Some c -> given c (out s') = given c (out s)) ->
  (forall id', id' <> id -> id' <> 0 -> carried id' (packets s') = carried id' (packets s)) ->
  (forall id' e e' c, id' <> id -> find id s' = Some e -> find id' s = Some e' ->
     connection e = Some c -> connection e' = Some c -> False) ->
  inv s'.
Proof.
  intros [] Hs Hok Hg Hc Hone.
  assert (forall id' e, id' <> id -> find id' s' = Some e -> find id' s = Some e) as Hf.
  { intros id' e Hne He. unfold find in *. rewrite Hs in He. destruct o; [|done]. by rewrite OrderedMap.find_set_other in He. }
  split; [rewrite Hs; by destruct o; [apply OrderedMap.set_sorted|]| |].
  - intros id' e He. destruct (decide (id' = id)) as [->|Hne]; [by apply Hok|]. apply Hf in He; [|done].
    apply (entry_same s); [by apply i_entry0| |by apply Hc]. destruct (connection e) eqn:Ec; [|done]. by apply (Hg id' e).
  - intros i j e e' c Hi Hj He He'. destruct (decide (i = id)) as [->|Hni], (decide (j = id)) as [->|Hnj]; [done| | |].
    + apply Hf in Hj; [|done]. by destruct (Hone j e e' c).
    + apply Hf in Hi; [|done]. by destruct (Hone i e' e c).
    + apply Hf in Hi, Hj; [|done..]. by apply (i_one0 i j e e' c).
Qed.

Lemma find_set_entry id e s : inv s -> OrderedMap.find id (OrderedMap.set id e (socksConns_ s)) = Some e.
Proof. intros []. by apply OrderedMap.find_set_same. Qed.

Lemma carried_data id data l : carried id (l ++ [(id, data)]) = carried id l ++ data.
Proof. rewrite carried_snoc. cbn [fst snd]. by rewrite decide_True. Qed.

Lemma carried_other id id' data l : id' <> id -> id <> 0 -> carried id' (l ++ [(id, data)]) = carried id' l.
Proof. intros Hne Hid. rewrite carried_snoc. cbn [fst snd]. rewrite decide_False by done. by rewrite decide_False by (by intros [? _]). Qed.

Lemma carried_command id data l : id <> 0 ->
  carried id (l ++ [(0, data)]) = if decide (isUp data = true /\ command_id data = Ok id) then [] else carried id l.
Proof.
  intros Hid. rewrite carried_snoc. cbn [fst snd]. rewrite decide_False by done.
  destruct (decide (isUp data = true /\ command_id data = Ok id)); [by rewrite decide_True|by rewrite decide_False by naive_solver].
Qed.

(** What a callback does when it returns. *)
Definition any_fault (e : fault) : Prop := True.

Lemma wp_found id (Q : Entry -> t -> Prop) s : (forall e, find id s = Some e -> Q e s) -> wp any_fault (found id) Q s.
Proof. intros HQ. unfold found, wp, mbind, st_bind, get. destruct (find id s) eqn:E; [|done]. by apply HQ. Qed.

Lemma wp_check b (Q : unit -> t -> Prop) s : (b = true -> Q tt s) -> wp any_fault (sassert b) Q s.
Proof. unfold wp, sassert, lift, check. destruct b; [by auto|done]. Qed.

(** The bytes of a packet go to the connection, or behind those that wait for it. *)
Lemma data_inv id data s : id <> 0 -> inv s -> lenZ data <= 255 -> wp any_fault (handle_packet id data) (fun _ => inv) s.
Proof.
  intros Hid Hinv Hlen. unfold handle_packet. rewrite bool_decide_eq_true_2 by done.
  apply wp_bind, wp_bind, wp_found. intros e He. destruct (i_entry s Hinv id e He) as [Hwf Hcon Hcar]. specialize (Hcar Hid).
  destruct (connection e) as [socksConn|] eqn:Ec.
  - apply wp_bind, wp_check. intros _. wp_step. wp_step.
    apply (inv_change s _ id None Hinv); [done|..].
    + intros e' He'. change (find id s = Some e') in He'. rewrite He in He'. injection He' as <-. split; [done|by rewrite Ec|].
      intros _. rewrite Ec. cbn [packets out handled emit given_to]. rewrite carried_data, given_snoc, decide_True, Hcar, Hcon by (done || by eexists).
      by rewrite !app_nil_r.
    + intros id' e' c Hne Hf Hc. cbn [out handled emit]. rewrite given_snoc, decide_False; [apply app_nil_r|].
      intros <-. by apply Hne, (i_one s Hinv id' id e' e socksConn).
    + intros id' Hne _. by apply carried_other.
    + intros id' e1 e2 c Hne H1 H2 C1 C2. by apply Hne, (i_one s Hinv id' id e2 e1 c).
  - apply wp_bind, wp_lift. pose proof (Buffer.append_total data (lenZ data) (pending e) Hwf) as Hap.
    destruct (Buffer.append _ _ _) as [b|]; [|done]. destruct Hap as [Hwf' Hc']; [pose proof (lenZ_nonneg data); lia|unfold vector_max_size; lia|].
    rewrite take_ge in Hc' by (unfold lenZ; lia). wp_step. wp_step.
    apply (inv_change s _ id (Some (set_pending b e)) Hinv); [done| |done|intros id' Hne _; by apply carried_other|].
    + intros e' He'. unfold find in He'. cbn in He'. rewrite find_set_entry in He' by done. injection He' as <-.
      split; [done|cbn; rewrite Ec; by intros [? ?]|]. intros _. cbn [packets out handled set_entry set_socks pending set_pending connection].
      rewrite carried_data, Hcar, Hc', Ec. cbn. by rewrite <- ?app_assoc.
    + intros id' e1 e2 c _ H1 _ C1. unfold find in H1. cbn in H1. rewrite find_set_entry in H1 by done. injection H1 as <-.
      cbn in C1. congruence.
Qed.

Lemma command_inv data s : inv s -> wp any_fault (handle_packet 0 data) (fun _ => inv) s.
Proof.
  intros Hinv. unfold handle_packet. rewrite bool_decide_eq_false_2 by (by intros []). apply wp_bind.
  eapply (wp_mono _ _ (fun _ s' => inv (handled (0, data) s'))); [|intros [] s' H; by wp_step].
  unfold doCommand. apply wp_bind, wp_lift. destruct (command_id data) as [id|] eqn:Eid; [|done]. destruct (isUp data) eqn:Eup.
  - apply wp_bind, wp_get, wp_bind, wp_check. intros _.
    destruct (Buffer.Buffer_spec Buffer.kInitialSize) as (b & Hb & Hwf & Hc & _);
      [unfold Buffer.kInitialSize; lia|unfold Buffer.kInitialSize, vector_max_size; lia|]. apply wp_bind, wp_lift. rewrite Hb.
    wp_step. wp_step. set (e := mk_entry id _ None b). apply (inv_change s _ id (Some e) Hinv); [done|..].
    + intros e' He'. unfold find in He'. cbn in He'. rewrite find_set_entry in He' by done. injection He' as <-.
      split; [done|cbn; by intros [? ?]|]. intros Hid. cbn [packets out handled emit set_entry set_socks pending].
      rewrite carried_command, !decide_True by done. unfold e. cbn [pending connection given_to]. by rewrite Hc.
    + intros id' e' c _ _ _. cbn [out handled emit set_entry set_socks]. rewrite given_snoc. apply app_nil_r.
    + intros id' Hne Hid. cbn [packets handled emit set_entry set_socks].
      rewrite carried_command by done. rewrite decide_False; [done|]. rewrite Eid. intros [_ [= ->]]. done.
    + intros id' e1 e2 c _ H1 _ C1. unfold find in H1. cbn in H1. rewrite find_set_entry in H1 by done. injection H1 as <-. discriminate C1.
  - assert (forall s', inv s' -> inv (handled (0, data) s')) as Hhandled.
    { intros s' Hs'. pose proof Hs' as []. split; [done| |done]. intros id' e He. apply (entry_same s'); [by apply i_entry0|done|].
      intros Hid. cbn [packets handled]. rewrite carried_command by done. by rewrite decide_False by (rewrite Eup; by intros [? _]). }
    apply wp_bind, wp_found. intros e He. destruct (connection e); wp_step; apply Hhandled; [|by apply inv_erase].
    apply inv_given; [done|]. by repeat constructor.
Qed.

(** Data in a packet is short. *)
Lemma decoded_short fuel c : Forall (fun p => lenZ p.2 <= 255) (Framing.decode_loop Packet.decode1 fuel c).1.
Proof.
  revert c; induction fuel as [|fuel IH]; intros c; [constructor|]. cbn [Framing.decode_loop].
  destruct (Packet.decode1 c) as [|o n|o] eqn:E; [constructor| |].
  - specialize (IH (drop n c)). destruct (Framing.decode_loop _ _ _) as [o' r]. cbn [fst] in *. apply list.Forall_app. split; [|done].
    unfold Packet.decode1 in E. repeat case_decide; try done. injection E as <- _. pose proof (Packet.u8_range 0 c).
    constructor; [|constructor]. cbn [snd]. unfold lenZ. rewrite length_take. lia.
  - unfold Packet.decode1 in E. repeat case_decide; done.
Qed.

Lemma packets_inv l s : inv s -> Forall (fun p => lenZ p.2 <= 255) l -> wp any_fault (for_each (fun p => handle_packet p.1 p.2) l) (fun _ => inv) s.
Proof.
  intros Hinv Hl. revert s Hinv. induction Hl as [|[id data] l Hp Hl IH]; intros s Hinv; [by wp_step|]. simpl.
  apply wp_bind. apply (wp_mono _ _ (fun _ => inv)); [|intros [] s'; apply IH]. destruct (decide (id = 0)) as [->|]; [by apply command_inv|by apply data_inv].
Qed.

Lemma serverData_inv b s : inv s -> Buffer.wf b -> wp any_fault (handle (ServerData b)) (fun _ => inv) s.
Proof.
  intros Hinv Hwf. cbn [handle]. apply wp_bind. unfold onServerMessage, wp at 1.
  destruct (Packet.receive_spec handle_packet b s Hwf) as (b' & _ & _ & _ & ->).
  pose proof (packets_inv _ s Hinv (decoded_short (Datatypes.S (length (Buffer.content b))) (Buffer.content b))) as Hp. unfold wp in Hp. unfold Framing.decode.
  destruct (for_each _ _ s) as [[[] s']|]; [exact Hp|done].
Qed.

Lemma sendServerPacket_inv id b s : inv s -> wp any_fault (sendServerPacket id b) (fun _ => inv) s.
Proof.
  intros Hinv. unfold sendServerPacket. wp_step. wp_step. destruct (Packet.send_packet _ _ _) as [[l b']|]; [|done].
  wp_step. wp_step. by apply inv_server.
Qed.

(** The connection is there: it gets what waits for it. *)
Lemma socksUp_inv id c s : inv s -> enabled (SocksUp id c) s -> wp any_fault (handle (SocksUp id c)) (fun _ => inv) s.
Proof.
  intros Hinv [Hfr Hnone]. cbn [handle]. unfold onSocksConnection. apply wp_bind, wp_found. intros e He. rewrite He in Hnone.
  destruct (i_entry s Hinv id e He) as [Hwf Hcon Hcar]. rewrite Hnone in Hcar. cbn in Hcar.
  pose proof (given_fresh c s Hfr) as Hg0. destruct Hfr as [_ Hfr].
  assert (forall id' e' d, find id' s = Some e' -> connection e' = Some d -> d <> c) as Hother.
  { intros id' e' d Hf Hd ->. apply OrderedMap.find_elem in Hf; [|apply Hinv]. rewrite list.Forall_forall in Hfr. by apply (Hfr _ Hf). }
  wp_step. rewrite Buffer.readable_content by done.
  destruct (bool_decide_reflect (lenZ (Buffer.content (pending e)) > 0)) as [Hp|Hp].
  - rewrite Buffer.range_content by done. apply wp_bind, wp_lift, wp_bind, wp_modify, wp_modify.
    set (e1 := set_pending _ _). apply (inv_change s _ id (Some e1) Hinv); [| | |done|].
    + cbn [socksConns_ set_entry set_socks emit]. apply OrderedMap.set_set.
    + intros e' He'. unfold find in He'. cbn in He'. rewrite OrderedMap.set_set, find_set_entry in He' by done. injection He' as <-.
      split; [by apply Buffer.retrieveAll_wf|intros _; apply Buffer.retrieveAll_content|]. intros Hid.
      cbn [packets out set_entry set_socks emit]. unfold e1. cbn [pending set_pending connection set_connection given_to].
      rewrite given_snoc, decide_True, Hcar, Hg0 by done. by rewrite Buffer.retrieveAll_content, app_nil_r.
    + intros id' e' d Hne Hf Hd. cbn [out set_entry set_socks emit]. rewrite given_snoc, decide_False; [apply app_nil_r|].
      intros <-. by apply (Hother id' e' c).
    + intros id' e2 e' d Hne H1 H2 C1 C2. unfold find in H1. cbn in H1. rewrite OrderedMap.set_set, find_set_entry in H1 by done.
      injection H1 as <-. cbn in C1. injection C1 as <-. by apply (Hother id' e' c).
  - wp_step. apply (inv_change s _ id (Some (set_connection (Some c) e)) Hinv); [done| |done|done|].
    + intros e' He'. unfold find in He'. cbn in He'. rewrite find_set_entry in He' by done. injection He' as <-.
      assert (Buffer.content (pending e) = []) as Hnil.
      { pose proof (lenZ_nonneg (Buffer.content (pending e))). unfold lenZ in *. destruct (Buffer.content (pending e)); [done|simpl in *; lia]. }
      split; [done|done|]. intros Hid. cbn [packets out pending set_connection connection given_to set_entry set_socks].
      by rewrite Hcar, Hg0, Hnil.
    + intros id' e2 e' d Hne H1 H2 C1 C2. unfold find in H1. cbn in H1. rewrite find_set_entry in H1 by done.
      injection H1 as <-. cbn in C1. injection C1 as <-. by apply (Hother id' e' c).
Qed.

Lemma socksDown_inv id c s : inv s -> wp any_fault (handle (SocksDown id c)) (fun _ => inv) s.
Proof.
  intros Hinv. cbn [handle]. unfold onSocksConnection. apply wp_bind, wp_found. intros e He. apply wp_bind, wp_get.
  destruct (connected s); [|wp_step; by apply inv_erase].
  apply wp_bind, wp_lift. destruct (Buffer.Buffer _); [|done]. apply wp_bind, wp_lift. destruct (Buffer.append _ _ _) as [b|]; [|done].
  apply wp_bind. eapply wp_mono; [by apply sendServerPacket_inv|]. intros b' s' Hs'. exact Hs'.
Qed.

Lemma demux_step e s : inv s -> enabled e s -> wp any_fault (handle e) (fun _ => inv) s.
Proof.
  intros Hinv He. destruct e as [c|c|b|id c|id c|id b].
  - cbn [handle]. unfold onServerConnection. apply wp_bind, wp_get. destruct (connected s); wp_step.
    2: { destruct Hinv as [Hs Hent Hone]. split; [done| |done]. intros id e He'. by apply (entry_same s); [apply Hent|..]. }
    apply inv_given; [done|]. by repeat constructor.
  - cbn [handle]. unfold onServerConnection. apply wp_bind, wp_get. case_bool_decide; wp_step; [|done].
    wp_step. split; [constructor|intros id e He'; discriminate He'|intros id id' e e' d He'; discriminate He'].
  - by apply serverData_inv.
  - by apply socksUp_inv.
  - by apply socksDown_inv.
  - cbn [handle]. unfold onSocksMessage. apply wp_bind, wp_bind, wp_found. intros e _. apply wp_bind, wp_get, wp_bind, wp_lift.
    destruct (Packet.send_buffer _ _ _) as [[l b']|]; [|done]. wp_step. wp_step. wp_step. by apply inv_server.
Qed.

Lemma demux_inv s : reachable s -> inv s.
Proof.
  induction 1 as [|s e s' _ IH He Hrun].
  - split; [constructor|intros id e He; discriminate He|intros id id' e e' d He; discriminate He].
  - exact (wp_ok _ _ _ _ _ _ (demux_step e s IH He) Hrun).
Qed.

(** C39: each number is a pipe.  After any callbacks on any buffers, when the connections
    that come up are new ones, as long as a number has its entry: its connection has been
    given, over its whole life, exactly the bytes of the number's packets since the command
    that opened it, in order and none of another number, and nothing waits; before the
    connection is there, all these bytes wait for it.  No two numbers share a connection,
    and a packet for the number is taken, whatever its bytes. *)
Theorem demux_in_order s id e :
  reachable s -> id <> 0 -> find id s = Some e ->
  match connection e with
  | Some conn =>
      given conn (out s) = carried id (packets s) /\ Buffer.content (pending e) = [] /\
      (forall id' e', find id' s = Some e' -> connection e' = Some conn -> id' = id)
  | None => Buffer.content (pending e) = carried id (packets s)
  end /\
  forall data, lenZ (Buffer.buffer_ (pending e)) + lenZ data <= vector_max_size -> is_ok (handle_packet id data s).
Proof.
  intros Hinv%demux_inv Hid He. destruct (i_entry s Hinv id e He) as [Hwf Hcon Hcar]. specialize (Hcar Hid). split.
  - destruct (connection e) as [c|] eqn:Ec; [|by rewrite Hcar]. specialize (Hcon ltac:(by eexists)).
    split_and!; [by rewrite Hcar, Hcon, app_nil_r|done|]. intros id' e' Hf Hc. by apply (i_one s Hinv id' id e' e c).
  - intros data Hmem. unfold handle_packet. rewrite bool_decide_eq_true_2 by done. unfold found, mbind, st_bind, get.
    rewrite He. cbn [mret st_ret]. destruct (connection e) as [c|] eqn:Ec.
    + unfold sassert, lift, modify. rewrite check_true; [by eexists|]. apply bool_decide_eq_true.
      rewrite Buffer.readable_content by done. by rewrite Hcon by (by eexists).
    + unfold lift, modify. destruct (Buffer.append_spec data (pending e) Hwf Hmem) as (b & -> & _). by eexists.
Qed.

(** ** Concrete runs *)

Definition of_bytes (l : bytes) : Buffer.t := Buffer.mk (replicate 8 Byte.x00 ++ l) 8 (8 + lenZ l).
Definition command (text : bytes) : Buffer.t := of_bytes (Packet.packet (0, text)).
Definition open_1 : Buffer.t := command (bs "CONN 1 FROM 10.0.0.7:4000 IS UP" ++ [CR; LF]).
Definition close_1 : Buffer.t := command (bs "CONN 1 FROM 10.0.0.7:4000 IS DOWN" ++ [CR; LF]).
Definition data_1 (text : bytes) : Buffer.t := of_bytes (Packet.packet (1, text)).

Fixpoint runs (l : list event) (s : t) : res t :=
  match l with [] => Ok s | e :: l => match handle e s with Ok (_, s') => runs l s' | Fail f => Fail f end end.

Definition buffer_of (e : event) : option Buffer.t :=
  match e with ServerData b | SocksData _ b => Some b | _ => None end.

(** The rest of [enabled], to be computed. *)
Definition fresh_up (e : event) (s : t) : bool :=
  match e with
  | SocksUp id c =>
      forallb (fun e => match e with ToSocks d _ => bool_decide (d <> c) | _ => true end) (out s) &&
      forallb (fun p => bool_decide (connection p.2 <> Some c)) (socksConns_ s) &&
      match find id s with Some e => bool_decide (connection e = None) | None => true end
  | _ => true
  end.

Lemma fresh_enabled e s : fresh_up e s = true -> (forall b, buffer_of e = Some b -> Buffer.wf b) -> enabled e s.
Proof.
  intros Hf Hb. destruct e as [c|c|b|id c|id c|id b]; simpl in *; auto.
  apply andb_true_iff in Hf as [[Ho Hs]%andb_true_iff Hn]. rewrite !forallb_forall in *.
  split; [split; apply list.Forall_forall|].
  - intros e He%list_elem_of_In. specialize (Ho e He). destruct e; try done. by apply bool_decide_eq_true in Ho.
  - intros p Hp%list_elem_of_In. specialize (Hs p Hp). by apply bool_decide_eq_true in Hs.
  - destruct (find id s); [by apply bool_decide_eq_true in Hn|done].
Qed.

Fixpoint fresh_runs (l : list event) (s : t) : option t :=
  match l with
  | [] => Some s
  | e :: l => if fresh_up e s then match handle e s with Ok (_, s') => fresh_runs l s' | Fail _ => None end else None
  end.

Lemma demux_runs_reachable l s s' : reachable s ->
  Forall (fun e => forall b, buffer_of e = Some b -> Buffer.wf b) l -> fresh_runs l s = Some s' -> reachable s'.
Proof.
  intros Hr Hl. revert s Hr. induction Hl as [|e l He Hl IH]; intros s Hr; simpl; [by intros [= <-]|].
  destruct (fresh_up e s) eqn:Ef; [|done]. destruct (handle e s) as [[[] s1]|] eqn:E; [|done].
  apply IH. eapply reach_handle; [done|by apply fresh_enabled|done].
Qed.

(** Two numbers, the second opened before the first is connected. *)
Definition open_2 : Buffer.t := command (bs "CONN 2 FROM 10.0.0.8:4000 IS UP" ++ [CR; LF]).
Definition data_2 (text : bytes) : Buffer.t := of_bytes (Packet.packet (2, text)).

Definition demux_run : list event :=
  [ServerUp 9; ServerData open_1; ServerData (data_1 (bs "he")); ServerData open_2; ServerData (data_2 (bs "other"));
   SocksUp 1 50; ServerData (data_1 (bs "llo"))].
Definition demux_end : t := default DemuxServer (fresh_runs demux_run DemuxServer).

Definition entry_at (id : Z) : Entry := default (mk_entry 0 [] None (Buffer.mk [] 0 0)) (find id demux_end).

Lemma demux_in_order_witness :
  given 50 (out demux_end) = bs "hello" /\ connection (entry_at 1) = Some 50 /\
  given 50 (out demux_end) = carried 1 (packets demux_end) /\
  connection (entry_at 2) = None /\ carried 2 (packets demux_end) = bs "other" /\
  Buffer.content (pending (entry_at 2)) = carried 2 (packets demux_end).
Proof.
  assert (reachable demux_end) as Hr.
  { apply (demux_runs_reachable demux_run DemuxServer); [constructor| |vm_compute; reflexivity].
    repeat (apply list.Forall_cons; split; [intros b [= <-]; unfold Buffer.wf, Buffer.kCheapPrepend, vector_max_size; vm_compute; repeat split; discriminate|]).
    constructor. }
  assert (connection (entry_at 1) = Some 50) as E1 by (vm_compute; reflexivity).
  assert (connection (entry_at 2) = None) as E2 by (vm_compute; reflexivity).
  destruct (demux_in_order demux_end 1 (entry_at 1) Hr) as [H1 _]; [discriminate|vm_compute; reflexivity|].
  destruct (demux_in_order demux_end 2 (entry_at 2) Hr) as [H2 _]; [discriminate|vm_compute; reflexivity|].
  rewrite E1 in H1. rewrite E2 in H2. destruct H1 as [H1 _].
  split_and!; [vm_compute; reflexivity|exact E1|exact H1|exact E2|vm_compute; reflexivity|exact H2].
Defined.

(** A number cannot come back: its entry stays after both ends are closed, in either order,
    and the next command that opens it fails the assertion. *)
Example entry_stays :
  runs (demux_run ++ [ServerData close_1; SocksDown 1 50; ServerData open_1]) DemuxServer = Fail AssertionFailed /\
  runs (demux_run ++ [SocksDown 1 50; ServerData close_1; ServerData open_1]) DemuxServer = Fail AssertionFailed.
Proof. vm_compute. split; reflexivity. Qed.

(** When the shared connection closes the table is cleared, and the callback of a connection
    that closes afterwards does not find its entry. *)
Example server_down_first : runs (demux_run ++ [ServerDown 9; SocksDown 1 50]) DemuxServer = Fail AssertionFailed.
Proof. vm_compute. reflexivity. Qed.
End DemuxServer.
