(* ===== verification/Http.v ===== *)
(** HTTP requests and responses ([muduo/net/http/HttpRequest.h], [HttpContext.*],
    [HttpResponse.*], [HttpServer.cc]).

    [Module HttpContext] translates the incremental parser on the connection's input
    [Buffer]; [Module HttpServer] is what the server does with one message of one
    connection, as a list of effects on the connection and the disk. *)
From S2P Require Import Prelude OrderedSet StringPiece NetBuffer Decimal.
Open Scope Z_scope.

Definition SP : byte := " "%byte.

(** [contains(src, sub)]: [src.find(sub) != npos]. *)
Definition contains (src sub : bytes) : bool := match search sub src with Some _ => true | None => false end.

Module HttpRequest.

Inductive Method := kInvalid | kGet | kPost | kHead | kPut | kDelete.
Inductive Version := kUnknown | kHttp10 | kHttp11.

#[global] Instance Method_eq_dec : EqDecision Method.
Proof. solve_decision. Defined.
#[global] Instance Version_eq_dec : EqDecision Version.
Proof. solve_decision. Defined.

Record t := mk {
  method_ : Method;
  version_ : Version;
  path_ : bytes;
  query_ : bytes;
  receiveTime_ : Z;
  headers_ : gmap bytes bytes
}.

Definition HttpRequest : t := mk kInvalid kUnknown [] [] 0 ∅.

Definition setVersion v (r : t) : t := mk (method_ r) v (path_ r) (query_ r) (receiveTime_ r) (headers_ r).
Definition setPath p (r : t) : t := mk (method_ r) (version_ r) p (query_ r) (receiveTime_ r) (headers_ r).
Definition setQuery q (r : t) : t := mk (method_ r) (version_ r) (path_ r) q (receiveTime_ r) (headers_ r).
Definition setReceiveTime u (r : t) : t := mk (method_ r) (version_ r) (path_ r) (query_ r) u (headers_ r).

Definition method_of (m : bytes) : Method :=
  if decide (m = bs "GET") then kGet
  else if decide (m = bs "POST") then kPost
  else if decide (m = bs "HEAD") then kHead
  else if decide (m = bs "PUT") then kPut
  else if decide (m = bs "DELETE") then kDelete
  else kInvalid.

Definition setMethod (m : bytes) (r : t) : res (bool * t) :=
  _ ← assert_ (bool_decide (method_ r = kInvalid));
  let m := method_of m in
  mret (negb (bool_decide (m = kInvalid)),
        mk m (version_ r) (path_ r) (query_ r) (receiveTime_ r) (headers_ r)).

Definition methodString (r : t) : bytes :=
  match method_ r with
  | kGet => bs "GET"
  | kPost => bs "POST"
  | kHead => bs "HEAD"
  | kPut => bs "PUT"
  | kDelete => bs "DELETE"
  | kInvalid => bs "UNKNOWN"
  end.

(** The two loops of [addHeader] over spaces. *)
Fixpoint skip_spaces (l : bytes) : bytes :=
  match l with
  | c :: l' => if isspace c then skip_spaces l' else l
  | [] => []
  end.

Definition trim_end (l : bytes) : bytes := rev (skip_spaces (rev l)).

(** [addHeader(start, colon, end)]: [line] is the range, [colon] an offset in it. *)
Definition addHeader (line : bytes) (colon : nat) (r : t) : t :=
  let field := take colon line in
  let value := trim_end (skip_spaces (drop (S colon) line)) in
  mk (method_ r) (version_ r) (path_ r) (query_ r) (receiveTime_ r) (<[field := value]> (headers_ r)).

Definition getHeader (field : bytes) (r : t) : bytes := default [] (headers_ r !! field).

Definition swap (a b : t) : t * t := (b, a).

End HttpRequest.

Module HttpContext.

Inductive HttpRequestParseState := kExpectRequestLine | kExpectHeaders | kExpectBody | kGotAll.

#[global] Instance state_eq_dec : EqDecision HttpRequestParseState.
Proof. solve_decision. Defined.

Record t := mk { state_ : HttpRequestParseState; request_ : HttpRequest.t }.

Definition HttpContext : t := mk kExpectRequestLine HttpRequest.HttpRequest.

Definition gotAll (c : t) : bool := bool_decide (state_ c = kGotAll).
Definition reset (c : t) : t := mk kExpectRequestLine HttpRequest.HttpRequest.

(** [processRequestLine(begin, end)] on the bytes in between. *)
Definition processRequestLine (line : bytes) (r : HttpRequest.t) : res (bool * HttpRequest.t) :=
  match find_byte SP line with
  | None => mret (false, r)
  | Some space =>
      '(ok, r) ← HttpRequest.setMethod (take space line) r;
      if ok : bool then
        let start := drop (S space) line in
        match find_byte SP start with
        | None => mret (false, r)
        | Some space =>
            let target := take space start in
            let r := match find_byte "?"%byte target with
                     | Some question => HttpRequest.setQuery (drop question target) (HttpRequest.setPath (take question target) r)
                     | None => HttpRequest.setPath target r
                     end in
            let start := drop (S space) start in
            if bool_decide (lenZ start = 8) && bool_decide (take 7 start = bs "HTTP/1.") then
              match list.last start with
              | Some "1"%byte => mret (true, HttpRequest.setVersion HttpRequest.kHttp11 r)
              | Some "0"%byte => mret (true, HttpRequest.setVersion HttpRequest.kHttp10 r)
              | _ => mret (false, r)
              end
            else mret (false, r)
        end
      else mret (false, r)
  end.

(** One iteration of the loop of [parseRequest]: whether there is more, [ok], and the
    buffer and context after. *)
Definition parse_step (receiveTime : Z) (buf : Buffer.t) (c : t) : res (bool * bool * Buffer.t * t) :=
  match state_ c with
  | kExpectRequestLine =>
      crlf ← Buffer.findCRLF buf;
      match crlf with
      | Some crlf =>
          line ← Buffer.range (Buffer.peek buf) crlf buf;
          '(ok, r) ← processRequestLine line (request_ c);
          if ok : bool then
            buf ← Buffer.retrieveUntil (crlf + 2) buf;
            mret (true, true, buf, mk kExpectHeaders (HttpRequest.setReceiveTime receiveTime r))
          else mret (false, false, buf, mk (state_ c) r)
      | None => mret (false, true, buf, c)
      end
  | kExpectHeaders =>
      crlf ← Buffer.findCRLF buf;
      match crlf with
      | Some crlf =>
          line ← Buffer.range (Buffer.peek buf) crlf buf;
          let '(hasMore, c) :=
            match find_byte ":"%byte line with
            | Some colon => (true, mk (state_ c) (HttpRequest.addHeader line colon (request_ c)))
            | None => (false, mk kGotAll (request_ c))
            end in
          buf ← Buffer.retrieveUntil (crlf + 2) buf;
          mret (hasMore, true, buf, c)
      | None => mret (false, true, buf, c)
      end
  | kExpectBody | kGotAll => mret (true, true, buf, c)
  end.

(** The loop; [None] when the fuel does not suffice. *)
Fixpoint parse_loop (fuel : nat) (receiveTime : Z) (buf : Buffer.t) (c : t) : res (option (bool * Buffer.t * t)) :=
  match fuel with
  | O => mret None
  | S fuel =>
      '(hasMore, ok, buf, c) ← parse_step receiveTime buf c;
      if hasMore : bool then parse_loop fuel receiveTime buf c else mret (Some (ok, buf, c))
  end.

Definition parseRequest (buf : Buffer.t) (receiveTime : Z) (c : t) : res (option (bool * Buffer.t * t)) :=
  parse_loop (S (Z.to_nat (Buffer.readableBytes buf))) receiveTime buf c.

End HttpContext.

Module HttpResponse.

Definition kUnknown : Z := 0.
Definition k200Ok : Z := 200.
Definition k301MovedPermanently : Z := 301.
Definition k400BadRequest : Z := 400.
Definition k404NotFound : Z := 404.
Definition k501 : Z := 501.

(** [headers_] is an ordered map: an association list in the order of [std::string]. *)
Record t := mk {
  headers_ : list (bytes * bytes);
  statusCode_ : Z;
  statusMessage_ : bytes;
  closeConnection_ : bool;
  body_ : bytes
}.

Definition HttpResponse (close : bool) : t := mk [] kUnknown [] close [].

Definition setStatusCode c (r : t) : t := mk (headers_ r) c (statusMessage_ r) (closeConnection_ r) (body_ r).
Definition setStatusMessage m (r : t) : t := mk (headers_ r) (statusCode_ r) m (closeConnection_ r) (body_ r).
Definition setCloseConnection b (r : t) : t := mk (headers_ r) (statusCode_ r) (statusMessage_ r) b (body_ r).
Definition setBody b (r : t) : t := mk (headers_ r) (statusCode_ r) (statusMessage_ r) (closeConnection_ r) b.

(** [headers_[key] = value]. *)
Definition map_set (key value : bytes) (l : list (bytes * bytes)) : list (bytes * bytes) := OrderedMap.set key value l.

Definition addHeader (key value : bytes) (r : t) : t :=
  mk (map_set key value (headers_ r)) (statusCode_ r) (statusMessage_ r) (closeConnection_ r) (body_ r).

Definition setContentType (contentType : bytes) : t -> t := addHeader (bs "Content-Type") contentType.

(** [output->append(s)]: through a [StringPiece]. *)
Definition append (s : bytes) (output : Buffer.t) : res Buffer.t := Buffer.append_piece (StringPiece.of_string s) output.

Fixpoint append_headers (l : list (bytes * bytes)) (output : Buffer.t) : res Buffer.t :=
  match l with
  | [] => mret output
  | (key, value) :: l' =>
      output ← append key output;
      output ← append (bs ": ") output;
      output ← append value output;
      output ← append [CR; LF] output;
      append_headers l' output
  end.

Definition appendToBuffer (r : t) (output : Buffer.t) : res Buffer.t :=
  let buf := (snprintf 32 (bs "HTTP/1.1 " ++ dec (statusCode_ r) ++ bs " ")).1 in
  output ← append buf output;
  output ← append (statusMessage_ r) output;
  output ← append [CR; LF] output;
  output ← (if closeConnection_ r then append (bs "Connection: close" ++ [CR; LF]) output
            else
              let buf := (snprintf 32 (bs "Content-Length: " ++ dec (lenZ (body_ r)) ++ [CR; LF])).1 in
              output ← append buf output;
              append (bs "Connection: Keep-Alive" ++ [CR; LF]) output);
  output ← append_headers (headers_ r) output;
  output ← append [CR; LF] output;
  append (body_ r) output.

End HttpResponse.

Module HttpServer.

(** What the server does to the connection and the disk. *)
Inductive effect :=
  | Send (message : bytes)
  | SendBuffer (b : Buffer.t)
  | Shutdown
  | WriteFile (path contents : bytes)
  | Exit.

Definition defaultHttpCallback (req : HttpRequest.t) (resp : HttpResponse.t) : res HttpResponse.t :=
  mret (HttpResponse.setCloseConnection true (HttpResponse.setStatusMessage (bs "Not Found")
    (HttpResponse.setStatusCode HttpResponse.k404NotFound resp))).

Section server.
(** The user's callback (which may throw), whether [LOG_INFO] is enabled, and whether the file opens. *)
Context (httpCallback_ : HttpRequest.t -> HttpResponse.t -> res HttpResponse.t) (log_info disk_ok : bool).

Definition close_requested (req : HttpRequest.t) : bool :=
  let connection := HttpRequest.getHeader (bs "Connection") req in
  bool_decide (connection = bs "close") ||
  (bool_decide (HttpRequest.version_ req = HttpRequest.kHttp10) && negb (bool_decide (connection = bs "Keep-Alive"))).

Definition onRequest (req : HttpRequest.t) : res (list effect) :=
  response ← httpCallback_ req (HttpResponse.HttpResponse (close_requested req));
  buf ← Buffer.Buffer Buffer.kInitialSize;
  buf ← HttpResponse.appendToBuffer response buf;
  mret (SendBuffer buf :: (if HttpResponse.closeConnection_ response then [Shutdown] else [])).

(** The bytes from [peek()] taken as a C string. *)
Definition peek_cstr (buf : Buffer.t) : res bytes :=
  let p := drop (Z.to_nat (Buffer.peek buf)) (Buffer.buffer_ buf) in
  match find_byte Byte.x00 p with
  | Some n => Ok (take n p)
  | None => Fail OutOfBounds
  end.

(** [onMessage]: the effects, the input buffer and the context after; [None] inside when the
    parser does not end. *)
Definition onMessage (buf : Buffer.t) (receiveTime : Z) (context : HttpContext.t) :
    res (option (list effect * Buffer.t * HttpContext.t)) :=
  _ ← (if log_info then _ ← peek_cstr buf; mret tt else mret tt);
  s ← peek_cstr buf;
  if contains s (bs "shidu") then
    if disk_ok then
      mret (Some ([WriteFile (bs "/home/wushuohan/webRoot/tianqi.txt") s], buf, context))
    else mret (Some ([Exit], buf, context))
  else
    r ← HttpContext.parseRequest buf receiveTime context;
    match r with
    | None => mret None
    | Some (ok, buf, context) =>
        let bad := if ok : bool then []
                   else [Send (bs "HTTP/1.1 400 Bad Request" ++ [CR; LF; CR; LF]); Shutdown] in
        if HttpContext.gotAll context then
          effects ← onRequest (HttpContext.request_ context);
          mret (Some (bad ++ effects, buf, HttpContext.reset context))
        else mret (Some (bad, buf, context))
    end.
End server.
End HttpServer.

(** ** The parser on the bytes of the buffer *)

(** A byte sequence up to its first CRLF, and what follows. *)
Definition first_line (data : bytes) : option (bytes * bytes) :=
  (fun i => (take i data, drop (i + 2) data)) <$> search Buffer.kCRLF data.

Lemma first_line_split data line rest :
  first_line data = Some (line, rest) -> data = line ++ Buffer.kCRLF ++ rest.
Proof.
  unfold first_line. destruct (search _ data) as [i|] eqn:Hs; [|done]. simpl. intros [= <- <-].
  apply search_Some in Hs as ([r Hr] & _ & _). pose proof (take_drop i data) as Ht. rewrite Hr in Ht.
  rewrite <- drop_drop, Hr. symmetry. exact Ht.
Qed.

(** More bytes at the end do not change the first line. *)
Lemma first_line_app data d line rest :
  first_line data = Some (line, rest) -> first_line (data ++ d) = Some (line, rest ++ d).
Proof.
  intros Hl. pose proof (first_line_split _ _ _ Hl) as Hsplit. revert Hl. unfold first_line.
  destruct (search _ data) as [i|] eqn:Hs; [|done]. simpl. intros [= <- <-].
  apply search_Some in Hs as ([r Hr] & Hi & Hmin).
  assert (i + 2 <= length data)%nat as Hlen.
  { rewrite Hsplit. rewrite !length_app, length_take. simpl. lia. }
  assert (search Buffer.kCRLF (data ++ d) = Some i) as ->.
  - apply search_Some. split_and!; [|rewrite length_app; lia|].
    + rewrite drop_app_le by lia. rewrite Hr. exists (r ++ d). by rewrite app_assoc.
    + intros j Hj Hp. apply (Hmin j Hj). rewrite drop_app_le in Hp by lia.
      destruct Hp as [q Hq]. exists (take (length data - j - 2) q).
      assert (length (drop j data) = length data - j)%nat as Hld by apply length_drop.
      apply (f_equal (take (length data - j))) in Hq. rewrite take_app_length' in Hq by lia.
      rewrite Hq. rewrite take_app_ge by (simpl; lia). done.
  - simpl. by rewrite take_app_le, drop_app_le by lia.
Qed.

(** No CRLF inside the line. *)
Lemma first_line_intro line rest :
  CR ∉ line -> first_line (line ++ Buffer.kCRLF ++ rest) = Some (line, rest).
Proof.
  intros Hcr. unfold first_line. assert (search Buffer.kCRLF (line ++ Buffer.kCRLF ++ rest) = Some (length line)) as ->.
  - apply search_Some. split_and!; [|rewrite length_app; lia|].
    + rewrite drop_app_length. by exists rest.
    + intros j Hj [q Hq]. apply Hcr. rewrite drop_app_le in Hq by lia.
      destruct (drop j line) as [|x l] eqn:Hd.
      { apply (f_equal length) in Hd. rewrite length_drop in Hd. simpl in Hd. lia. }
      injection Hq as -> _. rewrite <- (take_drop j line), Hd. apply elem_of_app. right. left.
  - simpl. rewrite take_app_length. do 2 f_equal. rewrite <- drop_drop, drop_app_length. done.
Qed.

Module HttpParse.
Import HttpContext.

(** [parse_step] on the readable bytes. *)
Definition pstep (receiveTime : Z) (data : bytes) (c : t) : res (bool * bool * bytes * t) :=
  match state_ c with
  | kExpectRequestLine =>
      match first_line data with
      | Some (line, rest) =>
          '(ok, r) ← processRequestLine line (request_ c);
          if ok : bool then mret (true, true, rest, mk kExpectHeaders (HttpRequest.setReceiveTime receiveTime r))
          else mret (false, false, data, mk (state_ c) r)
      | None => mret (false, true, data, c)
      end
  | kExpectHeaders =>
      match first_line data with
      | Some (line, rest) =>
          match find_byte ":"%byte line with
          | Some colon => mret (true, true, rest, mk (state_ c) (HttpRequest.addHeader line colon (request_ c)))
          | None => mret (false, true, rest, mk kGotAll (request_ c))
          end
      | None => mret (false, true, data, c)
      end
  | kExpectBody | kGotAll => mret (true, true, data, c)
  end.

Fixpoint ploop (fuel : nat) (receiveTime : Z) (data : bytes) (c : t) : res (option (bool * bytes * t)) :=
  match fuel with
  | O => mret None
  | S fuel =>
      '(hasMore, ok, data, c) ← pstep receiveTime data c;
      if hasMore : bool then ploop fuel receiveTime data c else mret (Some (ok, data, c))
  end.

(** What the pointers of [findCRLF] give: the line, and the buffer after [retrieveUntil]. *)
Lemma crlf_pointers b i :
  Buffer.wf b -> search Buffer.kCRLF (Buffer.content b) = Some i ->
  let crlf := Buffer.readerIndex_ b + Z.of_nat i in
  Buffer.range (Buffer.peek b) crlf b = Ok (take i (Buffer.content b)) /\
  exists b', Buffer.retrieveUntil (crlf + 2) b = Ok b' /\ Buffer.wf b' /\
    Buffer.content b' = drop (i + 2) (Buffer.content b).
Proof.
  intros Hb Hs crlf. pose proof (Buffer.lenZ_content b Hb) as Hlc.
  assert (first_line (Buffer.content b) = Some (take i (Buffer.content b), drop (i + 2) (Buffer.content b))) as Hfl
    by (unfold first_line; by rewrite Hs).
  apply first_line_split in Hfl. apply (f_equal lenZ) in Hfl. rewrite !lenZ_app in Hfl.
  apply search_Some in Hs as (_ & Hi & _).
  assert (lenZ (take i (Buffer.content b)) = Z.of_nat i) as Hti by (unfold lenZ; rewrite length_take; lia).
  rewrite Hti in Hfl. change (lenZ Buffer.kCRLF) with 2 in Hfl.
  pose proof (lenZ_nonneg (drop (i + 2) (Buffer.content b))).
  pose proof Hb as (Hb1 & Hb2 & Hb3). split.
  - unfold Buffer.peek. rewrite Buffer.range_wf by (done || lia). f_equal. unfold Buffer.content, slice, crlf.
    rewrite take_take. f_equal. lia.
  - destruct (Buffer.retrieve_spec (Z.of_nat i + 2) b Hb) as (b' & Hr & Hwf & Hc & _).
    { rewrite Buffer.readable_content by done. lia. }
    exists b'. split_and!; [|done|].
    + unfold Buffer.retrieveUntil, Buffer.peek, Buffer.beginWrite, crlf.
      rewrite !check_true by (apply bool_decide_eq_true; lia). simpl.
      replace (_ - _) with (Z.of_nat i + 2) by lia. done.
    + rewrite Hc. f_equal. lia.
Qed.

(** The buffer shows the bytes. *)
Definition shown (x : res (bool * bool * Buffer.t * t)) (y : res (bool * bool * bytes * t)) : Prop :=
  match x, y with
  | Ok (m, ok, b, c), Ok (m', ok', d, c') => m = m' /\ ok = ok' /\ c = c' /\ Buffer.wf b /\ Buffer.content b = d
  | Fail e, Fail e' => e = e'
  | _, _ => False
  end.

Lemma parse_step_shows rt b c : Buffer.wf b -> shown (parse_step rt b c) (pstep rt (Buffer.content b) c).
Proof.
  intros Hb. unfold parse_step, pstep, first_line. rewrite !Buffer.findCRLF_spec by done.
  destruct (search Buffer.kCRLF (Buffer.content b)) as [i|] eqn:Hs; simpl.
  2: { by destruct (state_ c). }
  destruct (crlf_pointers b i Hb Hs) as (Hrange & b' & Hret & Hwf & Hc).
  destruct (state_ c); [| |done|done]; rewrite Hrange; simpl.
  - destruct (processRequestLine _ _) as [[[] r]|]; simpl; try done. by rewrite Hret.
  - destruct (find_byte _ _) as [colon|]; rewrite Hret; done.
Qed.

(** The parser on the buffer is the parser on its bytes. *)
Lemma parse_loop_shows fuel rt b c :
  Buffer.wf b ->
  match parse_loop fuel rt b c, ploop fuel rt (Buffer.content b) c with
  | Ok (Some (ok, b', c1)), Ok (Some (ok', d, c2)) => ok = ok' /\ c1 = c2 /\ Buffer.wf b' /\ Buffer.content b' = d
  | Ok None, Ok None => True
  | Fail e, Fail e' => e = e'
  | _, _ => False
  end.
Proof.
  revert b c; induction fuel as [|fuel IH]; intros b c Hb; simpl; [done|].
  pose proof (parse_step_shows rt b c Hb) as Hs. unfold shown in Hs.
  destruct (parse_step rt b c) as [[[[m ok] b1] c1]|], (pstep rt (Buffer.content b) c) as [[[[m' ok'] d'] c1']|];
    simpl; try done.
  destruct Hs as (<- & <- & <- & Hb1 & <-). destruct m; [by apply IH|done].
Qed.

(** The method has not been set before the request line has been read. *)
Definition valid (c : t) : Prop :=
  (state_ c = kExpectRequestLine /\ HttpRequest.method_ (request_ c) = HttpRequest.kInvalid) \/ state_ c = kExpectHeaders.

Lemma processRequestLine_ok line r :
  HttpRequest.method_ r = HttpRequest.kInvalid -> exists ok r', processRequestLine line r = Ok (ok, r').
Proof.
  intros Hm. unfold processRequestLine. destruct (find_byte SP line) as [i|]; [|by do 2 eexists].
  unfold HttpRequest.setMethod. rewrite check_true by by apply bool_decide_eq_true. simpl.
  destruct (negb _); [|by do 2 eexists]. destruct (find_byte SP _) as [j|]; [|by do 2 eexists].
  destruct (_ && _); [|by do 2 eexists]. destruct (list.last _) as [[]|]; by do 2 eexists.
Qed.

Lemma pstep_ok rt data c :
  valid c -> exists m ok d c', pstep rt data c = Ok (m, ok, d, c') /\ d `suffix_of` data /\
    (m = true -> valid c' /\ (length d < length data)%nat) /\
    (m = false -> (ok = true /\ (valid c' \/ state_ c' = kGotAll)) \/ (ok = false /\ state_ c' = kExpectRequestLine)).
Proof.
  intros Hv. unfold pstep.
  assert (forall line rest, first_line data = Some (line, rest) -> rest `suffix_of` data /\ (length rest < length data)%nat) as Hl.
  { intros line rest Hf%first_line_split. split; [exists (line ++ Buffer.kCRLF); by rewrite <- app_assoc|].
    rewrite Hf, !length_app. simpl. lia. }
  destruct (first_line data) as [[line rest]|].
  2: { exists false, true, data, c. pose proof Hv as [[-> ?] | ->]; (split; [done|]; split; [done|]; split; [done|]).
       all: intros _; left; split; [done|by left]. }
  destruct (Hl line rest eq_refl) as [Hsuf Hlen]. destruct Hv as [[Hst Hm]|Hst]; rewrite Hst.
  - destruct (processRequestLine_ok line _ Hm) as (ok & r & ->). simpl. destruct ok.
    + do 4 eexists. split_and!; [reflexivity|done| |done]. intros _. split; [by right|done].
    + do 4 eexists. split_and!; [reflexivity|done|done|]. intros _. by right.
  - destruct (find_byte _ line) as [colon|].
    + do 4 eexists. split_and!; [reflexivity|done| |done]. intros _. split; [by right|done].
    + do 4 eexists. split_and!; [reflexivity|done|done|]. intros _. left. split; [done|]. by right.
Qed.

(** With more fuel than bytes the parser ends, wherever it stops. *)
Lemma ploop_ok rt fuel data c :
  valid c -> (length data < fuel)%nat ->
  exists ok d c', ploop fuel rt data c = Ok (Some (ok, d, c')) /\ d `suffix_of` data /\
    ((ok = true /\ (valid c' \/ state_ c' = kGotAll)) \/ (ok = false /\ state_ c' = kExpectRequestLine)).
Proof.
  revert data c; induction fuel as [|fuel IH]; intros data c Hv Hf; [lia|].
  destruct (pstep_ok rt data c Hv) as (m & ok & d & c' & Hs & Hsuf & Ht & Hn). simpl. rewrite Hs. simpl.
  destruct m; [|by exists ok, d, c'; auto].
  destruct (Ht eq_refl) as [Hv' Hlen]. destruct (IH d c' Hv' ltac:(lia)) as (ok2 & d2 & c2 & -> & Hsuf2 & Hend).
  exists ok2, d2, c2. split_and!; [done|by etransitivity|done].
Qed.

(** Fuel beyond the need changes nothing. *)
Lemma ploop_fuel rt f1 f2 data c x :
  ploop f1 rt data c = Ok (Some x) -> (f1 <= f2)%nat -> ploop f2 rt data c = Ok (Some x).
Proof.
  revert f2 data c; induction f1 as [|f1 IH]; intros f2 data c; [done|]. intros Hx Hle.
  destruct f2 as [|f2]; [lia|]. simpl in *. destruct (pstep rt data c) as [[[[m ok] d] c']|]; [|done]. simpl in *.
  destruct m; [|done]. apply IH; [done|lia].
Qed.

(** The parser ends with a result. *)
Definition parses rt data c (r : bool * bytes * t) : Prop := exists fuel, ploop fuel rt data c = Ok (Some r).

Lemma parses_fun rt data c r1 r2 : parses rt data c r1 -> parses rt data c r2 -> r1 = r2.
Proof.
  intros [f1 H1] [f2 H2]. apply (ploop_fuel _ _ (f1 `max` f2)) in H1; [|lia].
  apply (ploop_fuel _ _ (f1 `max` f2)) in H2; [|lia]. congruence.
Qed.

Lemma parses_step rt data c ok d c' r :
  pstep rt data c = Ok (true, ok, d, c') -> parses rt d c' r -> parses rt data c r.
Proof. intros Hs [f Hf]. exists (S f). simpl. by rewrite Hs. Qed.

Lemma pstep_app rt data e c m ok d c' :
  first_line data <> None -> state_ c = kExpectRequestLine \/ state_ c = kExpectHeaders ->
  pstep rt data c = Ok (m, ok, d, c') -> pstep rt (data ++ e) c = Ok (m, ok, d ++ e, c').
Proof.
  intros Hne Hst. unfold pstep. destruct (first_line data) as [[line rest]|] eqn:Hl; [|done].
  rewrite (first_line_app _ e _ _ Hl). destruct Hst as [Hst|Hst]; rewrite Hst.
  - destruct (processRequestLine _ _) as [[[] r]|]; simpl; [by intros [= <- <- <- <-]..|done].
  - destruct (find_byte _ line); by intros [= <- <- <- <-].
Qed.

(** Bytes that arrive later: the parser goes on where it stopped. *)
Lemma parses_app rt data e c ok d c' :
  parses rt data c (ok, d, c') -> valid c ->
  if ok && negb (gotAll c') then forall r, parses rt (d ++ e) c' r -> parses rt (data ++ e) c r
  else parses rt (data ++ e) c (ok, d ++ e, c').
Proof.
  intros [fuel Hrun]. revert data c Hrun; induction fuel as [|fuel IH]; intros data c Hrun Hv; [done|].
  simpl in Hrun. destruct (pstep_ok rt data c Hv) as (m & ok1 & d1 & c1 & Hs & _ & Ht & _).
  assert (state_ c = kExpectRequestLine \/ state_ c = kExpectHeaders) as Hst by (destruct Hv as [[]|]; auto).
  rewrite Hs in Hrun. simpl in Hrun. destruct (first_line data) as [[line rest]|] eqn:Hl.
  - pose proof (pstep_app rt data e c _ _ _ _ ltac:(by rewrite Hl) Hst Hs) as Hse. destruct m.
    + destruct (Ht eq_refl) as [Hv1 _]. specialize (IH d1 c1 Hrun Hv1).
      assert (forall r, parses rt (d1 ++ e) c1 r -> parses rt (data ++ e) c r) as Hstep.
      { intros r [f Hf]. exists (S f). simpl. by rewrite Hse. }
      destruct (ok && negb (gotAll c')); [|by apply Hstep]. intros r Hr. by apply Hstep, IH.
    + injection Hrun as <- <- <-.
      destruct (ok1 && negb (gotAll c1)) eqn:Eok; [|exists 1%nat; simpl; by rewrite Hse].
      exfalso. apply andb_prop in Eok as [-> Hg%negb_true_iff%bool_decide_eq_false].
      unfold pstep in Hs. rewrite Hl in Hs. destruct Hst as [Hst|Hst]; rewrite Hst in Hs.
      * destruct (processRequestLine _ _) as [[[] ?]|]; by simplify_eq/=.
      * destruct (find_byte _ _); [by simplify_eq/=|]. injection Hs as _ <-. by destruct Hg.
  - assert (m = false /\ ok1 = true /\ d1 = data /\ c1 = c) as (-> & -> & -> & ->).
    { unfold pstep in Hs. rewrite Hl in Hs. by destruct Hst as [Hst|Hst]; rewrite Hst in Hs; injection Hs as <- <- <- <-. }
    injection Hrun as <- <- <-. assert (gotAll c = false) as ->; [|by intros r].
    unfold gotAll. by destruct Hst as [-> | ->].
Qed.

Lemma parseRequest_parses b rt c :
  Buffer.wf b -> valid c ->
  exists ok b' c', parseRequest b rt c = Ok (Some (ok, b', c')) /\ Buffer.wf b' /\
    parses rt (Buffer.content b) c (ok, Buffer.content b', c') /\ Buffer.content b' `suffix_of` Buffer.content b /\
    ((ok = true /\ (valid c' \/ state_ c' = kGotAll)) \/ (ok = false /\ state_ c' = kExpectRequestLine)).
Proof.
  intros Hb Hv. unfold parseRequest. set (fuel := S _).
  assert (length (Buffer.content b) < fuel)%nat as Hf.
  { unfold fuel. rewrite Buffer.readable_content by done. unfold lenZ. lia. }
  destruct (ploop_ok rt fuel _ c Hv Hf) as (ok & d & c' & Hrun & Hsuf & Hend).
  pose proof (parse_loop_shows fuel rt b c Hb) as Hs. rewrite Hrun in Hs.
  destruct (parse_loop fuel rt b c) as [[[[ok' b'] c2]|]|]; try done. destruct Hs as (-> & -> & Hwf & Hc).
  exists ok, b', c'. rewrite Hc. split_and!; try done. by exists fuel.
Qed.

(** ** What a client sends *)

(** A request line and header fields as a client prints them; [query] is empty or starts
    with a question mark. *)
Definition print_header (h : bytes * bytes) : bytes := h.1 ++ bs ": " ++ h.2 ++ Buffer.kCRLF.

Definition print_line (method path query : bytes) (minor : byte) : bytes :=
  method ++ [SP] ++ path ++ query ++ [SP] ++ bs "HTTP/1." ++ [minor].

Definition print_request (method path query : bytes) (minor : byte) (hs : list (bytes * bytes)) : bytes :=
  print_line method path query minor ++ Buffer.kCRLF ++ concat (map print_header hs) ++ Buffer.kCRLF.

Definition no_blank (l : bytes) : Prop := CR ∉ l /\ SP ∉ l.

(** A field name without colon, a value without blanks at its ends. *)
Definition header_ok (h : bytes * bytes) : Prop :=
  CR ∉ h.1 /\ ":"%byte ∉ h.1 /\ CR ∉ h.2 /\
  (forall c, head h.2 = Some c -> isspace c = false) /\ (forall c, list.last h.2 = Some c -> isspace c = false).

Definition target_ok (path query : bytes) : Prop :=
  no_blank path /\ "?"%byte ∉ path /\ no_blank query /\ (query = [] \/ exists q, query = "?"%byte :: q).

Definition version_of (minor : byte) : option HttpRequest.Version :=
  match minor with
  | "1"%byte => Some HttpRequest.kHttp11
  | "0"%byte => Some HttpRequest.kHttp10
  | _ => None
  end.

Lemma skip_spaces_head l : (forall c, head l = Some c -> isspace c = false) -> HttpRequest.skip_spaces l = l.
Proof. destruct l as [|c l]; [done|]. intros Hc. simpl. by rewrite Hc. Qed.

Lemma value_trimmed v :
  (forall c, head v = Some c -> isspace c = false) -> (forall c, list.last v = Some c -> isspace c = false) ->
  HttpRequest.trim_end (HttpRequest.skip_spaces (SP :: v)) = v.
Proof.
  intros Hh Hl. simpl. rewrite skip_spaces_head by done. unfold HttpRequest.trim_end.
  rewrite skip_spaces_head; [apply rev_involutive|]. intros c Hc. apply Hl. rewrite <- Hc.
  destruct v as [|x v _] using rev_ind; [done|]. by rewrite rev_unit, last_snoc.
Qed.

Lemma header_line rt h rest r :
  header_ok h ->
  pstep rt (print_header h ++ rest) (mk kExpectHeaders r) =
    Ok (true, true, rest, mk kExpectHeaders (HttpRequest.mk (HttpRequest.method_ r) (HttpRequest.version_ r)
      (HttpRequest.path_ r) (HttpRequest.query_ r) (HttpRequest.receiveTime_ r) (<[h.1 := h.2]> (HttpRequest.headers_ r)))).
Proof.
  intros (Hf1 & Hf2 & Hv1 & Hv2 & Hv3). unfold pstep, print_header. simpl state_. cbv iota.
  replace ((h.1 ++ bs ": " ++ h.2 ++ Buffer.kCRLF) ++ rest) with ((h.1 ++ bs ": " ++ h.2) ++ Buffer.kCRLF ++ rest)
    by by rewrite <- !app_assoc.
  rewrite first_line_intro.
  2: { rewrite !not_elem_of_app. split_and!; [done| |done]. intros Hin. const_notin Hin. }
  change (h.1 ++ bs ": " ++ h.2) with (h.1 ++ ":"%byte :: (SP :: h.2)). rewrite find_byte_first by done.
  unfold HttpRequest.addHeader. rewrite take_app_length.
  replace (drop (S (length h.1)) (h.1 ++ ":"%byte :: SP :: h.2)) with (SP :: h.2).
  2: { change (S (length h.1)) with (1 + length h.1)%nat. rewrite Nat.add_comm, <- drop_drop, drop_app_length. done. }
  by rewrite value_trimmed.
Qed.

Lemma headers_parse rt hs rest r :
  Forall header_ok hs ->
  parses rt (concat (map print_header hs) ++ Buffer.kCRLF ++ rest) (mk kExpectHeaders r)
    (true, rest, mk kGotAll (HttpRequest.mk (HttpRequest.method_ r) (HttpRequest.version_ r) (HttpRequest.path_ r)
      (HttpRequest.query_ r) (HttpRequest.receiveTime_ r)
      (foldl (fun m h => <[h.1 := h.2]> m) (HttpRequest.headers_ r) hs))).
Proof.
  revert r; induction hs as [|h hs IH]; intros r Hok; simpl.
  - exists 1%nat. simpl. by destruct r.
  - apply list.Forall_cons in Hok as [Hh Hok]. destruct (IH (HttpRequest.mk (HttpRequest.method_ r) (HttpRequest.version_ r)
      (HttpRequest.path_ r) (HttpRequest.query_ r) (HttpRequest.receiveTime_ r) (<[h.1 := h.2]> (HttpRequest.headers_ r))) Hok)
      as [fuel Hf].
    exists (S fuel). rewrite <- app_assoc. simpl. rewrite header_line by done. exact Hf.
Qed.

Lemma request_line_parse m path query minor v r :
  HttpRequest.method_of m <> HttpRequest.kInvalid -> target_ok path query -> version_of minor = Some v ->
  HttpRequest.method_ r = HttpRequest.kInvalid -> HttpRequest.query_ r = [] ->
  processRequestLine (print_line m path query minor) r =
    Ok (true, HttpRequest.mk (HttpRequest.method_of m) v path query (HttpRequest.receiveTime_ r) (HttpRequest.headers_ r)).
Proof.
  intros Hm (Hp & Hq & Hqb & Hqq) Hv Hr Hqr. unfold processRequestLine, print_line.
  assert (SP ∉ m) as Hmsp.
  { intros Hin. apply Hm. unfold HttpRequest.method_of.
    repeat (destruct (decide _) as [->|_]; [const_notin Hin|]). done. }
  set (version := bs "HTTP/1." ++ [minor]).
  replace (m ++ [SP] ++ path ++ query ++ [SP] ++ version) with (m ++ SP :: (path ++ query) ++ SP :: version)
    by (simpl; by rewrite <- app_assoc).
  assert (list.last version = Some minor) as Hlast by apply last_snoc.
  assert (bool_decide (lenZ version = 8) && bool_decide (take 7 version = bs "HTTP/1.") = true) as Hver by done.
  clearbody version. rewrite find_byte_first by done. unfold HttpRequest.setMethod.
  rewrite check_true by by apply bool_decide_eq_true. rewrite take_app_length. simpl.
  rewrite bool_decide_eq_false_2 by done. simpl.
  assert (forall (a b : bytes), drop (S (length a)) (a ++ SP :: b) = b) as Hdrop.
  { intros a b. change (S (length a)) with (1 + length a)%nat. by rewrite Nat.add_comm, <- drop_drop, drop_app_length. }
  pose proof (Hdrop m ((path ++ query) ++ SP :: version)) as Hd. simpl drop in Hd. rewrite Hd. clear Hd.
  rewrite find_byte_first by (rewrite not_elem_of_app; by destruct Hp, Hqb).
  rewrite take_app_length. pose proof (Hdrop (path ++ query) version) as Hd. simpl drop in Hd. rewrite Hd, Hver, Hlast.
  destruct Hqq as [->|[q ->]].
  - rewrite !app_nil_r. assert (find_byte "?"%byte path = None) as -> by by apply find_byte_None.
    destruct r; simpl in *; subst. destruct minor; simplify_eq/=; done.
  - rewrite find_byte_first, take_app_length, drop_app_length by done.
    destruct r; simpl in *; subst. destruct minor; simplify_eq/=; done.
Qed.

Lemma request_parse rt m path query minor v hs rest :
  HttpRequest.method_of m <> HttpRequest.kInvalid -> target_ok path query -> version_of minor = Some v ->
  Forall header_ok hs ->
  parses rt (print_request m path query minor hs ++ rest) HttpContext
    (true, rest, mk kGotAll (HttpRequest.mk (HttpRequest.method_of m) v path query rt
      (foldl (fun m h => <[h.1 := h.2]> m) ∅ hs))).
Proof.
  intros Hm Ht Hv Hhs. unfold print_request.
  replace ((print_line m path query minor ++ Buffer.kCRLF ++ concat (map print_header hs) ++ Buffer.kCRLF) ++ rest) with
    (print_line m path query minor ++ Buffer.kCRLF ++ concat (map print_header hs) ++ Buffer.kCRLF ++ rest)
    by by rewrite <- !app_assoc.
  apply (parses_step _ _ _ true (concat (map print_header hs) ++ Buffer.kCRLF ++ rest)
    (mk kExpectHeaders (HttpRequest.mk (HttpRequest.method_of m) v path query rt ∅)));
    [|by apply (headers_parse rt hs rest (HttpRequest.mk (HttpRequest.method_of m) v path query rt ∅))].
  unfold pstep, HttpContext. cbv beta iota delta [state_ request_]. rewrite first_line_intro.
  - rewrite (request_line_parse m path query minor v) by done. done.
  - unfold print_line. rewrite !not_elem_of_app. destruct Ht as ([Hp1 _] & _ & [Hq1 _] & _).
    assert (CR ∉ m) as Hmc.
    { intros Hin. apply Hm. unfold HttpRequest.method_of.
      repeat (destruct (decide _) as [->|_]; [const_notin Hin|]). done. }
    split_and!; try done; try (intros Hin; const_notin Hin).
    intros Hc%list_elem_of_singleton. by rewrite <- Hc in Hv.
Qed.

(** C14: The parser ends on every input: with fuel for each byte, plus one, the loop of
    [parseRequest] returns, asserts nothing false, leaves a suffix of the bytes, and
    either waits for more in a state from which it can go on, has the whole request, or
    reports an error. *)
Theorem http_parser_ends buf receiveTime c :
  Buffer.wf buf -> valid c ->
  exists ok buf' c', parseRequest buf receiveTime c = Ok (Some (ok, buf', c')) /\ Buffer.wf buf' /\
    Buffer.content buf' `suffix_of` Buffer.content buf /\
    ((ok = true /\ (valid c' \/ state_ c' = kGotAll)) \/ (ok = false /\ state_ c' = kExpectRequestLine)).
Proof.
  intros Hb Hc. destruct (parseRequest_parses buf receiveTime c Hb Hc) as (ok & b' & c' & Hr & Hwf & _ & Hsuf & Hend).
  by exists ok, b', c'.
Qed.

(** C15: Chunking does not matter. When the bytes of [first] leave the parser waiting and
    [rest] arrives behind what it left, the second call ends as one call on all the bytes
    does: same verdict, same bytes left, same request. *)
Theorem http_parse_incremental rt first second whole rest c ok1 first' c1 :
  Buffer.wf first -> Buffer.wf second -> Buffer.wf whole -> valid c ->
  parseRequest first rt c = Ok (Some (ok1, first', c1)) ->
  ok1 = true -> gotAll c1 = false ->
  Buffer.content second = Buffer.content first' ++ rest ->
  Buffer.content whole = Buffer.content first ++ rest ->
  exists ok second' whole' c2,
    parseRequest second rt c1 = Ok (Some (ok, second', c2)) /\
    parseRequest whole rt c = Ok (Some (ok, whole', c2)) /\
    Buffer.content second' = Buffer.content whole'.
Proof.
  intros Hf Hs Hw Hc Hp -> Hg Es Ew.
  destruct (parseRequest_parses first rt c Hf Hc) as (ok & b & c' & Hr & _ & Hps & _ & Hend).
  rewrite Hr in Hp. injection Hp as -> -> ->.
  assert (valid c1) as Hc1.
  { destruct Hend as [[_ [?|Hst]]|[? _]]; [done| |done]. unfold gotAll in Hg. by rewrite Hst in Hg. }
  pose proof (parses_app rt _ rest _ _ _ _ Hps Hc) as Happ. rewrite Hg in Happ. simpl in Happ.
  destruct (parseRequest_parses second rt c1 Hs Hc1) as (ok2 & second' & c2 & H2 & _ & P2 & _).
  destruct (parseRequest_parses whole rt c Hw Hc) as (ok3 & whole' & c3 & H3 & _ & P3 & _).
  rewrite Es in P2. rewrite Ew in P3. pose proof (parses_fun _ _ _ _ _ (Happ _ P2) P3) as [= <- Hcont <-].
  by exists ok2, second', whole', c2.
Qed.

(** C16: What a client prints is what the server reads: the method, version, path, query
    and the fields (the last one of a name counts) of a printed request come back, and
    the bytes behind it stay in the buffer. *)
Theorem http_request_roundtrip buf rt m path query minor v hs rest :
  Buffer.wf buf -> Buffer.content buf = print_request m path query minor hs ++ rest ->
  HttpRequest.method_of m <> HttpRequest.kInvalid -> target_ok path query -> version_of minor = Some v ->
  Forall header_ok hs ->
  exists buf', parseRequest buf rt HttpContext =
      Ok (Some (true, buf', mk kGotAll (HttpRequest.mk (HttpRequest.method_of m) v path query rt
        (foldl (fun m h => <[h.1 := h.2]> m) ∅ hs)))) /\
    Buffer.content buf' = rest.
Proof.
  intros Hb Hc Hm Ht Hv Hh.
  destruct (parseRequest_parses buf rt HttpContext Hb) as (ok & b' & c' & Hr & _ & Hp & _); [by left|].
  rewrite Hc in Hp. pose proof (parses_fun _ _ _ _ _ Hp (request_parse rt m path query minor v hs rest Hm Ht Hv Hh)) as Heq.
  injection Heq as -> Heq ->. by exists b'.
Qed.

(** A buffer with these bytes. *)
Definition buffer_of (d : bytes) : Buffer.t := Buffer.mk (replicate 8 Byte.x00 ++ d ++ replicate 16 Byte.x00) 8 (8 + lenZ d).

Definition demo_headers : list (bytes * bytes) := [(bs "Host", bs "a b"); (bs "Connection", bs "close")].
Definition demo : bytes := print_request (bs "GET") (bs "/x") (bs "?q=1") "1"%byte demo_headers.

Lemma http_parser_ends_witness :
  Buffer.wf (buffer_of demo) /\ exists ok buf' c', parseRequest (buffer_of demo) 7 HttpContext = Ok (Some (ok, buf', c')).
Proof.
  assert (Buffer.wf (buffer_of demo)) as Hb by (unfold Buffer.wf; vm_compute; repeat split; discriminate).
  split; [exact Hb|]. destruct (http_parser_ends (buffer_of demo) 7 HttpContext Hb (or_introl (conj eq_refl eq_refl)))
    as (ok & b' & c' & Hr & _). exists ok, b', c'. exact Hr.
Defined.

Lemma http_parse_incremental_witness :
  exists first' c1 ok second' whole' c2,
    parseRequest (buffer_of (take 26 demo)) 7 HttpContext = Ok (Some (true, first', c1)) /\ state_ c1 = kExpectHeaders /\
    parseRequest (buffer_of (Buffer.content first' ++ drop 26 demo)) 7 c1 = Ok (Some (ok, second', c2)) /\
    parseRequest (buffer_of demo) 7 HttpContext = Ok (Some (ok, whole', c2)).
Proof.
  assert (exists first' c1, parseRequest (buffer_of (take 26 demo)) 7 HttpContext = Ok (Some (true, first', c1)) /\
    state_ c1 = kExpectHeaders /\ Buffer.content first' = bs "Host:") as (first' & c1 & H1 & Hst & Hnil).
  { vm_compute. do 2 eexists. split; [reflexivity|]. split; reflexivity. }
  destruct (http_parse_incremental 7 (buffer_of (take 26 demo)) (buffer_of (Buffer.content first' ++ drop 26 demo))
    (buffer_of demo) (drop 26 demo) HttpContext true first' c1) as (ok & second' & whole' & c2 & H2 & H3 & _).
  - unfold Buffer.wf; vm_compute; repeat split; discriminate.
  - rewrite Hnil. unfold Buffer.wf; vm_compute; repeat split; discriminate.
  - unfold Buffer.wf; vm_compute; repeat split; discriminate.
  - left; split; reflexivity.
  - exact H1.
  - reflexivity.
  - unfold gotAll. rewrite Hst. reflexivity.
  - rewrite Hnil. vm_compute. reflexivity.
  - vm_compute. reflexivity.
  - exists first', c1, ok, second', whole', c2. repeat split; assumption.
Defined.

Lemma http_request_roundtrip_witness :
  exists buf', parseRequest (buffer_of demo) 7 HttpContext =
    Ok (Some (true, buf', mk kGotAll (HttpRequest.mk HttpRequest.kGet HttpRequest.kHttp11 (bs "/x") (bs "?q=1") 7
      (<[bs "Connection" := bs "close"]> (<[bs "Host" := bs "a b"]> ∅))))).
Proof.
  destruct (http_request_roundtrip (buffer_of demo) 7 (bs "GET") (bs "/x") (bs "?q=1") "1"%byte HttpRequest.kHttp11
    demo_headers []) as (buf' & Hr & _).
  - unfold Buffer.wf; vm_compute; repeat split; discriminate.
  - vm_compute. reflexivity.
  - discriminate.
  - unfold target_ok, no_blank. repeat split; try (intros Hin; const_notin Hin). right. exists (bs "q=1"). reflexivity.
  - reflexivity.
  - repeat constructor; unfold header_ok; simpl; try (intros Hin; const_notin Hin); by intros c [= <-].
  - exists buf'. exact Hr.
Defined.
End HttpParse.

(** ** What the server sends *)

Module HttpReply.
Import HttpResponse.

(** The response as bytes. *)
Definition status_line (r : t) : bytes := bs "HTTP/1.1 " ++ dec (statusCode_ r) ++ bs " " ++ statusMessage_ r.

Definition connection_fields (r : t) : list (bytes * bytes) :=
  if closeConnection_ r then [(bs "Connection", bs "close")]
  else [(bs "Content-Length", dec (lenZ (body_ r))); (bs "Connection", bs "Keep-Alive")].

Definition fields (r : t) : list (bytes * bytes) := connection_fields r ++ headers_ r.

Definition render (r : t) : bytes :=
  status_line r ++ Buffer.kCRLF ++ concat (map HttpParse.print_header (fields r)) ++ Buffer.kCRLF ++ body_ r.

(** [m] appends [s]. *)
Definition writes (m : Buffer.t -> res Buffer.t) (s : bytes) : Prop :=
  forall b, Buffer.wf b -> lenZ (Buffer.buffer_ b) + lenZ s <= vector_max_size ->
  exists b', m b = Ok b' /\ Buffer.wf b' /\ Buffer.content b' = Buffer.content b ++ s /\
    lenZ (Buffer.buffer_ b') <= lenZ (Buffer.buffer_ b) + lenZ s.

Lemma writes_append s : lenZ s < 2 ^ 31 -> writes (append s) s.
Proof.
  intros Hs b Hb Hmax. unfold append, Buffer.append_piece, StringPiece.of_string. pose proof (lenZ_nonneg s).
  assert (s_in 32 (lenZ s) /\ u_in 64 (lenZ s)) as [H32 H64] by (unfold s_in, u_in; simpl; lia).
  simpl. rewrite (swrap_small 32), (uwrap_small 64) by (done || lia).
  destruct (Buffer.append_spec s b Hb Hmax) as (b' & ? & ? & ? & _ & ?). by exists b'.
Qed.

Lemma writes_seq m1 m2 s1 s2 : writes m1 s1 -> writes m2 s2 -> writes (fun b => b ← m1 b; m2 b) (s1 ++ s2).
Proof.
  intros H1 H2 b Hb. rewrite lenZ_app. intros Hmax. pose proof (lenZ_nonneg s2).
  destruct (H1 b Hb ltac:(lia)) as (b1 & -> & Hb1 & Hc1 & Hl1). simpl.
  destruct (H2 b1 Hb1 ltac:(lia)) as (b2 & -> & Hb2 & Hc2 & Hl2).
  exists b2. rewrite Hc2, Hc1, <- app_assoc. split_and!; (done || lia).
Qed.

Lemma writes_eq m s s' : writes m s -> s = s' -> writes m s'.
Proof. by intros ? <-. Qed.

(** Fields short enough for [StringPiece]. *)
Definition field_small (h : bytes * bytes) : Prop := lenZ h.1 < 2 ^ 31 /\ lenZ h.2 < 2 ^ 31.
Definition small (r : t) : Prop :=
  s_in 32 (statusCode_ r) /\ lenZ (statusMessage_ r) < 2 ^ 31 /\ lenZ (body_ r) < 2 ^ 31 /\ Forall field_small (headers_ r).

#[export] Hint Resolve writes_append writes_seq : core.

Lemma writes_headers l :
  Forall field_small l -> writes (append_headers l) (concat (map HttpParse.print_header l)).
Proof.
  induction l as [|[k v] l IH]; intros Hl.
  - intros b Hb _. exists b. simpl. rewrite app_nil_r. split_and!; first [done | (unfold lenZ; simpl; lia)].
  - apply list.Forall_cons in Hl as [[Hk Hv] Hl]. simpl in Hk, Hv.
    apply (writes_eq _ (k ++ bs ": " ++ v ++ [CR; LF] ++ concat (map HttpParse.print_header l))).
    + repeat first [assumption | apply writes_append; first [assumption | reflexivity] | apply writes_seq]; auto.
    + unfold HttpParse.print_header. cbn [map concat fst snd]. by rewrite <- !app_assoc.
Qed.

Lemma status_fits z : s_in 32 z -> (snprintf 32 (bs "HTTP/1.1 " ++ dec z ++ bs " ")).1 = bs "HTTP/1.1 " ++ dec z ++ bs " ".
Proof.
  intros Hz. pose proof (dec_length_int z Hz). apply snprintf_fits. rewrite !length_app.
  change (length (bs "HTTP/1.1 ")) with 9%nat. change (length (bs " ")) with 1%nat. lia.
Qed.

Lemma length_fits z :
  0 <= z < 2 ^ 31 ->
  (snprintf 32 (bs "Content-Length: " ++ dec z ++ [CR; LF])).1 = bs "Content-Length: " ++ dec z ++ [CR; LF].
Proof.
  intros Hz. pose proof (dec_length_int z) as Hd. unfold s_in in Hd. simpl in Hd. apply snprintf_fits. rewrite !length_app.
  change (length (bs "Content-Length: ")) with 16%nat. simpl. lia.
Qed.

Lemma writes_response r : small r -> writes (appendToBuffer r) (render r).
Proof.
  intros (Hc & Hm & Hb & Hh). unfold appendToBuffer. rewrite status_fits by done. pose proof (dec_length_int _ Hc) as Hdl.
  pose proof (length_fits (lenZ (body_ r)) (conj (lenZ_nonneg _) Hb)) as Hf.
  assert (lenZ (bs "HTTP/1.1 " ++ dec (statusCode_ r) ++ bs " ") < 2 ^ 31) as Hst.
  { rewrite !lenZ_app. unfold lenZ at 2. change (lenZ (bs "HTTP/1.1 ")) with 9. change (lenZ (bs " ")) with 1. lia. }
  pose proof (writes_headers _ Hh) as Hwh.
  unfold render, status_line, fields, connection_fields. destruct (closeConnection_ r).
  - eapply writes_eq.
    { repeat first [apply Hwh | apply writes_append; first [assumption | reflexivity] | apply writes_seq]. }
    rewrite map_app, concat_app. cbn [map concat]. unfold HttpParse.print_header at 1.
    change (bs "Connection: close" ++ [CR; LF]) with (bs "Connection" ++ bs ": " ++ bs "close" ++ [CR; LF]).
    cbn [fst snd]. by rewrite <- !app_assoc.
  - assert (lenZ (bs "Content-Length: " ++ dec (lenZ (body_ r)) ++ [CR; LF]) < 2 ^ 31) as Hcl.
    { rewrite <- Hf. unfold snprintf, lenZ. cbn [fst]. rewrite length_take. lia. }
    rewrite Hf. eapply writes_eq.
    { repeat first [apply Hwh | apply writes_append; first [assumption | reflexivity] | apply writes_seq]. }
    rewrite map_app, concat_app. cbn [map concat]. unfold HttpParse.print_header at 1 2.
    change (bs "Content-Length: ") with (bs "Content-Length" ++ bs ": ").
    change (bs "Connection: Keep-Alive" ++ [CR; LF]) with (bs "Connection" ++ bs ": " ++ bs "Keep-Alive" ++ [CR; LF]).
    cbn [fst snd]. by rewrite <- !app_assoc.
Qed.

(** Fields with different names, read one after the other. *)
Lemma fields_read (l : list (bytes * bytes)) (m : gmap bytes bytes) :
  NoDup l.*1 -> foldl (fun m h => <[h.1 := h.2]> m) m l = list_to_map l ∪ m.
Proof.
  revert m; induction l as [|[k v] l IH]; intros m Hl; simpl; [by rewrite map_empty_union|].
  apply list.NoDup_cons in Hl as [Hk Hl]. rewrite IH by done. rewrite <- insert_union_r by (by apply not_elem_of_list_to_map_1).
  by rewrite insert_union_l.
Qed.

(** No byte of a number is white space or a carriage return. *)
Lemma dec_header_ok name z :
  CR ∉ name -> ":"%byte ∉ name -> HttpParse.header_ok (name, dec z).
Proof.
  intros H1 H2. assert (forall c, c ∈ dec z -> isspace c = false /\ c <> CR) as Hd.
  { intros c [->|Hc]%dec_chars; [done|]. revert Hc. unfold is_digit. by destruct c. }
  split_and!; simpl; try done.
  - intros Hin. by apply Hd in Hin as [_ ?].
  - intros c Hc. destruct (dec z) as [|x l]; [done|]. injection Hc as ->. apply Hd. left.
  - intros c Hc. apply Hd. by apply list.last_Some_elem_of.
Qed.

Lemma connection_fields_ok r : Forall HttpParse.header_ok (connection_fields r).
Proof.
  assert (forall v, v = bs "close" \/ v = bs "Keep-Alive" -> HttpParse.header_ok (bs "Connection", v)) as Hc.
  { intros v [-> | ->]; split_and!; simpl; try (intros Hin; const_notin Hin); by intros c [= <-]. }
  unfold connection_fields. destruct (closeConnection_ r).
  - apply list.Forall_cons. auto.
  - apply list.Forall_cons. split; [|apply list.Forall_cons; auto].
    apply dec_header_ok; intros Hin; const_notin Hin.
Qed.

Lemma first_line_status r rest :
  CR ∉ statusMessage_ r -> first_line (status_line r ++ Buffer.kCRLF ++ rest) = Some (status_line r, rest).
Proof.
  intros Hm. apply first_line_intro. unfold status_line. rewrite !not_elem_of_app.
  split_and!; [intros Hin; const_notin Hin| |intros Hin; const_notin Hin|done].
  intros [Hc|Hc]%dec_chars; [done|]. by vm_compute in Hc.
Qed.

(** What a client does with a response beside reading the fields: the number and the text of
    a status line; the body, of the length that the fields say, or without one all that comes
    before the end of the connection. *)
Definition read_status (line : bytes) : option (Z * bytes) :=
  if decide (take 9 line = bs "HTTP/1.1 ") then
    i ← find_byte " "%byte (drop 9 line);
    Some (undec (take i (drop 9 line)), drop (S i) (drop 9 line))
  else None.

Definition read_body (fields : gmap bytes bytes) (input : bytes) : bytes * bytes :=
  match fields !! bs "Content-Length" with
  | Some value => let n := Z.to_nat (undec value) in (take n input, drop n input)
  | None => (input, [])
  end.

Lemma status_read r : read_status (status_line r) = Some (statusCode_ r, statusMessage_ r).
Proof.
  assert (status_line r = bs "HTTP/1.1 " ++ (dec (statusCode_ r) ++ " "%byte :: statusMessage_ r)) as -> by done.
  unfold read_status. rewrite take_app_length', drop_app_length' by done. rewrite decide_True by done.
  rewrite find_byte_first by (intros [Hc|Hc]%dec_chars; [done|by vm_compute in Hc]).
  cbn [mbind option_bind]. rewrite take_app_length, undec_dec, cons_middle, app_assoc.
  by rewrite drop_app_length' by (rewrite length_app; simpl; lia).
Qed.

(** C17: [appendToBuffer] appends the rendered response, and a client that reads it finds
    every part of it again, whatever comes after: the status code and the status text; the
    fields, [Connection] and those of [headers_], each with its value and no other; and the
    body.  On a connection that stays open [Content-Length] is the length of the body, so
    that exactly the body is read and what follows is left; a response that closes the
    connection has no such field, and its body is all that comes before the end. *)
Theorem http_response_framed r output :
  Buffer.wf output -> small r -> lenZ (Buffer.buffer_ output) + lenZ (render r) <= vector_max_size ->
  CR ∉ statusMessage_ r -> Forall HttpParse.header_ok (headers_ r) -> NoDup (headers_ r).*1 ->
  bs "Content-Length" ∉ (headers_ r).*1 -> bs "Connection" ∉ (headers_ r).*1 ->
  (exists output', appendToBuffer r output = Ok output' /\ Buffer.wf output' /\
     Buffer.content output' = Buffer.content output ++ render r) /\
  forall next rt req, HttpRequest.headers_ req = ∅ -> exists line rest message,
    first_line (render r ++ next) = Some (line, rest) /\
    read_status line = Some (statusCode_ r, statusMessage_ r) /\
    HttpParse.parses rt rest (HttpContext.mk HttpContext.kExpectHeaders req)
      (true, body_ r ++ next, HttpContext.mk HttpContext.kGotAll message) /\
    HttpRequest.headers_ message = list_to_map (fields r) /\
    (forall key value, (key, value) ∈ headers_ r -> HttpRequest.getHeader key message = value) /\
    HttpRequest.getHeader (bs "Connection") message = (if closeConnection_ r then bs "close" else bs "Keep-Alive") /\
    read_body (HttpRequest.headers_ message) (body_ r ++ next) =
      (if closeConnection_ r then (body_ r ++ next, []) else (body_ r, next)).
Proof.
  intros Hb Hs Hmax Hm Hh Hnd Hcl Hcn. split.
  { destruct (writes_response r Hs output Hb Hmax) as (o & ? & ? & ? & _). by exists o. }
  assert (NoDup (fields r).*1) as Hfields.
  { unfold fields, connection_fields. destruct (closeConnection_ r); simpl; rewrite !list.NoDup_cons; [done|].
    split_and!; [|done|done]. by rewrite not_elem_of_cons. }
  intros next rt req Hreq. exists (status_line r), (concat (map HttpParse.print_header (fields r)) ++ Buffer.kCRLF ++ body_ r ++ next).
  eexists. pose proof (fields_read (fields r) ∅ Hfields) as Hread. rewrite map_union_empty in Hread. split_and!.
  - unfold render. rewrite <- !app_assoc. by apply first_line_status.
  - apply status_read.
  - apply HttpParse.headers_parse. apply Forall_app. split; [apply connection_fields_ok|done].
  - simpl. by rewrite Hreq, Hread.
  - intros key value Hin. unfold HttpRequest.getHeader. simpl. rewrite Hreq, Hread.
    rewrite (elem_of_list_to_map_1 _ key value); [done|done|]. apply elem_of_app. by right.
  - unfold HttpRequest.getHeader. simpl. rewrite Hreq, Hread. unfold fields, connection_fields.
    destruct (closeConnection_ r); simpl; [by rewrite lookup_insert_eq|]. by rewrite lookup_insert_ne, lookup_insert_eq.
  - simpl. rewrite Hreq, Hread. unfold read_body, fields, connection_fields. destruct (closeConnection_ r); simpl.
    + rewrite lookup_insert_ne by done. by rewrite not_elem_of_list_to_map_1.
    + rewrite lookup_insert_eq, undec_dec. unfold lenZ. by rewrite Nat2Z.id, take_app_length, drop_app_length.
Qed.

Definition demo_response : t :=
  addHeader (bs "Server") (bs "Muduo") (setContentType (bs "text/html") (setBody (bs "<p>")
    (setStatusMessage (bs "OK") (setStatusCode k200Ok (HttpResponse false))))).

Lemma http_response_framed_witness :
  exists output' message, appendToBuffer demo_response (HttpParse.buffer_of []) = Ok output' /\
    Buffer.content output' = bs "HTTP/1.1 200 OK" ++ [CR; LF] ++ bs "Content-Length: 3" ++ [CR; LF] ++
      bs "Connection: Keep-Alive" ++ [CR; LF] ++ bs "Content-Type: text/html" ++ [CR; LF] ++
      bs "Server: Muduo" ++ [CR; LF] ++ [CR; LF] ++ bs "<p>" /\
    HttpRequest.getHeader (bs "Server") message = bs "Muduo" /\
    read_body (HttpRequest.headers_ message) (bs "<p>" ++ bs "next") = (bs "<p>", bs "next").
Proof.
  destruct (http_response_framed demo_response (HttpParse.buffer_of [])) as [(o & Ho & _ & Hc) Hread].
  - unfold Buffer.wf. vm_compute. repeat split; discriminate.
  - unfold small. split; [unfold s_in; vm_compute; split; [discriminate|reflexivity]|]. split; [reflexivity|]. split; [reflexivity|].
    repeat constructor.
  - vm_compute. discriminate.
  - intros Hin. const_notin Hin.
  - apply list.Forall_cons. split; [|apply list.Forall_cons; split; [|constructor]].
    all: split_and!; simpl; try (intros Hin; const_notin Hin); by intros c [= <-].
  - apply (bool_decide_unpack _). vm_compute. exact I.
  - intros Hin. const_notin Hin.
  - intros Hin. const_notin Hin.
  - destruct (Hread (bs "next") 0 HttpRequest.HttpRequest eq_refl) as (line & rest & message & _ & _ & _ & _ & Hget & _ & Hbody).
    exists o, message. split; [exact Ho|]. split; [rewrite Hc; reflexivity|]. split; [|exact Hbody].
    apply Hget. vm_compute. right. left.
Defined.
End HttpReply.

(** ** One message of one connection *)

Module HttpService.
Import HttpServer.

(** The reply to a complete request. *)
Definition reply_to (r : HttpResponse.t) (out : Buffer.t) : list effect :=
  SendBuffer out :: (if HttpResponse.closeConnection_ r then [Shutdown] else []).

Definition bad_request : list effect := [Send (bs "HTTP/1.1 400 Bad Request" ++ [CR; LF; CR; LF]); Shutdown].

Lemma onRequest_spec cb req r :
  cb req (HttpResponse.HttpResponse (close_requested req)) = Ok r -> HttpReply.small r ->
  lenZ (HttpReply.render r) <= vector_max_size - 1032 ->
  exists out, onRequest cb req = Ok (reply_to r out) /\ Buffer.content out = HttpReply.render r.
Proof.
  intros Hcb Hs Hl. unfold onRequest. rewrite Hcb. unfold mbind, res_bind.
  destruct (Buffer.Buffer_spec Buffer.kInitialSize) as (b & -> & Hb & Hc & _ & _ & Hlen);
    [unfold Buffer.kInitialSize, vector_max_size; lia..|].
  simpl. destruct (HttpReply.writes_response r Hs b Hb) as (o & -> & _ & Ho & _).
  { rewrite Hlen. unfold Buffer.kInitialSize. lia. }
  exists o. rewrite Ho, Hc. done.
Qed.

Lemma peek_logged log buf s :
  peek_cstr buf = Ok s -> (if log : bool then _ ← peek_cstr buf; mret tt else mret tt) = Ok tt.
Proof. intros Hs. destruct log; [by rewrite Hs|done]. Qed.

(** C18: One message. When the parser ends with an error the server answers 400 and
    half-closes; when it waits for more nothing is sent and it can go on; when the request
    is complete the callback's response, rendered, is sent, the connection is half-closed
    if the response says so, the context starts afresh, and what follows the request stays
    in the buffer. *)
Theorem http_server_message cb log disk buf rt ctx s :
  Buffer.wf buf -> HttpParse.valid ctx -> peek_cstr buf = Ok s -> contains s (bs "shidu") = false ->
  exists ok buf' ctx', Buffer.wf buf' /\
    HttpParse.parses rt (Buffer.content buf) ctx (ok, Buffer.content buf', ctx') /\
    (ok = false -> onMessage cb log disk buf rt ctx = Ok (Some (bad_request, buf', ctx'))) /\
    (ok = true -> HttpContext.gotAll ctx' = false ->
       HttpParse.valid ctx' /\ onMessage cb log disk buf rt ctx = Ok (Some ([], buf', ctx'))) /\
    (HttpContext.gotAll ctx' = true ->
       forall r, cb (HttpContext.request_ ctx') (HttpResponse.HttpResponse (close_requested (HttpContext.request_ ctx'))) = Ok r ->
       HttpReply.small r -> lenZ (HttpReply.render r) <= vector_max_size - 1032 ->
       exists out, Buffer.content out = HttpReply.render r /\
         onMessage cb log disk buf rt ctx = Ok (Some (reply_to r out, buf', HttpContext.HttpContext))).
Proof.
  intros Hb Hv Hs Hc. destruct (HttpParse.parseRequest_parses buf rt ctx Hb Hv)
    as (ok & buf' & ctx' & Hr & Hb' & Hp & _ & Hend).
  exists ok, buf', ctx'. unfold onMessage. rewrite (peek_logged _ _ _ Hs), Hs. simpl. rewrite Hc, Hr. simpl.
  split_and!; [done|done| | |].
  - intros ->. destruct Hend as [[? _]|[_ Hst]]; [done|]. unfold HttpContext.gotAll. by rewrite Hst.
  - intros -> Hg. rewrite Hg. destruct Hend as [[_ [?|Hst]]|[? _]]; [done| |done].
    unfold HttpContext.gotAll in Hg. by rewrite Hst in Hg.
  - intros Hg r Hcb Hsm Hl. rewrite Hg. destruct (onRequest_spec cb _ r Hcb Hsm Hl) as (out & -> & Hout). simpl.
    exists out. split; [done|]. destruct ok; [done|]. destruct Hend as [[? _]|[_ Hst]]; [done|].
    unfold HttpContext.gotAll in Hg. by rewrite Hst in Hg.
Qed.

(** The input buffer of a new connection after these bytes have been received. *)
Definition received (d : bytes) : Buffer.t :=
  Buffer.mk (replicate 8 Byte.x00 ++ d ++ replicate (1024 - length d) Byte.x00) 8 (8 + lenZ d).

Lemma http_server_message_witness :
  exists buf' out, Buffer.content out = HttpReply.render HttpReply.demo_response /\
    onMessage (fun _ _ => Ok HttpReply.demo_response) true true (received HttpParse.demo) 7 HttpContext.HttpContext =
      Ok (Some ([SendBuffer out], buf', HttpContext.HttpContext)).
Proof.
  destruct (http_server_message (fun _ _ => Ok HttpReply.demo_response) true true (received HttpParse.demo) 7
    HttpContext.HttpContext HttpParse.demo) as (ok & buf' & ctx' & Hwf & Hp & _ & _ & Hall).
  - unfold Buffer.wf. vm_compute. repeat split; discriminate.
  - left. split; reflexivity.
  - vm_compute. reflexivity.
  - vm_compute. reflexivity.
  - assert (exists c, HttpParse.parses 7 (Buffer.content (received HttpParse.demo)) HttpContext.HttpContext (true, [], c) /\
      HttpContext.gotAll c = true) as (c & Hc & Hg).
    { eexists. split; [exists 10%nat; vm_compute; reflexivity|reflexivity]. }
    pose proof (HttpParse.parses_fun _ _ _ _ _ Hp Hc) as Heq. injection Heq as -> _ ->.
    destruct (Hall Hg HttpReply.demo_response) as (out & Hout & Hrun).
    + reflexivity.
    + unfold HttpReply.small. split; [unfold s_in; vm_compute; split; [discriminate|reflexivity]|].
      split; [reflexivity|]. split; [reflexivity|]. repeat constructor.
    + vm_compute. discriminate.
    + exists buf', out. split; [exact Hout|exact Hrun].
Defined.

(** A request line is read by a parser that has its method already. *)
Lemma method_set_twice rt more ctx line rest d :
  Buffer.wf more -> HttpContext.state_ ctx = HttpContext.kExpectRequestLine ->
  HttpRequest.method_ (HttpContext.request_ ctx) <> HttpRequest.kInvalid ->
  first_line d = Some (line, rest) -> d `prefix_of` Buffer.content more -> SP ∈ line ->
  HttpContext.parseRequest more rt ctx = Fail AssertionFailed.
Proof.
  intros Hb Hst Hm Hfl [e Hmore] Hsp. unfold HttpContext.parseRequest. set (fuel := Z.to_nat _).
  pose proof (HttpParse.parse_loop_shows (S fuel) rt more ctx Hb) as Hshow. revert Hshow. rewrite Hmore.
  apply (first_line_app _ e) in Hfl.
  assert (HttpContext.processRequestLine line (HttpContext.request_ ctx) = Fail AssertionFailed) as Hpr.
  { unfold HttpContext.processRequestLine. destruct (find_byte SP line) eqn:Hf; [|by apply find_byte_None in Hf].
    unfold HttpRequest.setMethod. rewrite (bool_decide_eq_false_2 (HttpRequest.method_ _ = _)) by done. reflexivity. }
  cbn [HttpParse.ploop]. unfold HttpParse.pstep. rewrite Hst, Hfl, Hpr. unfold mbind at 1 2, res_bind at 1 2.
  by destruct (HttpContext.parse_loop _ _ _ _) as [[[[? ?] ?]|]|]; [| |intros ->].
Qed.

Definition crlf2 : bytes := [CR; LF; CR; LF].

(** What an [onMessage] ended with, for concrete runs: the effects without the buffers'
    layout, the unread bytes and the parser's state. *)
Definition view (x : res (option (list effect * Buffer.t * HttpContext.t))) :
    res (option (list (option bytes) * bytes * HttpContext.HttpRequestParseState)) :=
  option_map (fun '(l, b, c) => (map (fun e => match e with
    | Send m => Some m | SendBuffer o => Some (Buffer.content o) | _ => None end) l,
    Buffer.content b, HttpContext.state_ c)) <$> x.

(** Where the server fails. A request line with a bad version is answered 400 and left
    in the buffer with the method set, so any further byte fails the assertion of
    [setMethod]. A full buffer without a zero byte makes [string s = buf->peek()] read past
    its end. Two requests in one message get one answer, the second stays unread. A
    message that contains [shidu] is stored, never removed and never answered. *)
Theorem http_server_faults cb rt :
  (exists buf ctx, onMessage cb false true (received (bs "GET / HTTP/2.0" ++ crlf2)) rt HttpContext.HttpContext =
      Ok (Some (bad_request, buf, ctx)) /\
    forall log disk more s, Buffer.wf more -> Buffer.content buf `prefix_of` Buffer.content more ->
      peek_cstr more = Ok s -> contains s (bs "shidu") = false ->
      onMessage cb log disk more rt ctx = Fail AssertionFailed) /\
  (forall log disk buf ctx, Buffer.wf buf -> Buffer.writerIndex_ buf = lenZ (Buffer.buffer_ buf) ->
      Byte.x00 ∉ Buffer.content buf -> onMessage cb log disk buf rt ctx = Fail OutOfBounds) /\
  (let get := bs "GET / HTTP/1.1" ++ crlf2 in
   view (onMessage (fun _ r => Ok r) false true (received (get ++ get)) rt HttpContext.HttpContext) =
     Ok (Some ([Some (HttpReply.render (HttpResponse.HttpResponse false))], get, HttpContext.kExpectRequestLine))) /\
  (forall log ctx buf s, peek_cstr buf = Ok s -> contains s (bs "shidu") = true ->
     onMessage cb log true buf rt ctx = Ok (Some ([WriteFile (bs "/home/wushuohan/webRoot/tianqi.txt") s], buf, ctx))).
Proof.
  split_and!.
  - exists (received (bs "GET / HTTP/2.0" ++ crlf2)). eexists. split; [vm_compute; reflexivity|].
    intros log disk more s Hb Hmore Hs Hc. unfold onMessage. rewrite (peek_logged _ _ _ Hs), Hs. simpl. rewrite Hc.
    rewrite (method_set_twice rt more _ (bs "GET / HTTP/2.0") [CR; LF] (bs "GET / HTTP/2.0" ++ crlf2)); try done.
    change (SP ∈ bs "GET" ++ SP :: bs "/ HTTP/2.0"). apply elem_of_app. right. left.
  - intros log disk buf ctx Hb Hend H0. assert (peek_cstr buf = Fail OutOfBounds) as Hp.
    { unfold peek_cstr. assert (find_byte Byte.x00 (drop (Z.to_nat (Buffer.peek buf)) (Buffer.buffer_ buf)) = None) as ->; [|done].
      apply find_byte_None. intros Hin. apply H0. unfold Buffer.content, slice. rewrite take_ge; [done|].
      unfold Buffer.wf, lenZ in *. rewrite length_drop. lia. }
    unfold onMessage. rewrite Hp. by destruct log.
  - vm_compute. reflexivity.
  - intros log ctx buf s Hs Hc. unfold onMessage. by rewrite (peek_logged _ _ _ Hs), Hs; simpl; rewrite Hc.
Qed.
End HttpService.
