(* ===== verification/FastCgi.v ===== *)
(** The FastCGI client ([muduo/net/http/fastcgi/fastcgi.h], [fcgi.h], [fcgi.cpp]): the
    records that carry a request to PHP, and what is read back.

    Arrays have the sizes that the source gives them, and what is written past their end is a
    fault.  The kernel's answers are input: how much a [write] takes, and the segments in
    which the bytes of the peer arrive.  [Module FcgiWire] is a reference reader of the
    protocol, for the peer's side. *)
From coqutil Require Import Byte.
From S2P Require Import Prelude State Endian.
Open Scope Z_scope.

Module FastCgi.

Definition FCGI_HEADER_LEN : Z := 8.
Definition FCGI_VERSION_1 : Z := 1.
Definition FCGI_BEGIN_REQUEST : Z := 1.
Definition FCGI_END_REQUEST : Z := 3.
Definition FCGI_PARAMS : Z := 4.
Definition FCGI_STDOUT : Z := 6.
Definition FCGI_STDERR : Z := 7.
Definition FCGI_KEEP_CONN : Z := 1.
Definition FCGI_RESPONDER : Z := 1.
Definition PARAMS_BUFF_LEN : Z := 2048.
Definition CONTENT_BUFF_LEN : Z := 2048.

(** [static_cast<unsigned char>] *)
Abbreviation uchar := byte.of_Z.

(** A structure of bytes is its memory image. *)
Record FCGI_Header := mkHeader {
  version : byte; type : byte; requestIdB1 : byte; requestIdB0 : byte;
  contentLengthB1 : byte; contentLengthB0 : byte; paddingLength : byte; reserved : byte
}.

Definition header_bytes (h : FCGI_Header) : bytes :=
  [version h; type h; requestIdB1 h; requestIdB0 h; contentLengthB1 h; contentLengthB0 h; paddingLength h; reserved h].

Record FCGI_BeginRequestBody := mkBegin { roleB1 : byte; roleB0 : byte; flags : byte; reserved5 : bytes }.

Definition begin_bytes (b : FCGI_BeginRequestBody) : bytes := roleB1 b :: roleB0 b :: flags b :: reserved5 b.

Definition makeHeader (type requestId contentLength paddingLength : Z) : FCGI_Header :=
  mkHeader (uchar FCGI_VERSION_1) (uchar type)
    (uchar (Z.land (Z.shiftr requestId 8) 0xff)) (uchar (Z.land requestId 0xff))
    (uchar (Z.land (Z.shiftr contentLength 8) 0xff)) (uchar (Z.land contentLength 0xff))
    (uchar paddingLength) (uchar 0).

Definition makeBeginRequestBody (role keepConnection : Z) : FCGI_BeginRequestBody :=
  mkBegin (uchar (Z.land (Z.shiftr role 8) 0xff)) (uchar (Z.land role 0xff))
    (uchar (if bool_decide (keepConnection <> 0) then FCGI_KEEP_CONN else 0)) (replicate 5 Byte.x00).

(** ** The body of a PARAMS record *)

(** The buffer of the body and [bodyBuffPtr] as an index: [*bodyBuffPtr++ = c]. *)
Record body := mk_body { buff : bytes; ptr : Z }.

Definition put_uchar (c : byte) : ST body unit :=
  b ← get;
  _ ← lift (check OutOfBounds (bool_decide (0 <= ptr b < lenZ (buff b))));
  put (mk_body (splice (ptr b) [c] (buff b)) (ptr b + 1)).

Definition put_length (len : Z) : ST body unit :=
  if bool_decide (len < 128) then put_uchar (uchar len)
  else
    _ ← put_uchar (uchar (Z.lor (Z.shiftr len 24) 0x80));
    _ ← put_uchar (uchar (Z.shiftr len 16));
    _ ← put_uchar (uchar (Z.shiftr len 8));
    put_uchar (uchar len).

(** [name] and [value] are the bytes before the terminating zero.  Gives [*bodyLen]. *)
Definition makeNameValueBody (name : bytes) (nameLen : Z) (value : bytes) (valueLen : Z) : ST body Z :=
  startBodyBuffPtr ← gets ptr;
  _ ← put_length nameLen;
  _ ← put_length valueLen;
  _ ← for_each put_uchar name;
  _ ← for_each put_uchar value;
  bodyBuffPtr ← gets ptr;
  mret (bodyBuffPtr - startBodyBuffPtr).

(** ** The requests *)

(** What arrives from the peer: each segment is what is there for the next reads, [None] an
    error of [read].  [wire] is what was written. *)
Record FastCgi_t := mk {
  sockfd_ : Z;
  requestId_ : Z;
  flag_ : Z;
  wire : bytes;
  segments : list (option bytes)
}.

Definition FastCgi_init (segments : list (option bytes)) : FastCgi_t := mk 0 0 0 [] segments.
Definition setRequestId (requestId : Z) (c : FastCgi_t) : FastCgi_t := mk (sockfd_ c) requestId (flag_ c) (wire c) (segments c).

(** The descriptor that [socket] returns and the result of [connect]. *)
Definition startConnect (sockfd rc : Z) : ST FastCgi_t unit :=
  _ ← sassert (bool_decide (sockfd > 0));
  _ ← sassert (bool_decide (rc >= 0));
  modify (fun c => mk sockfd (requestId_ c) (flag_ c) (wire c) (segments c)).

(** [write] takes the first [rc] bytes, or fails with [-1]. *)
Definition write (rc : Z) (data : bytes) : ST FastCgi_t Z :=
  _ ← modify (fun c => mk (sockfd_ c) (requestId_ c) (flag_ c) (wire c ++ take (Z.to_nat rc) data) (segments c));
  mret rc.

Definition sendStartRequestRecord (rc : Z) : ST FastCgi_t Z :=
  c ← get;
  let beginRecord := header_bytes (makeHeader FCGI_BEGIN_REQUEST (requestId_ c) 8 0) ++
    begin_bytes (makeBeginRequestBody FCGI_RESPONDER 0) in
  rc ← write rc beginRecord;
  _ ← sassert (bool_decide (rc = lenZ beginRecord));
  mret 1.

Definition sendParams (rc : Z) (name value : bytes) : ST FastCgi_t Z :=
  c ← get;
  '(bodyLen, b) ← lift (makeNameValueBody name (swrap 32 (lenZ name)) value (swrap 32 (lenZ value))
     (mk_body (replicate (Z.to_nat PARAMS_BUFF_LEN) Byte.x00) 0));
  let nameValueHeader := makeHeader FCGI_PARAMS (requestId_ c) bodyLen 0 in
  let nameValueRecord := header_bytes nameValueHeader ++ take (Z.to_nat bodyLen) (buff b) in
  rc ← write rc nameValueRecord;
  _ ← sassert (bool_decide (rc = bodyLen + FCGI_HEADER_LEN));
  mret 1.

Definition sendEndRequestRecord (rc : Z) : ST FastCgi_t Z :=
  c ← get;
  rc ← write rc (header_bytes (makeHeader FCGI_PARAMS (requestId_ c) 0 0));
  _ ← sassert (bool_decide (rc = FCGI_HEADER_LEN));
  mret 1.

(** ** The answer *)

(** [read] of at most [n] bytes: what it returns, and the bytes it stores. *)
Definition read (n : Z) : ST FastCgi_t (Z * bytes) :=
  c ← get;
  match segments c with
  | [] => mret (0, [])
  | None :: l => _ ← put (mk (sockfd_ c) (requestId_ c) (flag_ c) (wire c) l); mret (-1, [])
  | Some d :: l =>
      let got := take (Z.to_nat n) d in
      let rest := drop (Z.to_nat n) d in
      _ ← put (mk (sockfd_ c) (requestId_ c) (flag_ c) (wire c) (if bool_decide (rest = []) then l else Some rest :: l));
      mret (lenZ got, got)
  end.

(** [read] into an array. *)
Definition read_into (array : bytes) (n : Z) : ST FastCgi_t (Z * bytes) :=
  '(ret, d) ← read n;
  a ← lift (copy_to 0 d array);
  mret (ret, a).

Definition byte_at (h : bytes) (i : nat) : Z := byte.unsigned (nth i h Byte.x00).

(** The body of a STDOUT or STDERR record, and its padding. *)
Definition read_content (responderHeader : bytes) : ST FastCgi_t bytes :=
  let contentLen := Z.shiftl (byte_at responderHeader 4) 8 + byte_at responderHeader 5 in
  '(ret, content) ← read_into (replicate (Z.to_nat CONTENT_BUFF_LEN) Byte.x00) contentLen;
  _ ← sassert (bool_decide (ret = contentLen));
  let paddingLength := byte_at responderHeader 6 in
  _ ← (if bool_decide (paddingLength > 0) then
         '(ret, _) ← read_into (replicate 8 Byte.x00) paddingLength;
         sassert (bool_decide (ret = paddingLength))
       else mret tt);
  mret content.

Fixpoint read_records (fuel : nat) (responderHeader content : bytes) : ST FastCgi_t bytes :=
  match fuel with
  | O => fail NoEnd
  | S fuel =>
      '(ret, responderHeader) ← read_into responderHeader FCGI_HEADER_LEN;
      if bool_decide (ret > 0) then
        let type := byte_at responderHeader 1 in
        if bool_decide (type = FCGI_STDOUT) then
          content ← read_content responderHeader; read_records fuel responderHeader content
        else if bool_decide (type = FCGI_STDERR) then
          content ← read_content responderHeader; read_records fuel responderHeader content
        else if bool_decide (type = FCGI_END_REQUEST) then
          '(ret, _) ← read_into (replicate 8 Byte.x00) 8;
          _ ← sassert (bool_decide (ret = 8));
          read_records fuel responderHeader content
        else read_records fuel responderHeader content
      else mret content
  end.

(** Each turn of the loop takes a byte. *)
Definition arriving (l : list (option bytes)) : nat := length (concat (map (default []) l)).

(** [fresh_header] and [fresh_content] are what the memory of the arrays holds at first. *)
Definition readFromPhp (fresh_header fresh_content : bytes) : ST FastCgi_t bytes :=
  _ ← read_into (replicate (Z.to_nat 100000) Byte.x00) 1000;
  c ← get;
  read_records (S (arriving (segments c))) fresh_header fresh_content.

(** ** The page in the answer *)

Inductive html_state := S_NOPE | S_CR | S_CRLF | S_CRLFCR | S_CRLFCRLF.

#[global] Instance html_state_eq_dec : EqDecision html_state.
Proof. solve_decision. Defined.

Definition html_next (state : html_state) (c : byte) : html_state :=
  match state with
  | S_NOPE => if bool_decide (c = CR) then S_CR else S_NOPE
  | S_CR => if bool_decide (c = LF) then S_CRLF else S_NOPE
  | S_CRLF => if bool_decide (c = CR) then S_CRLFCR else S_NOPE
  | S_CRLFCR => if bool_decide (c = LF) then S_CRLFCRLF else S_NOPE
  | S_CRLFCRLF => S_CRLFCRLF
  end.

(** The index from [p] of the result; [content] is what is before the terminating zero. *)
Fixpoint find_html_loop (state : html_state) (content : bytes) (i : nat) : nat :=
  match content with
  | [] => 0%nat
  | c :: content =>
      if bool_decide (state = S_CRLFCRLF) then i else find_html_loop (html_next state c) content (S i)
  end.

Definition findStartHtml (p : bytes) : nat := find_html_loop S_NOPE p 0.

(** Gives what is printed. *)
Definition getHtmlFromContent (content : bytes) : ST FastCgi_t bytes :=
  c ← get;
  if bool_decide (flag_ c = 1) then mret content
  else
    _ ← put (mk (sockfd_ c) (requestId_ c) 1 (wire c) (segments c));
    mret (drop (findStartHtml content) content).
End FastCgi.

(** ** The peer's side *)

(** A reader of the protocol: the records of a stream, and the pairs of the parameters. *)
Module FcgiWire.

Record record := mk_record { r_type : Z; r_id : Z; r_content : bytes }.

#[global] Instance record_eq_dec : EqDecision record.
Proof. solve_decision. Defined.

Definition big (l : bytes) : Z := fold_left (fun n b => n * 256 + byte.unsigned b) l 0.

Fixpoint records_loop (fuel : nat) (w : bytes) : option (list record) :=
  match fuel, w with
  | _, [] => Some []
  | S fuel, v :: ty :: i1 :: i0 :: c1 :: c0 :: p :: _ :: w =>
      let n := Z.to_nat (big [c1; c0]) in
      if bool_decide (byte.unsigned v = 1) && bool_decide (n <= length w)%nat then
        l ← records_loop fuel (drop (Z.to_nat (byte.unsigned p)) (drop n w));
        Some (mk_record (byte.unsigned ty) (big [i1; i0]) (take n w) :: l)
      else None
  | _, _ => None
  end.
Definition records (w : bytes) : option (list record) := records_loop (length w) w.

(** A length is one byte, or four with the high bit set. *)
Definition read_length (s : bytes) : option (Z * bytes) :=
  match s with
  | b :: s1 =>
      if bool_decide (byte.unsigned b < 128) then Some (byte.unsigned b, s1)
      else match s1 with
           | b2 :: b1 :: b0 :: s4 => Some ((byte.unsigned b - 128) * 2 ^ 24 + big [b2; b1; b0], s4)
           | _ => None
           end
  | [] => None
  end.

Fixpoint pairs_loop (fuel : nat) (s : bytes) : option (list (bytes * bytes)) :=
  match fuel, s with
  | _, [] => Some []
  | S fuel, _ =>
      '(n, s) ← read_length s;
      '(v, s) ← read_length s;
      if bool_decide (n + v <= lenZ s) then
        l ← pairs_loop fuel (drop (Z.to_nat (n + v)) s);
        Some ((take (Z.to_nat n) s, take (Z.to_nat v) (drop (Z.to_nat n) s)) :: l)
      else None
  | _, _ => None
  end.
Definition pairs (s : bytes) : option (list (bytes * bytes)) := pairs_loop (length s) s.

(** The contents of the PARAMS records of request [id], up to an empty one that ends the
    stream. *)
Fixpoint params (id : Z) (l : list record) : option bytes :=
  match l with
  | mk_record ty i s :: l =>
      if bool_decide (ty = 4) && bool_decide (i = id) then
        if bool_decide (s = []) then (if bool_decide (l = []) then Some [] else None)
        else app s <$> params id l
      else None
  | [] => None
  end.

(** A request: its number, the role, whether the connection is kept, the parameters. *)
Definition request (w : bytes) : option (Z * Z * bool * list (bytes * bytes)) :=
  l ← records w;
  match l with
  | mk_record 1 id [r1; r0; f; _; _; _; _; _] :: l =>
      s ← params id l;
      ps ← pairs s;
      Some (id, big [r1; r0], Z.testbit (byte.unsigned f) 0, ps)
  | _ => None
  end.
End FcgiWire.

Module FastCgiProofs.
Import FastCgi.

(** ** The body of a PARAMS record *)

Definition length_bytes (len : Z) : bytes :=
  if bool_decide (len < 128) then [uchar len]
  else [uchar (Z.lor (Z.shiftr len 24) 0x80); uchar (Z.shiftr len 16); uchar (Z.shiftr len 8); uchar len].

Definition pair_bytes (p : bytes * bytes) : bytes :=
  length_bytes (lenZ p.1) ++ length_bytes (lenZ p.2) ++ p.1 ++ p.2.

Lemma put_uchar_run c l r : put_uchar c (mk_body (l ++ r) (lenZ l)) =
  match r with [] => Fail OutOfBounds | _ :: r => Ok (tt, mk_body ((l ++ [c]) ++ r) (lenZ (l ++ [c]))) end.
Proof.
  unfold put_uchar, get, lift, put, mbind, st_bind. simpl. unfold lenZ. rewrite length_app. destruct r as [|x r].
  - rewrite bool_decide_eq_false_2; [done|]. simpl. lia.
  - rewrite bool_decide_eq_true_2 by (simpl; lia). simpl. rewrite length_app. unfold splice. rewrite Nat2Z.id, take_app_length. simpl.
    rewrite <- drop_drop, drop_app_length, <- app_assoc. simpl. do 3 f_equal. lia.
Qed.

Lemma puts_run s l r :
  for_each put_uchar s (mk_body (l ++ r) (lenZ l)) =
  if bool_decide (length s <= length r)%nat then Ok (tt, mk_body ((l ++ s) ++ drop (length s) r) (lenZ (l ++ s))) else Fail OutOfBounds.
Proof.
  revert l r; induction s as [|c s IH]; intros l r; [by rewrite app_nil_r|]. cbn [for_each]. unfold mbind, st_bind.
  rewrite put_uchar_run. destruct r as [|x r]; [done|]. rewrite IH. replace ((l ++ [c]) ++ s) with (l ++ c :: s) by (by rewrite <- app_assoc).
  simpl length. simpl drop. destruct (decide (length s <= length r)%nat).
  - by rewrite !bool_decide_eq_true_2 by lia.
  - by rewrite !bool_decide_eq_false_2 by lia.
Qed.

Lemma put_length_run len b : put_length len b = for_each put_uchar (length_bytes len) b.
Proof.
  unfold put_length, length_bytes. destruct (bool_decide _); cbn [for_each]; unfold mbind, st_bind.
  - by destruct (put_uchar _ b) as [[[] b1]|].
  - destruct (put_uchar _ b) as [[[] b1]|]; [|done]. destruct (put_uchar _ b1) as [[[] b2]|]; [|done].
    destruct (put_uchar _ b2) as [[[] b3]|]; [|done]. by destruct (put_uchar _ b3) as [[[] b4]|].
Qed.

Lemma body_run name value r :
  makeNameValueBody name (lenZ name) value (lenZ value) (mk_body r 0) =
  let s := pair_bytes (name, value) in
  if bool_decide (length s <= length r)%nat then Ok (lenZ s, mk_body (s ++ drop (length s) r) (lenZ s)) else Fail OutOfBounds.
Proof.
  set (s := pair_bytes (name, value)). cbn zeta.
  transitivity (match for_each put_uchar s (mk_body r 0) with Ok (_, b) => Ok (ptr b, b) | Fail f => Fail f end).
  - unfold makeNameValueBody, gets, mbind, st_bind. simpl ptr. rewrite put_length_run. unfold s, pair_bytes. simpl fst. simpl snd.
    rewrite for_each_app. destruct (for_each _ (length_bytes (lenZ name)) _) as [[[] b1]|]; [|done]. rewrite put_length_run, for_each_app.
    destruct (for_each _ (length_bytes (lenZ value)) _) as [[[] b2]|]; [|done]. rewrite for_each_app.
    destruct (for_each _ name _) as [[[] b3]|]; [|done]. destruct (for_each _ value _) as [[[] b4]|]; [|done]. unfold mret, st_ret.
    by rewrite Z.sub_0_r.
  - pose proof (puts_run s [] r) as Hrun. simpl in Hrun. change (lenZ []) with 0 in Hrun. rewrite Hrun. by destruct (bool_decide _).
Qed.

(** ** What the peer reads *)

Lemma big_split z : 0 <= z < 2 ^ 16 -> FcgiWire.big [uchar (Z.land (Z.shiftr z 8) 0xff); uchar (Z.land z 0xff)] = z.
Proof.
  intros Hz. unfold FcgiWire.big. cbn [fold_left]. change 255 with (Z.ones 8). rewrite !Z.land_ones by lia. rewrite Z.shiftr_div_pow2 by lia.
  rewrite !byte_of_Z_small by (apply Z.mod_pos_bound; lia). change (2 ^ 8) with 256. div_lia.
Qed.

Lemma read_length_back n s : 0 <= n < 2 ^ 31 -> FcgiWire.read_length (length_bytes n ++ s) = Some (n, s).
Proof.
  intros Hn. unfold length_bytes. case_bool_decide as Hs.
  - cbn [app FcgiWire.read_length]. rewrite byte_of_Z_small by lia. by rewrite bool_decide_eq_true_2.
  - assert (byte.unsigned (uchar (Z.lor (Z.shiftr n 24) 128)) = 128 + n / 2 ^ 24) as Htop.
    { rewrite Z.shiftr_div_pow2 by lia. assert (0 <= n / 2 ^ 24 < 128) by (change (2 ^ 24) with 16777216; div_lia).
      assert (Z.lor (n / 2 ^ 24) 128 = 128 + n / 2 ^ 24) as ->.
      { apply Z.eqb_eq. apply (all_from_spec 128 0 (fun m => Z.lor m 128 =? 128 + m)); [vm_compute; reflexivity|lia]. }
      apply byte_of_Z_small. lia. }
    cbn [app FcgiWire.read_length]. rewrite Htop. rewrite bool_decide_eq_false_2 by (change (2 ^ 24) with 16777216; div_lia).
    unfold FcgiWire.big. cbn [fold_left]. rewrite !byte.unsigned_of_Z. unfold byte.wrap. rewrite !Z.shiftr_div_pow2 by lia.
    do 2 f_equal. change (2 ^ 24) with 16777216. change (2 ^ 16) with 65536. change (2 ^ 8) with 256. div_lia.
Qed.

(** A record as [makeHeader] begins it. *)
Definition enc_record (r : FcgiWire.record) : bytes :=
  header_bytes (makeHeader (FcgiWire.r_type r) (FcgiWire.r_id r) (lenZ (FcgiWire.r_content r)) 0) ++ FcgiWire.r_content r.

Definition wf_record (r : FcgiWire.record) : Prop :=
  u_in 8 (FcgiWire.r_type r) /\ u_in 16 (FcgiWire.r_id r) /\ lenZ (FcgiWire.r_content r) < 2 ^ 16.

Lemma records_back l fuel :
  Forall wf_record l -> (length (concat (map enc_record l)) <= fuel)%nat ->
  FcgiWire.records_loop fuel (concat (map enc_record l)) = Some l.
Proof.
  intros Hl. revert fuel; induction Hl as [|[ty id s] l (Hty & Hid & Hs) Hl IH]; intros fuel Hf; [by destruct fuel|].
  cbn [map concat] in *. set (w := concat (map enc_record l)) in *. unfold enc_record in *. simpl in Hty, Hid, Hs.
  cbn [FcgiWire.r_type FcgiWire.r_id FcgiWire.r_content] in *. pose proof (lenZ_nonneg s).
  rewrite !length_app in Hf. destruct fuel as [|fuel]; [simpl in Hf; lia|]. rewrite <- app_assoc.
  unfold makeHeader, header_bytes. cbn [app version type requestIdB1 requestIdB0 contentLengthB1 contentLengthB0 paddingLength reserved FcgiWire.records_loop].
  rewrite (big_split (lenZ s)), (big_split id), !byte_of_Z_small by (unfold FCGI_VERSION_1, u_in in *; lia).
  replace (Z.to_nat (lenZ s)) with (length s) by (unfold lenZ; lia). change (Z.to_nat 0) with 0%nat.
  rewrite (bool_decide_eq_true_2 (FCGI_VERSION_1 = 1)) by done. rewrite bool_decide_eq_true_2 by (rewrite length_app; lia).
  cbn [andb]. rewrite drop_app_length, take_app_length. change (drop 0 w) with w. rewrite (IH fuel); [done|]. simpl in Hf. lia.
Qed.

Lemma pairs_back l fuel :
  Forall (fun p : bytes * bytes => lenZ p.1 < 2 ^ 31 /\ lenZ p.2 < 2 ^ 31) l -> (length (concat (map pair_bytes l)) <= fuel)%nat ->
  FcgiWire.pairs_loop fuel (concat (map pair_bytes l)) = Some l.
Proof.
  intros Hl. revert fuel; induction Hl as [|[n v] l [Hn Hv] Hl IH]; intros fuel Hf; [by destruct fuel|].
  cbn [map concat] in *. set (w := concat (map pair_bytes l)) in *. unfold pair_bytes in *. simpl in Hn, Hv. cbn [fst snd] in *.
  rewrite !length_app in Hf. pose proof (lenZ_nonneg n). pose proof (lenZ_nonneg v).
  assert (0 < length (length_bytes (lenZ n)))%nat as Hpos by (unfold length_bytes; case_bool_decide; simpl; lia).
  destruct fuel as [|fuel]; [lia|]. rewrite <- !app_assoc. cbn [FcgiWire.pairs_loop].
  assert (forall (s : bytes) (k : option (list (bytes * bytes))), (0 < length s)%nat -> match s with [] => Some [] | _ :: _ => k end = k) as Hcons
    by (intros [|] ? ?; simpl in *; [lia|done]).
  rewrite Hcons by (rewrite length_app; lia). rewrite read_length_back by lia. cbn [mbind option_bind].
  rewrite read_length_back by lia. cbn [mbind option_bind].
  assert (Z.to_nat (lenZ n + lenZ v) = length (n ++ v)) as Hlen by (rewrite length_app; unfold lenZ; lia).
  rewrite bool_decide_eq_true_2 by (unfold lenZ; rewrite !length_app; lia). rewrite Hlen.
  rewrite app_assoc at 1. rewrite drop_app_length. rewrite (IH fuel) by lia. cbn [mbind option_bind].
  replace (Z.to_nat (lenZ n)) with (length n) by (unfold lenZ; lia). replace (Z.to_nat (lenZ v)) with (length v) by (unfold lenZ; lia).
  by rewrite take_app_length, drop_app_length, take_app_length.
Qed.

(** ** A request *)

(** The kernel takes every record whole. *)
Definition send_request (params : list (bytes * bytes)) : ST FastCgi_t unit :=
  _ ← sendStartRequestRecord 16;
  _ ← for_each (fun p => _ ← sendParams (8 + lenZ (pair_bytes p)) p.1 p.2; mret tt) params;
  _ ← sendEndRequestRecord 8;
  mret tt.

Definition fits (p : bytes * bytes) : Prop := lenZ (pair_bytes p) <= PARAMS_BUFF_LEN.

Lemma fits_short p : fits p -> lenZ p.1 < 2 ^ 31 /\ lenZ p.2 < 2 ^ 31.
Proof. unfold fits, pair_bytes, PARAMS_BUFF_LEN, lenZ. rewrite !length_app. lia. Qed.

Lemma sendParams_run c name value rc :
  lenZ name < 2 ^ 31 -> lenZ value < 2 ^ 31 ->
  sendParams rc name value c =
    let r := enc_record (FcgiWire.mk_record FCGI_PARAMS (requestId_ c) (pair_bytes (name, value))) in
    if bool_decide (fits (name, value)) then
      if bool_decide (rc = lenZ r) then Ok (1, mk (sockfd_ c) (requestId_ c) (flag_ c) (wire c ++ r) (segments c)) else Fail AssertionFailed
    else Fail OutOfBounds.
Proof.
  intros Hn Hv. cbn zeta. set (s := pair_bytes (name, value)). unfold sendParams, get. unfold mbind at 1, st_bind at 1.
  pose proof (lenZ_nonneg name). pose proof (lenZ_nonneg value). rewrite !swrap_small by (unfold s_in; lia).
  unfold lift. unfold mbind at 1, st_bind at 1. rewrite body_run. fold s. cbn zeta. rewrite length_replicate.
  unfold fits. fold s. destruct (decide (lenZ s <= PARAMS_BUFF_LEN)) as [Hs|Hs].
  2: { rewrite !bool_decide_eq_false_2; first [done|unfold lenZ, PARAMS_BUFF_LEN in *; lia]. }
  rewrite !bool_decide_eq_true_2 by (unfold lenZ, PARAMS_BUFF_LEN in *; lia).
  cbn [buff]. replace (Z.to_nat (lenZ s)) with (length s) by (unfold lenZ; lia). rewrite take_app_length.
  unfold write, modify, mbind, st_bind, mret, st_ret. cbn [FcgiWire.r_content FcgiWire.r_type FcgiWire.r_id].
  change (header_bytes _ ++ s) with (enc_record (FcgiWire.mk_record FCGI_PARAMS (requestId_ c) s)).
  set (r := enc_record _). assert (lenZ r = lenZ s + FCGI_HEADER_LEN) as Hr.
  { unfold r, enc_record, lenZ. rewrite length_app. unfold FCGI_HEADER_LEN. simpl. lia. }
  rewrite Hr. unfold sassert, lift. case_bool_decide as Hrc; simpl; [|done].
  rewrite <- Hr in Hrc. rewrite Hrc. unfold lenZ. by rewrite Nat2Z.id, firstn_all.
Qed.

Definition params_record (id : Z) (p : bytes * bytes) : FcgiWire.record := FcgiWire.mk_record FCGI_PARAMS id (pair_bytes p).

Lemma params_run params c :
  Forall (fun p : bytes * bytes => lenZ p.1 < 2 ^ 31 /\ lenZ p.2 < 2 ^ 31) params ->
  for_each (fun p => _ ← sendParams (8 + lenZ (pair_bytes p)) p.1 p.2; mret tt) params c =
  if bool_decide (Forall fits params) then
    Ok (tt, mk (sockfd_ c) (requestId_ c) (flag_ c) (wire c ++ concat (map enc_record (map (params_record (requestId_ c)) params))) (segments c))
  else Fail OutOfBounds.
Proof.
  intros Hl. revert c; induction Hl as [|[n v] params [Hn Hv] Hl IH]; intros c.
  { rewrite bool_decide_eq_true_2 by constructor. simpl. rewrite app_nil_r. by destruct c. }
  cbn [for_each map concat fst snd]. unfold mbind at 1, st_bind at 1. unfold mbind at 1, st_bind at 1. rewrite sendParams_run by done. cbn zeta.
  destruct (decide (fits (n, v))) as [Hf|Hf].
  - rewrite bool_decide_eq_true_2 by done. rewrite bool_decide_eq_true_2.
    2: { unfold enc_record, lenZ. rewrite length_app. simpl. lia. }
    unfold mret at 1, st_ret at 1. rewrite IH. cbn [requestId_ wire sockfd_ flag_ segments]. rewrite <- app_assoc.
    by rewrite bool_decide_Forall_cons, (bool_decide_eq_true_2 (fits _)).
  - by rewrite bool_decide_Forall_cons, !(bool_decide_eq_false_2 (fits _)).
Qed.

Lemma params_back id l :
  FcgiWire.params id (map (params_record id) l ++ [FcgiWire.mk_record FCGI_PARAMS id []]) = Some (concat (map pair_bytes l)).
Proof.
  induction l as [|p l IH]; simpl.
  - by rewrite !bool_decide_eq_true_2.
  - rewrite !(bool_decide_eq_true_2 (_ = _)) by done. simpl.
    rewrite (bool_decide_eq_false_2 (pair_bytes p = [])); [by rewrite IH|]. unfold pair_bytes, length_bytes. by case_bool_decide.
Qed.

(** C31: The request that goes to PHP, when the kernel takes each record whole, is read by any
    reader of the protocol as the request that was made: its number, the role of a responder,
    a connection that is not kept, and the pairs of names and values in their order, whatever
    bytes and lengths they have up to the 2048 bytes of the array; a pair that does not fit
    there is written past the end of the array. *)
Theorem fcgi_request_read c params :
  u_in 16 (requestId_ c) -> wire c = [] -> Forall (fun p : bytes * bytes => lenZ p.1 < 2 ^ 31 /\ lenZ p.2 < 2 ^ 31) params ->
  if bool_decide (Forall fits params) then
    exists c', send_request params c = Ok (tt, c') /\
      FcgiWire.request (wire c') = Some (requestId_ c, FCGI_RESPONDER, false, params)
  else send_request params c = Fail OutOfBounds.
Proof.
  intros Hid Hw Hlen. set (id := requestId_ c). set (b := begin_bytes (makeBeginRequestBody FCGI_RESPONDER 0)).
  set (r0 := FcgiWire.mk_record FCGI_BEGIN_REQUEST id b). set (rn := FcgiWire.mk_record FCGI_PARAMS id []).
  assert (sendStartRequestRecord 16 c = Ok (1, mk (sockfd_ c) id (flag_ c) (enc_record r0) (segments c))) as Hstart.
  { unfold sendStartRequestRecord, write, get, modify, mbind, st_bind. rewrite Hw. reflexivity. }
  pose proof (params_run params (mk (sockfd_ c) id (flag_ c) (enc_record r0) (segments c)) Hlen) as Hparams. cbn [requestId_ wire sockfd_ flag_ segments] in Hparams.
  destruct (decide (Forall fits params)) as [Hfit|Hfit].
  2: { rewrite (bool_decide_eq_false_2 _ Hfit) in Hparams |- *. unfold send_request. rewrite (bind_run _ _ _ _ _ Hstart). unfold mbind at 1, st_bind at 1. by rewrite Hparams. }
  rewrite (bool_decide_eq_true_2 _ Hfit) in Hparams |- *. unfold send_request. rewrite (bind_run _ _ _ _ _ Hstart), (bind_run _ _ _ _ _ Hparams).
  assert (forall c0, requestId_ c0 = id -> sendEndRequestRecord 8 c0 = Ok (1, mk (sockfd_ c0) id (flag_ c0) (wire c0 ++ enc_record rn) (segments c0))) as Hend.
  { intros c0 Hc0. unfold sendEndRequestRecord, write, get, modify, mbind, st_bind. rewrite Hc0. reflexivity. }
  cbv beta. erewrite bind_run by (by apply Hend). eexists. split; [reflexivity|]. cbn [wire].
  set (l := r0 :: map (params_record id) params ++ [rn]).
  replace (_ ++ enc_record rn) with (concat (map enc_record l)).
  2: { unfold l. cbn [map concat]. rewrite map_app, concat_app. cbn [map concat]. by rewrite app_nil_r, <- app_assoc. }
  unfold FcgiWire.request, FcgiWire.records. rewrite records_back; [|..|done].
  - cbn [mbind option_bind l r0 b begin_bytes makeBeginRequestBody roleB1 roleB0 flags reserved5 replicate].
    change FCGI_BEGIN_REQUEST with 1. cbv iota. fold rn. rewrite params_back. cbn [mbind option_bind]. unfold FcgiWire.pairs. rewrite pairs_back by done.
    cbn [mbind option_bind]. rewrite big_split by (unfold FCGI_RESPONDER; lia). do 3 f_equal.
  - unfold l. constructor.
    + unfold wf_record. simpl. split_and!; [done|done|]. unfold lenZ. simpl. lia.
    + apply list.Forall_app. split.
      * apply List.Forall_map. eapply list.Forall_impl; [exact Hfit|]. intros p Hp. split_and!; [done|done|].
        unfold fits, PARAMS_BUFF_LEN in Hp. simpl. lia.
      * constructor; [|constructor]. split_and!; [done|done|]. unfold lenZ. simpl. lia.
Qed.

(** ** The page in the answer *)

Definition blank_line : bytes := [CR; LF; CR; LF].
Definition no_bare_CR (l : bytes) : Prop := forall i, l !! i = Some CR -> l !! S i = Some LF.

Lemma no_bare_tail c l : no_bare_CR (c :: l) -> no_bare_CR l.
Proof. intros Hl i. apply (Hl (S i)). Qed.

(** What the search for a blank line gives, from index [i]. *)
Definition after_blank (l : bytes) (i : nat) : nat :=
  match search blank_line l with Some k => if bool_decide (k + 4 < length l) then i + (k + 4) else 0 | None => 0 end%nat.

Lemma after_blank_skip c l i : ¬ (blank_line `prefix_of` c :: l) -> after_blank (c :: l) i = after_blank l (S i).
Proof.
  intros Hp. unfold after_blank. cbn [search]. rewrite decide_False by done. destruct (search blank_line l) as [k|]; simpl; [|done].
  destruct (decide (k + 4 < length l)%nat); [rewrite !bool_decide_eq_true_2 by lia; lia|by rewrite !bool_decide_eq_false_2 by lia].
Qed.

Lemma blank_prefix_inv l : blank_line `prefix_of` l -> exists l', l = CR :: LF :: CR :: LF :: l'.
Proof. intros [l' ->]. by exists l'. Qed.

Lemma find_html_spec n l i :
  (length l <= n)%nat -> no_bare_CR l -> find_html_loop S_NOPE l i = after_blank l i.
Proof.
  revert l i; induction n as [|n IH]; intros l i Hn Hl; [by destruct l; [|simpl in Hn; lia]|].
  destruct l as [|c l]; [done|]. cbn [find_html_loop]. rewrite bool_decide_eq_false_2 by done. cbn [html_next]. simpl in Hn.
  pose proof (no_bare_tail _ _ Hl) as Hl1. case_bool_decide as Hc.
  2: { rewrite IH by (done || lia). symmetry. apply after_blank_skip. intros (l' & [= ? _])%blank_prefix_inv. done. }
  subst c. pose proof (Hl 0%nat eq_refl) as Hnext. destruct l as [|d l]; [done|]. injection Hnext as ->.
  cbn [find_html_loop]. rewrite bool_decide_eq_false_2 by done. cbn [html_next]. rewrite bool_decide_eq_true_2 by done.
  pose proof (no_bare_tail _ _ Hl1) as Hl2. destruct l as [|e l]; [done|]. cbn [find_html_loop]. rewrite bool_decide_eq_false_2 by done.
  cbn [html_next]. simpl in Hn. pose proof (no_bare_tail _ _ Hl2) as Hl3. case_bool_decide as He.
  2: { rewrite IH by (done || lia). symmetry.
       rewrite !after_blank_skip; [done|..]; intros (l' & Hp)%blank_prefix_inv; try done; by injection Hp. }
  subst e. pose proof (Hl2 0%nat eq_refl) as Hnext. destruct l as [|d l]; [done|]. injection Hnext as ->.
  cbn [find_html_loop]. rewrite bool_decide_eq_false_2 by done. cbn [html_next]. rewrite bool_decide_eq_true_2 by done.
  unfold after_blank. cbn [search]. rewrite decide_True by by exists l. destruct l as [|x l]; [done|]. cbn [find_html_loop].
  rewrite bool_decide_eq_true_2 by done. rewrite bool_decide_eq_true_2 by (simpl; lia). lia.
Qed.

(** The page begins behind the first blank line, when no carriage return of the content stands
    without a line feed; so it is for the headers and pages that PHP sends.  Without a blank
    line, or with nothing behind it, all is printed. *)
Lemma findStartHtml_spec content : no_bare_CR content -> findStartHtml content = after_blank content 0.
Proof. intros Hl. by apply (find_html_spec (length content)). Qed.

(** A carriage return before the blank line hides it. *)
Lemma findStartHtml_misses : findStartHtml (CR :: blank_line ++ bs "page") = 0%nat /\
  after_blank (CR :: blank_line ++ bs "page") 0 = 5%nat.
Proof. split; vm_compute; reflexivity. Qed.

(** ** The answer *)

(** What the reads may run into: a record that is cut, and the end of an array. *)
Definition bad_answer (f : fault) : Prop := f = AssertionFailed \/ f = OutOfBounds.

Lemma arriving_cons o l : arriving (o :: l) = (length (default [] o) + arriving l)%nat.
Proof. unfold arriving. simpl. by rewrite length_app. Qed.

Lemma wp_read n c (Q : Z * bytes -> FastCgi_t -> Prop) :
  (forall ret d l, (arriving l + length d = arriving (segments c))%nat -> ret <= lenZ d ->
     Q (ret, d) (mk (sockfd_ c) (requestId_ c) (flag_ c) (wire c) l)) ->
  wp bad_answer (read n) Q c.
Proof.
  intros HQ. unfold read. wp_step. destruct (segments c) as [|[d|] l] eqn:Hs.
  - apply wp_ret. replace c with (mk (sockfd_ c) (requestId_ c) (flag_ c) (wire c) []) by (destruct c; simpl in *; by subst).
    by apply HQ.
  - wp_step. wp_step. apply HQ; [|done]. rewrite arriving_cons. simpl. case_bool_decide as Hr.
    + rewrite length_take. apply (f_equal length) in Hr. rewrite length_drop in Hr. simpl in Hr. lia.
    + rewrite arriving_cons. simpl. rewrite length_take, length_drop. lia.
  - wp_step. wp_step. apply HQ; [|done]. rewrite arriving_cons. simpl. lia.
Qed.

Lemma wp_read_into a n c (Q : Z * bytes -> FastCgi_t -> Prop) :
  (forall ret a' l, (arriving l + Z.to_nat ret <= arriving (segments c))%nat -> lenZ a' = lenZ a ->
     Q (ret, a') (mk (sockfd_ c) (requestId_ c) (flag_ c) (wire c) l)) ->
  wp bad_answer (read_into a n) Q c.
Proof.
  intros HQ. unfold read_into. wp_focus. apply wp_read. intros ret d l Hl Hret. simpl. wp_focus. unfold copy_to. wp_step.
  rewrite (bool_decide_eq_true_2 (0 <= 0)%Z) by lia. case_bool_decide as Hd; simpl; [|by right].
  apply wp_ret, HQ; [unfold lenZ in Hret; lia|]. apply lenZ_splice; lia.
Qed.

Lemma wp_sassert_bad b (Q : unit -> FastCgi_t -> Prop) s : Q tt s -> wp bad_answer (sassert b) Q s.
Proof. intros HQ. destruct b; [done|by left]. Qed.

Lemma wp_read_content h c (Q : bytes -> FastCgi_t -> Prop) :
  (forall a l, (arriving l <= arriving (segments c))%nat -> lenZ a = CONTENT_BUFF_LEN ->
     Q a (mk (sockfd_ c) (requestId_ c) (flag_ c) (wire c) l)) ->
  wp bad_answer (read_content h) Q c.
Proof.
  intros HQ. unfold read_content. wp_focus. apply wp_read_into. intros ret a l Hl Ha. wp_focus. apply wp_sassert_bad.
  assert (lenZ a = CONTENT_BUFF_LEN) as Ha' by (rewrite Ha; unfold lenZ; rewrite length_replicate; done).
  case_bool_decide.
  - wp_focus. apply wp_read_into. intros ret2 a2 l2 Hl2 _. cbn [segments] in Hl2. apply wp_sassert_bad, wp_ret, HQ; [lia|done].
  - wp_step. wp_step. apply HQ; [lia|done].
Qed.

Lemma read_records_ends fuel h content c :
  (arriving (segments c) < fuel)%nat ->
  wp bad_answer (read_records fuel h content) (fun a _ => a = content \/ lenZ a = CONTENT_BUFF_LEN) c.
Proof.
  revert h content c; induction fuel as [|fuel IH]; intros h content c Hf; [lia|]. cbn [read_records]. wp_focus.
  apply wp_read_into. intros ret h' l Hl _. cbv beta iota. case_bool_decide as Hret; [|apply wp_ret; by left].
  assert (forall l' a, (arriving l' <= arriving l)%nat -> a = content \/ lenZ a = CONTENT_BUFF_LEN ->
    wp bad_answer (read_records fuel h' a) (fun a _ => a = content \/ lenZ a = CONTENT_BUFF_LEN) (mk (sockfd_ c) (requestId_ c) (flag_ c) (wire c) l')) as Hgo.
  { intros l' a Hl' Ha. eapply wp_mono; [apply IH; simpl; lia|]. intros a' _ [->|?]; [done|by right]. }
  cbv zeta. case_bool_decide; [|case_bool_decide; [|case_bool_decide]].
  - wp_focus. apply wp_read_content. intros a l' Hl' Ha. apply Hgo; [exact Hl'|by right].
  - wp_focus. apply wp_read_content. intros a l' Hl' Ha. apply Hgo; [exact Hl'|by right].
  - wp_focus. apply wp_read_into. intros r2 a l' Hl' _. wp_focus. apply wp_sassert_bad. apply Hgo; [simpl in Hl'; lia|by left].
  - apply Hgo; [lia|by left].
Qed.

Lemma readFromPhp_ends h0 c0 c :
  (exists a c', readFromPhp h0 c0 c = Ok (a, c') /\ (a = c0 \/ lenZ a = CONTENT_BUFF_LEN)) \/
  readFromPhp h0 c0 c = Fail AssertionFailed \/ readFromPhp h0 c0 c = Fail OutOfBounds.
Proof.
  assert (wp bad_answer (readFromPhp h0 c0) (fun a _ => a = c0 \/ lenZ a = CONTENT_BUFF_LEN) c) as Hwp.
  { unfold readFromPhp. wp_focus. apply wp_read_into. intros ret a l _ _. wp_step. apply read_records_ends. simpl. lia. }
  unfold wp in Hwp. destruct (readFromPhp h0 c0 c) as [[a c']|f]; [left; by exists a, c'|right]. by destruct Hwp as [->| ->]; [left|right].
Qed.

(** What PHP sends: records with their padding. *)
Record reply := mk_reply { p_type : Z; p_id : Z; p_content : bytes; p_padding : bytes }.

Definition enc_reply (r : reply) : bytes :=
  header_bytes (makeHeader (p_type r) (p_id r) (lenZ (p_content r)) (lenZ (p_padding r))) ++ p_content r ++ p_padding r.

Definition is_data (r : reply) : bool := bool_decide (p_type r = FCGI_STDOUT \/ p_type r = FCGI_STDERR).

(** The record that ends the answer has eight bytes; nothing else has a body that is read. *)
Definition wf_reply (r : reply) : Prop :=
  u_in 8 (p_type r) /\ lenZ (p_content r) < 2 ^ 16 /\ lenZ (p_padding r) < 2 ^ 8 /\
  (is_data r = true \/ p_padding r = [] /\ lenZ (p_content r) = if decide (p_type r = FCGI_END_REQUEST) then 8 else 0).

Definition has_room (r : reply) : Prop := is_data r = true -> lenZ (p_content r) <= CONTENT_BUFF_LEN /\ lenZ (p_padding r) <= 8.

#[global] Instance has_room_dec r : Decision (has_room r).
Proof. unfold has_room. destruct (is_data r); apply _. Defined.

(** The array after a record, and after all of them. *)
Definition stored (r : reply) : bytes := p_content r ++ replicate (Z.to_nat (CONTENT_BUFF_LEN - lenZ (p_content r))) Byte.x00.
Definition answer_of (content : bytes) (l : list reply) : bytes := fold_left (fun a r => if is_data r then stored r else a) l content.

Definition with_rest (w : bytes) (c : FastCgi_t) : FastCgi_t :=
  mk (sockfd_ c) (requestId_ c) (flag_ c) (wire c) (if bool_decide (w = []) then [] else [Some w]).

Lemma read_run n a w c : Z.to_nat n = length a -> read n (with_rest (a ++ w) c) = Ok ((lenZ a, a), with_rest w c).
Proof.
  intros Hn. unfold read, get, put, mbind, st_bind. unfold with_rest at 1. cbn [segments]. case_bool_decide as He.
  - apply app_eq_nil in He as [-> ->]. done.
  - rewrite Hn, take_app_length, drop_app_length. done.
Qed.

Lemma read_into_run n a w array c :
  Z.to_nat n = length a ->
  read_into array n (with_rest (a ++ w) c) =
  if bool_decide (lenZ a <= lenZ array) then Ok ((lenZ a, a ++ drop (length a) array), with_rest w c) else Fail OutOfBounds.
Proof.
  intros Hn. unfold read_into, mbind, st_bind. rewrite read_run by done. unfold lift, copy_to.
  rewrite (bool_decide_eq_true_2 (0 <= 0)%Z) by lia. change (0 + lenZ a) with (lenZ a). by case_bool_decide.
Qed.

Lemma big_endian_16 z : 0 <= z < 2 ^ 16 ->
  Z.shiftl (byte.unsigned (uchar (Z.land (Z.shiftr z 8) 0xff))) 8 + byte.unsigned (uchar (Z.land z 0xff)) = z.
Proof.
  intros Hz. rewrite <- (big_split z Hz) at 3. unfold FcgiWire.big. cbn [fold_left]. rewrite Z.shiftl_mul_pow2 by lia. by rewrite Z.mul_0_l, Z.add_0_l.
Qed.

Lemma read_content_run r w c :
  lenZ (p_content r) < 2 ^ 16 -> lenZ (p_padding r) < 2 ^ 8 ->
  read_content (header_bytes (makeHeader (p_type r) (p_id r) (lenZ (p_content r)) (lenZ (p_padding r))))
    (with_rest (p_content r ++ p_padding r ++ w) c) =
  if bool_decide (lenZ (p_content r) <= CONTENT_BUFF_LEN /\ lenZ (p_padding r) <= 8) then Ok (stored r, with_rest w c) else Fail OutOfBounds.
Proof.
  intros Hs Hp. pose proof (lenZ_nonneg (p_content r)) as Hs0. pose proof (lenZ_nonneg (p_padding r)) as Hp0.
  unfold read_content, byte_at, header_bytes, makeHeader. cbn [nth version type requestIdB1 requestIdB0 contentLengthB1 contentLengthB0 paddingLength reserved].
  rewrite big_endian_16, byte_of_Z_small by lia. unfold mbind at 1, st_bind at 1.
  rewrite read_into_run by (unfold lenZ; lia).
  assert (lenZ (replicate (Z.to_nat CONTENT_BUFF_LEN) Byte.x00) = CONTENT_BUFF_LEN) as -> by (unfold lenZ; by rewrite length_replicate).
  destruct (decide (lenZ (p_content r) <= CONTENT_BUFF_LEN)) as [Hl|Hl].
  2: { rewrite !bool_decide_eq_false_2; [done|by intros [? _]|done]. }
  rewrite (bool_decide_eq_true_2 (_ <= CONTENT_BUFF_LEN)) by done. rewrite (assert_run (bool_decide _)) by by apply bool_decide_eq_true.
  assert (p_content r ++ drop (length (p_content r)) (replicate (Z.to_nat CONTENT_BUFF_LEN) Byte.x00) = stored r) as ->.
  { unfold stored. rewrite drop_replicate. do 2 f_equal. unfold lenZ. lia. }
  case_bool_decide as Hpad.
  - unfold mbind at 1, st_bind at 1. unfold mbind at 1, st_bind at 1. rewrite read_into_run by (unfold lenZ; lia).
    change (lenZ (replicate 8 Byte.x00)) with 8. destruct (decide (lenZ (p_padding r) <= 8)) as [Hq|Hq].
    + rewrite !bool_decide_eq_true_2 by done. done.
    + rewrite !bool_decide_eq_false_2; [done|by intros [_ ?]|done].
  - assert (p_padding r = []) as -> by (destruct (p_padding r); [done|unfold lenZ in Hpad; simpl in Hpad; lia]).
    by rewrite bool_decide_eq_true_2.
Qed.

Lemma read_records_run l h content c fuel :
  Forall wf_reply l -> lenZ h = 8 -> (length l < fuel)%nat ->
  read_records fuel h content (with_rest (concat (map enc_reply l)) c) =
  if bool_decide (Forall has_room l) then Ok (answer_of content l, with_rest [] c) else Fail OutOfBounds.
Proof.
  intros Hl. revert h content fuel; induction Hl as [|r l (Hty & Hs & Hp & Hk) Hl IH]; intros h content fuel Hh Hf; (destruct fuel as [|fuel]; [simpl in Hf; lia|]).
  - cbn [read_records map concat]. unfold mbind at 1, st_bind at 1.
    assert (read_into h FCGI_HEADER_LEN (with_rest [] c) = Ok ((0, h), with_rest [] c)) as ->.
    { unfold read_into, read, get, lift, copy_to, mbind, st_bind. simpl. rewrite bool_decide_eq_true_2 by apply lenZ_nonneg. done. }
    by rewrite (bool_decide_eq_true_2 (Forall has_room [])) by constructor.
  - cbn [read_records map concat]. unfold enc_reply at 1. set (hd := header_bytes _). set (w := concat (map enc_reply l)) in *.
    rewrite <- !app_assoc. unfold mbind at 1, st_bind at 1. rewrite (read_into_run FCGI_HEADER_LEN hd) by done.
    rewrite bool_decide_eq_true_2 by (rewrite Hh; unfold hd, lenZ; simpl; lia).
    assert (hd ++ drop (length hd) h = hd) as -> by (rewrite drop_ge, app_nil_r; [done|unfold lenZ in Hh; unfold hd; simpl; lia]).
    rewrite (bool_decide_eq_true_2 (lenZ hd > 0)) by done. cbv zeta.
    assert (byte_at hd 1 = p_type r) as -> by (by apply byte_of_Z_small).
    pose proof (fun content => IH hd content fuel eq_refl ltac:(simpl in Hf; lia)) as IHr.
    rewrite bool_decide_Forall_cons.
    change (answer_of content (r :: l)) with (answer_of (if is_data r then stored r else content) l).
    destruct (is_data r) eqn:Hd.
    + assert (forall k : bytes -> ST FastCgi_t bytes, (read_content hd ≫= k) (with_rest (p_content r ++ p_padding r ++ w) c) =
        if bool_decide (has_room r) then k (stored r) (with_rest w c) else Fail OutOfBounds) as Hread.
      { intros k. unfold mbind, st_bind. unfold hd. rewrite read_content_run by done. unfold has_room.
        destruct (decide (lenZ (p_content r) <= CONTENT_BUFF_LEN /\ lenZ (p_padding r) <= 8)).
        - rewrite !bool_decide_eq_true_2; done.
        - rewrite !bool_decide_eq_false_2; [done|by intros Hr; specialize (Hr Hd)|done]. }
      unfold is_data in Hd. apply bool_decide_eq_true in Hd.
      assert (forall k : bytes -> ST FastCgi_t bytes, (forall a, k a = read_records fuel hd a) -> (read_content hd ≫= k) (with_rest (p_content r ++ p_padding r ++ w) c) =
        if bool_decide (has_room r) && bool_decide (Forall has_room l) then Ok (answer_of (stored r) l, with_rest [] c) else Fail OutOfBounds) as Hgo.
      { intros k Hk'. rewrite Hread, Hk'. case_bool_decide; [apply IHr|done]. }
      destruct (decide (p_type r = FCGI_STDOUT)) as [Ho|Ho].
      * rewrite (bool_decide_eq_true_2 (_ = FCGI_STDOUT)) by done. by apply Hgo.
      * rewrite (bool_decide_eq_false_2 (_ = FCGI_STDOUT)), (bool_decide_eq_true_2 (_ = FCGI_STDERR)) by tauto. by apply Hgo.
    + destruct Hk as [?|[Hpad Hlen]]; [congruence|]. assert (has_room r) as Hroom by (intros ?; congruence).
      rewrite (bool_decide_eq_true_2 _ Hroom). cbn [andb]. unfold is_data in Hd. apply bool_decide_eq_false in Hd.
      rewrite !bool_decide_eq_false_2 by tauto. rewrite Hpad. cbn [app]. destruct (decide (p_type r = FCGI_END_REQUEST)) as [He|He].
      * rewrite bool_decide_eq_true_2 by done. unfold mbind at 1, st_bind at 1. rewrite read_into_run by (unfold lenZ in Hlen; lia).
        rewrite bool_decide_eq_true_2 by (rewrite Hlen; done). rewrite assert_run by (by apply bool_decide_eq_true). apply IHr.
      * rewrite bool_decide_eq_false_2 by done. assert (p_content r = []) as -> by (destruct (p_content r); [done|unfold lenZ in Hlen; simpl in Hlen; lia]).
        apply IHr.
Qed.

(** C32: What is read from PHP.  On any answer, in any segments, the function ends: with a
    result, at the assertion that a record was read whole, or past the end of an array.  The
    first up to 1000 bytes are thrown away.  When the records of the answer stand behind them
    and are there when they are read, the result is the content of the last record of output
    or errors, the earlier ones being lost, and the memory as [new] gave it when there is
    none; the content of a record with more than 2048 bytes, or a padding of more than eight,
    is written past the end of its array. *)
Theorem fcgi_answer_read h0 c0 c :
  lenZ h0 = 8 ->
  ((exists a c', readFromPhp h0 c0 c = Ok (a, c') /\ (a = c0 \/ lenZ a = CONTENT_BUFF_LEN)) \/
   readFromPhp h0 c0 c = Fail AssertionFailed \/ readFromPhp h0 c0 c = Fail OutOfBounds) /\
  forall first l, Forall wf_reply l -> 0 < lenZ first <= 1000 -> concat (map enc_reply l) <> [] ->
    segments c = [Some first; Some (concat (map enc_reply l))] ->
    readFromPhp h0 c0 c = if bool_decide (Forall has_room l) then Ok (answer_of c0 l, with_rest [] c) else Fail OutOfBounds.
Proof.
  intros Hh. split; [apply readFromPhp_ends|]. intros first l Hl Hfirst Hw Hseg. set (w := concat (map enc_reply l)) in *.
  unfold readFromPhp. assert (exists a, read_into (replicate (Z.to_nat 100000) Byte.x00) 1000 c = Ok (a, with_rest w c)) as [a Hread].
  { unfold read_into, read, get, put, lift, mbind, st_bind. rewrite Hseg.
    rewrite take_ge, drop_ge by (unfold lenZ in Hfirst; lia). rewrite bool_decide_eq_true_2 by done. unfold mret, st_ret.
    rewrite copy_to_ok; [|lia|]; [|unfold lenZ at 2; rewrite length_replicate; lia]. eexists. unfold with_rest.
    by rewrite bool_decide_eq_false_2 by done. }
  rewrite (bind_run _ _ _ _ _ Hread). cbv beta. unfold get, mbind, st_bind. apply read_records_run; [done|done|].
  unfold with_rest. rewrite bool_decide_eq_false_2 by done. cbn [segments]. unfold arriving. cbn [map concat default from_option]. unfold id. rewrite app_nil_r.
  unfold w. clear. induction l as [|r l IH]; [simpl; lia|]. cbn [map concat]. rewrite length_app.
  assert (8 <= length (enc_reply r))%nat by (unfold enc_reply; simpl; lia). simpl in *. lia.
Qed.

(** ** Concrete runs *)

Definition one_param : list (bytes * bytes) := [(bs "SCRIPT_FILENAME", bs "/srv/index.php"); (bs "Q", replicate 200 Byte.x61)].

Lemma fcgi_request_read_witness :
  exists c', send_request one_param (setRequestId 7 (FastCgi_init [])) = Ok (tt, c') /\
    FcgiWire.request (wire c') = Some (7, 1, false, one_param).
Proof.
  pose proof (fcgi_request_read (setRequestId 7 (FastCgi_init [])) one_param) as H.
  rewrite bool_decide_eq_true_2 in H.
  - apply H.
    + split; [discriminate|reflexivity].
    + reflexivity.
    + repeat constructor.
  - repeat constructor; vm_compute; discriminate.
Defined.

Definition page : list reply :=
  [mk_reply FCGI_STDOUT 7 (bs "page") [Byte.x00; Byte.x00]; mk_reply FCGI_END_REQUEST 7 (replicate 8 Byte.x00) []].

Lemma fcgi_answer_read_witness :
  exists c', readFromPhp (replicate 8 Byte.x00) (replicate 2048 Byte.x2a) (FastCgi_init [Some (bs "x"); Some (concat (map enc_reply page))])
    = Ok (bs "page" ++ replicate 2044 Byte.x00, c').
Proof.
  destruct (fcgi_answer_read (replicate 8 Byte.x00) (replicate 2048 Byte.x2a) (FastCgi_init [Some (bs "x"); Some (concat (map enc_reply page))])
    eq_refl) as [_ H].
  eexists. rewrite (H (bs "x") page).
  - rewrite bool_decide_eq_true_2; [reflexivity|]. constructor; [|constructor; [vm_compute; discriminate|constructor]].
    intros _. split; vm_compute; discriminate.
  - constructor; [|constructor; [|constructor]]; (split_and!; [split; [discriminate|reflexivity]|reflexivity|reflexivity|]).
    + left. reflexivity.
    + right. split; reflexivity.
  - split; vm_compute; [reflexivity|discriminate].
  - vm_compute. discriminate.
  - reflexivity.
Defined.

(** An answer that has arrived whole before the first read, as a short one does, is thrown
    away, and what is returned is memory that nobody wrote. *)
Lemma short_answer_lost :
  readFromPhp (replicate 8 Byte.x00) (replicate 2048 Byte.x2a) (FastCgi_init [Some (concat (map enc_reply page))])
    = Ok (replicate 2048 Byte.x2a, FastCgi_init []).
Proof. vm_compute. reflexivity. Qed.

(** What is sent to end the request is an empty record of parameters; the record of type 3
    that the name promises is never made. *)
Lemma end_request_is_params c :
  exists c', sendEndRequestRecord 8 c = Ok (1, c') /\
    wire c' = wire c ++ enc_record (FcgiWire.mk_record FCGI_PARAMS (requestId_ c) []).
Proof. eexists. split; [reflexivity|]. done. Qed.
End FastCgiProofs.
