(* ===== verification/Inspector.v ===== *)
(** The inspector of a running process ([muduo/net/inspect/Inspector.*], and the small
    parsers of [ProcessInspector.cc]).

    It answers HTTP requests for [/module/command/arguments] from a table of commands.  A
    block under the mutex is one step; the callbacks are the user's. *)
From S2P Require Import Prelude OrderedSet Decimal NetBuffer Http.
Open Scope Z_scope.

Module Inspector.

(** ** [split] *)

(** [str.find(c, pos)]. *)
Definition find_from (c : byte) (str : bytes) (pos : nat) : option nat := (fun i => pos + i)%nat <$> find_byte c (drop pos str).

(** The loop; the fuel is a bound on its rounds. *)
Fixpoint split_loop (fuel : nat) (str : bytes) (start : nat) (pos : option nat) (result : list bytes) : res (nat * list bytes) :=
  match pos with
  | None => mret (start, result)
  | Some pos =>
      match fuel with
      | O => Fail NoEnd
      | S fuel =>
          let result := if decide (start < pos)%nat then result ++ [take (pos - start) (drop start str)] else result in
          let start := S pos in
          split_loop fuel str start (find_from slash str start) result
      end
  end.

(** Each round begins behind the slash of the round before. *)
Definition split (str : bytes) : res (list bytes) :=
  '(start, result) ← split_loop (length str) str 0 (find_from slash str 0) [];
  mret (if decide (start < length str)%nat then result ++ [drop start str] else result).

(** ** The table *)

(** [Callback]; an empty [std::function] is [None]. *)
Abbreviation Callback := (option (HttpRequest.Method -> list bytes -> bytes)).
Abbreviation CommandList := (list (bytes * Callback)).
Abbreviation HelpList := (list (bytes * bytes)).

Record t := mk { modules_ : list (bytes * CommandList); helps_ : list (bytes * HelpList) }.

Definition Inspector : t := mk [] [].

(** [m[key]] of a map of maps makes an empty one. *)
Definition at_or_new {V} (key : bytes) (m : list (bytes * list (bytes * V))) : list (bytes * V) := default [] (OrderedMap.find key m).

Definition add (module command : bytes) (cb : Callback) (help : bytes) (ins : t) : t :=
  mk (OrderedMap.set module (OrderedMap.set command cb (at_or_new module (modules_ ins))) (modules_ ins))
     (OrderedMap.set module (OrderedMap.set command help (at_or_new module (helps_ ins))) (helps_ ins)).

Definition remove (module command : bytes) (ins : t) : t :=
  match OrderedMap.find module (modules_ ins) with
  | Some commands =>
      mk (OrderedMap.set module (OrderedMap.erase command commands) (modules_ ins))
         (OrderedMap.set module (OrderedMap.erase command (at_or_new module (helps_ ins))) (helps_ ins))
  | None => ins
  end.

(** ** Requests *)

Definition help_line (module command help : bytes) : bytes :=
  let len := lenZ module + lenZ command in
  slash :: module ++ [slash] ++ command ++ replicate (Z.to_nat (if bool_decide (len >= 25) then 1 else 25 - len)) " "%byte ++ help ++ [LF].

Fixpoint unhex (l : bytes) : bytes :=
  match l with
  | a :: b :: l =>
      let v (c : byte) := let n := Byte.to_N c in (if N.leb n 57 then n - 48 else n - 87)%N in
      default Byte.x00 (Byte.of_N (16 * v a + v b)) :: unhex l
  | _ => []
  end.

Definition favicon : bytes := unhex (
  bs "89504e470d0a1a0a0000000d49484452000000100000001008060000001ff3ff610000000473424954080808087c08648800" ++
  bs "0000097048597300000b1200000b1201d2dd7efc0000001c74455874536f6674776172650041646f62652046697265776f72" ++
  bs "6b732043533398d6460300000015744558744372656174696f6e2054696d6500322f31372f3038209caa5800000411744558" ++
  bs "74584d4c3a636f6d2e61646f62652e786d70003c3f787061636b657420626567696e3d22202020222069643d2257354d304d" ++
  bs "7043656869487a7265537a4e54637a6b633964223f3e0a3c783a786d706d65746120786d6c6e733a783d2261646f62653a6e" ++
  bs "733a6d6574612f2220783a786d70746b3d2241646f626520584d5020436f726520342e312d633033342034362e3237323937" ++
  bs "362c20536174204a616e20323720323030372032323a31313a34312020202020202020223e0a2020203c7264663a52444620" ++
  bs "786d6c6e733a7264663d22687474703a2f2f7777772e77332e6f72672f313939392f30322f32322d7264662d73796e746178" ++
  bs "2d6e7323223e0a2020202020203c7264663a4465736372697074696f6e207264663a61626f75743d22220a20202020202020" ++
  bs "2020202020786d6c6e733a7861703d22687474703a2f2f6e732e61646f62652e636f6d2f7861702f312e302f223e0a202020" ++
  bs "2020202020203c7861703a43726561746f72546f6f6c3e41646f62652046697265776f726b73204353333c2f7861703a4372" ++
  bs "6561746f72546f6f6c3e0a2020202020202020203c7861703a437265617465446174653e323030382d30322d31375430323a" ++
  bs "33363a34355a3c2f7861703a437265617465446174653e0a2020202020202020203c7861703a4d6f64696679446174653e32" ++
  bs "3030382d30332d32345431393a30303a34325a3c2f7861703a4d6f64696679446174653e0a2020202020203c2f7264663a44" ++
  bs "65736372697074696f6e3e0a2020202020203c7264663a4465736372697074696f6e207264663a61626f75743d22220a2020" ++
  bs "20202020202020202020786d6c6e733a64633d22687474703a2f2f7075726c2e6f72672f64632f656c656d656e74732f312e" ++
  bs "312f223e0a2020202020202020203c64633a666f726d61743e696d6167652f706e673c2f64633a666f726d61743e0a202020" ++
  bs "2020203c2f7264663a4465736372697074696f6e3e0a2020203c2f7264663a5244463e0a3c2f783a786d706d6574613e0a20" ++
  bs "2020202020202020202020202020202020202020202020202020202020202020202020202020202020202020202020202020" ++
  bs "202020202020202020202020202020202020202020202020202020202020202020202020202020202020202020202020200a" ++
  bs "2020202020202020202020202020202020202020202020202020202020202020202020202020202020202020202020202020" ++
  bs "2020202020202020202020202020202020202020202020202020202020202020202020202020202020202020202020202020" ++
  bs "0a20202020202020202020202020202020202020202020202020202020202020202020202020202020202020202020202020" ++
  bs "202020202020202020202020202020202020202020202020202020202020202020202020202020202020351d52640000020b" ++
  bs "49444154388da593416b1a4118869f8906232e74f5204a0e6b20e4e2a578c8a1788982178582823d26625872cd4ff1184b1b" ++
  bs "2fa532e0b59e351a582fe90fe8656d84a2842c0a6b5862a787686813a1a579e13b0cc3fbcc37ef7c239452bc447e00210400" ++
  bs "ad56cb188fc70ddbb6d38ee3f883c1a08ac7e33f128944b95c2ef756a6df0f154a298410349bcd7796657d360c43e47239e2" ++
  bs "f138b7b7b7f4fb7d068301a954ea43a552397e0a402945abd5324e4f4f7f4a29d5ddddddb3eaf57aeae4e4444929d32bcfaa" ++
  bs "3600c6e37163676747e4f379003ccfa35028e0ba2e9ee7914aa5d8dbdb63341a7d7c9ac106806ddbe96c368bcfe7c3f33c5c" ++
  bs "d70560369be1ba2e8bc5824c26836ddbbb6b43741cc71f8bc50028168b8f9bd56a150029259aa6319fcfc55ac0d6d6969a4c" ++
  bs "2622140a21a564369b51ad56a9d56a689a06c0f5f535baaedfafbd826118df2ccb7a20fafd04020100344d231008b0582ce8" ++
  bs "76bb2412898bb51d6c6f6f1f753a9d7e381c2697cb2184404a09c0e6e626ed769bc964a2a6d3e92778989bd5533ecec1f9f9" ++
  bs "f9fbc160709c4c26d9dfdf271289301c0eb9bcbce4e6e646f97cbe2fd3e9340f34eaf57ae5196019d69bd168d4180e87bbf3" ++
  bs "f95ce8ba7e6f18c645341a3d2c954adf4dd3bc025e035f8183b3b333e70fc0df649aa6b134eb80031c6cfc9373a97abd6e03" ++
  bs "47cba50ebce27f7ea3699a87a669be554a3d64f012fd020d530624883fe1690000000049454e44ae426082").

Definition ok_with (contentType body : bytes) (resp : HttpResponse.t) : HttpResponse.t :=
  HttpResponse.setBody body (HttpResponse.setContentType contentType
    (HttpResponse.setStatusMessage (bs "OK") (HttpResponse.setStatusCode HttpResponse.k200Ok resp))).

(** The answer to a path with a module and a command, if there is one. *)
Definition run_command (req : HttpRequest.t) (module command : bytes) (args : list bytes) (ins : t) (resp : HttpResponse.t) :
    option HttpResponse.t :=
  commList ← OrderedMap.find module (modules_ ins);
  cb ← OrderedMap.find command commList;
  cb ← cb : Callback;
  Some (HttpResponse.setBody (cb (HttpRequest.method_ req) args) (HttpResponse.setContentType (bs "text/plain")
    (HttpResponse.setStatusMessage (bs "OK") (HttpResponse.setStatusCode HttpResponse.k200Ok resp)))).

Definition onRequest (ins : t) (req : HttpRequest.t) (resp : HttpResponse.t) : res HttpResponse.t :=
  if bool_decide (HttpRequest.path_ req = bs "/") then
    let result := concat (map (fun '(module, list) => concat (map (fun '(command, help) => help_line module command help) list)) (helps_ ins)) in
    mret (ok_with (bs "text/plain") result resp)
  else
    result ← split (HttpRequest.path_ req);
    let answer :=
      match result with
      | [] => None
      | [module] => if bool_decide (module = bs "favicon.ico") then Some (ok_with (bs "image/png") favicon resp) else None
      | module :: command :: args => run_command req module command args ins resp
      end in
    mret (default (HttpResponse.setStatusMessage (bs "Not Found") (HttpResponse.setStatusCode HttpResponse.k404NotFound resp)) answer).
End Inspector.

(** ** The parts of a path *)

Module Paths.

(** A string between its separators. *)
Fixpoint split_on (c : byte) (l : bytes) : list bytes :=
  match l with
  | [] => [[]]
  | x :: l =>
      if decide (x = c) then [] :: split_on c l
      else match split_on c l with p :: ps => (x :: p) :: ps | [] => [[x]] end
  end.

(** The parts that are not empty. *)
Definition components (l : bytes) : list bytes := filter (fun p => p <> []) (split_on slash l).

Lemma split_on_none c l : c ∉ l -> split_on c l = [l].
Proof.
  induction l as [|x l IH]; [done|]. rewrite not_elem_of_cons. intros [Hx Hl]. simpl. rewrite decide_False by congruence.
  by rewrite IH.
Qed.

Lemma split_on_app c a b : c ∉ a -> split_on c (a ++ c :: b) = a :: split_on c b.
Proof.
  induction a as [|x a IH]; simpl; [by rewrite decide_True|]. rewrite not_elem_of_cons. intros [Hx Ha].
  rewrite decide_False by congruence. by rewrite IH.
Qed.

Lemma components_none l : slash ∉ l -> components l = if decide (l = []) then [] else [l].
Proof.
  intros Hl. unfold components. rewrite split_on_none by done. rewrite filter_cons, filter_nil.
  destruct (decide (l = [])) as [->|]; [by rewrite decide_False by auto|by rewrite decide_True].
Qed.

Lemma components_app a b : slash ∉ a -> components (a ++ slash :: b) = (if decide (a = []) then [] else [a]) ++ components b.
Proof.
  intros Ha. unfold components. rewrite split_on_app by done. rewrite filter_cons.
  destruct (decide (a = [])) as [->|]; [by rewrite decide_False by auto|by rewrite decide_True].
Qed.

Lemma split_loop_spec fuel str start result :
  (length (drop start str) <= fuel)%nat ->
  exists start' result', Inspector.split_loop fuel str start (Inspector.find_from slash str start) result = Ok (start', result') /\
    slash ∉ drop start' str /\ result ++ components (drop start str) = result' ++ components (drop start' str).
Proof.
  revert start result. induction fuel as [|fuel IH]; intros start result Hf; unfold Inspector.find_from;
    destruct (find_byte slash (drop start str)) as [i|] eqn:E; simpl;
    try (exists start, result; split_and!; [done|by apply find_byte_None|done]).
  { apply find_byte_lt in E. lia. }
  pose proof (find_byte_lt _ _ _ E) as Hi. apply find_byte_Some in E as [Hat Hbefore].
  destruct (IH (S (start + i)) (if decide (start < start + i)%nat then result ++ [take (start + i - start) (drop start str)] else result))
    as (start' & result' & Hloop & Hnone & Hres).
  { rewrite length_drop in *. lia. }
  exists start', result'. split_and!; [exact Hloop|done|]. rewrite <- Hres.
  rewrite <- (take_drop_middle (drop start str) i slash Hat) at 1. rewrite components_app by done.
  rewrite drop_drop. replace (start + S i)%nat with (S (start + i)) by lia.
  replace (start + i - start)%nat with i by lia. rewrite (app_assoc result). f_equal.
  destruct (decide (take i (drop start str) = [])) as [Hn|Hn].
  - rewrite decide_False; [by rewrite app_nil_r|]. apply (f_equal length) in Hn. rewrite length_take in Hn. simpl in Hn. lia.
  - rewrite decide_True; [done|]. destruct i; [done|lia].
Qed.

Lemma split_spec str : Inspector.split str = Ok (components str).
Proof.
  unfold Inspector.split. destruct (split_loop_spec (length str) str 0 []) as (start & result & -> & Hnone & Hres); [done|].
  change (drop 0 str) with str in Hres. simpl in Hres |- *. rewrite Hres, components_none by done. f_equal.
  case_decide as Hlt; case_decide as Hn; try done.
  - apply (f_equal length) in Hn. rewrite length_drop in Hn. simpl in Hn. lia.
  - by rewrite app_nil_r.
  - exfalso. apply Hn. apply nil_length_inv. rewrite length_drop. lia.
Qed.

(** A path is made of its parts. *)
Lemma components_join l : Forall (fun p => p <> [] /\ slash ∉ p) l -> components (concat (map (cons slash) l)) = l.
Proof.
  assert (forall l a, slash ∉ a -> Forall (fun p => p <> [] /\ slash ∉ p) l ->
    components (a ++ concat (map (cons slash) l)) = (if decide (a = []) then [] else [a]) ++ l) as H.
  { clear l. induction l as [|p l IH]; intros a Ha Hl; simpl; [by rewrite !app_nil_r, components_none|].
    apply list.Forall_cons in Hl as [[Hp Hs] Hl]. rewrite components_app, IH by done. by rewrite (decide_False (P := p = [])). }
  intros Hl. apply (H l []); [apply not_elem_of_nil|done].
Qed.
End Paths.

(** ** The table is a finite map *)

Module InspectorService.
Import Inspector.

Section tables.
Context {V : Type}.
Implicit Types (x : list (bytes * list (bytes * V))).

Definition wf2 x : Prop := OrderedMap.sorted x /\ forall m l, (m, l) ∈ x -> OrderedMap.sorted l.
Definition find2 (m c : bytes) x : option V := l ← OrderedMap.find m x; OrderedMap.find c l.

Lemma at_or_new_sorted m x : wf2 x -> OrderedMap.sorted (at_or_new m x).
Proof.
  intros [Hs Hin]. unfold at_or_new. destruct (OrderedMap.find m x) as [l|] eqn:E; simpl; [|constructor].
  apply OrderedMap.find_elem in E; [|done]. by eapply Hin.
Qed.

Lemma find2_at m c x : find2 m c x = OrderedMap.find c (at_or_new m x).
Proof. unfold find2, at_or_new. by destruct (OrderedMap.find m x). Qed.

Lemma wf2_set m l x : wf2 x -> OrderedMap.sorted l -> wf2 (OrderedMap.set m l x).
Proof.
  intros [Hs Hin] Hl. split; [by apply OrderedMap.set_sorted|]. intros m' l' Hm. apply OrderedMap.elem_set in Hm as [[= -> ->]|[_ Hm]]; [done| |done].
  by eapply Hin.
Qed.

Lemma find2_set_at m l m' c' x : wf2 x ->
  find2 m' c' (OrderedMap.set m l x) = if decide (m' = m) then OrderedMap.find c' l else find2 m' c' x.
Proof.
  intros [Hs _]. unfold find2. case_decide as Hm; [subst; by rewrite OrderedMap.find_set_same|by rewrite OrderedMap.find_set_other].
Qed.

Lemma set2_spec m c v x : wf2 x ->
  wf2 (OrderedMap.set m (OrderedMap.set c v (at_or_new m x)) x) /\
  forall m' c', find2 m' c' (OrderedMap.set m (OrderedMap.set c v (at_or_new m x)) x) = if decide ((m', c') = (m, c)) then Some v else find2 m' c' x.
Proof.
  intros Hx. pose proof (at_or_new_sorted m x Hx) as Hl. split; [by apply wf2_set, OrderedMap.set_sorted|].
  intros m' c'. rewrite find2_set_at by done. case_decide as Hm; [subst m'|by rewrite decide_False by congruence].
  destruct (decide (c' = c)) as [->|Hc]; [by rewrite decide_True, OrderedMap.find_set_same|].
  rewrite decide_False by congruence. by rewrite OrderedMap.find_set_other, find2_at.
Qed.

Lemma erase2_spec m c x : wf2 x ->
  wf2 (OrderedMap.set m (OrderedMap.erase c (at_or_new m x)) x) /\
  forall m' c', find2 m' c' (OrderedMap.set m (OrderedMap.erase c (at_or_new m x)) x) = if decide ((m', c') = (m, c)) then None else find2 m' c' x.
Proof.
  intros Hx. pose proof (at_or_new_sorted m x Hx) as Hl. split; [by apply wf2_set, OrderedMap.erase_sorted|].
  intros m' c'. rewrite find2_set_at by done. case_decide as Hm; [subst m'|by rewrite decide_False by congruence].
  destruct (decide (c' = c)) as [->|Hc]; [by rewrite decide_True, OrderedMap.find_erase_same|].
  rewrite decide_False by congruence. by rewrite OrderedMap.find_erase_other, find2_at.
Qed.

(** The entries in the order of a traversal. *)
Definition entries x : list ((bytes * bytes) * V) := concat (map (fun '(m, l) => map (fun '(c, v) => ((m, c), v)) l) x).

Lemma elem_entries m c v x : wf2 x -> ((m, c), v) ∈ entries x <-> find2 m c x = Some v.
Proof.
  intros [Hs Hin]. unfold entries, find2. rewrite list_elem_of_In, in_concat. setoid_rewrite in_map_iff. rewrite bind_Some. split.
  - intros (_ & ([m' l] & <- & Hm) & ([c' v'] & [= -> -> ->] & Hc)%in_map_iff). apply list_elem_of_In in Hm, Hc.
    exists l. split; [by apply OrderedMap.find_elem|]. apply OrderedMap.find_elem; [by eapply Hin|done].
  - intros (l & Hm & Hc). apply OrderedMap.find_elem in Hm; [|done]. apply OrderedMap.find_elem in Hc; [|by eapply Hin].
    eexists. split; [exists (m, l); split; [reflexivity|by apply list_elem_of_In]|].
    apply in_map_iff. exists (c, v). split; [done|by apply list_elem_of_In].
Qed.

Lemma entries_sorted x : wf2 x -> OrderedSet.sorted (map fst (entries x)).
Proof.
  unfold entries. induction x as [|[m l] x IH]; [constructor|]. intros [Hs Hin]. pose proof Hs as [Hf Hs']%OrderedMap.map_sorted_cons.
  cbn [map concat]. rewrite map_app. apply OrderedSet.sorted_app. split_and!.
  - assert (OrderedMap.sorted l) as Hl by (eapply Hin, list_elem_of_here). clear -Hl.
    induction l as [|[c v] l IH]; [constructor|]. pose proof Hl as [Hf Hl']%OrderedMap.map_sorted_cons. cbn [map fst].
    apply OrderedSet.sorted_cons. split; [|by apply IH]. intros k Hk. apply list_elem_of_In, in_map_iff in Hk as (e & <- & He).
    apply in_map_iff in He as ([c' v'] & <- & Hc'). cbn [fst]. apply list_elem_of_In, Hf in Hc'.
    by rewrite pair_ltb_same.
  - apply IH. split; [done|]. intros m' l' Hm. apply (Hin m'). by apply list_elem_of_further.
  - intros k1 k2 H1 H2. apply list_elem_of_In, in_map_iff in H1 as (e1 & <- & He1). apply in_map_iff in He1 as ([c1 v1] & <- & _).
    apply list_elem_of_In, in_map_iff in H2 as (e2 & <- & He2). apply in_concat in He2 as (l2 & Hl2 & He2).
    apply in_map_iff in Hl2 as ([m2 l2'] & <- & Hm2). apply in_map_iff in He2 as ([c2 v2] & <- & _). cbn [fst].
    apply list_elem_of_In, Hf in Hm2. by apply pair_ltb_first.
Qed.
End tables.

(** ** Commands come and go, requests are answered *)

Inductive op := Add (module command : bytes) (cb : Callback) (help : bytes) | Remove (module command : bytes).

Definition apply_op (ins : t) (o : op) : t :=
  match o with Add m c cb help => add m c cb help ins | Remove m c => remove m c ins end.
Definition table (ops : list op) : t := fold_left apply_op ops Inspector.

(** What the table stands for. *)
Abbreviation registry := (gmap (bytes * bytes) (Callback * bytes)).
Definition spec_op (g : registry) (o : op) : registry :=
  match o with Add m c cb help => <[(m, c) := (cb, help)]> g | Remove m c => delete (m, c) g end.
Definition registered (ops : list op) : registry := fold_left spec_op ops ∅.

Record represents (ins : t) (g : registry) : Prop := {
  rep_modules : wf2 (modules_ ins);
  rep_helps : wf2 (helps_ ins);
  rep_cb m c : find2 m c (modules_ ins) = fst <$> g !! (m, c);
  rep_help m c : find2 m c (helps_ ins) = snd <$> g !! (m, c)
}.

Lemma represents_op ins g o : represents ins g -> represents (apply_op ins o) (spec_op g o).
Proof.
  intros [Hm Hh Hcb Hhelp]. destruct o as [m c cb help|m c]; simpl.
  - destruct (set2_spec m c cb _ Hm) as [Hm' Hcb']. destruct (set2_spec m c help _ Hh) as [Hh' Hhelp']. split; [done..| |]; intros m' c'; simpl.
    + rewrite Hcb'. case_decide as E; [by rewrite E, lookup_insert_eq|]. by rewrite lookup_insert_ne, Hcb by congruence.
    + rewrite Hhelp'. case_decide as E; [by rewrite E, lookup_insert_eq|]. by rewrite lookup_insert_ne, Hhelp by congruence.
  - unfold remove. destruct (OrderedMap.find m (modules_ ins)) as [l|] eqn:E.
    + assert (l = at_or_new m (modules_ ins)) as -> by (unfold at_or_new; by rewrite E).
      destruct (erase2_spec m c _ Hm) as [Hm' Hcb']. destruct (erase2_spec m c _ Hh) as [Hh' Hhelp']. split; [done..| |]; intros m' c'; simpl.
      * rewrite Hcb'. case_decide as Ek; [by rewrite Ek, lookup_delete_eq|]. by rewrite lookup_delete_ne, Hcb by congruence.
      * rewrite Hhelp'. case_decide as Ek; [by rewrite Ek, lookup_delete_eq|]. by rewrite lookup_delete_ne, Hhelp by congruence.
    + rewrite delete_id; [by split|]. specialize (Hcb m c). unfold find2 in Hcb. rewrite E in Hcb. simpl in Hcb. by destruct (g !! (m, c)).
Qed.

Lemma table_represents ops : represents (table ops) (registered ops).
Proof.
  unfold table, registered. assert (represents Inspector ∅) as H.
  { split; try (split; [constructor|intros m l Hin; by apply elem_of_nil in Hin]); done. }
  revert H. generalize Inspector (∅ : registry). induction ops as [|o ops IH]; intros ins g Hr; simpl; [done|]. by apply IH, represents_op.
Qed.

(** The answer that the registry gives. *)
Definition answer (g : registry) (req : HttpRequest.t) (resp : HttpResponse.t) : HttpResponse.t :=
  let not_found := HttpResponse.setStatusMessage (bs "Not Found") (HttpResponse.setStatusCode HttpResponse.k404NotFound resp) in
  match Paths.components (HttpRequest.path_ req) with
  | [] => not_found
  | [module] => if decide (module = bs "favicon.ico") then ok_with (bs "image/png") favicon resp else not_found
  | module :: command :: args =>
      match g !! (module, command) with
      | Some (Some cb, _) => ok_with (bs "text/plain") (cb (HttpRequest.method_ req) args) resp
      | _ => not_found
      end
  end.

Lemma help_page x : concat (map (fun '(module, list) => concat (map (fun '(command, help) => help_line module command help) list)) x) =
  concat (map (fun e => help_line e.1.1 e.1.2 e.2) (entries x)).
Proof.
  unfold entries. induction x as [|[m l] x IH]; [done|]. cbn [map concat]. rewrite map_app, concat_app, IH. f_equal. clear.
  induction l as [|[c h] l IH]; [done|]. cbn [map concat]. by rewrite IH.
Qed.

(** C28: the inspector answers from the commands that are registered.  After any sequence of
    [add] and [remove] the two nested maps are one finite map from module and command to
    callback and help.  The path / gives one line for each registered command, ordered
    by module and command; any other path is cut into its parts that are not empty, the
    loop of [split] ends on every string, and the callback of the first two parts gets
    the others as its arguments; what is not registered, or was removed, is 404. *)
Theorem inspector_serves ops req resp :
  onRequest (table ops) req resp =
    (if decide (HttpRequest.path_ req = bs "/") then
       Ok (ok_with (bs "text/plain") (concat (map (fun e => help_line e.1.1 e.1.2 e.2) (entries (helps_ (table ops))))) resp)
     else Ok (answer (registered ops) req resp)) /\
  OrderedSet.sorted (map fst (entries (helps_ (table ops)))) /\
  forall m c help, ((m, c), help) ∈ entries (helps_ (table ops)) <-> exists cb, registered ops !! (m, c) = Some (cb, help).
Proof.
  destruct (table_represents ops) as [Hm Hh Hcb Hhelp]. split_and!.
  - unfold onRequest. case_decide as Hp; [rewrite bool_decide_eq_true_2 by done; by rewrite help_page|].
    rewrite bool_decide_eq_false_2 by done. rewrite Paths.split_spec. cbn [mbind res_bind mret res_ret]. f_equal. unfold answer.
    destruct (Paths.components (HttpRequest.path_ req)) as [|m [|c args]]; [done| |].
    + by case_decide; [rewrite bool_decide_eq_true_2|rewrite bool_decide_eq_false_2].
    + specialize (Hcb m c). unfold find2 in Hcb. unfold run_command. destruct (OrderedMap.find m (modules_ (table ops))) as [l|]; simpl in *.
      * rewrite Hcb. by destruct (registered ops !! (m, c)) as [[[cb|] ?]|].
      * by destruct (registered ops !! (m, c)) as [[[cb|] ?]|].
  - by apply entries_sorted.
  - intros m c help. rewrite elem_entries, Hhelp by done. rewrite fmap_Some. split.
    + intros ([cb h] & Hg & ->). by exists cb.
    + intros [cb Hg]. by exists (cb, help).
Qed.

Definition demo_ops : list op :=
  [Add (bs "sys") (bs "version") (Some (fun _ _ => bs "Linux")) (bs "print /proc/version");
   Add (bs "proc") (bs "pid") (Some (fun _ args => concat args)) (bs "print pid");
   Add (bs "proc") (bs "status") None (bs "print /proc/self/status"); Remove (bs "proc") (bs "status")].
Definition ask (path : string) : res (Z * bytes) :=
  r ← onRequest (table demo_ops) (HttpRequest.setPath (bs path) HttpRequest.HttpRequest) (HttpResponse.HttpResponse false);
  mret (HttpResponse.statusCode_ r, HttpResponse.body_ r).

Example ask_pages :
  ask "/" = Ok (200, bs "/proc/pid" ++ replicate 18 " "%byte ++ bs "print pid" ++ [LF] ++
    bs "/sys/version" ++ replicate 15 " "%byte ++ bs "print /proc/version" ++ [LF]) /\
  ask "//proc/pid/4/2/" = Ok (200, bs "42") /\ ask "/proc/status" = Ok (404, []) /\ ask "///" = Ok (404, []).
Proof. vm_compute. done. Qed.

Example favicon_is_png : lenZ favicon = 1743 /\ take 8 favicon = [Byte.x89] ++ bs "PNG" ++ [CR; LF; Byte.x1a; LF].
Proof. vm_compute. done. Qed.
End InspectorService.
