(* ===== verification/StaticFiles.v ===== *)
(** The static file service ([muduo/net/http/Util.cpp], [OnRequestCallBack.h]): which file
    a path names, its content type, and the callback that fills in the response. The file
    system and the CGI programs are parameters. *)
From S2P Require Import Prelude Decimal NetBuffer Http.
Open Scope Z_scope.

(** [l.substr(pos, l.size())]: an exception when [pos] is past the end, as [npos] is. *)
Definition substr_from (pos : option nat) (l : bytes) : res bytes :=
  match pos with
  | Some i => if decide (i <= length l)%nat then mret (drop i l) else Fail LogicError
  | None => Fail LogicError
  end.

Module Util.

(** The roots of [ConfigServer]. *)
Record config := mk { html_root : bytes; pic_root : bytes; media_root : bytes; error404_path : bytes }.

Definition ConstructPath (cfg : config) (path : bytes) : res bytes :=
  if decide (path = bs "/") then mret (html_root cfg ++ bs "/index.html")
  else if contains path (bs "jpg") || contains path (bs "ico") || contains path (bs "png") then
    temp ← substr_from (find_last_of slash path) path;
    mret (pic_root cfg ++ temp)
  else if contains path (bs "mp4") || contains path (bs "mp3") then
    temp ← substr_from (find_last_of slash path) path;
    mret (media_root cfg ++ temp)
  else if contains path (bs "html") then mret (html_root cfg ++ path)
  else mret (html_root cfg ++ bs "/404").

(** The loop of [GetExtent] at index [i]; below zero it reads before the string. *)
Fixpoint extent_loop (path : bytes) (i : nat) : res bytes :=
  match path !! i with
  | Some c =>
      if decide (c = "."%byte) then mret (drop (S i) path)
      else match i with
           | O => Fail OutOfBounds
           | S i' => extent_loop path i'
           end
  | None => Fail OutOfBounds
  end.

Definition GetExtent (path : bytes) : res bytes := extent_loop path (length path - 1).

Definition GetContentType (path : bytes) : bytes :=
  if contains path (bs "png") then bs "image/png"
  else if contains path (bs "jpg") then bs "image/jpg"
  else if contains path (bs "ico") then bs "image/x-icon"
  else if contains path (bs "mp4") then bs "video/mpeg4"
  else if contains path (bs "mp3") then bs "video/mpeg"
  else if contains path (bs "html") then bs "text/html"
  else bs "cgi".

Definition tianqi : bytes := bs "/home/wushuohan/webRoot/tianqi.txt".

(** [getline(str, 20)] of a file, then [str] as a C string. *)
Definition getline20 (file : option bytes) : bytes :=
  let f := default [] file in
  let line := take 19 (match find_byte LF f with Some i => take i f | None => f end) in
  match find_byte Byte.x00 line with Some i => take i line | None => line end.

Definition GetContent (read : bytes -> option bytes) (fileName : bytes) : bytes :=
  if contains fileName (bs "weather") then getline20 (read tianqi)
  else default [] (read fileName).

End Util.

Module OnRequest.
Import HttpResponse.

Definition redirect_init : gmap bytes bytes :=
  list_to_map [(bs "/1", bs "www.baidu.com"); (bs "/2", bs "www.sina.com"); (bs "/3", bs "www.sogou.com")].

Section server.
(** The configuration, the table of redirections, the readable files, [stat], and what the
    CGI program for a request prints ([None]: no pipe or no process). *)
Context (cfg : Util.config) (redirections : gmap bytes bytes).
Context (read : bytes -> option bytes) (stat : bytes -> bool) (cgi : HttpRequest.t -> option bytes).

Definition set_status (code : Z) (message : bytes) (resp : t) : t := setStatusMessage message (setStatusCode code resp).

Definition http_server_response_get (req : HttpRequest.t) (resp : t) : res t :=
  match redirections !! HttpRequest.path_ req with
  | Some second =>
      mret (setCloseConnection true (addHeader (bs "Location") second
        (set_status k301MovedPermanently (bs "Moved Permanently") resp)))
  | None =>
      path ← Util.ConstructPath cfg (HttpRequest.path_ req);
      if decide (HttpRequest.path_ req = bs "/") then
        let resp := setContentType (bs "text/html") (set_status k200Ok (bs "OK") resp) in
        let content := Util.GetContent read path in
        if decide (content = []) then
          mret (setBody (Util.GetContent read (Util.error404_path cfg))
            (setContentType (bs "text/html") (set_status k404NotFound (bs "Not Found") resp)))
        else mret (setContentType (bs "text/html") (set_status k200Ok (bs "OK") (setBody content resp)))
      else
        let type := Util.GetContentType (HttpRequest.path_ req) in
        if decide (type <> bs "cgi") then
          let ret := if stat path then 0 else -1 in
          let ret := if contains (HttpRequest.path_ req) (bs "weather")
                     then if read Util.tianqi is Some _ then 1 else ret else ret in
          if decide (ret < 0) then
            mret (setBody (Util.GetContent read (Util.error404_path cfg)) (setCloseConnection true
              (set_status k404NotFound (bs "Not Found") resp)))
          else
            mret (setBody (Util.GetContent read path) (setContentType type (set_status k200Ok (bs "OK") resp)))
        else
          let resp := set_status k200Ok (bs "OK") resp in
          match cgi req with
          | Some cgibody => mret (setBody cgibody resp)
          | None => mret resp
          end
  end.
End server.
End OnRequest.

(** ** What a path names *)

Module StaticPaths.
Import Util.

Definition is_picture (path : bytes) : Prop :=
  contains path (bs "jpg") = true \/ contains path (bs "ico") = true \/ contains path (bs "png") = true.
Definition is_media (path : bytes) : Prop := contains path (bs "mp4") = true \/ contains path (bs "mp3") = true.

#[global] Instance is_picture_dec path : Decision (is_picture path) := _.
#[global] Instance is_media_dec path : Decision (is_media path) := _.

(** The specification of [ConstructPath]: the file that a path names. Pictures and media
    are named by the last component alone. *)
Inductive names (cfg : config) : bytes -> bytes -> Prop :=
  | names_index : names cfg [slash] (html_root cfg ++ bs "/index.html")
  | names_picture dir name :
      is_picture (dir ++ slash :: name) -> slash ∉ name ->
      names cfg (dir ++ slash :: name) (pic_root cfg ++ slash :: name)
  | names_media dir name :
      ~ is_picture (dir ++ slash :: name) -> is_media (dir ++ slash :: name) -> slash ∉ name ->
      names cfg (dir ++ slash :: name) (media_root cfg ++ slash :: name)
  | names_page path :
      path <> [slash] -> ~ is_picture path -> ~ is_media path -> contains path (bs "html") = true ->
      names cfg path (html_root cfg ++ path)
  | names_nothing path :
      path <> [slash] -> ~ is_picture path -> ~ is_media path -> contains path (bs "html") = false ->
      names cfg path (html_root cfg ++ bs "/404").

(** Paths on which [substr] throws. *)
Definition throws (path : bytes) : Prop := (is_picture path \/ is_media path) /\ slash ∉ path.

Lemma last_component path :
  match substr_from (find_last_of slash path) path with
  | Ok temp => exists dir name, path = dir ++ slash :: name /\ slash ∉ name /\ temp = slash :: name
  | Fail e => e = LogicError /\ slash ∉ path
  end.
Proof.
  unfold substr_from. destruct (find_last_of slash path) as [i|] eqn:Hi.
  - apply find_last_of_Some in Hi as (a & b & -> & Hb & ->). rewrite decide_True by (rewrite length_app; lia). simpl.
    exists a, b. by rewrite drop_app_length.
  - by apply find_last_of_None in Hi.
Qed.

Lemma ConstructPath_cases cfg path :
  match ConstructPath cfg path with
  | Ok p => names cfg path p /\ ~ throws path
  | Fail e => e = LogicError /\ throws path
  end.
Proof.
  unfold ConstructPath, throws. destruct (decide (path = bs "/")) as [->|Hne].
  { split; [constructor|]. by intros [[[?|[?|?]]|[?|?]] _]. }
  pose proof (last_component path) as Hl.
  destruct (contains path (bs "jpg") || _ || _) eqn:Hp.
  { assert (is_picture path) as Hpic by (unfold is_picture; rewrite !orb_true_iff in Hp; tauto).
    destruct (substr_from _ _) as [temp|e]; simpl; [|naive_solver].
    destruct Hl as (dir & name & -> & Hn & ->). split; [by constructor|]. intros [_ Hs]. apply Hs.
    apply elem_of_app. right. left. }
  assert (~ is_picture path) as Hnp.
  { unfold is_picture. rewrite !orb_false_iff in Hp. destruct Hp as [[-> ->] ->]. naive_solver. }
  destruct (contains path (bs "mp4") || _) eqn:Hm.
  { assert (is_media path) as Hmed by (unfold is_media; rewrite !orb_true_iff in Hm; tauto).
    destruct (substr_from _ _) as [temp|e]; simpl; [|naive_solver].
    destruct Hl as (dir & name & -> & Hn & ->). split; [by constructor|]. intros [_ Hs]. apply Hs.
    apply elem_of_app. right. left. }
  assert (~ is_media path) as Hnm.
  { unfold is_media. rewrite !orb_false_iff in Hm. destruct Hm as [-> ->]. naive_solver. }
  destruct (contains path (bs "html")) eqn:Hh; (split; [by constructor|naive_solver]).
Qed.
End StaticPaths.

Module StaticService.
Import HttpResponse OnRequest StaticPaths.

(** The paths that name a program: not the root, and no extension of a file in them. *)
Definition is_program (path : bytes) : Prop :=
  path <> [slash] /\ ~ is_picture path /\ ~ is_media path /\ contains path (bs "html") = false.

Lemma content_type_cgi path : Util.GetContentType path = bs "cgi" <-> ~ is_picture path /\ ~ is_media path /\ contains path (bs "html") = false.
Proof.
  unfold Util.GetContentType, is_picture, is_media.
  destruct (contains path (bs "png")), (contains path (bs "jpg")), (contains path (bs "ico")), (contains path (bs "mp4")),
    (contains path (bs "mp3")), (contains path (bs "html")); split; first [by intros [=]|naive_solver].
Qed.

(** Whether the file [p] that a path names is missing: the page of the root has no contents;
    another file does not exist, nor does the weather report if the path asks for it. *)
Definition missing (read : bytes -> option bytes) (stat : bytes -> bool) (path p : bytes) : Prop :=
  if decide (path = [slash]) then Util.GetContent read p = []
  else stat p = false /\ (contains path (bs "weather") = true -> read Util.tianqi = None).

(** C19: The static file callback. It throws exactly on a path that is not redirected, names a
    picture or media file and has no slash. Otherwise a redirected path is answered 301 with
    its location; a path that names a program is answered 200 with what the program prints;
    a path whose file is missing is answered 404 with the error page; and any other path is
    answered 200 with the contents of the file that it names and their type. *)
Theorem static_get_spec cfg redirections read stat cgi req resp :
  let path := HttpRequest.path_ req in
  match http_server_response_get cfg redirections read stat cgi req resp with
  | Fail e => e = LogicError /\ redirections !! path = None /\ throws path
  | Ok r =>
      match redirections !! path with
      | Some loc =>
          statusCode_ r = k301MovedPermanently /\ headers_ r = map_set (bs "Location") loc (headers_ resp) /\
          closeConnection_ r = true /\ body_ r = body_ resp
      | None => ~ throws path /\ exists p, names cfg path p /\
          (is_program path ->
             statusCode_ r = k200Ok /\ body_ r = default (body_ resp) (cgi req) /\ closeConnection_ r = closeConnection_ resp) /\
          (~ is_program path -> missing read stat path p ->
             statusCode_ r = k404NotFound /\ statusMessage_ r = bs "Not Found" /\
             body_ r = Util.GetContent read (Util.error404_path cfg) /\ (path <> [slash] -> closeConnection_ r = true)) /\
          (~ is_program path -> ~ missing read stat path p ->
             statusCode_ r = k200Ok /\ statusMessage_ r = bs "OK" /\ body_ r = Util.GetContent read p /\
             closeConnection_ r = closeConnection_ resp /\
             (path <> [slash] -> headers_ r = map_set (bs "Content-Type") (Util.GetContentType path) (headers_ resp)))
      end
  end.
Proof.
  intros path. unfold http_server_response_get. fold path. destruct (redirections !! path) as [loc|] eqn:Hr; [done|].
  pose proof (ConstructPath_cases cfg path) as Hp. destruct (Util.ConstructPath cfg path) as [p|e]; simpl; [|tauto].
  destruct Hp as [Hp Hth]. unfold is_program. destruct (decide (path = bs "/")) as [Hroot|Hroot].
  { change (bs "/") with [slash] in Hroot.
    destruct (decide (Util.GetContent read p = [])) as [He|He]; simpl; (split; [done|]); exists p; unfold missing;
      rewrite decide_True by done; naive_solver. }
  change (bs "/") with [slash] in Hroot. pose proof (content_type_cgi path) as Hcgi.
  destruct (decide (Util.GetContentType path <> bs "cgi")) as [Ht|Ht].
  - assert (~ is_program path) as Hnp by (unfold is_program; naive_solver). unfold is_program in Hnp.
    assert (missing read stat path p <-> (if contains path (bs "weather") then if read Util.tianqi is Some _ then 1 else if stat p then 0 else -1
      else if stat p then 0 else -1) < 0) as Hm.
    { unfold missing. rewrite decide_False by done.
      destruct (contains path (bs "weather")), (read Util.tianqi), (stat p); split; try done; try (by intros [? ?]); naive_solver. }
    destruct (decide _) as [Hs|Hs]; simpl; (split; [done|]); exists p; (split; [done|]).
    + split_and!; [done|intros _ _; by split_and!|]. intros _ Hn. by destruct Hn; apply Hm.
    + split_and!; [done|intros _ Hmi; by destruct Hs; apply Hm|]. intros _ _. by split_and!.
  - apply dec_stable in Ht. apply Hcgi in Ht. destruct (cgi req) as [c|]; simpl; (split; [done|]); exists p; (split; [done|]); naive_solver.
Qed.

Definition demo_config : Util.config := Util.mk (bs "/html") (bs "/image") (bs "/media") (bs "/html/404.html").

Definition demo_read (secret : bytes) (name : bytes) : option bytes :=
  if decide (name = bs "/html/html/../../secret") then Some secret else None.

(** The whole server on this service. *)
Definition serve (read : bytes -> option bytes) (target : bytes) :=
  HttpServer.onMessage
    (http_server_response_get demo_config redirect_init read (fun _ => true) (fun _ => None)) false true
    (HttpService.received (HttpParse.print_request (bs "GET") target [] "1"%byte [])) 0 HttpContext.HttpContext.

(** What a request can do to the server: a picture path without a slash ends the process
    with an exception of [substr]; a page path with dots leaves the root of the pages; the
    extension loop runs off the string when it has no dot. *)
Theorem static_server_hazards secret :
  serve (demo_read secret) (bs "jpg") = Fail LogicError /\
  Util.ConstructPath demo_config (bs "/html/../../secret") = Ok (bs "/html/html/../../secret") /\
  (exists r, http_server_response_get demo_config redirect_init (demo_read secret) (fun _ => true) (fun _ => None)
     (HttpRequest.setPath (bs "/html/../../secret") HttpRequest.HttpRequest) (HttpResponse false) = Ok r /\
     statusCode_ r = k200Ok /\ body_ r = secret) /\
  (forall path, "."%byte ∉ path -> Util.GetExtent path = Fail OutOfBounds).
Proof.
  split_and!.
  - vm_compute. reflexivity.
  - vm_compute. reflexivity.
  - eexists. split; [vm_compute; reflexivity|]. split; reflexivity.
  - intros path Hdot. unfold Util.GetExtent. generalize (length path - 1)%nat. intros i.
    induction i as [|i IH]; simpl; destruct (path !! _) as [c|] eqn:Hc; try done.
    all: rewrite decide_False; [done|]; intros ->; apply Hdot; by eapply list_elem_of_lookup_2.
Qed.
End StaticService.
