(* ===== verification/EventLoop.v ===== *)
(** The event loop's functor queue ([muduo/net/EventLoop.h], [EventLoop.cc]).

    The loop thread and the other threads interleave: each step below is what one thread
    does between two points where the others can act (the critical section of [mutex_],
    one access to an atomic flag, one read or write of the event descriptor).  What the
    callbacks of channels and the functors do to the loop is a program of calls. *)
From S2P Require Import Prelude.
Open Scope Z_scope.

Module EventLoop.
Section loop.
(** [F]: what a functor is bound to. *)
Context {F : Type}.

(** The calls of the loop's interface that a functor or a callback makes in the loop
    thread.  [Run f] is [runInLoop(f)], which calls [f] at once; [ReadWakeup] is
    [EventLoop::handleRead], the callback of the wake-up channel. *)
Inductive call :=
  | Queue (f : F)
  | Run (f : F)
  | Quit
  | ReadWakeup.

(** What a functor may do: its behaviours. *)
Context (code : F -> list call -> Prop).

(** Whether code in the loop thread may call [queueInLoop] outside [loop()]. *)
Context (early : bool).

(** Where the loop thread is. *)
Inductive pc :=
  | Outside                          (* not in loop() *)
  | Check                            (* the test of while (!quit_) *)
  | Polling                          (* in poll, or about to call it *)
  | Handling (todo : list (list call)) (* the channels that are still to be handled *)
  | Swap                             (* doPendingFunctors, before the swap *)
  | Calling (rest : list F).         (* functors of this round still to be called *)

(** [evfd] is the counter of [wakeupFd_]; [owed] counts the threads that have changed
    [pendingFunctors_] or [quit_] and have not yet called [wakeup]. [running] is what is left
    of the functor or callback being run; [pushed] and [called] are the history. *)
Record t := mk {
  at_ : pc;
  running : list call;
  quit_ : bool;
  looping_ : bool;
  eventHandling_ : bool;
  callingPendingFunctors_ : bool;
  iteration_ : Z;
  pendingFunctors_ : list F;
  evfd : Z;
  owed : nat;
  pushed : list F;
  called : list F
}.

Definition init : t := mk Outside [] false false false false 0 [] 0 0 [] [].

Definition set_pc p s := mk p (running s) (quit_ s) (looping_ s) (eventHandling_ s)
  (callingPendingFunctors_ s) (iteration_ s) (pendingFunctors_ s) (evfd s) (owed s) (pushed s) (called s).
Definition set_running r s := mk (at_ s) r (quit_ s) (looping_ s) (eventHandling_ s)
  (callingPendingFunctors_ s) (iteration_ s) (pendingFunctors_ s) (evfd s) (owed s) (pushed s) (called s).
Definition set_quit q s := mk (at_ s) (running s) q (looping_ s) (eventHandling_ s)
  (callingPendingFunctors_ s) (iteration_ s) (pendingFunctors_ s) (evfd s) (owed s) (pushed s) (called s).
Definition set_looping b s := mk (at_ s) (running s) (quit_ s) b (eventHandling_ s)
  (callingPendingFunctors_ s) (iteration_ s) (pendingFunctors_ s) (evfd s) (owed s) (pushed s) (called s).
Definition set_handling b s := mk (at_ s) (running s) (quit_ s) (looping_ s) b
  (callingPendingFunctors_ s) (iteration_ s) (pendingFunctors_ s) (evfd s) (owed s) (pushed s) (called s).
Definition set_calling b s := mk (at_ s) (running s) (quit_ s) (looping_ s) (eventHandling_ s)
  b (iteration_ s) (pendingFunctors_ s) (evfd s) (owed s) (pushed s) (called s).
Definition set_iteration n s := mk (at_ s) (running s) (quit_ s) (looping_ s) (eventHandling_ s)
  (callingPendingFunctors_ s) n (pendingFunctors_ s) (evfd s) (owed s) (pushed s) (called s).
Definition set_pending l s := mk (at_ s) (running s) (quit_ s) (looping_ s) (eventHandling_ s)
  (callingPendingFunctors_ s) (iteration_ s) l (evfd s) (owed s) (pushed s) (called s).
Definition set_evfd n s := mk (at_ s) (running s) (quit_ s) (looping_ s) (eventHandling_ s)
  (callingPendingFunctors_ s) (iteration_ s) (pendingFunctors_ s) n (owed s) (pushed s) (called s).
Definition set_owed n s := mk (at_ s) (running s) (quit_ s) (looping_ s) (eventHandling_ s)
  (callingPendingFunctors_ s) (iteration_ s) (pendingFunctors_ s) (evfd s) n (pushed s) (called s).

(** [pendingFunctors_.push_back(cb)] under the lock. *)
Definition push (f : F) (s : t) : t :=
  mk (at_ s) (running s) (quit_ s) (looping_ s) (eventHandling_ s) (callingPendingFunctors_ s) (iteration_ s)
     (pendingFunctors_ s ++ [f]) (evfd s) (owed s) (pushed s ++ [f]) (called s).

(** [wakeup] writes 1 to the event descriptor, which adds it to the counter. *)
Definition wakeup (s : t) : t := set_evfd (evfd s + 1) s.

(** [handleRead] reads the descriptor, which resets the counter. *)
Definition handleRead (s : t) : t := set_evfd 0 s.

(** [queueInLoop] called in the loop thread. *)
Definition queueInLoop (f : F) (s : t) : t :=
  let s := push f s in
  if callingPendingFunctors_ s then wakeup s else s.

(** One call made in the loop thread; [runInLoop] runs a behaviour of the functor. *)
Inductive do_call : call -> t -> t -> Prop :=
  | do_queue f s : (at_ s = Outside -> early = true) -> do_call (Queue f) s (queueInLoop f s)
  | do_run f b s : code f b -> do_call (Run f) s (set_running (b ++ running s) s)
  | do_quit s : do_call Quit s (set_quit true s)
  | do_read s : do_call ReadWakeup s (handleRead s).

(** What the other threads do: [queueInLoop] and [quit] change the state first and call
    [wakeup] afterwards. *)
Inductive other_step : t -> t -> Prop :=
  | other_queue f s : other_step s (set_owed (S (owed s)) (push f s))
  | other_quit s : other_step s (set_owed (S (owed s)) (set_quit true s))
  | other_wakeup s n : owed s = S n -> other_step s (set_owed n (wakeup s)).

(** The loop thread.  [poll] returns the callbacks of the active channels, that of the
    wake-up channel among them only when the event descriptor is readable (it may not be
    among them when other channels are ready too). *)
Inductive loop_step : t -> t -> Prop :=
  | loop_call c r s s' :
      running s = c :: r -> do_call c (set_running r s) s' -> loop_step s s'
  | loop_user b s :
      running s = [] -> at_ s = Outside -> ReadWakeup ∉ b -> loop_step s (set_running b s)
  | loop_start s :
      running s = [] -> at_ s = Outside ->
      loop_step s (set_pc Check (set_quit false (set_looping true s)))
  | loop_exit s :
      running s = [] -> at_ s = Check -> quit_ s = true ->
      loop_step s (set_pc Outside (set_looping false s))
  | loop_again s :
      running s = [] -> at_ s = Check -> quit_ s = false ->
      loop_step s (set_pc Polling s)
  | loop_poll todo s :
      running s = [] -> at_ s = Polling ->
      ([ReadWakeup] ∈ todo -> 0 < evfd s) -> (forall b, b ∈ todo -> ReadWakeup ∈ b -> b = [ReadWakeup]) ->
      loop_step s (set_pc (Handling todo) (set_handling true (set_iteration (iteration_ s + 1) s)))
  | loop_handle b todo s :
      running s = [] -> at_ s = Handling (b :: todo) ->
      loop_step s (set_running b (set_pc (Handling todo) s))
  | loop_handled s :
      running s = [] -> at_ s = Handling [] ->
      loop_step s (set_pc Swap (set_calling true (set_handling false s)))
  | loop_swap s :
      running s = [] -> at_ s = Swap ->
      loop_step s (set_pc (Calling (pendingFunctors_ s)) (set_pending [] s))
  | loop_functor f b rest s :
      running s = [] -> at_ s = Calling (f :: rest) -> code f b ->
      loop_step s (set_running b
        (mk (Calling rest) [] (quit_ s) (looping_ s) (eventHandling_ s) (callingPendingFunctors_ s) (iteration_ s)
            (pendingFunctors_ s) (evfd s) (owed s) (pushed s) (called s ++ [f])))
  | loop_called s :
      running s = [] -> at_ s = Calling [] ->
      loop_step s (set_pc Check (set_calling false s)).

Inductive step : t -> t -> Prop :=
  | step_loop s s' : loop_step s s' -> step s s'
  | step_other s s' : other_step s s' -> step s s'.

Definition reachable (s : t) : Prop := rtc step init s.

(** The functors that the current round has still to call. *)
Definition round (s : t) : list F :=
  match at_ s with Calling rest => rest | _ => [] end.

(** ** Invariants *)

Definition is_outside (p : pc) : bool := match p with Outside => true | _ => false end.
Definition is_handling (p : pc) : bool := match p with Handling _ => true | _ => false end.
Definition is_calling (p : pc) : bool := match p with Swap | Calling _ => true | _ => false end.

(** User code runs outside [loop()], in the callbacks and in the functors. *)
Definition may_run (p : pc) : bool := match p with Outside | Handling _ | Calling _ => true | _ => false end.

(** The flags say where the loop thread is. *)
Record flags (s : t) : Prop := {
  fl_looping : looping_ s = negb (is_outside (at_ s));
  fl_handling : eventHandling_ s = is_handling (at_ s);
  fl_calling : callingPendingFunctors_ s = is_calling (at_ s);
  fl_evfd : 0 <= evfd s;
  fl_read : ReadWakeup ∈ running s -> is_handling (at_ s) = true;
  fl_running : running s <> [] -> may_run (at_ s) = true
}.

(** Before the swap of this iteration. *)
Definition before_swap (p : pc) : bool := match p with Handling _ | Swap => true | _ => false end.
Definition is_polling (p : pc) : bool := match p with Polling => true | _ => false end.

(** Nobody sleeps while there is work. *)
Record awake (s : t) : Prop := {
  aw_pending : pendingFunctors_ s = [] \/ 0 < evfd s \/ (0 < owed s)%nat \/ before_swap (at_ s) = true;
  aw_quit : is_polling (at_ s) = false \/ quit_ s = false \/ 0 < evfd s \/ (0 < owed s)%nat
}.

Definition fifo (s : t) : Prop := pushed s = called s ++ round s ++ pendingFunctors_ s.

Section invariants.
Hypothesis code_public : forall f b, code f b -> ReadWakeup ∉ b.

Lemma flags_other s s' : flags s -> other_step s s' -> flags s'.
Proof using Type.
  intros [] Ho. destruct Ho; split; simpl; try done. lia.
Qed.

Lemma flags_call c r s s' :
  flags s -> running s = c :: r -> do_call c (set_running r s) s' -> flags s'.
Proof using code_public.
  intros [Hl Hh Hc He Hr Hn] Hrun Hd.
  assert (forall x, x ∈ r -> x ∈ running s) as Hsub by (intros x ?; rewrite Hrun; by right).
  assert (may_run (at_ s) = true) as Hat by (apply Hn; by rewrite Hrun).
  inversion Hd; subst; clear Hd.
  - unfold queueInLoop, push, wakeup. simpl. destruct (callingPendingFunctors_ s) eqn:E; split; simpl; try done; try lia.
    all: intros Hin; by apply Hr, Hsub.
  - split; simpl; try done. intros [Hin|Hin]%elem_of_app; [|by apply Hr, Hsub].
    by match goal with H : code _ _ |- _ => apply (code_public _ _ H) in Hin end.
  - split; simpl; try done. intros Hin. by apply Hr, Hsub.
  - split; simpl; try done; try lia. intros Hin. by apply Hr, Hsub.
Qed.

Lemma flags_loop s s' : flags s -> loop_step s s' -> flags s'.
Proof using code_public.
  intros Hf Hl. destruct Hl as [c r s s' Hrun Hd|b s Hrun Hat Hb|s Hrun Hat|s Hrun Hat Hq|s Hrun Hat Hq
    |todo s Hrun Hat Hw Hb|b todo s Hrun Hat|s Hrun Hat|s Hrun Hat|f b rest s Hrun Hat Hb|s Hrun Hat].
  { by eapply flags_call. }
  all: destruct Hf as [Hl Hh Hc He Hr Hn]; rewrite Hat in *; split; simpl; rewrite ?Hrun in *; simpl in *; try done.
  all: rewrite ?Hat; try done.
  all: try (intros Hin; by apply elem_of_nil in Hin).
  intros Hin. by apply (code_public _ _ Hb) in Hin.
Qed.

Lemma flags_step s s' : flags s -> step s s' -> flags s'.
Proof using code_public. intros Hf Hs. destruct Hs as [s1 s2 Hl|s1 s2 Ho]; [by eapply flags_loop|by eapply flags_other]. Qed.

Lemma fifo_step s s' : fifo s -> step s s' -> fifo s'.
Proof using Type.
  unfold fifo. intros Hf Hs. destruct Hs as [s1 s2 Hl|s1 s2 Ho].
  - destruct Hl as [c r s1 s2 Hrun Hd|b s1 Hrun Hat Hb|s1 Hrun Hat|s1 Hrun Hat Hq|s1 Hrun Hat Hq
      |todo s1 Hrun Hat Hw Hb|b todo s1 Hrun Hat|s1 Hrun Hat|s1 Hrun Hat|f b rest s1 Hrun Hat Hb|s1 Hrun Hat].
    { inversion Hd; subst; try exact Hf. unfold queueInLoop, push, wakeup, round in *. simpl in *.
      destruct (callingPendingFunctors_ s1); simpl; rewrite Hf, !app_assoc; done. }
    all: unfold round in *; simpl; rewrite ?Hat in *; try exact Hf.
    + by rewrite app_nil_r.
    + by rewrite Hf, <- app_assoc.
  - destruct Ho; unfold round in *; simpl; [|exact Hf..]. by rewrite Hf, !app_assoc.
Qed.

Lemma awake_other s s' : flags s -> awake s -> other_step s s' -> awake s'.
Proof using Type.
  intros Hf [Hp Hq] Ho. pose proof (fl_evfd _ Hf). destruct Ho; split; simpl; auto with lia.
Qed.

Lemma awake_call c r s s' :
  early = false -> flags s -> awake s -> running s = c :: r -> do_call c (set_running r s) s' -> awake s'.
Proof using Type.
  intros Hearly Hf [Hp Hq] Hrun Hd. pose proof (fl_evfd _ Hf) as Hev.
  pose proof (fl_running _ Hf) as Hmay. rewrite Hrun in Hmay. specialize (Hmay ltac:(done)).
  inversion Hd; subst; clear Hd.
  - unfold queueInLoop, push, wakeup. simpl. rewrite (fl_calling _ Hf).
    destruct (at_ s) eqn:Hat; simpl in *; try done.
    + exfalso. match goal with H : _ -> _ = true |- _ => specialize (H Hat) end. congruence.
    + split; simpl; rewrite ?Hat; auto.
    + split; simpl; rewrite ?Hat; right; [left|]; lia.
  - split; simpl; [done|]. destruct (at_ s); simpl in *; auto; done.
  - split; simpl; [done|]. destruct (at_ s); simpl in *; auto; done.
  - pose proof (fl_read _ Hf) as Hr. rewrite Hrun in Hr. specialize (Hr ltac:(left)).
    destruct (at_ s) eqn:Hat; try done. split; simpl; rewrite ?Hat; simpl; auto.
Qed.

Lemma awake_loop s s' : early = false -> flags s -> awake s -> loop_step s s' -> awake s'.
Proof using Type.
  intros Hearly Hf Ha Hl. destruct Hl as [c r s1 s2 Hrun Hd|b s1 Hrun Hat Hb|s1 Hrun Hat|s1 Hrun Hat Hqt|s1 Hrun Hat Hqt
      |todo s1 Hrun Hat Hw Hb|b todo s1 Hrun Hat|s1 Hrun Hat|s1 Hrun Hat|f b rest s1 Hrun Hat Hb|s1 Hrun Hat].
  { by eapply awake_call. }
  all: destruct Ha as [Hp Hq]; rewrite Hat in *; split; simpl in *; rewrite ?Hat; simpl; auto.
Qed.

Lemma reachable_inv s :
  reachable s -> flags s /\ fifo s /\ (early = false -> awake s).
Proof using code_public.
  intros Hr. unfold reachable in Hr. revert s Hr. apply (@rtc_ind_r _ step (fun s => flags s /\ fifo s /\ (early = false -> awake s)) init).
  - split_and!; [split; simpl; try done; by intros ?%elem_of_nil|done|]. intros _. split; simpl; auto.
  - intros s1 s2 _ Hs (Hf & Hq & Ha). split_and!; [by eapply flags_step|by eapply fifo_step|].
    intros He. destruct Hs as [s1 s2 Hl|s1 s2 Ho]; [eapply awake_loop|eapply awake_other]; eauto.
Qed.

End invariants.

(** [quit_] is only reset by [loop()] itself, when it begins. *)
Lemma quit_step s s' : negb (is_outside (at_ s)) = true -> quit_ s = true -> step s s' -> quit_ s' = true.
Proof.
  intros Hat Hq Hs. destruct Hs as [s1 s2 Hl|s1 s2 Ho]; [|by destruct Ho].
  destruct Hl as [c r s1 s2 Hrun Hd| | | | | | | | | |]; try done.
  - inversion Hd; subst; try done. unfold queueInLoop, push, wakeup. simpl. by destruct (callingPendingFunctors_ s1).
  - match goal with H : at_ _ = Outside |- _ => rewrite H in Hat end. done.
Qed.

(** What was queued before the swap of an iteration, seen later: the swap is still to come,
    or the functors are called or in the round; or they have been called. *)
Definition in_round (l : list F) (s : t) : Prop :=
  match at_ s with
  | Handling _ | Swap => l `prefix_of` pushed s
  | Calling rest => l `prefix_of` called s ++ rest
  | _ => False
  end.

Lemma called_step s s' : step s s' -> called s `prefix_of` called s'.
Proof.
  intros Hs. destruct Hs as [s1 s2 Hl|s1 s2 Ho]; [|by destruct Ho].
  destruct Hl as [c r s1 s2 Hrun Hd| | | | | | | | | |]; try done.
  - inversion Hd; subst; try done. unfold queueInLoop, push, wakeup. simpl. by destruct (callingPendingFunctors_ s1).
  - simpl. by apply prefix_app_r.
Qed.

Lemma round_step l s s' :
  fifo s -> in_round l s \/ l `prefix_of` called s -> step s s' -> in_round l s' \/ l `prefix_of` called s'.
Proof.
  intros Hf [Hin|Hc] Hs; [|right; etransitivity; [exact Hc|by eapply called_step]].
  destruct Hs as [s1 s2 Hl|s1 s2 Ho].
  - destruct Hl as [c r s1 s2 Hrun Hd|b s1 Hrun Hat Hb|s1 Hrun Hat|s1 Hrun Hat Hq|s1 Hrun Hat Hq
      |todo s1 Hrun Hat Hw Hb|b todo s1 Hrun Hat|s1 Hrun Hat|s1 Hrun Hat|f b rest s1 Hrun Hat Hb|s1 Hrun Hat].
    { left. inversion Hd; subst; try exact Hin. unfold queueInLoop, push, wakeup, in_round in *. simpl in *.
      destruct (callingPendingFunctors_ s1); simpl; destruct (at_ s1); try exact Hin; by apply prefix_app_r. }
    all: unfold in_round in *; simpl in *; rewrite ?Hat in *; try done; try (by left).
    + left. unfold fifo, round in Hf. rewrite Hat in Hf. simpl in Hf. by rewrite Hf in Hin.
    + left. by rewrite <- app_assoc.
    + right. by rewrite app_nil_r in Hin.
  - left. unfold in_round in *. destruct Ho; simpl; [|exact Hin..]. destruct (at_ s); try exact Hin; by apply prefix_app_r.
Qed.

Lemma round_calls s s' : fifo s -> before_swap (at_ s) = true -> rtc step s s' ->
  in_round (pushed s) s' \/ pushed s `prefix_of` called s'.
Proof.
  intros Hf Hat Hs. assert (in_round (pushed s) s \/ pushed s `prefix_of` called s) as H.
  { left. unfold in_round. by destruct (at_ s). }
  revert H Hf. generalize (pushed s) as l. clear Hat. induction Hs as [s|s s1 s2 Hs1 _ IH]; intros l H Hf; [done|].
  apply IH; [by eapply round_step|by eapply fifo_step].
Qed.
End loop.

(** ** Claims *)

(** C8: no wake-up is lost.  Functors are arbitrary programs of calls of the loop's
    interface, the threads interleave arbitrarily, and the loop thread queues functors only
    while it is in [loop()].  When the loop thread is in [poll] and every other thread has
    finished its call, a waiting functor or a [quit_] that is set has made the wake-up
    descriptor readable, so that [poll] does not sleep: it sleeps only when no functor waits
    and [quit_] is not set; and a [quit_] that is set while the loop runs stays set until
    the loop has ended.  (A [quit] before [loop()] is forgotten, see
    [queue_before_loop_sleeps].) *)
Theorem no_lost_wakeup {F} (code : F -> list call -> Prop) (s : t) :
  (forall f b, code f b -> ReadWakeup ∉ b) ->
  reachable code false s ->
  (at_ s = Polling -> owed s = 0%nat -> pendingFunctors_ s <> [] \/ quit_ s = true -> 0 < evfd s) /\
  (at_ s = Polling -> owed s = 0%nat -> evfd s = 0 -> pendingFunctors_ s = [] /\ quit_ s = false) /\
  (forall s', looping_ s = true -> quit_ s = true -> step code false s s' -> quit_ s' = true).
Proof.
  intros Hcode Hr. destruct (reachable_inv _ _ Hcode s Hr) as (Hf & _ & Ha).
  destruct (Ha eq_refl) as [Hp Hq]. pose proof (fl_evfd _ Hf) as He. split_and!.
  - intros Hat O0. rewrite Hat in Hp, Hq. simpl in Hp, Hq. intros [Hne|Hqt].
    + destruct Hp as [|[?|[?|?]]]; done || lia.
    + destruct Hq as [|[?|[?|?]]]; congruence || lia.
  - intros Hat O0 E0. rewrite Hat in Hp, Hq. simpl in Hp, Hq.
    split; [destruct Hp as [|[?|[?|?]]]|destruct Hq as [|[?|[?|?]]]]; try done; lia.
  - intros s' Hl Hqt Hs. rewrite (fl_looping _ Hf) in Hl. by eapply quit_step.
Qed.

(** C9: functors are called once, in the order of [queueInLoop], and none is lost.
    Whatever the threads do, the functors queued so far are those called so far, followed
    by those the current round has still to call, followed by [pendingFunctors_]; outside
    a round none is in between.  Each round calls all functors that were queued before its
    swap: they have been called when the loop is back at its test.  (What is queued after
    the last swap before the loop quits stays in [pendingFunctors_].)  The flags
    [looping_], [eventHandling_] and [callingPendingFunctors_] say where the loop thread
    is. *)
Theorem functors_fifo {F} (code : F -> list call -> Prop) (early : bool) (s : t) :
  (forall f b, code f b -> ReadWakeup ∉ b) -> reachable code early s ->
  pushed s = called s ++ round s ++ pendingFunctors_ s /\
  (callingPendingFunctors_ s = false -> pushed s = called s ++ pendingFunctors_ s) /\
  (forall s', before_swap (at_ s) = true -> rtc (step code early) s s' -> at_ s' = Check ->
     pushed s `prefix_of` called s') /\
  (looping_ s = true <-> at_ s <> Outside) /\
  (eventHandling_ s = true -> callingPendingFunctors_ s = false).
Proof.
  intros Hcode Hr. destruct (reachable_inv _ _ Hcode s Hr) as (Hf & Hq & _).
  split; [done|]. unfold fifo in Hq. rewrite (fl_looping _ Hf), (fl_handling _ Hf), (fl_calling _ Hf).
  split_and!.
  - unfold round in Hq. by destruct (at_ s).
  - intros s' Hat Hsteps Hend. pose proof (round_calls code early s s' Hq Hat Hsteps) as [H|H]; [|done].
    unfold in_round in H. rewrite Hend in H. by destruct H.
  - by destruct (at_ s).
  - by destruct (at_ s).
Qed.

(** The restriction of [no_lost_wakeup] is needed.  A functor that the loop's own thread
    queues before it calls [loop()] writes no wake-up, so the loop goes to sleep with the
    functor waiting, until some other event or the time-out of [poll] ends the sleep; and a
    [quit] before [loop()] is forgotten. *)
Theorem queue_before_loop_sleeps {F} (code : F -> list call -> Prop) (f : F) :
  (exists s, reachable code true s /\ at_ s = Polling /\ evfd s = 0 /\ owed s = 0%nat /\
             pendingFunctors_ s = [f]) /\
  (exists s s', reachable code false s /\ quit_ s = true /\ rtc (loop_step code false) s s' /\
             at_ s' = Polling /\ quit_ s' = false /\ evfd s' = 0).
Proof.
  split.
  - exists (set_pc Polling (set_quit false (set_looping true (push f (set_running [] init))))).
    split_and!; [|done..].
    eapply rtc_l; [apply step_loop, (loop_user _ _ [Queue f]); [done..|by intros Hin%list_elem_of_singleton]|].
    eapply rtc_l; [apply step_loop; eapply loop_call; [reflexivity|by apply do_queue]|].
    eapply rtc_l; [apply step_loop; by apply loop_start|].
    eapply rtc_l; [apply step_loop; by apply loop_again|]. reflexivity.
  - set (s := set_quit true (@init F)). exists s, (set_pc Polling (set_quit false (set_looping true s))).
    split_and!; [|done| |done..].
    + eapply rtc_l; [apply step_loop, (loop_user _ _ [Quit]); [done..|by intros Hin%list_elem_of_singleton]|].
      eapply rtc_l; [apply step_loop; eapply loop_call; [reflexivity|by apply do_quit]|]. reflexivity.
    + eapply rtc_l; [by apply loop_start|]. eapply rtc_l; [by apply loop_again|]. reflexivity.
Qed.

(** ** A run of two threads: while the loop polls, another thread queues a functor. *)

Definition silent (f : nat) (b : list (@call nat)) : Prop := b = [].


Lemma silent_public (f : nat) b : silent f b -> ReadWakeup ∉ b.
Proof. intros ->. apply not_elem_of_nil. Qed.

(** The loop is in [poll], functor 7 is queued and the wake-up is written. *)
Definition polled : @t nat := set_owed 0 (wakeup (set_owed 1 (push 7%nat (set_pc Polling
  (set_quit false (set_looping true init)))))).

Lemma polled_reachable : reachable silent false polled.
Proof.
  eapply rtc_l; [apply step_loop; by apply loop_start|].
  eapply rtc_l; [apply step_loop; by apply loop_again|].
  eapply rtc_l; [apply step_other; apply (other_queue 7%nat)|].
  eapply rtc_l; [apply step_other; by apply (other_wakeup _ 0)|].
  reflexivity.
Qed.

Lemma no_lost_wakeup_witness :
  reachable silent false polled /\ pendingFunctors_ polled = [7%nat] /\ 0 < evfd polled.
Proof.
  split; [exact polled_reachable|]. split; [done|].
  refine (proj1 (no_lost_wakeup silent polled silent_public polled_reachable) eq_refl eq_refl _). by left.
Defined.

(** The loop goes on: [poll] returns, the wake-up is read, the functor is called. *)
Definition woken : @t nat := set_pc (Handling [[ReadWakeup]]) (set_handling true (set_iteration 1 polled)).
Definition round_done : @t nat := set_pc Check (set_calling false (set_running []
  (mk (Calling []) [] false true false true 1 [] 0 0 [7%nat] [7%nat]))).

Lemma woken_reachable : reachable silent false woken.
Proof.
  eapply rtc_r; [apply polled_reachable|]. apply step_loop, (loop_poll _ _ [[ReadWakeup]]); [done|done|done|].
  by intros b ->%list_elem_of_singleton.
Qed.

Lemma woken_round : rtc (step silent false) woken round_done.
Proof.
  eapply rtc_l; [apply step_loop; by apply loop_handle|].
  eapply rtc_l; [apply step_loop; eapply loop_call; [reflexivity|apply do_read]|].
  eapply rtc_l; [apply step_loop; by apply loop_handled|].
  eapply rtc_l; [apply step_loop; by apply loop_swap|].
  eapply rtc_l; [apply step_loop; by eapply (loop_functor _ _ 7%nat [] [])|].
  eapply rtc_l; [apply step_loop; by apply loop_called|].
  reflexivity.
Qed.

Lemma functors_fifo_witness :
  pushed woken = called woken ++ round woken ++ pendingFunctors_ woken /\ pushed woken = [7%nat] /\
  [7%nat] `prefix_of` called round_done.
Proof.
  destruct (functors_fifo silent false woken silent_public woken_reachable) as (H1 & _ & H2 & _).
  split; [exact H1|]. split; [done|]. exact (H2 round_done eq_refl woken_round eq_refl).
Defined.
End EventLoop.
