(* ===== verification/Connection.v ===== *)
(** One TCP connection in its loop ([muduo/net/TcpConnection.h], [TcpConnection.cc]).

    The connection runs on the real [Buffer]s and on any poller that keeps [PollerSpec].
    What the code does not determine is input: the answers of [write(2)] and [readv(2)], the
    calls that user callbacks make, the moments at which other threads act.  The events of
    [handle] interleave the loop thread (ready events, queued functors, timers) with the
    other threads. *)
From S2P Require Import Prelude State NetBuffer StringPiece Channel Poller.
Open Scope Z_scope.

Module TcpConnection.

(** The errors of [write(2)] that the code tells apart. *)
Definition EWOULDBLOCK : Z := 11.
Definition EPIPE : Z := 32.
Definition ECONNRESET : Z := 104.

Inductive StateE := kDisconnected | kConnecting | kConnected | kDisconnecting.

#[global] Instance StateE_eq_dec : EqDecision StateE.
Proof. solve_decision. Defined.

Definition stateToString (st : StateE) : bytes :=
  match st with
  | kDisconnected => bs "kDisconnected"
  | kConnecting => bs "kConnecting"
  | kConnected => bs "kConnected"
  | kDisconnecting => bs "kDisconnecting"
  end.

(** [write(2)]: some bytes taken, at most those offered, or an error. *)
Inductive write_result :=
  | Wrote (n : Z)
  | WriteError (errno : Z).

(** The calls that user code makes.  [SendInput] is [send(buf)] on the input buffer,
    [Retrieve] consumes input; [WhenConnected] is a call under [if (conn->connected())]. *)
Inductive api :=
  | Send (message : StringPiece.t)
  | SendInput
  | Shutdown
  | ForceClose
  | ForceCloseWithDelay
  | StartRead
  | StopRead
  | Retrieve (n : Z)
  | WhenConnected (a : api).

(** What is queued in the loop. *)
Inductive functor :=
  | F_send (message : bytes)
  | F_shutdown
  | F_forceClose
  | F_addTimer
  | F_startRead
  | F_stopRead
  | F_destroyed
  | F_writeComplete
  | F_highWaterMark (size : Z).

(** Another thread inside a member function: before [setState(kDisconnecting)], or before
    it queues its functor. *)
Inductive thread :=
  | SetThenQueue (f : functor)
  | Queue (f : functor).

(** The callbacks called. *)
Inductive callback :=
  | ConnectionCallback (connected : bool)
  | MessageCallback
  | WriteCompleteCallback
  | HighWaterMarkCallback (size : Z)
  | CloseCallback.

#[global] Instance functor_eq_dec : EqDecision functor.
Proof. solve_decision. Defined.
#[global] Instance thread_eq_dec : EqDecision thread.
Proof. solve_decision. Defined.
#[global] Instance callback_eq_dec : EqDecision callback.
Proof. solve_decision. Defined.

(** The surroundings of the connection.  Input: the answers of the kernel and the calls of
    the user's callbacks, each used in turn. State: the delayed calls, the other threads,
    whether the object exists and whether its owner has let it go.  History: the bytes
    passed to [sendInLoop] and those [write] took, the errors of [write], the state and the
    unsent bytes at each half-close, the callbacks called. *)
Record system := mk_sys {
  writes : list write_result;
  reads : list Buffer.readv_result;
  users : list (list api);
  timers : nat;
  remote : list thread;
  alive : bool;
  removed : bool;
  accepted : bytes;
  written : bytes;
  errs : list Z;
  half_closed : list (StateE * bytes);
  log : list callback
}.

Definition set_writes x (s : system) : system := mk_sys x (reads s) (users s) (timers s) (remote s) (alive
  s) (removed s) (accepted s) (written s) (errs s) (half_closed s) (log s).
Definition set_reads x (s : system) : system := mk_sys (writes s) x (users s) (timers s) (remote s) (alive
  s) (removed s) (accepted s) (written s) (errs s) (half_closed s) (log s).
Definition set_users x (s : system) : system := mk_sys (writes s) (reads s) x (timers s) (remote s) (alive
  s) (removed s) (accepted s) (written s) (errs s) (half_closed s) (log s).
Definition set_timers x (s : system) : system := mk_sys (writes s) (reads s) (users s) x (remote s) (alive
  s) (removed s) (accepted s) (written s) (errs s) (half_closed s) (log s).
Definition set_remote x (s : system) : system := mk_sys (writes s) (reads s) (users s) (timers s) x (alive
  s) (removed s) (accepted s) (written s) (errs s) (half_closed s) (log s).
Definition set_alive x (s : system) : system := mk_sys (writes s) (reads s) (users s) (timers s) (remote s)
  x (removed s) (accepted s) (written s) (errs s) (half_closed s) (log s).
Definition set_removed x (s : system) : system := mk_sys (writes s) (reads s) (users s) (timers s) (remote
  s) (alive s) x (accepted s) (written s) (errs s) (half_closed s) (log s).
Definition set_accepted x (s : system) : system := mk_sys (writes s) (reads s) (users s) (timers s) (remote
  s) (alive s) (removed s) x (written s) (errs s) (half_closed s) (log s).
Definition set_written x (s : system) : system := mk_sys (writes s) (reads s) (users s) (timers s) (remote
  s) (alive s) (removed s) (accepted s) x (errs s) (half_closed s) (log s).
Definition set_errs x (s : system) : system := mk_sys (writes s) (reads s) (users s) (timers s) (remote s)
  (alive s) (removed s) (accepted s) (written s) x (half_closed s) (log s).
Definition set_half_closed x (s : system) : system := mk_sys (writes s) (reads s) (users s) (timers s)
  (remote s) (alive s) (removed s) (accepted s) (written s) (errs s) x (log s).
Definition set_log x (s : system) : system := mk_sys (writes s) (reads s) (users s) (timers s) (remote s)
  (alive s) (removed s) (accepted s) (written s) (errs s) (half_closed s) x.

Section connection.
Context {P : Type} `{Poller P}.

Record t := mk {
  world_ : world P;
  state_ : StateE;
  reading_ : bool;
  highWaterMark_ : Z;
  writeCompleteCallback_ : bool;
  highWaterMarkCallback_ : bool;
  inputBuffer_ : Buffer.t;
  outputBuffer_ : Buffer.t;
  pending : list functor;
  sys : system
}.

Definition set_world x (s : t) : t := mk x (state_ s) (reading_ s) (highWaterMark_ s)
  (writeCompleteCallback_ s) (highWaterMarkCallback_ s) (inputBuffer_ s) (outputBuffer_ s) (pending s) (sys
  s).
Definition set_state x (s : t) : t := mk (world_ s) x (reading_ s) (highWaterMark_ s)
  (writeCompleteCallback_ s) (highWaterMarkCallback_ s) (inputBuffer_ s) (outputBuffer_ s) (pending s) (sys
  s).
Definition set_reading x (s : t) : t := mk (world_ s) (state_ s) x (highWaterMark_ s)
  (writeCompleteCallback_ s) (highWaterMarkCallback_ s) (inputBuffer_ s) (outputBuffer_ s) (pending s) (sys
  s).
Definition set_highWaterMark x (s : t) : t := mk (world_ s) (state_ s) (reading_ s) x
  (writeCompleteCallback_ s) (highWaterMarkCallback_ s) (inputBuffer_ s) (outputBuffer_ s) (pending s) (sys
  s).
Definition set_writeCompleteCallback x (s : t) : t := mk (world_ s) (state_ s) (reading_ s) (highWaterMark_
  s) x (highWaterMarkCallback_ s) (inputBuffer_ s) (outputBuffer_ s) (pending s) (sys s).
Definition set_highWaterMarkCallback x (s : t) : t := mk (world_ s) (state_ s) (reading_ s) (highWaterMark_
  s) (writeCompleteCallback_ s) x (inputBuffer_ s) (outputBuffer_ s) (pending s) (sys s).
Definition set_inputBuffer x (s : t) : t := mk (world_ s) (state_ s) (reading_ s) (highWaterMark_ s)
  (writeCompleteCallback_ s) (highWaterMarkCallback_ s) x (outputBuffer_ s) (pending s) (sys s).
Definition set_outputBuffer x (s : t) : t := mk (world_ s) (state_ s) (reading_ s) (highWaterMark_ s)
  (writeCompleteCallback_ s) (highWaterMarkCallback_ s) (inputBuffer_ s) x (pending s) (sys s).
Definition set_pending x (s : t) : t := mk (world_ s) (state_ s) (reading_ s) (highWaterMark_ s)
  (writeCompleteCallback_ s) (highWaterMarkCallback_ s) (inputBuffer_ s) (outputBuffer_ s) x (sys s).
Definition set_sys x (s : t) : t := mk (world_ s) (state_ s) (reading_ s) (highWaterMark_ s)
  (writeCompleteCallback_ s) (highWaterMarkCallback_ s) (inputBuffer_ s) (outputBuffer_ s) (pending s) x.

Abbreviation M := (ST t).

Definition in_world {A} (m : W P A) : M A := fun s =>
  match m (world_ s) with
  | Ok (a, w) => Ok (a, set_world w s)
  | Fail e => Fail e
  end.

Definition get_sys {A} (f : system -> A) : M A := gets (fun s => f (sys s)).
Definition upd_sys (f : system -> system) : M unit := modify (fun s => set_sys (f (sys s)) s).

(** The address of [channel_], and whether [LOG_INFO] is enabled. *)
Context (channel_ : Z) (log_info : bool).

Definition setState (st : StateE) : M unit := modify (set_state st).
Definition queueInLoop (f : functor) : M unit := modify (fun s => set_pending (pending s ++ [f]) s).
Definition call (c : callback) : M unit := upd_sys (fun y => set_log (log y ++ [c]) y).

(** ** The surroundings *)

(** The next program of a user callback. *)
Definition next_user : M (list api) :=
  us ← get_sys users;
  match us with
  | [] => mret []
  | u :: us' => _ ← upd_sys (set_users us'); mret u
  end.

Definition next_read : M Buffer.readv_result :=
  rs ← get_sys reads;
  match rs with
  | [] => mret (Buffer.ReadvError EWOULDBLOCK)
  | r :: rs' => _ ← upd_sys (set_reads rs'); mret r
  end.

(** [readv(2)] delivers no more than it was offered. *)
Definition readv (r : Buffer.readv_result) (n : Z) : Buffer.readv_result :=
  match r with
  | Buffer.ReadvError e => Buffer.ReadvError e
  | Buffer.ReadvData d => Buffer.ReadvData (take (Z.to_nat n) d)
  end.

(** [sockets::write(fd, data, len)]: the count or the errno. *)
Definition write (data : bytes) (len : Z) : M (Z + Z) :=
  _ ← lift (check OutOfBounds (bool_decide (len <= lenZ data)));
  ws ← get_sys writes;
  let w := match ws with [] => WriteError EWOULDBLOCK | w :: _ => w end in
  _ ← upd_sys (set_writes (tail ws));
  match w with
  | Wrote n =>
      let n := Z.max 0 (Z.min n len) in
      _ ← upd_sys (fun y => set_written (written y ++ take (Z.to_nat n) data) y);
      mret (inl n)
  | WriteError errno =>
      _ ← upd_sys (fun y => set_errs (errs y ++ [errno]) y);
      mret (inr errno)
  end.

(** [Socket::shutdownWrite], remembering what was still unsent. *)
Definition shutdownWrite : M unit :=
  s ← get;
  upd_sys (fun y => set_half_closed (half_closed y ++ [(state_ s, Buffer.content (outputBuffer_ s))]) y).

(** [LOG_INFO << buf.peek()]: the log stream takes the length of a C string. *)
Definition log_peek (b : Buffer.t) : M unit :=
  if log_info then
    lift (_ ← StringPiece.of_cstr (drop (Z.to_nat (Buffer.peek b)) (Buffer.buffer_ b)); mret tt)
  else mret tt.

(** ** Sending *)

(** [sendInLoop(const void* data, size_t len)]. *)
Definition sendInLoop (data : bytes) (len : Z) : M unit :=
  s ← get;
  if decide (state_ s = kDisconnected) then mret tt
  else
    _ ← upd_sys (fun y => set_accepted (accepted y ++ take (Z.to_nat len) data) y);
    c ← in_world (channel channel_);
    '(nwrote, remaining, faultError) ←
      (if negb (Channel.isWriting c) && bool_decide (Buffer.readableBytes (outputBuffer_ s) = 0) then
         r ← write data len;
         match r with
         | inl nwrote =>
             let remaining := size_sub len nwrote in
             _ ← when_ (bool_decide (remaining = 0) && writeCompleteCallback_ s) (queueInLoop F_writeComplete);
             mret (nwrote, remaining, false)
         | inr errno =>
             mret (0, len, negb (bool_decide (errno = EWOULDBLOCK)) &&
                           bool_decide (errno = EPIPE \/ errno = ECONNRESET))
         end
       else mret (0, len, false));
    _ ← sassert (bool_decide (remaining <= len));
    if negb faultError && bool_decide (0 < remaining) then
      let oldLen := Buffer.readableBytes (outputBuffer_ s) in
      _ ← when_ (bool_decide (highWaterMark_ s <= size_add oldLen remaining) &&
                 bool_decide (oldLen < highWaterMark_ s) && highWaterMarkCallback_ s)
            (queueInLoop (F_highWaterMark (size_add oldLen remaining)));
      b ← lift (Buffer.append (drop (Z.to_nat nwrote) data) remaining (outputBuffer_ s));
      _ ← modify (set_outputBuffer b);
      c ← in_world (channel channel_);
      when_ (negb (Channel.isWriting c)) (in_world (enableWriting channel_))
    else mret tt.

(** [sendInLoop(const StringPiece&)]: the [int] size converts to [size_t]. *)
Definition sendInLoop_piece (message : StringPiece.t) : M unit :=
  sendInLoop (StringPiece.data message) (size_wrap (StringPiece.size message)).

(** The two forms of [send], of a string piece and of a buffer, in the loop thread. *)
Definition send (message : StringPiece.t) : M unit :=
  s ← get;
  when_ (bool_decide (state_ s = kConnected)) (sendInLoop_piece message).

Definition send_input : M unit :=
  s ← get;
  when_ (bool_decide (state_ s = kConnected))
    (let buf := inputBuffer_ s in
     _ ← sendInLoop (drop (Z.to_nat (Buffer.peek buf)) (Buffer.buffer_ buf)) (Buffer.readableBytes buf);
     modify (fun s => set_inputBuffer (Buffer.retrieveAll (inputBuffer_ s)) s)).

(** ** Closing *)

Definition shutdownInLoop : M unit :=
  c ← in_world (channel channel_);
  when_ (negb (Channel.isWriting c)) shutdownWrite.

Definition shutdown : M unit :=
  s ← get;
  when_ (bool_decide (state_ s = kConnected)) (_ ← setState kDisconnecting; shutdownInLoop).

Definition may_close (st : StateE) : bool := bool_decide (st = kConnected \/ st = kDisconnecting).

Definition forceClose : M unit :=
  s ← get;
  when_ (may_close (state_ s)) (_ ← setState kDisconnecting; queueInLoop F_forceClose).

(** [runAfter] starts a timer that calls [forceClose] through a weak pointer. *)
Definition addTimer : M unit := upd_sys (fun y => set_timers (S (timers y)) y).

Definition forceCloseWithDelay : M unit :=
  s ← get;
  when_ (may_close (state_ s)) (_ ← setState kDisconnecting; addTimer).

(** ** Reading or not *)

Definition startReadInLoop : M unit :=
  s ← get;
  c ← in_world (channel channel_);
  when_ (negb (reading_ s) || negb (Channel.isReading c))
    (_ ← in_world (enableReading channel_); modify (set_reading true)).

Definition stopReadInLoop : M unit :=
  s ← get;
  c ← in_world (channel channel_);
  when_ (reading_ s || Channel.isReading c)
    (_ ← in_world (disableReading channel_); modify (set_reading false)).

(** ** User code in the loop thread *)

Fixpoint run_api (a : api) : M unit :=
  match a with
  | Send message => send message
  | SendInput => send_input
  | Shutdown => shutdown
  | ForceClose => forceClose
  | ForceCloseWithDelay => forceCloseWithDelay
  | StartRead => startReadInLoop
  | StopRead => stopReadInLoop
  | Retrieve n =>
      s ← get;
      let n := Z.max 0 (Z.min n (Buffer.readableBytes (inputBuffer_ s))) in
      b ← lift (Buffer.retrieve n (inputBuffer_ s));
      modify (set_inputBuffer b)
  | WhenConnected a => s ← get; when_ (bool_decide (state_ s = kConnected)) (run_api a)
  end.

(** A callback is called and runs its next program. *)
Definition call_user (c : callback) : M unit :=
  _ ← call c;
  u ← next_user;
  for_each run_api u.

(** ** The channel's callbacks *)

Definition connectEstablished : M unit :=
  s ← get;
  _ ← sassert (bool_decide (state_ s = kConnecting));
  _ ← setState kConnected;
  _ ← in_world (update_chan (Channel.tie true) channel_);
  _ ← in_world (enableReading channel_);
  call_user (ConnectionCallback true).

Definition connectDestroyed : M unit :=
  s ← get;
  _ ← when_ (bool_decide (state_ s = kConnected))
        (_ ← setState kDisconnected;
         _ ← in_world (disableAll channel_);
         call_user (ConnectionCallback false));
  in_world (channel_remove channel_).

Definition handleClose : M unit :=
  s ← get;
  _ ← sassert (may_close (state_ s));
  _ ← setState kDisconnected;
  _ ← in_world (disableAll channel_);
  _ ← call_user (ConnectionCallback false);
  call CloseCallback.

(** [handleError] asks for the error of the socket and logs it. *)
Definition handleError : M unit := mret tt.

Definition forceCloseInLoop : M unit :=
  s ← get;
  when_ (may_close (state_ s)) handleClose.

Definition handleRead : M unit :=
  r ← next_read;
  s ← get;
  '(n, _, b) ← lift (Buffer.readFd (readv r) (inputBuffer_ s));
  _ ← modify (set_inputBuffer b);
  _ ← log_peek b;
  if bool_decide (0 < n) then call_user MessageCallback
  else if bool_decide (n = 0) then handleClose
  else handleError.

Definition handleWrite : M unit :=
  s ← get;
  c ← in_world (channel channel_);
  if Channel.isWriting c then
    let out := outputBuffer_ s in
    r ← write (drop (Z.to_nat (Buffer.peek out)) (Buffer.buffer_ out)) (Buffer.readableBytes out);
    _ ← log_peek out;
    match r with
    | inl n =>
        when_ (bool_decide (0 < n))
          (b ← lift (Buffer.retrieve n out);
           _ ← modify (set_outputBuffer b);
           when_ (bool_decide (Buffer.readableBytes b = 0))
             (_ ← in_world (disableWriting channel_);
              _ ← when_ (writeCompleteCallback_ s) (queueInLoop F_writeComplete);
              s ← get;
              when_ (bool_decide (state_ s = kDisconnecting)) shutdownInLoop))
    | inr _ => mret tt
    end
  else mret tt.

(** ** The interleaving *)

Definition take_pending : M (option functor) :=
  s ← get;
  match pending s with
  | [] => mret None
  | f :: fs => _ ← modify (set_pending fs); mret (Some f)
  end.

Definition run_functor (f : functor) : M unit :=
  match f with
  | F_send message => sendInLoop_piece (StringPiece.of_string message)
  | F_shutdown => shutdownInLoop
  | F_forceClose => forceCloseInLoop
  | F_addTimer => addTimer
  | F_startRead => startReadInLoop
  | F_stopRead => stopReadInLoop
  | F_destroyed => connectDestroyed
  | F_writeComplete => call_user WriteCompleteCallback
  | F_highWaterMark size => call_user (HighWaterMarkCallback size)
  end.

(** A call made by another thread, up to the queueing of its functor.  [send] of a buffer is
    [Send] of its contents, which it takes out; [SendInput] and [Retrieve] use the
    connection's own input buffer, and [WhenConnected] is part of a callback, which only the
    loop's thread does. *)
Definition enter (th : thread) : M unit := upd_sys (fun y => set_remote (remote y ++ [th]) y).

Definition remote_call (a : api) : M unit :=
  s ← get;
  match a with
  | Send message =>
      when_ (bool_decide (state_ s = kConnected))
        (str ← lift (StringPiece.as_string message); enter (Queue (F_send str)))
  | Shutdown => when_ (bool_decide (state_ s = kConnected)) (enter (SetThenQueue F_shutdown))
  | ForceClose => when_ (may_close (state_ s)) (enter (SetThenQueue F_forceClose))
  | ForceCloseWithDelay => when_ (may_close (state_ s)) (enter (SetThenQueue F_addTimer))
  | StartRead => enter (Queue F_startRead)
  | StopRead => enter (Queue F_stopRead)
  | SendInput | Retrieve _ | WhenConnected _ => mret tt
  end.

(** The next step of the [i]-th thread. *)
Definition remote_step (i : nat) : M unit :=
  y ← get_sys id;
  match remote y !! i with
  | Some (SetThenQueue f) =>
      _ ← setState kDisconnecting;
      upd_sys (fun y => set_remote (<[i := Queue f]> (remote y)) y)
  | Some (Queue f) =>
      _ ← queueInLoop f;
      upd_sys (fun y => set_remote (delete i (remote y)) y)
  | None => mret tt
  end.

(** The destructor. *)
Definition destruct_connection : M unit :=
  s ← get;
  _ ← sassert (bool_decide (state_ s = kDisconnected));
  upd_sys (set_alive false).

Inductive event :=
  | Establish                 (* the server's functor for a new connection *)
  | Ready (revents : Z)       (* the loop handles the channel *)
  | RunFunctor                (* the next queued functor *)
  | TimerFires
  | Remote (a : api)          (* another thread calls a member function *)
  | RemoteStep (i : nat)
  | Removed                   (* the owner drops the connection after closeCallback_ *)
  | ServerGone                (* the owner's destructor, in the loop thread *)
  | Release.                  (* the last reference goes away *)

Definition dispatch (c : Channel.callback) : M unit :=
  match c with
  | Channel.Read => handleRead
  | Channel.Write => handleWrite
  | Channel.Close => handleClose
  | Channel.Error => handleError
  end.

Definition handle (e : event) : M unit :=
  match e with
  | Establish => connectEstablished
  | Ready revents =>
      _ ← in_world (update_chan (Channel.set_revents revents) channel_);
      c ← in_world (channel channel_);
      for_each dispatch (Channel.handleEvent c)
  | RunFunctor =>
      o ← take_pending;
      match o with
      | Some f => live ← get_sys alive; _ ← lift (check UseAfterFree live); run_functor f
      | None => mret tt
      end
  | TimerFires =>
      y ← get_sys id;
      _ ← upd_sys (set_timers (pred (timers y)));
      if alive y then forceClose else mret tt
  | Remote a => remote_call a
  | RemoteStep i => remote_step i
  | Removed => _ ← upd_sys (set_removed true); queueInLoop F_destroyed
  | ServerGone => _ ← upd_sys (set_removed true); connectDestroyed
  | Release => destruct_connection
  end.

(** The constructor, for a channel object at a free address of the loop's world. *)
Definition TcpConnection (fd mark : Z) (wc hw : bool) (env : system) (w : world P) : res t :=
  input ← Buffer.Buffer Buffer.kInitialSize;
  output ← Buffer.Buffer Buffer.kInitialSize;
  mret (mk (mk_world (<[channel_ := Channel.set_callbacks true true true true (Channel.Channel fd)]> (chans w)) (poller w))
    kConnecting true mark wc hw input output [] env).

(** Whether a queued functor holds a shared pointer to the connection. *)
Definition shared (f : functor) : bool :=
  match f with
  | F_forceClose | F_destroyed | F_writeComplete | F_highWaterMark _ => true
  | _ => false
  end.

(** What can happen in a state.  The poller reports a channel with enabled events; the
    kernel reports a hang-up without input alone.  A thread inside a member function and
    the functors that bind [shared_from_this()] keep the object alive. *)
Definition possible (s : t) (e : event) : bool :=
  match e with
  | Establish => bool_decide (state_ s = kConnecting)
  | Ready r =>
      match chans (world_ s) !! channel_ with Some c => negb (Channel.isNoneEvent c) | None => false end &&
      (negb (has r POLLHUP) || has r POLLIN || negb (has r (Z.lor POLLPRI POLLRDHUP)))
  | RunFunctor => bool_decide (pending s <> [])
  | TimerFires => bool_decide (timers (sys s) <> 0%nat)
  | Remote a => alive (sys s) && bool_decide (state_ s <> kConnecting)
  | RemoteStep i => bool_decide (is_Some (remote (sys s) !! i))
  | Removed => bool_decide (CloseCallback ∈ log (sys s)) && negb (removed (sys s))
  | ServerGone => negb (removed (sys s)) && bool_decide (state_ s <> kConnecting)
  | Release => alive (sys s) && removed (sys s) && bool_decide (remote (sys s) = []) &&
      bool_decide (Forall (fun f => shared f = false) (pending s))
  end.

(** ** What the user promises *)

Definition send_ok (message : StringPiece.t) : bool :=
  bool_decide (0 <= StringPiece.size message < 2 ^ 31) &&
  bool_decide (StringPiece.size message <= lenZ (StringPiece.data message)).

(** Reading is started and stopped under [if (conn->connected())] only. *)
Fixpoint api_ok (a : api) : bool :=
  match a with
  | Send message => send_ok message
  | StartRead | StopRead => false
  | WhenConnected StartRead | WhenConnected StopRead => true
  | WhenConnected a => api_ok a
  | _ => true
  end.

Definition is_set (th : thread) : bool := match th with SetThenQueue _ => true | _ => false end.
Definition is_step_of (e : event) (i : nat) : bool :=
  match e with RemoteStep j => bool_decide (i = j) | _ => false end.

(** [state_] is not changed between a test in another thread and its [setState]; a queued
    [startReadInLoop] or [stopReadInLoop] does not outlive the connection's open state; the
    owner is not destroyed between [shutdown] or [forceClose] and the close; nothing is
    queued when the last reference goes away. *)
Definition contract (s : t) (e : event) : bool :=
  forallb (fun '(i, th) => negb (is_set th) || is_step_of e i) (imap pair (remote (sys s))) &&
  match e with
  | Remote (Send message) => send_ok message
  | RunFunctor =>
      match pending s with
      | F_startRead :: _ | F_stopRead :: _ => may_close (state_ s)
      | _ => true
      end
  | ServerGone => bool_decide (state_ s <> kDisconnecting)
  | Release => bool_decide (pending s = [])
  | _ => true
  end.

End connection.

(** ** The channel of the connection *)

Section channel.
Context {P : Type} `{PollerSpec P}.
Context (channel_ fd : Z).

(** Not yet registered, registered with the poller, or taken out of it. *)
Inductive phase := Fresh | Registered | Gone.

(** The channel object has the events [e] enabled, as any client of a poller sees it. *)
Definition chan_at (w : world P) (e : Z) (ph : phase) : Prop :=
  exists cs, Client.shows cs w /\ Client.objs cs !! channel_ = Some (fd, e) /\
    match ph with
    | Fresh => Client.reg cs !! fd = None /\ channel_ ∈ Client.fresh cs /\
               Z.of_nat (size (Client.reg cs)) < 2 ^ 31 - 1
    | Registered => Client.reg cs !! fd = Some channel_
    | Gone => True
    end.

Lemma chan_at_channel w e ph :
  chan_at w e ph -> exists c, chans w !! channel_ = Some c /\ Channel.events_ c = e.
Proof.
  intros (cs & Hs & Ho & _). destruct (Client.shows_chan _ _ _ _ _ Hs Ho) as (c & ? & _ & ?). eauto.
Qed.

Lemma chan_at_events w e ph : chan_at w e ph -> e = 0 \/ e = 3 \/ e = 4 \/ e = 7.
Proof. intros (cs & Hs & Ho & _). by apply (Client.sh_events _ _ Hs _ _ _ Ho). Qed.

Lemma change_at o w e ph :
  chan_at w e ph -> ph = Registered \/ (ph = Fresh /\ Client.ev_fun o e <> 0) ->
  exists w', set_events_and_update (Client.ev_fun o) channel_ w = Ok (tt, w') /\
    chan_at w' (Client.ev_fun o e) Registered.
Proof.
  intros (cs & Hs & Ho & Hph) Hok.
  destruct (Client.change_simulates o cs w channel_ fd e Hs Ho) as (w' & Hrun & Hs').
  { destruct Hok as [->|[-> Hne]]; [by left|right]. by destruct Hph as (? & ? & ?). }
  rewrite Client.run_change in Hrun.
  destruct (set_events_and_update _ _ w) as [[[] w1]|] eqn:E; [|done]. injection Hrun as <-.
  exists w1. split; [done|]. eexists. split; [exact Hs'|]. simpl. by rewrite !lookup_insert_eq.
Qed.

Lemma remove_at w :
  chan_at w 0 Registered -> exists w', channel_remove channel_ w = Ok (tt, w') /\ chan_at w' 0 Gone.
Proof.
  intros (cs & Hs & Ho & Hr).
  destruct (Client.remove_simulates cs w channel_ fd Hs Ho Hr) as (w' & Hrun & Hs').
  simpl in Hrun. unfold mbind, st_bind in Hrun. destruct (channel_remove channel_ w) as [[[] w1]|] eqn:E; [|done].
  injection Hrun as <-. exists w1. split; [done|]. eexists. split; [exact Hs'|]. by split.
Qed.

Lemma touch_at (f : Channel.t -> Channel.t) w e ph :
  (forall c, poller_fields (f c) = poller_fields c) -> chan_at w e ph ->
  exists w', update_chan f channel_ w = Ok (tt, w') /\ chan_at w' e ph.
Proof.
  intros Hf (cs & Hs & Ho & Hph). destruct (Client.shows_chan _ _ _ _ _ Hs Ho) as (c & Hc & _).
  eexists. split; [by apply update_chan_run|]. exists cs. split; [|done].
  by eapply Client.client_simulates.
Qed.

(** A new channel object, for a descriptor that no channel has. *)
Lemma new_at w cs c :
  Client.shows cs w -> Client.objs cs !! channel_ = None -> Client.reg cs !! fd = None ->
  Z.of_nat (size (Client.reg cs)) < 2 ^ 31 - 1 -> 0 <= fd ->
  poller_fields c = poller_fields (Channel.Channel fd) ->
  chan_at (mk_world (<[channel_ := c]> (chans w)) (poller w)) 0 Fresh.
Proof.
  intros Hs Ho Hr Hsz Hfd Hc. eexists. split_and!.
  - replace (mk_world (<[channel_ := c]> (chans w)) (poller w)) with
      (mk_world (<[channel_ := c]> (chans (mk_world (<[channel_ := Channel.Channel fd]> (chans w)) (poller w))))
        (poller (mk_world (<[channel_ := Channel.Channel fd]> (chans w)) (poller w)))) by (simpl; by rewrite insert_insert_eq).
    eapply Client.client_simulates; [by apply Client.new_simulates|simpl; apply lookup_insert_eq|done].
  - simpl. by rewrite lookup_insert_eq.
  - done.
  - simpl. set_solver.
  - done.
Qed.
End channel.

(** The two bits of [events_], for the values that channels have. *)
Lemma event_bits o e :
  e = 0 \/ e = 3 \/ e = 4 \/ e = 7 ->
  has (Client.ev_fun o e) Channel.kWriteEvent =
    match o with
    | Client.EnableWriting => true
    | Client.DisableWriting | Client.DisableAll => false
    | _ => has e Channel.kWriteEvent
    end /\
  has (Client.ev_fun o e) Channel.kReadEvent =
    match o with
    | Client.EnableReading => true
    | Client.DisableReading | Client.DisableAll => false
    | _ => has e Channel.kReadEvent
    end.
Proof. by destruct o; intros [->|[->|[->| ->]]]. Qed.

(** ** The life of a connection, as its callbacks show it *)

Inductive life := New | Up | Down | Closed.

#[global] Instance life_eq_dec : EqDecision life.
Proof. solve_decision. Defined.

(** Up once, messages only while it is up, down once, then closed at most once. *)
Definition life_step (l : life) (c : callback) : option life :=
  match l, c with
  | New, ConnectionCallback true => Some Up
  | Up, (MessageCallback | WriteCompleteCallback | HighWaterMarkCallback _) => Some Up
  | Up, ConnectionCallback false => Some Down
  | Down, (WriteCompleteCallback | HighWaterMarkCallback _) => Some Down
  | Down, CloseCallback => Some Closed
  | Closed, (WriteCompleteCallback | HighWaterMarkCallback _) => Some Closed
  | _, _ => None
  end.

Definition life_of (l : list callback) : option life :=
  foldl (fun o c => o ≫= fun x => life_step x c) (Some New) l.

Lemma life_snoc l c : life_of (l ++ [c]) = life_of l ≫= fun x => life_step x c.
Proof. unfold life_of. by rewrite foldl_app. Qed.

Lemma life_closed l : life_of l = Some Closed <-> life_of l <> None /\ CloseCallback ∈ l.
Proof.
  induction l as [|c l IH] using rev_ind.
  - unfold life_of. simpl. split; [done|]. by intros [_ ?%elem_of_nil].
  - rewrite life_snoc, elem_of_app, list_elem_of_singleton.
    destruct (life_of l) as [x|] eqn:El; simpl; [|naive_solver].
    destruct x; (destruct IH as [IH1 IH2]); destruct c as [[]| | | |]; simpl; naive_solver.
Qed.

(** The errors after which [sendInLoop] drops what it was given. *)
Definition fatal (errno : Z) : Prop := errno = EPIPE \/ errno = ECONNRESET.

Definition thread_functor (th : thread) : functor := match th with SetThenQueue f | Queue f => f end.

(** [std::string]s are shorter than [INT_MAX], and only the owner destroys. *)
Definition functor_ok (f : functor) : Prop :=
  match f with F_send message => lenZ message < 2 ^ 31 | _ => True end.
Definition thread_ok (th : thread) : Prop :=
  functor_ok (thread_functor th) /\ thread_functor th <> F_destroyed.

Section invariant.
Context {P : Type} `{PollerSpec P}.
Context (channel_ fd : Z) (log_info : bool).
Implicit Types s : t (P := P).

(** The registration and the events of the channel follow the state and the buffer. *)
Definition chan_ok (ph : phase) s : Prop :=
  match state_ s with
  | kConnecting => chan_at channel_ fd (world_ s) 0 Fresh /\ reading_ s = true /\ Buffer.content (outputBuffer_ s) = []
  | kConnected | kDisconnecting => exists e, chan_at channel_ fd (world_ s) e Registered /\
      has e Channel.kWriteEvent = bool_decide (Buffer.content (outputBuffer_ s) <> []) /\
      has e Channel.kReadEvent = reading_ s
  | kDisconnected => chan_at channel_ fd (world_ s) 0 ph
  end.

(** What [write] has taken, what the buffer holds and the [rest] that [sendInLoop] has still
    to deal with are what was to be sent. *)
Definition stream_ok (rest : bytes) s : Prop :=
  Forall (fun e => ~ fatal e) (errs (sys s)) ->
  written (sys s) ++ Buffer.content (outputBuffer_ s) ++ rest = accepted (sys s).

Definition life_ok s : Prop :=
  match state_ s with
  | kConnecting => life_of (log (sys s)) = Some New
  | kConnected | kDisconnecting => life_of (log (sys s)) = Some Up
  | kDisconnected => life_of (log (sys s)) = Some Down \/ life_of (log (sys s)) = Some Closed
  end.

Record inv_rest (rest : bytes) (ph : phase) s : Prop := {
  i_chan : chan_ok ph s;
  i_in : Buffer.wf (inputBuffer_ s);
  i_out : Buffer.wf (outputBuffer_ s);
  i_stream : stream_ok rest s;
  i_half : Forall (fun x => x.1 = kDisconnected \/ x.2 = []) (half_closed (sys s));
  i_life : life_ok s;
  i_pending : Forall functor_ok (pending s);
  i_remote : Forall thread_ok (remote (sys s));
  i_users : Forall (Forall (fun a => api_ok a = true)) (users (sys s))
}.

Abbreviation inv_at := (inv_rest []).

(** The number of [connectDestroyed] that are queued. *)
Definition destroys s : nat := length (filter (fun f => f = F_destroyed) (pending s)).

(** What the loop thread's own code leaves alone. *)
Record frame s s' : Prop := {
  f_removed : removed (sys s') = removed (sys s);
  f_alive : alive (sys s') = alive (sys s);
  f_remote : remote (sys s') = remote (sys s);
  f_destroys : destroys s' = destroys s;
  f_new : state_ s <> kConnecting -> state_ s' <> kConnecting;
  f_down : state_ s = kDisconnected -> state_ s' = kDisconnected
}.

(** Running out of memory, and reading past a buffer to log it. *)
Definition may_fail (e : fault) : Prop := e = LengthError \/ (log_info = true /\ e = OutOfBounds).

(** User calls moreover keep an open connection open and call no callback. *)
Record user_frame s s' : Prop := {
  u_frame : frame s s';
  u_open : may_close (state_ s) = true -> may_close (state_ s') = true;
  u_log : log (sys s') = log (sys s)
}.

Lemma frame_refl s : frame s s.
Proof. by split. Qed.

Lemma frame_trans s1 s2 s3 : frame s1 s2 -> frame s2 s3 -> frame s1 s3.
Proof. intros [] []. split; try congruence; auto. Qed.

Lemma user_frame_trans s1 s2 s3 : user_frame s1 s2 -> user_frame s2 s3 -> user_frame s1 s3.
Proof. intros [] []. split; [by eapply frame_trans|auto|congruence]. Qed.

Lemma may_close_spec st : may_close st = true <-> st = kConnected \/ st = kDisconnecting.
Proof. apply bool_decide_eq_true. Qed.

Lemma wp_in_world E {A} (m : W P A) (Q : A -> t -> Prop) s a w' :
  m (world_ s) = Ok (a, w') -> Q a (set_world w' s) -> wp E (in_world m) Q s.
Proof. unfold wp, in_world. by intros ->. Qed.

Lemma wp_get_sys E {A} (f : system -> A) (Q : A -> t -> Prop) s : Q (f (sys s)) s -> wp E (get_sys f) Q s.
Proof. done. Qed.

Lemma wp_upd_sys E f (Q : unit -> t -> Prop) s : Q tt (set_sys (f (sys s)) s) -> wp E (upd_sys f) Q s.
Proof. done. Qed.

Lemma wp_queue E f (Q : unit -> t -> Prop) s :
  Q tt (set_pending (pending s ++ [f]) s) -> wp E (queueInLoop f) Q s.
Proof. done. Qed.

Lemma wp_setState E st (Q : unit -> t -> Prop) s : Q tt (set_state st s) -> wp E (setState st) Q s.
Proof. done. Qed.

(** [wp_step] for the operations on the surroundings. *)
Ltac conn_step :=
  lazymatch goal with
  | |- wp _ (_ ≫= _) _ _ => apply wp_bind; conn_step
  | |- wp _ (get_sys _) _ _ => apply wp_get_sys
  | |- wp _ (upd_sys _) _ _ => apply wp_upd_sys
  | |- wp _ (queueInLoop _) _ _ => apply wp_queue
  | |- wp _ (setState _) _ _ => apply wp_setState
  | |- _ => wp_step
  end.

(** [channel_->isWriting()] and the like are answered by the events. *)
Lemma wp_channel E (Q : Channel.t -> t -> Prop) s e ph :
  chan_at channel_ fd (world_ s) e ph -> (forall c, Channel.events_ c = e -> Q c s) ->
  wp E (in_world (channel channel_)) Q s.
Proof.
  intros Hc HQ. destruct (chan_at_channel _ _ _ _ _ Hc) as (c & Ha & He).
  apply (wp_in_world _ _ _ _ c (world_ s)); [|destruct s; by apply HQ].
  unfold channel, gets, mbind, st_bind. by rewrite Ha.
Qed.

Lemma wp_change E o (Q : unit -> t -> Prop) s e ph :
  chan_at channel_ fd (world_ s) e ph -> ph = Registered \/ (ph = Fresh /\ Client.ev_fun o e <> 0) ->
  (forall w', chan_at channel_ fd w' (Client.ev_fun o e) Registered -> Q tt (set_world w' s)) ->
  wp E (in_world (set_events_and_update (Client.ev_fun o) channel_)) Q s.
Proof.
  intros Hc Hok HQ. destruct (change_at _ _ o _ _ _ Hc Hok) as (w' & Hrun & Hc').
  eapply wp_in_world; [exact Hrun|by apply HQ].
Qed.

(** ** Sending *)

Lemma inv_queue rest ph f s :
  functor_ok f -> inv_rest rest ph s -> inv_rest rest ph (set_pending (pending s ++ [f]) s).
Proof. intros Hf []. split; simpl; try done. apply Forall_app. by split; [|constructor]. Qed.

Lemma frame_queue f s : f <> F_destroyed -> user_frame s (set_pending (pending s ++ [f]) s).
Proof.
  intros Hf. split; [split|..]; try done. unfold destroys. simpl.
  rewrite list.filter_app, filter_cons_False by done. by rewrite app_nil_r.
Qed.

Lemma wp_write E (Q : Z + Z -> t -> Prop) data len s :
  0 <= len <= lenZ data ->
  (forall n ws, 0 <= n <= len ->
     Q (inl n) (set_sys (set_written (written (sys s) ++ take (Z.to_nat n) data) (set_writes ws (sys s))) s)) ->
  (forall e ws, Q (inr e) (set_sys (set_errs (errs (sys s) ++ [e]) (set_writes ws (sys s))) s)) ->
  wp E (write data len) Q s.
Proof.
  intros Hlen Hn He. unfold write. wp_step. rewrite check_true by (apply bool_decide_eq_true; lia).
  do 2 conn_step. destruct (match writes (sys s) with [] => _ | w :: _ => w end) as [n|e]; repeat conn_step.
  - apply Hn. lia.
  - apply He.
Qed.

(** What [write] did, when nothing waits in the buffer. *)
Lemma inv_wrote ph n ws data len s :
  0 <= n <= len -> Buffer.content (outputBuffer_ s) = [] ->
  inv_rest (take (Z.to_nat len) data) ph s ->
  inv_rest (drop (Z.to_nat n) (take (Z.to_nat len) data)) ph
    (set_sys (set_written (written (sys s) ++ take (Z.to_nat n) data) (set_writes ws (sys s))) s).
Proof.
  intros Hn Hc []. split; try done. intros Hf. specialize (i_stream0 Hf). simpl. rewrite Hc in *. simpl in *.
  rewrite <- i_stream0, <- app_assoc. f_equal.
  rewrite <- (take_drop (Z.to_nat n) (take (Z.to_nat len) data)) at 2. f_equal. rewrite take_take. f_equal. lia.
Qed.

Lemma inv_write_error ph e ws rest rest' s :
  rest' = rest \/ fatal e -> inv_rest rest ph s ->
  inv_rest rest' ph (set_sys (set_errs (errs (sys s) ++ [e]) (set_writes ws (sys s))) s).
Proof.
  intros Hr []. split; try done. unfold stream_ok. simpl. intros [Hf Hfe]%Forall_app.
  destruct Hr as [->|Hr]; [by apply i_stream0|]. by apply Forall_inv in Hfe.
Qed.

(** The end of [sendInLoop]: the rest is buffered and writing is enabled. *)
Lemma store_spec ph rest data nwrote remaining s :
  inv_rest rest ph s -> may_close (state_ s) = true -> 0 < remaining <= vector_max_size ->
  remaining <= lenZ (drop (Z.to_nat nwrote) data) ->
  rest = take (Z.to_nat remaining) (drop (Z.to_nat nwrote) data) ->
  wp may_fail (b ← lift (Buffer.append (drop (Z.to_nat nwrote) data) remaining (outputBuffer_ s));
               _ ← modify (set_outputBuffer b);
               c ← in_world (channel channel_);
               when_ (negb (Channel.isWriting c)) (in_world (enableWriting channel_)))
    (fun _ s' => inv_at ph s' /\ user_frame s s') s.
Proof.
  intros Hi Hst Hrem Hlen ->. wp_step.
  pose proof (Buffer.append_total (drop (Z.to_nat nwrote) data) remaining _ (i_out _ _ _ Hi)) as Ha.
  destruct (Buffer.append _ _ _) as [b|e]; [|left; apply Ha; lia].
  destruct Ha as [Hwf Hc]; [lia..|]. do 2 wp_step.
  assert (exists e, chan_at channel_ fd (world_ s) e Registered /\ has e Channel.kReadEvent = reading_ s) as (e & Hch & Hrd).
  { pose proof (i_chan _ _ _ Hi) as Hch. unfold chan_ok in Hch. apply may_close_spec in Hst.
    destruct Hst as [Hst|Hst]; rewrite Hst in Hch; destruct Hch as (e & ? & _ & ?); eauto. }
  assert (Buffer.content b <> []) as Hne.
  { rewrite Hc. intros [_ Hn]%app_eq_nil. apply (f_equal lenZ) in Hn. unfold lenZ in *. rewrite length_take in Hn. simpl in Hn. lia. }
  assert (forall w' e', chan_at channel_ fd w' e' Registered -> has e' Channel.kWriteEvent = true ->
    has e' Channel.kReadEvent = reading_ s ->
    inv_at ph (set_world w' (set_outputBuffer b s)) /\ user_frame s (set_world w' (set_outputBuffer b s))) as Hend.
  { intros w' e' Hch' Hw' Hr'. destruct Hi. split; [split|by split; [split|..]]; simpl; try done.
    - unfold chan_ok. simpl. apply may_close_spec in Hst.
      destruct Hst as [Hst|Hst]; rewrite Hst; exists e'; by rewrite bool_decide_eq_true_2.
    - intros Hf. etransitivity; [|apply (i_stream0 Hf)]. simpl. by rewrite Hc, app_nil_r. }
  wp_focus. apply (wp_channel _ _ _ e Registered); [done|]. intros c Hce. wp_step.
  - change (enableWriting channel_) with (set_events_and_update (Client.ev_fun Client.EnableWriting) channel_).
    eapply wp_change; [exact Hch|by left|]. intros w' Hw'.
    destruct (event_bits Client.EnableWriting e (chan_at_events _ _ _ _ _ Hch)) as [Hb1 Hb2].
    apply Hend with (1 := Hw'); congruence.
  - wp_step. replace (set_outputBuffer b s) with (set_world (world_ s) (set_outputBuffer b s)) by by destruct s.
    apply Hend with (1 := Hch); [|done]. unfold Channel.isWriting in Heqb0. rewrite Hce in Heqb0.
    by apply negb_false_iff in Heqb0.
Qed.

(** An open connection's events, as its invariant gives them. *)
Lemma inv_open rest ph s :
  inv_rest rest ph s -> may_close (state_ s) = true -> exists e, chan_at channel_ fd (world_ s) e Registered /\
    has e Channel.kWriteEvent = bool_decide (Buffer.content (outputBuffer_ s) <> []) /\
    has e Channel.kReadEvent = reading_ s.
Proof.
  intros Hi Hst%may_close_spec. pose proof (i_chan _ _ _ Hi) as Hch. unfold chan_ok in Hch.
  by destruct Hst as [Hst|Hst]; rewrite Hst in Hch.
Qed.

Lemma user_frame_refl s : user_frame s s.
Proof. by split; [apply frame_refl|..]. Qed.

Lemma not_new_cases st : st <> kConnecting -> st <> kDisconnected -> may_close st = true.
Proof. intros. apply may_close_spec. destruct st; auto; done. Qed.

(** The first half of [sendInLoop]: what is left after writing directly. *)
Lemma direct_write_spec ph data len c s :
  inv_rest (take (Z.to_nat len) data) ph s -> may_close (state_ s) = true -> 0 <= len <= lenZ data ->
  len <= vector_max_size -> Channel.isWriting c = bool_decide (Buffer.content (outputBuffer_ s) <> []) ->
  wp may_fail
    (if negb (Channel.isWriting c) && bool_decide (Buffer.readableBytes (outputBuffer_ s) = 0) then
       r ← write data len;
       match r with
       | inl nwrote =>
           let remaining := size_sub len nwrote in
           _ ← when_ (bool_decide (remaining = 0) && writeCompleteCallback_ s) (queueInLoop F_writeComplete);
           mret (nwrote, remaining, false)
       | inr errno =>
           mret (0, len, negb (bool_decide (errno = EWOULDBLOCK)) &&
                         bool_decide (errno = EPIPE \/ errno = ECONNRESET))
       end
     else mret (0, len, false))
    (fun '(nwrote, remaining, fault) s' => 0 <= nwrote <= len /\ remaining = len - nwrote /\ user_frame s s' /\
       outputBuffer_ s' = outputBuffer_ s /\
       inv_rest (if fault : bool then [] else drop (Z.to_nat nwrote) (take (Z.to_nat len) data)) ph s') s.
Proof.
  intros Hi Hst Hlen Hmax Hw.
  destruct (bool_decide_reflect (Buffer.readableBytes (outputBuffer_ s) = 0)) as [He|He].
  2: { rewrite andb_false_r. wp_step. split_and!; [lia|lia|lia|apply user_frame_refl|done|done]. }
  rewrite (Buffer.readable_content _ (i_out _ _ _ Hi)) in He.
  assert (Buffer.content (outputBuffer_ s) = []) as Hc by (by apply length_zero_iff_nil; unfold lenZ in He; lia).
  rewrite Hw, bool_decide_eq_false_2 by (intros Hn; by apply Hn). simpl.
  wp_focus. apply wp_write; [done| |].
  - intros n ws Hn. rewrite size_sub_small by (unfold vector_max_size in *; lia).
    pose proof (inv_wrote ph n ws data len s Hn Hc Hi) as Hi'.
    assert (forall s1, s1 = set_sys (set_written (written (sys s) ++ take (Z.to_nat n) data) (set_writes ws (sys s))) s ->
      user_frame s s1) as Hfr by (by intros s1 ->).
    conn_step; repeat conn_step; split_and!; try done; try lia; [|by apply inv_queue].
    eapply user_frame_trans; [by apply Hfr|]. by apply frame_queue.
  - intros e ws. conn_step. split_and!; try done; try lia.
    apply inv_write_error with (rest := take (Z.to_nat len) data); [|done].
    destruct (bool_decide_reflect (e = EWOULDBLOCK)); [by left|].
    destruct (bool_decide_reflect (e = EPIPE \/ e = ECONNRESET)) as [Hf|]; [by right|by left].
Qed.

Lemma sendInLoop_spec ph data len s :
  inv_at ph s -> state_ s <> kConnecting -> 0 <= len <= lenZ data -> len <= vector_max_size ->
  wp may_fail (sendInLoop channel_ data len) (fun _ s' => inv_at ph s' /\ user_frame s s') s.
Proof.
  intros Hi Hnew Hlen Hmax. unfold sendInLoop. wp_step. destruct (decide _) as [Hd|Hd].
  { wp_step. by split; [|apply user_frame_refl]. }
  pose proof (not_new_cases _ Hnew Hd) as Hst. destruct (inv_open _ _ _ Hi Hst) as (e & Hch & Hw & _).
  conn_step. set (s1 := set_sys _ s).
  assert (inv_rest (take (Z.to_nat len) data) ph s1) as Hi1.
  { destruct Hi. split; try done. intros Hf. specialize (i_stream0 Hf). simpl in *.
    by rewrite <- i_stream0, app_nil_r, app_assoc. }
  assert (user_frame s s1 /\ outputBuffer_ s1 = outputBuffer_ s) as [Hf1 Ho1] by done.
  wp_focus. apply (wp_channel _ _ _ e Registered); [done|]. intros c Hc. wp_focus.
  eapply wp_mono; [apply (direct_write_spec ph data len c s1); try done; by unfold Channel.isWriting; rewrite Hc|].
  clearbody s1. intros [[nwrote remaining] fault] s2. intros (Hn & -> & Hf2 & Ho2 & Hi2).
  conn_step; [apply bool_decide_eq_true; lia|].
  destruct fault; simpl; [wp_step; split; [done|by eapply user_frame_trans]|].
  destruct (bool_decide_reflect (0 < len - nwrote)) as [Hpos|Hz].
  2: { wp_step. split; [|by eapply user_frame_trans]. rewrite drop_ge in Hi2; [done|]. rewrite length_take. lia. }
  match goal with |- wp _ (?m ≫= ?k) _ _ => set (q := m); set (store := k) end.
  assert (forall s3, user_frame s s3 -> outputBuffer_ s3 = outputBuffer_ s ->
    inv_rest (drop (Z.to_nat nwrote) (take (Z.to_nat len) data)) ph s3 ->
    wp may_fail (store tt) (fun _ s' => inv_at ph s' /\ user_frame s s') s3) as Hstore.
  { intros s3 Hf3 Ho3 Hi3. unfold store. rewrite <- Ho3.
    eapply wp_mono; [apply (store_spec ph _ data nwrote (len - nwrote) _ Hi3)|].
    - by apply (u_open _ _ Hf3).
    - lia.
    - unfold lenZ in *. rewrite length_drop. lia.
    - rewrite skipn_firstn_comm. f_equal. lia.
    - intros _ s' [? ?]. split; [done|]. by eapply user_frame_trans. }
  apply wp_bind. unfold q. conn_step; apply Hstore; simpl.
  - eapply user_frame_trans; [exact Hf1|]. eapply user_frame_trans; [exact Hf2|]. by apply frame_queue.
  - congruence.
  - by apply inv_queue.
  - by eapply user_frame_trans.
  - congruence.
  - done.
Qed.

(** ** User code *)

(** What code that user programs run guarantees. *)
Definition user_spec (ph : phase) (m : ST t unit) : Prop := forall s,
  inv_at ph s -> state_ s <> kConnecting -> wp may_fail m (fun _ s' => inv_at ph s' /\ user_frame s s') s.

(** The spec of a block, continued from a state that an earlier block has reached. *)
Lemma user_spec_from ph m s0 s :
  user_spec ph m -> inv_at ph s -> state_ s <> kConnecting -> user_frame s0 s ->
  wp may_fail m (fun _ s' => inv_at ph s' /\ user_frame s0 s') s.
Proof.
  intros Hm Hi Hn Hf. eapply wp_mono; [by apply Hm|]. intros _ s' [? ?]. split; [done|by eapply user_frame_trans].
Qed.

Lemma when_spec (b : bool) ph m s :
  inv_at ph s -> (b = true -> wp may_fail m (fun _ s' => inv_at ph s' /\ user_frame s s') s) ->
  wp may_fail (when_ b m) (fun _ s' => inv_at ph s' /\ user_frame s s') s.
Proof. intros Hi Hm. wp_step; [auto|]. wp_step. by split; [|apply user_frame_refl]. Qed.

Lemma send_piece_spec ph message : send_ok message = true -> user_spec ph (sendInLoop_piece channel_ message).
Proof.
  intros [[Hs1 Hs2]%bool_decide_eq_true Hd%bool_decide_eq_true]%andb_prop s Hi Hn. unfold sendInLoop_piece.
  rewrite uwrap_small by (unfold u_in; lia). apply sendInLoop_spec; [done..|lia|unfold vector_max_size; lia].
Qed.

Lemma send_spec ph message : send_ok message = true -> user_spec ph (send channel_ message).
Proof. intros Hok s Hi Hn. unfold send. wp_step. apply when_spec; [done|]. intros _. by apply send_piece_spec. Qed.

Lemma inv_input rest ph b s : inv_rest rest ph s -> Buffer.wf b -> inv_rest rest ph (set_inputBuffer b s).
Proof. by intros [] Hb. Qed.

Lemma input_frame b s : user_frame s (set_inputBuffer b s).
Proof. done. Qed.

Lemma send_input_spec ph : user_spec ph (send_input channel_).
Proof.
  intros s Hi Hn. unfold send_input. wp_step. apply when_spec; [done|]. intros _. cbv zeta.
  pose proof (i_in _ _ _ Hi) as Hwf. pose proof Hwf as (Hb1 & Hb2 & Hb3).
  wp_focus. eapply wp_mono; [apply (sendInLoop_spec ph); [done..| |]|].
  - rewrite Buffer.readable_wf by done. unfold lenZ in *. rewrite length_drop. unfold Buffer.peek. lia.
  - rewrite Buffer.readable_wf by done. lia.
  - intros _ s' [Hi' Hf]. wp_step. split; [|by eapply user_frame_trans; [|apply input_frame]].
    apply inv_input; [done|]. apply Buffer.retrieveAll_wf, Hi'.
Qed.

Lemma inv_closing ph s :
  inv_at ph s -> may_close (state_ s) = true ->
  inv_at ph (set_state kDisconnecting s) /\ user_frame s (set_state kDisconnecting s).
Proof.
  intros Hi Hst. destruct (inv_open _ _ _ Hi Hst) as (e & Hch). apply may_close_spec in Hst.
  split; [|split; [split|..]]; simpl; try done; [|by destruct Hst as [-> | ->]].
  destruct Hi. split; try done; [by exists e|]. unfold life_ok in *. simpl. by destruct Hst as [Hst|Hst]; rewrite Hst in *.
Qed.

Lemma shutdownInLoop_spec ph : user_spec ph (shutdownInLoop channel_).
Proof.
  intros s Hi Hn. unfold shutdownInLoop.
  assert (exists e ph', chan_at channel_ fd (world_ s) e ph' /\
    (has e Channel.kWriteEvent = false -> state_ s = kDisconnected \/ Buffer.content (outputBuffer_ s) = [])) as (e & ph' & Hch & Hw).
  { destruct (decide (state_ s = kDisconnected)) as [Hd|Hd].
    - pose proof (i_chan _ _ _ Hi) as Hch. unfold chan_ok in Hch. rewrite Hd in Hch. eauto.
    - destruct (inv_open _ _ _ Hi (not_new_cases _ Hn Hd)) as (e & ? & Hw & _). exists e, Registered. split; [done|].
      rewrite Hw. intros Hb%bool_decide_eq_false. right. by apply dec_stable. }
  wp_focus. eapply wp_channel; [exact Hch|]. intros c <-. apply when_spec; [done|].
  intros Hwr%negb_true_iff. unfold shutdownWrite. do 2 conn_step. split; [|done].
  destruct Hi. split; try done. simpl. apply Forall_app. split; [done|]. constructor; [|done]. by apply Hw.
Qed.

Lemma shutdown_spec ph : user_spec ph (shutdown channel_).
Proof.
  intros s Hi Hn. unfold shutdown. wp_step. apply when_spec; [done|]. intros Hst%bool_decide_eq_true.
  destruct (inv_closing ph s Hi) as [Hi' Hf]; [by rewrite Hst|].
  conn_step. apply user_spec_from; [apply shutdownInLoop_spec|done..].
Qed.

Lemma forceClose_spec ph : user_spec ph forceClose.
Proof.
  intros s Hi Hn. unfold forceClose. wp_step. apply when_spec; [done|]. intros Hst.
  destruct (inv_closing ph s Hi Hst) as [Hi' Hf]. do 2 conn_step. split; [by apply inv_queue|].
  eapply user_frame_trans; [exact Hf|by apply frame_queue].
Qed.

Lemma conn_addTimer_spec ph : user_spec ph addTimer.
Proof. intros s Hi Hn. unfold addTimer. conn_step. split; [by destruct Hi|done]. Qed.

Lemma forceCloseWithDelay_spec ph : user_spec ph forceCloseWithDelay.
Proof.
  intros s Hi Hn. unfold forceCloseWithDelay. wp_step. apply when_spec; [done|]. intros Hst.
  destruct (inv_closing ph s Hi Hst) as [Hi' Hf]. conn_step. apply user_spec_from; [apply conn_addTimer_spec|done..].
Qed.

(** Changing the reading bit of an open connection. *)
Lemma reading_spec ph o b s :
  (o = Client.EnableReading /\ b = true) \/ (o = Client.DisableReading /\ b = false) ->
  inv_at ph s -> may_close (state_ s) = true ->
  wp may_fail (_ ← in_world (set_events_and_update (Client.ev_fun o) channel_); modify (set_reading b))
    (fun _ s' => inv_at ph s' /\ user_frame s s') s.
Proof.
  intros Ho Hi Hst. destruct (inv_open _ _ _ Hi Hst) as (e & Hch & Hw & Hr).
  wp_focus. eapply wp_change; [exact Hch|by left|]. intros w' Hw'. wp_step. split; [|done].
  destruct (event_bits o e (chan_at_events _ _ _ _ _ Hch)) as [Hb1 Hb2].
  destruct Hi. split; try done. unfold chan_ok. simpl. apply may_close_spec in Hst.
  assert (exists e', chan_at channel_ fd w' e' Registered /\
    has e' Channel.kWriteEvent = bool_decide (Buffer.content (outputBuffer_ s) <> []) /\
    has e' Channel.kReadEvent = b) as Hx; [|by destruct Hst as [-> | ->]].
  exists (Client.ev_fun o e). rewrite <- Hw. destruct Ho as [[-> ->]|[-> ->]]; done.
Qed.

Lemma startRead_spec ph s :
  inv_at ph s -> may_close (state_ s) = true ->
  wp may_fail (startReadInLoop channel_) (fun _ s' => inv_at ph s' /\ user_frame s s') s.
Proof.
  intros Hi Hst. destruct (inv_open _ _ _ Hi Hst) as (e & Hch & _). unfold startReadInLoop. wp_step.
  wp_focus. eapply wp_channel; [exact Hch|]. intros c _. apply when_spec; [done|]. intros _.
  apply (reading_spec ph Client.EnableReading); auto.
Qed.

Lemma stopRead_spec ph s :
  inv_at ph s -> may_close (state_ s) = true ->
  wp may_fail (stopReadInLoop channel_) (fun _ s' => inv_at ph s' /\ user_frame s s') s.
Proof.
  intros Hi Hst. destruct (inv_open _ _ _ Hi Hst) as (e & Hch & _). unfold stopReadInLoop. wp_step.
  wp_focus. eapply wp_channel; [exact Hch|]. intros c _. apply when_spec; [done|]. intros _.
  apply (reading_spec ph Client.DisableReading); auto.
Qed.

Lemma run_api_spec ph a : api_ok a = true -> user_spec ph (run_api channel_ a).
Proof.
  induction a as [m| | | | | | |n|a IH]; intros Hok; simpl.
  - by apply send_spec.
  - apply send_input_spec.
  - apply shutdown_spec.
  - apply forceClose_spec.
  - apply forceCloseWithDelay_spec.
  - done.
  - done.
  - intros s Hi Hn. wp_step. wp_step.
    destruct (Buffer.retrieve_spec (Z.max 0 (Z.min n (Buffer.readableBytes (inputBuffer_ s)))) (inputBuffer_ s))
      as (b & Hb & Hwf & _); [apply Hi| |].
    { pose proof (i_in _ _ _ Hi) as Hwf. rewrite Buffer.readable_wf by done. unfold Buffer.wf in Hwf. lia. }
    rewrite Hb. wp_step. split; [by apply inv_input|done].
  - intros s Hi Hn. wp_step. apply when_spec; [done|]. intros Hc%bool_decide_eq_true.
    assert (may_close (state_ s) = true) as Hst by (by rewrite Hc).
    destruct a; try (by apply IH).
    + by apply startRead_spec.
    + by apply stopRead_spec.
Qed.

Lemma program_spec ph u : Forall (fun a => api_ok a = true) u -> user_spec ph (for_each (run_api channel_) u).
Proof.
  induction u as [|a u IH]; intros Hu s Hi Hn; simpl; [wp_step; by split; [|apply user_frame_refl]|].
  apply list.Forall_cons in Hu as [Ha Hu]. wp_focus. eapply wp_mono; [by apply run_api_spec|].
  intros _ s' [Hi' Hf]. apply user_spec_from; [by apply IH|done|by apply (f_new _ _ (u_frame _ _ Hf))|done].
Qed.

(** ** Callbacks *)

Definition logged (c : callback) s : t := set_sys (set_log (log (sys s) ++ [c]) (sys s)) s.

(** Calling a callback, when that is its turn. *)
Lemma call_user_spec ph c s :
  inv_at ph (logged c s) -> state_ s <> kConnecting ->
  wp may_fail (call_user channel_ c) (fun _ s' => inv_at ph s' /\ user_frame (logged c s) s') s.
Proof.
  intros Hi Hn. unfold call_user, call, next_user. conn_step. fold (logged c s). conn_step.
  pose proof (i_users _ _ _ Hi) as Hu. destruct (users (sys (logged c s))) as [|u us] eqn:Eu.
  { wp_step. simpl. wp_step. by split; [|apply user_frame_refl]. }
  apply list.Forall_cons in Hu as [Hu Hus]. do 2 conn_step.
  apply user_spec_from; [by apply program_spec| |done|done].
  by destruct Hi.
Qed.

(** Callbacks that leave the phase of the life as it is. *)
Lemma inv_logged ph c s :
  (forall x, life_of (log (sys s)) = Some x -> life_ok s -> life_step x c = Some x) ->
  inv_at ph s -> inv_at ph (logged c s).
Proof.
  intros Hc []. split; try done. unfold life_ok, logged. simpl. rewrite life_snoc.
  pose proof i_life0 as Hl. unfold life_ok in Hl.
  destruct (state_ s); [destruct Hl as [Hl|Hl]; rewrite Hl; [left|right]|rewrite Hl..];
    exact (Hc _ Hl i_life0).
Qed.

Lemma inv_phase ph ph' rest s : state_ s <> kDisconnected -> inv_rest rest ph s -> inv_rest rest ph' s.
Proof. intros Hs []. split; try done. unfold chan_ok in *. by destruct (state_ s). Qed.

(** [setState(kDisconnected)], [disableAll] and the connection callback. *)
Lemma close_core_spec ph s :
  inv_at ph s -> may_close (state_ s) = true ->
  wp may_fail (_ ← setState kDisconnected; _ ← in_world (disableAll channel_);
               call_user channel_ (ConnectionCallback false))
    (fun _ s' => inv_at Registered s' /\ frame s s' /\ state_ s' = kDisconnected /\
       life_of (log (sys s')) = Some Down) s.
Proof.
  intros Hi Hst. destruct (inv_open _ _ _ Hi Hst) as (e & Hch & _). conn_step. wp_focus.
  change (disableAll channel_) with (set_events_and_update (Client.ev_fun Client.DisableAll) channel_).
  eapply wp_change; [exact Hch|by left|]. intros w' Hw'.
  set (s1 := set_world w' (set_state kDisconnected s)).
  assert (life_of (log (sys s)) = Some Up) as Hup.
  { pose proof (i_life _ _ _ Hi) as Hl. unfold life_ok in Hl. apply may_close_spec in Hst.
    by destruct Hst as [Hst|Hst]; rewrite Hst in Hl. }
  assert (life_of (log (sys (logged (ConnectionCallback false) s1))) = Some Down) as Hdown
    by (simpl; by rewrite life_snoc, Hup).
  eapply wp_mono; [apply (call_user_spec Registered)|].
  - destruct Hi. split; try done. by left.
  - done.
  - intros _ s' [Hi' [Hf Ho Hl]]. split_and!; [done| |by apply (f_down _ _ Hf)|by rewrite Hl].
    eapply frame_trans; [|exact Hf]. split; try done.
Qed.

Lemma handleClose_spec ph s :
  inv_at ph s -> may_close (state_ s) = true ->
  wp may_fail (handleClose channel_) (fun _ s' => inv_at Registered s' /\ frame s s' /\ state_ s' = kDisconnected) s.
Proof.
  intros Hi Hst. unfold handleClose. do 2 wp_step; [done|].
  pose proof (close_core_spec ph s Hi Hst) as Hc. unfold wp, mbind, st_bind in Hc |- *. simpl in Hc |- *.
  destruct (in_world (disableAll channel_) _) as [[[] s1]|e]; [|done].
  destruct (call_user channel_ _ s1) as [[[] s2]|e]; [|done]. simpl.
  destruct Hc as ([] & [] & Hs & Hl). split_and!; try done. split; try done.
  unfold life_ok. simpl. rewrite Hs, life_snoc, Hl. by right.
Qed.

Lemma forceCloseInLoop_spec ph s :
  inv_at ph s -> state_ s = kDisconnected \/ ph = Registered ->
  wp may_fail (forceCloseInLoop channel_) (fun _ s' => inv_at ph s' /\ frame s s') s.
Proof.
  intros Hi Hph. unfold forceCloseInLoop. do 2 wp_step; [|wp_step; by split; [|apply frame_refl]].
  eapply wp_mono; [by apply (handleClose_spec ph)|]. intros _ s' (? & ? & _). split; [|done].
  destruct Hph as [Hs| ->]; [|done]. by rewrite Hs in *.
Qed.

Lemma log_peek_spec b (Q : unit -> t -> Prop) s : Q tt s -> wp may_fail (log_peek log_info b) Q s.
Proof.
  intros HQ. unfold log_peek. destruct log_info eqn:El; wp_step; [|done].
  unfold StringPiece.of_cstr. destruct (find_byte _ _); simpl; [done|]. by right.
Qed.

Lemma readv_le r n d : 0 <= n -> readv r n = Buffer.ReadvData d -> lenZ d <= n.
Proof. intros Hn. destruct r; simpl; [done|]. intros [= <-]. unfold lenZ. rewrite length_take. lia. Qed.

Lemma conn_handleRead_spec s :
  inv_at Registered s -> may_close (state_ s) = true ->
  wp may_fail (handleRead channel_ log_info) (fun _ s' => inv_at Registered s' /\ frame s s') s.
Proof.
  intros Hi Hst. unfold handleRead.
  assert (forall r rs, wp may_fail
    (s ← get; '(n, _, b) ← lift (Buffer.readFd (readv r) (inputBuffer_ s)); _ ← modify (set_inputBuffer b);
     _ ← log_peek log_info b;
     if bool_decide (0 < n) then call_user channel_ MessageCallback
     else if bool_decide (n = 0) then handleClose channel_ else handleError)
    (fun _ s' => inv_at Registered s' /\ frame s s') (set_sys (set_reads rs (sys s)) s)) as Hrest.
  2: { unfold next_read. do 2 wp_step. conn_step. destruct (reads (sys s)) as [|r rs] eqn:Er.
       - wp_step. specialize (Hrest (Buffer.ReadvError EWOULDBLOCK) []). rewrite <- Er in Hrest.
         replace (set_sys (set_reads (reads (sys s)) (sys s)) s) with s in Hrest by by destruct s as [????????? []].
         exact Hrest.
       - do 2 conn_step. apply Hrest. }
  intros r rs. do 2 wp_step.
  pose proof (Buffer.readFd_total (readv r) (inputBuffer_ s) (i_in _ _ _ Hi) (readv_le r)) as Hr. simpl.
  destruct (Buffer.readFd _ _) as [[[n er] b]|e]; [|by left]. destruct Hr as [Hwf _].
  do 2 wp_step. wp_focus. apply log_peek_spec. set (s1 := set_inputBuffer b _).
  assert (inv_at Registered s1) as Hi1 by (by destruct Hi).
  assert (frame s s1) as Hf1 by done. assert (state_ s1 = state_ s) as Hs1 by done. clearbody s1.
  destruct (bool_decide _); [|destruct (bool_decide _)].
  - eapply wp_mono; [apply (call_user_spec Registered)|].
    + apply inv_logged; [|done]. intros x Hx Hl. unfold life_ok in Hl. rewrite Hs1 in Hl. rewrite Hx in Hl.
      apply may_close_spec in Hst. by destruct Hst as [Hst|Hst]; rewrite Hst in Hl; injection Hl as ->.
    + rewrite Hs1. by destruct (state_ s).
    + intros _ s' [? [Hf _ _]]. split; [done|]. eapply frame_trans; [exact Hf1|]. by eapply frame_trans; [|exact Hf].
  - eapply wp_mono; [apply (handleClose_spec Registered); [done|by rewrite Hs1]|].
    intros _ s' (? & ? & _). split; [done|by eapply frame_trans].
  - unfold handleError. by wp_step.
Qed.

(** The events of a connection that has been established. *)
Lemma conn_inv_channel rest ph s :
  inv_rest rest ph s -> state_ s <> kConnecting -> exists e ph', chan_at channel_ fd (world_ s) e ph' /\
    (has e Channel.kWriteEvent = true -> may_close (state_ s) = true).
Proof.
  intros Hi Hn. destruct (decide (state_ s = kDisconnected)) as [Hd|Hd].
  - pose proof (i_chan _ _ _ Hi) as Hch. unfold chan_ok in Hch. rewrite Hd in Hch. by exists 0, ph.
  - pose proof (not_new_cases _ Hn Hd) as Hst.
    destruct (inv_open _ _ _ Hi Hst) as (e & ? & _). by exists e, Registered.
Qed.

(** The buffer after [n] of its bytes have been written. *)
Lemma inv_retrieved ph n ws b s :
  let out := outputBuffer_ s in
  inv_at ph s -> 0 <= n <= Buffer.readableBytes out -> Buffer.retrieve n out = Ok b ->
  let s1 := set_outputBuffer b (set_sys (set_written (written (sys s) ++
    take (Z.to_nat n) (drop (Z.to_nat (Buffer.peek out)) (Buffer.buffer_ out))) (set_writes ws (sys s))) s) in
  Buffer.wf b /\ Buffer.content b = drop (Z.to_nat n) (Buffer.content out) /\ stream_ok [] s1.
Proof.
  intros out Hi Hn Hb s1. pose proof (i_out _ _ _ Hi) as Hwf.
  destruct (Buffer.retrieve_spec n out Hwf Hn) as (b' & Hb' & Hwf' & Hc & _). rewrite Hb in Hb'. injection Hb' as <-.
  split_and!; [done..|]. intros Hf. etransitivity; [|apply (i_stream _ _ _ Hi Hf)]. unfold s1. simpl.
  rewrite Hc, !app_nil_r, <- app_assoc. f_equal. fold out.
  rewrite <- (take_drop (Z.to_nat n) (Buffer.content out)) at 2. f_equal.
  unfold Buffer.content, slice, Buffer.peek. rewrite take_take. f_equal. rewrite Buffer.readable_wf in Hn by done. lia.
Qed.

Lemma inv_write_tail ph n ws s :
  n = 0 -> inv_at ph s ->
  inv_at ph (set_sys (set_written (written (sys s) ++
    take (Z.to_nat n) (drop (Z.to_nat (Buffer.peek (outputBuffer_ s))) (Buffer.buffer_ (outputBuffer_ s))))
    (set_writes ws (sys s))) s).
Proof. intros -> []. simpl. rewrite app_nil_r. done. Qed.

(** The last byte has been written: writing is disabled, and a pending shutdown done. *)
Lemma drained_spec ph s s1 :
  inv_at ph s -> may_close (state_ s) = true -> frame s s1 ->
  world_ s1 = world_ s ->
  (forall w' e', chan_at channel_ fd w' e' Registered -> has e' Channel.kWriteEvent = false ->
     has e' Channel.kReadEvent = reading_ s -> inv_at ph (set_world w' s1)) ->
  wp may_fail (_ ← in_world (disableWriting channel_);
               _ ← when_ (writeCompleteCallback_ s) (queueInLoop F_writeComplete);
               s ← get;
               when_ (bool_decide (state_ s = kDisconnecting)) (shutdownInLoop channel_))
    (fun _ s' => inv_at ph s' /\ frame s s') s1.
Proof.
  intros Hi Hst Hf Hw Hi1. destruct (inv_open _ _ _ Hi Hst) as (e & Hch & _ & Hrd). rewrite <- Hw in Hch.
  change (disableWriting channel_) with (set_events_and_update (Client.ev_fun Client.DisableWriting) channel_).
  wp_focus. eapply wp_change; [exact Hch|by left|]. intros w' Hw'.
  destruct (event_bits Client.DisableWriting e (chan_at_events _ _ _ _ _ Hch)) as [Hb1 Hb2].
  specialize (Hi1 w' _ Hw' Hb1). rewrite Hb2 in Hi1. specialize (Hi1 Hrd).
  assert (forall s2, inv_at ph s2 -> frame s s2 -> wp may_fail
    (s ← get; when_ (bool_decide (state_ s = kDisconnecting)) (shutdownInLoop channel_))
    (fun _ s' => inv_at ph s' /\ frame s s') s2) as Hend.
  { intros s2 Hi2 Hf2. do 2 wp_step; [|by wp_step].
    eapply wp_mono; [apply shutdownInLoop_spec; [done|]|].
    - apply (f_new _ _ Hf2). by destruct (state_ s).
    - intros _ s' [? [Hf3 _ _]]. split; [done|by eapply frame_trans]. }
  assert (frame s (set_world w' s1)) as Hf1 by (eapply frame_trans; [exact Hf|by split]).
  conn_step; conn_step; apply Hend; try done.
  - by apply inv_queue.
  - eapply frame_trans; [exact Hf1|]. by apply frame_queue.
Qed.

Lemma handleWrite_spec ph s :
  inv_at ph s -> state_ s <> kConnecting ->
  wp may_fail (handleWrite channel_ log_info) (fun _ s' => inv_at ph s' /\ frame s s') s.
Proof.
  intros Hi Hn. unfold handleWrite. wp_step.
  destruct (conn_inv_channel _ _ _ Hi Hn) as (e0 & ph' & Hch0 & Hopen).
  wp_focus. eapply wp_channel; [exact Hch0|]. intros c Hc. unfold Channel.isWriting. rewrite Hc.
  destruct (has e0 _) eqn:Hwr; [|wp_step; by split; [|apply frame_refl]].
  specialize (Hopen eq_refl). destruct (inv_open _ _ _ Hi Hopen) as (e & Hch & Hw & Hrd).
  cbv zeta. set (out := outputBuffer_ s). pose proof (i_out _ _ _ Hi) as Hwf. fold out in Hwf.
  pose proof Hwf as (Hb1 & Hb2 & Hb3).
  assert (0 <= Buffer.readableBytes out <= lenZ (drop (Z.to_nat (Buffer.peek out)) (Buffer.buffer_ out))) as Hlen.
  { rewrite Buffer.readable_wf by done. unfold lenZ, Buffer.peek in *. rewrite length_drop. lia. }
  wp_focus. apply wp_write; [exact Hlen| |].
  - intros n ws Hnn. wp_focus. apply log_peek_spec. wp_step.
    2: { wp_step. split; [|by split]. apply inv_write_tail; [|done]. apply bool_decide_eq_false in Heqb. lia. }
    destruct (Buffer.retrieve_spec n out Hwf Hnn) as (b & Hb & Hwfb & Hcb & _).
    wp_step. rewrite Hb. wp_step.
    destruct (inv_retrieved ph n ws b s Hi Hnn Hb) as (_ & _ & Hstr). fold out in Hstr.
    set (s1 := set_outputBuffer b _) in *.
    assert (forall w' e', chan_at channel_ fd w' e' Registered ->
      has e' Channel.kWriteEvent = bool_decide (Buffer.content b <> []) ->
      has e' Channel.kReadEvent = reading_ s -> inv_at ph (set_world w' s1)) as Hinv.
    { intros w' e' H1 H2 H3. destruct Hi. split; try done. unfold chan_ok. simpl. apply may_close_spec in Hopen.
      destruct Hopen as [-> | ->]; by exists e'. }
    wp_step.
    + apply bool_decide_eq_true in Heqb0. rewrite (Buffer.readable_content b Hwfb) in Heqb0.
      assert (Buffer.content b = []) as Hnil by (apply length_zero_iff_nil; unfold lenZ in Heqb0; lia).
      eapply drained_spec; try done. intros w' e' H1 H2 H3. apply (Hinv w' e' H1); [|done].
      rewrite H2, Hnil. by rewrite bool_decide_eq_false_2 by (intros Hx; by apply Hx).
    + wp_step. split; [|by split]. replace s1 with (set_world (world_ s) s1) by by destruct s.
      apply (Hinv _ e Hch); [|done]. rewrite Hw. rewrite !bool_decide_eq_true_2; [done|..].
      * intros Hnil. rewrite (Buffer.readable_content b Hwfb), Hnil in Heqb0. done.
      * intros Hnil. fold out in Hnil. rewrite Hnil, drop_nil in Hcb.
        rewrite (Buffer.readable_content b Hwfb), Hcb in Heqb0. done.
  - intros er ws. wp_focus. apply log_peek_spec. wp_step. split; [|by split].
    apply inv_write_error with (rest := []); [by left|done].
Qed.

(** ** The beginning and the end *)

Lemma connectEstablished_spec s :
  inv_at Registered s -> state_ s = kConnecting ->
  wp may_fail (connectEstablished channel_) (fun _ s' => inv_at Registered s' /\ frame s s' /\ state_ s' <> kConnecting) s.
Proof.
  intros Hi Hst. unfold connectEstablished. do 2 wp_step; [by apply bool_decide_eq_true|]. conn_step.
  pose proof (i_chan _ _ _ Hi) as Hch. unfold chan_ok in Hch. rewrite Hst in Hch. destruct Hch as (Hch & Hrd & Hout).
  destruct (touch_at channel_ fd (Channel.tie true) _ _ _ ltac:(done) Hch) as (w1 & Hrun & Hch1).
  wp_focus. eapply wp_in_world; [exact Hrun|].
  change (enableReading channel_) with (set_events_and_update (Client.ev_fun Client.EnableReading) channel_).
  wp_focus. eapply wp_change; [exact Hch1|by right|]. intros w' Hw'. set (s1 := set_world w' _).
  eapply wp_mono; [apply (call_user_spec Registered)|].
  - pose proof (i_life _ _ _ Hi) as Hl. unfold life_ok in Hl. rewrite Hst in Hl.
    destruct Hi. split; try done.
    + exists (Client.ev_fun Client.EnableReading 0). split; [done|]. simpl. rewrite Hout, Hrd. done.
    + unfold life_ok. simpl. by rewrite life_snoc, Hl.
  - done.
  - intros _ s' [Hi' [Hf _ _]]. split_and!; [done| |by apply (f_new _ _ Hf)].
    eapply frame_trans; [|exact Hf]. split; try done. intros Hd. congruence.
Qed.

Lemma connectDestroyed_spec s :
  inv_at Registered s -> state_ s = kConnected \/ state_ s = kDisconnected ->
  wp may_fail (connectDestroyed channel_) (fun _ s' => inv_at Gone s' /\ frame s s' /\ state_ s' = kDisconnected) s.
Proof.
  intros Hi Hst. unfold connectDestroyed. wp_step.
  assert (forall s1, inv_at Registered s1 -> frame s s1 -> state_ s1 = kDisconnected ->
    wp may_fail (in_world (channel_remove channel_)) (fun _ s' => inv_at Gone s' /\ frame s s' /\ state_ s' = kDisconnected) s1) as Hrem.
  { intros s1 Hi1 Hf1 Hs1. pose proof (i_chan _ _ _ Hi1) as Hch. unfold chan_ok in Hch. rewrite Hs1 in Hch.
    destruct (remove_at _ _ _ Hch) as (w' & Hrun & Hch'). eapply wp_in_world; [exact Hrun|].
    split_and!; [|by eapply frame_trans; [exact Hf1|split]|done].
    destruct Hi1. split; try done. unfold chan_ok. simpl. by rewrite Hs1. }
  wp_focus. unfold when_. destruct (bool_decide_reflect (state_ s = kConnected)) as [Hc|Hc].
  - eapply wp_mono; [apply (close_core_spec Registered); [done|by rewrite Hc]|].
    intros _ s1 (? & ? & ? & _). by apply Hrem.
  - wp_step. apply Hrem; [done|apply frame_refl|]. by destruct Hst.
Qed.

Lemma run_functor_spec ph f s :
  inv_at ph s -> state_ s <> kConnecting -> functor_ok f -> f <> F_destroyed ->
  state_ s = kDisconnected \/ ph = Registered ->
  (f = F_startRead \/ f = F_stopRead -> may_close (state_ s) = true) ->
  wp may_fail (run_functor channel_ f) (fun _ s' => inv_at ph s' /\ frame s s') s.
Proof.
  intros Hi Hn Hok Hd Hph Hread.
  assert (forall m : ST t unit, wp may_fail m (fun _ s' => inv_at ph s' /\ user_frame s s') s ->
    wp may_fail m (fun _ s' => inv_at ph s' /\ frame s s') s) as Huser.
  { intros m Hm. eapply wp_mono; [exact Hm|]. by intros _ s' [? []]. }
  assert (forall c, c = WriteCompleteCallback \/ (exists n, c = HighWaterMarkCallback n) ->
    wp may_fail (call_user channel_ c) (fun _ s' => inv_at ph s' /\ frame s s') s) as Hcall.
  { intros c Hc. eapply wp_mono; [apply (call_user_spec ph); [|done]|].
    - apply inv_logged; [|done]. intros x Hx Hl. unfold life_ok in Hl. rewrite Hx in Hl.
      destruct Hc as [-> | [m ->]]; destruct x; try done;
        destruct (state_ s); try done; by destruct Hl.
    - intros _ s' [? [Hf _ _]]. split; [done|]. by eapply frame_trans; [|exact Hf]. }
  destruct f; simpl; try done; auto.
  - apply Huser, send_piece_spec; [|done..]. unfold send_ok. simpl in *. pose proof (lenZ_nonneg message).
    rewrite swrap_small by (unfold s_in; lia). by rewrite !bool_decide_eq_true_2 by lia.
  - apply Huser. by apply shutdownInLoop_spec.
  - by apply forceCloseInLoop_spec.
  - apply Huser. by apply conn_addTimer_spec.
  - apply Huser, startRead_spec; auto.
  - apply Huser, stopRead_spec; auto.
  - apply Hcall. eauto.
Qed.

(** ** The invariant between two events *)

Definition gone s : bool := removed (sys s) && bool_decide (destroys s = 0%nat).
Definition phase_of s : phase := if gone s then Gone else Registered.

(** No other thread is between its test of [state_] and its [setState]. *)
Definition calm s : Prop := forall i th, remote (sys s) !! i = Some th -> is_set th = false.

Record Inv s : Prop := {
  v_inv : inv_at (phase_of s) s;
  v_removed : removed (sys s) = true -> state_ s = kDisconnected;
  v_destroys : (destroys s <= if removed (sys s) then 1 else 0)%nat;
  v_new : state_ s = kConnecting -> pending s = [] /\ remote (sys s) = [] /\ timers (sys s) = 0%nat;
  v_dead : alive (sys s) = false -> pending s = [] /\ remote (sys s) = [] /\ removed (sys s) = true;
  v_set : forall i th, remote (sys s) !! i = Some th -> is_set th = true ->
    may_close (state_ s) = true /\ thread_functor th <> F_destroyed /\
    forall j th', remote (sys s) !! j = Some th' -> is_set th' = true -> j = i
}.

Lemma v_phase s : Inv s -> state_ s = kDisconnected \/ phase_of s = Registered.
Proof.
  intros Hv. unfold phase_of, gone. destruct (removed (sys s)) eqn:E; [left; by apply v_removed|by right].
Qed.

(** The loop thread's handlers keep the invariant. *)
Lemma Inv_frame s s' :
  Inv s -> calm s -> alive (sys s) = true -> inv_at (phase_of s) s' -> frame s s' ->
  state_ s' <> kConnecting -> Inv s'.
Proof.
  intros Hv Hc Ha Hi Hf Hn. destruct Hf as [Hr Hal Hre Hd Hfn Hfd].
  assert (phase_of s' = phase_of s) as Hp by (unfold phase_of, gone; by rewrite Hr, Hd).
  split; rewrite ?Hr, ?Hre, ?Hd.
  - by rewrite Hp.
  - intros Hx. apply Hfd. by apply v_removed.
  - by apply v_destroys.
  - done.
  - congruence.
  - intros i th Hi' Hs. by rewrite (Hc i th Hi') in Hs.
Qed.

Lemma contract_calm s e i th :
  contract s e = true -> remote (sys s) !! i = Some th -> is_set th = true -> e = RemoteStep i.
Proof.
  intros [Hc _]%andb_prop Hi Hs. rewrite forallb_forall in Hc. specialize (Hc (i, th)).
  rewrite <- list_elem_of_In in Hc. rewrite Hs in Hc. simpl in Hc.
  assert (is_step_of e i = true) as He.
  { apply Hc. apply list_elem_of_lookup. exists i. by rewrite list_lookup_imap, Hi. }
  destruct e; try done. simpl in He. apply bool_decide_eq_true in He. by subst.
Qed.

Lemma not_step_calm s e : contract s e = true -> (forall i, e <> RemoteStep i) -> calm s.
Proof.
  intros Hc He i th Hi. destruct (is_set th) eqn:Hs; [|done]. by destruct (He i (contract_calm _ _ _ _ Hc Hi Hs)).
Qed.

(** The callbacks of one event: a close is not followed by a read. *)
Lemma dispatch_spec (c1 c2 c3 c4 : bool) s :
  (c1 = true -> c3 = false) -> inv_at Registered s -> may_close (state_ s) = true ->
  wp may_fail (for_each (dispatch channel_ log_info)
      ((if c1 then [Channel.Close] else []) ++ (if c2 then [Channel.Error] else []) ++
       (if c3 then [Channel.Read] else []) ++ (if c4 then [Channel.Write] else [])))
    (fun _ s' => inv_at Registered s' /\ frame s s') s.
Proof.
  intros H13 Hi Hst.
  assert (state_ s <> kConnecting) as Hn by (by destruct (state_ s)).
  assert (forall s1, inv_at Registered s1 -> frame s s1 ->
    wp may_fail (for_each (dispatch channel_ log_info) (if c4 then [Channel.Write] else []))
      (fun _ s' => inv_at Registered s' /\ frame s s') s1) as Hwrite.
  { intros s1 Hi1 Hf1. destruct c4; simpl; [|by wp_step]. wp_focus.
    eapply wp_mono; [apply (handleWrite_spec Registered); [done|by apply (f_new _ _ Hf1)]|].
    intros _ s2 [? ?]. wp_step. split; [done|by eapply frame_trans]. }
  assert (wp may_fail (for_each (dispatch channel_ log_info)
      ((if c3 then [Channel.Read] else []) ++ (if c4 then [Channel.Write] else [])))
    (fun _ s' => inv_at Registered s' /\ frame s s') s) as Hread.
  { destruct c3; simpl; [|apply Hwrite; [done|apply frame_refl]]. wp_focus.
    eapply wp_mono; [by apply conn_handleRead_spec|]. intros _ s1 [? ?]. by apply Hwrite. }
  destruct c1; simpl; [rewrite (H13 eq_refl) in *; simpl|].
  - wp_focus. eapply wp_mono; [by apply (handleClose_spec Registered)|]. intros _ s1 (? & ? & _).
    destruct c2; simpl; by apply Hwrite.
  - destruct c2; simpl; exact Hread.
Qed.

Lemma ready_spec r s :
  inv_at Registered s -> may_close (state_ s) = true ->
  negb (has r POLLHUP) || has r POLLIN || negb (has r (Z.lor POLLPRI POLLRDHUP)) = true ->
  wp may_fail (handle channel_ log_info (Ready r)) (fun _ s' => inv_at Registered s' /\ frame s s') s.
Proof.
  intros Hi Hst Hr. destruct (inv_open _ _ _ Hi Hst) as (e & Hch & He). simpl.
  destruct (chan_at_channel _ _ _ _ _ Hch) as (c0 & Hc0 & _).
  destruct (touch_at channel_ fd (Channel.set_revents r) _ _ _ ltac:(done) Hch) as (w1 & Hrun & Hch1).
  assert (chans w1 !! channel_ = Some (Channel.set_revents r c0)) as Hc1.
  { rewrite (update_chan_run _ _ _ _ Hc0) in Hrun. injection Hrun as <-. simpl. by rewrite lookup_insert_eq. }
  wp_focus. eapply wp_in_world; [exact Hrun|]. wp_focus.
  apply (wp_in_world _ _ _ _ (Channel.set_revents r c0) w1).
  { unfold channel, gets, mbind, st_bind. simpl. by rewrite Hc1. }
  set (s1 := set_world w1 _).
  assert (inv_at Registered s1) as Hi1.
  { destruct Hi. split; try done. unfold chan_ok. simpl. apply may_close_spec in Hst.
    destruct Hst as [-> | ->]; by exists e. }
  assert (frame s s1 /\ state_ s1 = state_ s) as [Hf1 Hs1] by done. clearbody s1.
  assert (forall c, Channel.revents_ c = r -> wp may_fail
    (for_each (dispatch channel_ log_info) (Channel.handleEventWithGuard c))
    (fun _ s' => inv_at Registered s' /\ frame s s') s1) as Hd.
  { intros c Hcr. eapply wp_mono; [apply dispatch_spec; [|done|by rewrite Hs1]|].
    - rewrite Hcr. destruct (has r POLLHUP), (has r POLLIN) eqn:Hin; try done. simpl in *. intros _.
      apply negb_true_iff, negb_false_iff, bool_decide_eq_true in Hr. apply negb_false_iff, bool_decide_eq_true in Hin.
      unfold has. rewrite bool_decide_eq_true_2; [done|].
      change (Z.lor (Z.lor POLLIN POLLPRI) POLLRDHUP) with (Z.lor POLLIN (Z.lor POLLPRI POLLRDHUP)).
      by rewrite Z.land_lor_distr_r, Hin, Hr.
    - intros _ s' [? ?]. split; [done|by eapply frame_trans]. }
  unfold Channel.handleEvent. destruct (Channel.tied_ (Channel.set_revents r c0)), (Channel.tie_ (Channel.set_revents r c0));
    try (by apply Hd). by wp_step.
Qed.

(** ** Other threads *)

(** A thread that enters or moves on changes nothing the connection can see. *)
Lemma inv_remote rest ph l s :
  Forall thread_ok l -> inv_rest rest ph s -> inv_rest rest ph (set_sys (set_remote l (sys s)) s).
Proof. by intros Hl []. Qed.

Lemma enter_spec th s :
  Inv s -> calm s -> alive (sys s) = true -> state_ s <> kConnecting -> thread_ok th ->
  (is_set th = true -> may_close (state_ s) = true) ->
  wp may_fail (enter th) (fun _ s' => Inv s') s.
Proof.
  intros Hv Hc Ha Hn Hth Hset. unfold enter. conn_step. destruct Hv as [Hi Hr Hd Hnw Hde Hs].
  assert (Forall thread_ok (remote (sys s) ++ [th])) as Hok.
  { apply Forall_app. split; [by apply (i_remote _ _ _ Hi)|by constructor]. }
  split; simpl; try done.
  - by apply inv_remote.
  - intros ? . by rewrite Ha in *.
  - intros i th' Hi' Hs'. apply lookup_app_Some in Hi' as [Hi'|[Hle Hi']].
    { by rewrite (Hc _ _ Hi') in Hs'. }
    apply list_lookup_singleton_Some in Hi' as [Hx <-]. split_and!; [by apply Hset|by apply Hth|].
    intros j th2 Hj Hs2. apply lookup_app_Some in Hj as [Hj|[Hlj Hj]].
    { by rewrite (Hc _ _ Hj) in Hs2. }
    apply list_lookup_singleton_Some in Hj as [Hy _]. lia.
Qed.

Lemma remote_call_spec a s :
  Inv s -> calm s -> alive (sys s) = true -> state_ s <> kConnecting ->
  (forall m, a = Send m -> send_ok m = true) ->
  wp may_fail (remote_call a) (fun _ s' => Inv s') s.
Proof.
  intros Hv Hc Ha Hn Hok. unfold remote_call. wp_step.
  assert (forall b m, (b = true -> wp may_fail m (fun _ s' => Inv s') s) -> wp may_fail (when_ b m) (fun _ s' => Inv s') s)
    as Hwhen by (intros b m Hm; wp_step; [auto|by wp_step]).
  destruct a; try (by wp_step); try apply Hwhen; try (apply enter_spec; try done; by split).
  - intros Hb%bool_decide_eq_true. specialize (Hok _ eq_refl).
    apply andb_prop in Hok as [H1%bool_decide_eq_true H2%bool_decide_eq_true].
    unfold StringPiece.as_string, StringPiece.size, StringPiece.data in *. wp_step. rewrite uwrap_small by (unfold u_in; lia).
    rewrite !check_true by (apply bool_decide_eq_true; unfold vector_max_size; lia). simpl.
    apply enter_spec; try done. split; [|done]. simpl. unfold lenZ. rewrite length_take. lia.
  - intros Hb%bool_decide_eq_true. apply enter_spec; try done. intros _. by rewrite Hb.
  - intros Hb. apply enter_spec; done.
  - intros Hb. apply enter_spec; done.
Qed.

Lemma remote_step_spec i s :
  Inv s -> (forall j th, remote (sys s) !! j = Some th -> is_set th = true -> j = i) ->
  alive (sys s) = true -> state_ s <> kConnecting ->
  wp may_fail (remote_step i) (fun _ s' => Inv s') s.
Proof.
  intros Hv Hone Ha Hn. unfold remote_step. conn_step. change (id (sys s)) with (sys s).
  destruct (remote (sys s) !! i) as [th|] eqn:Hi; [|by wp_step].
  pose proof (i_remote _ _ _ (v_inv _ Hv)) as Hrem. pose proof (proj1 (Forall_lookup _ _) Hrem i th Hi) as [Hok Hnd].
  destruct th as [f|f]; simpl in Hok, Hnd; do 2 conn_step.
  - destruct (v_set _ Hv i _ Hi eq_refl) as (Hst & _ & _).
    assert (removed (sys s) = false) as Hnr.
    { destruct (removed (sys s)) eqn:E; [|done]. by rewrite (v_removed _ Hv E) in Hst. }
    destruct (inv_closing _ s (v_inv _ Hv) Hst) as [Hi' _].
    pose proof (Forall_insert _ _ i (Queue f) Hrem (conj Hok Hnd)) as Hins. simpl.
    split; simpl; try done.
    + by apply (inv_remote _ _ _ (set_state kDisconnecting s)).
    + by rewrite Hnr.
    + apply Hv.
    + by rewrite Ha.
    + intros j th Hj Hs. apply list_lookup_insert_Some in Hj as [(_ & <- & _)|[Hne Hj]]; [done|].
      by destruct Hne; symmetry; eapply Hone.
  - split; simpl.
    + apply (inv_remote _ _ _ (set_pending (pending s ++ [f]) s)); [by apply Forall_delete|].
      replace (phase_of _) with (phase_of s); [by apply inv_queue; [|apply Hv]|].
      unfold phase_of, gone. by rewrite <- (f_destroys _ _ (u_frame _ _ (frame_queue f s Hnd))).
    + apply Hv.
    + pose proof (f_destroys _ _ (u_frame _ _ (frame_queue f s Hnd))) as Hd. pose proof (v_destroys _ Hv).
      unfold destroys in *. simpl in *. lia.
    + done.
    + by rewrite Ha.
    + assert (Forall (fun th => is_set th = true -> th = Queue f) (remote (sys s))) as Hall.
      { apply Forall_lookup. intros j th Hj Hs. pose proof (Hone j th Hj Hs) as ->. congruence. }
      apply (Forall_delete _ _ i) in Hall. rewrite Forall_lookup in Hall.
      intros j th Hj Hs. by rewrite (Hall j th Hj Hs) in Hs.
Qed.

(** ** Every event *)

Lemma v_alive s : Inv s -> state_ s <> kDisconnected -> alive (sys s) = true /\ removed (sys s) = false.
Proof.
  intros Hv Hs. assert (removed (sys s) = false) as Hr.
  { destruct (removed (sys s)) eqn:E; [|done]. by destruct (Hs (v_removed _ Hv E)). }
  split; [|done]. destruct (alive (sys s)) eqn:E; [done|].
  destruct (v_dead _ Hv E) as (_ & _ & ?). congruence.
Qed.

Lemma v_registered s : Inv s -> state_ s <> kDisconnected -> phase_of s = Registered.
Proof. intros Hv Hs. unfold phase_of, gone. by rewrite (proj2 (v_alive _ Hv Hs)). Qed.

(** A handler of the loop thread, from its own specification. *)
Lemma handler_inv m s :
  Inv s -> calm s -> alive (sys s) = true -> state_ s <> kConnecting ->
  wp may_fail m (fun (_ : unit) s' => inv_at (phase_of s) s' /\ frame s s') s ->
  wp may_fail m (fun _ s' => Inv s') s.
Proof.
  intros Hv Hc Ha Hn Hm. eapply wp_mono; [exact Hm|]. intros _ s' [Hi Hf].
  eapply Inv_frame; try done. by apply (f_new _ _ Hf).
Qed.

Lemma run_inv s :
  Inv s -> calm s -> contract s RunFunctor = true ->
  wp may_fail (handle channel_ log_info RunFunctor) (fun _ s' => Inv s') s.
Proof.
  intros Hv Hcalm Hc. simpl. unfold take_pending. do 2 wp_step.
  destruct (pending s) as [|f fs] eqn:Ep; [by do 2 wp_step|]. do 2 wp_step. wp_focus. apply wp_ret. conn_step.
  assert (alive (sys s) = true /\ state_ s <> kConnecting) as [Ha Hn].
  { split; [destruct (alive (sys s)) eqn:E; [done|]; destruct (v_dead _ Hv E); congruence|].
    intros Hx. destruct (v_new _ Hv Hx). congruence. }
  simpl. rewrite Ha. wp_step. simpl. set (s1 := set_pending fs s).
  pose proof (v_inv _ Hv) as Hi. pose proof (i_pending _ _ _ Hi) as Hpe. rewrite Ep in Hpe.
  apply list.Forall_cons in Hpe as [Hf Hfs].
  assert (forall ph, inv_at ph s -> inv_at ph s1) as Hi1 by (by intros ph []).
  pose proof (v_destroys _ Hv) as Hd. unfold destroys in Hd. rewrite Ep in Hd.
  destruct (decide (f = F_destroyed)) as [->|Hnd].
  - rewrite filter_cons_True in Hd by done. simpl in Hd.
    destruct (removed (sys s)) eqn:Hr; [|lia]. pose proof (v_removed _ Hv Hr) as Hs.
    assert (destroys s1 = 0%nat) as Hd1 by (unfold destroys; simpl; lia).
    assert (phase_of s = Registered) as Hph.
    { unfold phase_of, gone, destroys. by rewrite Hr, Ep, filter_cons_True, bool_decide_eq_false_2. }
    rewrite Hph in Hi. simpl. eapply wp_mono; [apply connectDestroyed_spec; [by apply Hi1|by right]|].
    intros _ s' (Hi' & [Hfr Hfa Hfre Hfd Hfn _] & Hs').
    assert (removed (sys s1) = true /\ remote (sys s1) = remote (sys s) /\ alive (sys s1) = true) as (Hr1 & Hre1 & Ha1) by done.
    split; rewrite ?Hfr, ?Hfa, ?Hfre, ?Hfd, ?Hr1, ?Hre1, ?Ha1, ?Hd1; try done; try lia.
    + unfold phase_of, gone. by rewrite Hfr, Hr1, Hfd, Hd1.
    + congruence.
    + intros i th Hth Hset. by rewrite (Hcalm i th Hth) in Hset.
  - assert (destroys s1 = destroys s) as Hd1 by (unfold destroys; simpl; by rewrite Ep, filter_cons_False).
    eapply wp_mono; [apply (run_functor_spec (phase_of s)); [by apply Hi1|done|done|done|exact (v_phase _ Hv)|]|].
    { intros Hread. unfold contract in Hc. rewrite Ep in Hc. apply andb_prop in Hc as [_ Hc].
      by destruct Hread as [-> | ->]. }
    intros _ s' [Hi' [Hfr Hfa Hfre Hfd Hfn Hfdd]].
    eapply Inv_frame; [exact Hv|done|done|done| |by apply Hfn]. split; try done. by rewrite Hfd.
Qed.

Lemma removed_inv s :
  Inv s -> calm s -> CloseCallback ∈ log (sys s) -> removed (sys s) = false ->
  wp may_fail (handle channel_ log_info Removed) (fun _ s' => Inv s') s.
Proof.
  intros Hv Hcalm Hcl Hr. simpl. do 2 conn_step.
  assert (state_ s = kDisconnected) as Hs.
  { pose proof (i_life _ _ _ (v_inv _ Hv)) as Hl. unfold life_ok in Hl.
    assert (life_of (log (sys s)) = Some Closed) as Hx.
    { apply life_closed. split; [|done]. intros Hx. rewrite Hx in Hl. destruct (state_ s); [by destruct Hl|done..]. }
    rewrite Hx in Hl. by destruct (state_ s). }
  pose proof (v_destroys _ Hv) as Hd. rewrite Hr in Hd.
  assert (alive (sys s) = true) as Ha.
  { destruct (alive (sys s)) eqn:E; [done|]. destruct (v_dead _ Hv E) as (_ & _ & ?). congruence. }
  assert (destroys (set_pending (pending s ++ [F_destroyed]) (set_sys (set_removed true (sys s)) s)) = S (destroys s)) as Hds.
  { unfold destroys. simpl. rewrite list.filter_app, filter_cons_True by done. rewrite length_app. simpl. lia. }
  pose proof (v_inv _ Hv) as Hi. unfold phase_of, gone in Hi. rewrite Hr in Hi. simpl in Hi.
  split; rewrite ?Hds; simpl; try done.
  - unfold phase_of, gone. rewrite Hds. simpl. apply (inv_queue _ _ F_destroyed (set_sys (set_removed true (sys s)) s)); [done|].
    by destruct Hi.
  - lia.
  - congruence.
  - congruence.
  - intros i th Hth Hset. by rewrite (Hcalm i th Hth) in Hset.
Qed.

Lemma serverGone_inv s :
  Inv s -> calm s -> removed (sys s) = false -> state_ s <> kConnecting -> state_ s <> kDisconnecting ->
  wp may_fail (handle channel_ log_info ServerGone) (fun _ s' => Inv s') s.
Proof.
  intros Hv Hcalm Hr Hn Hnd. simpl. conn_step. set (s1 := set_sys _ s).
  pose proof (v_inv _ Hv) as Hi. unfold phase_of, gone in Hi. rewrite Hr in Hi. simpl in Hi.
  pose proof (v_destroys _ Hv) as Hd. rewrite Hr in Hd.
  assert (alive (sys s) = true) as Ha.
  { destruct (alive (sys s)) eqn:E; [done|]. destruct (v_dead _ Hv E) as (_ & _ & ?). congruence. }
  eapply wp_mono; [apply connectDestroyed_spec; [by destruct Hi|simpl; destruct (state_ s); auto; done]|].
  intros _ s' (Hi' & [Hfr Hfa Hfre Hfd Hfn _] & Hs').
  assert (destroys s' = 0%nat) as Hd'. { rewrite Hfd. change (destroys s1) with (destroys s). lia. }
  assert (removed (sys s1) = true /\ remote (sys s1) = remote (sys s) /\ alive (sys s1) = true) as (Hr1 & Hre1 & Ha1) by done.
  split; rewrite ?Hfr, ?Hfa, ?Hfre, ?Hd', ?Hr1, ?Hre1, ?Ha1; try done; try lia.
  - unfold phase_of, gone. by rewrite Hfr, Hr1, Hd'.
  - congruence.
  - intros i th Hth Hset. by rewrite (Hcalm i th Hth) in Hset.
Qed.

Lemma handle_inv e s :
  Inv s -> possible channel_ s e = true -> contract s e = true ->
  wp may_fail (handle channel_ log_info e) (fun _ s' => Inv s') s.
Proof.
  intros Hv Hp Hc. pose proof (v_inv _ Hv) as Hi.
  assert ((forall i, e <> RemoteStep i) -> calm s) as Hcalm by (by apply not_step_calm).
  destruct e as [|r| | |a|i| | |]; try specialize (Hcalm ltac:(done)); simpl in Hp.
  - apply bool_decide_eq_true in Hp. assert (state_ s <> kDisconnected) as Hnd by congruence.
    pose proof (v_registered _ Hv Hnd) as Hph. rewrite Hph in Hi.
    eapply wp_mono; [by apply connectEstablished_spec|]. intros _ s' (? & ? & ?).
    apply Inv_frame with s; try done; [by apply v_alive|by rewrite Hph].
  - apply andb_prop in Hp as [Hev Hr].
    assert (may_close (state_ s) = true) as Hst.
    { destruct (chans (world_ s) !! channel_) as [c|] eqn:Ec; [|done]. pose proof (i_chan _ _ _ Hi) as Hch.
      unfold chan_ok in Hch. apply may_close_spec.
      assert (forall ph, ~ chan_at channel_ fd (world_ s) 0 ph) as Hno.
      { intros ph Hx. destruct (chan_at_channel _ _ _ _ _ Hx) as (c' & Hc' & He). rewrite Ec in Hc'. injection Hc' as <-.
        unfold Channel.isNoneEvent in Hev. by rewrite He in Hev. }
      destruct (state_ s); auto; [by apply Hno in Hch|]. destruct Hch as [Hx _]. by apply Hno in Hx. }
    assert (state_ s <> kDisconnected /\ state_ s <> kConnecting) as [Hnd Hn] by (by destruct (state_ s)).
    pose proof (v_registered _ Hv Hnd) as Hph.
    apply handler_inv; try done; [by apply v_alive|]. rewrite Hph in *. by apply ready_spec.
  - by apply run_inv.
  - apply bool_decide_eq_true in Hp. simpl. do 2 conn_step.
    assert (state_ s <> kConnecting) as Hn by (intros Hx; by destruct (v_new _ Hv Hx) as (_ & _ & ?)).
    set (s1 := set_sys _ s). assert (Inv s1) as Hv1 by (by destruct Hv as [[] ? ? ? ? ?]).
    change (alive (id (sys s))) with (alive (sys s1)).
    destruct (alive (sys s1)) eqn:Ha; [|by wp_step].
    apply handler_inv; try done. eapply wp_mono; [apply forceClose_spec; [apply Hv1|done]|]. by intros _ s' [? []].
  - apply andb_prop in Hp as [Ha Hn%bool_decide_eq_true]. apply remote_call_spec; try done.
    intros m ->. by apply andb_prop in Hc as [_ Hc].
  - apply bool_decide_eq_true in Hp as [th Hth].
    apply remote_step_spec; [done| | |].
    + intros j th' Hj Hs. pose proof (contract_calm _ _ _ _ Hc Hj Hs). congruence.
    + destruct (alive (sys s)) eqn:E; [done|]. destruct (v_dead _ Hv E) as (_ & Hre & _). by rewrite Hre in Hth.
    + intros Hx. destruct (v_new _ Hv Hx) as (_ & Hre & _). by rewrite Hre in Hth.
  - apply andb_prop in Hp as [Hcl%bool_decide_eq_true Hr%negb_true_iff]. by apply removed_inv.
  - apply andb_prop in Hp as [Hr%negb_true_iff Hn%bool_decide_eq_true].
    apply andb_prop in Hc as [_ Hc%bool_decide_eq_true]. by apply serverGone_inv.
  - apply andb_prop in Hp as [[[Ha Hr]%andb_prop Hre%bool_decide_eq_true]%andb_prop _].
    apply andb_prop in Hc as [_ Hpe%bool_decide_eq_true]. pose proof (v_removed _ Hv Hr) as Hs.
    simpl. unfold destruct_connection. do 2 wp_step; [by apply bool_decide_eq_true|]. conn_step.
    destruct Hv as [[] ? ? ? ? ?]. by split.
Qed.

(** ** Runs *)

(** The surroundings at the start. *)
Definition env (ws : list write_result) (rs : list Buffer.readv_result) (us : list (list api)) : system :=
  mk_sys ws rs us 0 [] true false [] [] [] [] [].

(** The loop's world has room for a channel at [channel_] for [fd]. *)
Definition can_open (w : world P) : Prop :=
  0 <= fd /\ exists cs, Client.shows cs w /\ Client.objs cs !! channel_ = None /\
    Client.reg cs !! fd = None /\ Z.of_nat (size (Client.reg cs)) < 2 ^ 31 - 1.

Lemma constructor_inv mark wc hw ws rs us w :
  can_open w -> Forall (Forall (fun a => api_ok a = true)) us ->
  exists s, TcpConnection channel_ fd mark wc hw (env ws rs us) w = Ok s /\ Inv s /\ state_ s = kConnecting.
Proof.
  intros (Hfd & cs & Hs & Ho & Hr & Hsz) Hus. unfold TcpConnection.
  destruct (Buffer.Buffer_spec Buffer.kInitialSize) as (b & -> & Hb & Hc & _); [done..|]. simpl.
  eexists. split_and!; [reflexivity| |done].
  split; simpl; try done. split; try done; [|intros _; simpl; by rewrite Hc]. simpl. split; [|done]. by eapply new_at.
Qed.

Section run.
Context (mark : Z) (wc hw : bool) (ws : list write_result) (rs : list Buffer.readv_result) (us : list (list api)).
Context (w : world P).

(** What the constructor, the loop and the other threads lead to while the contract is kept. *)
Inductive reachable : t -> Prop :=
  | reach_new s : TcpConnection channel_ fd mark wc hw (env ws rs us) w = Ok s -> reachable s
  | reach_step s e s' :
      reachable s -> possible channel_ s e = true -> contract s e = true ->
      handle channel_ log_info e s = Ok (tt, s') -> reachable s'.

Lemma conn_reachable_inv s :
  can_open w -> Forall (Forall (fun a => api_ok a = true)) us -> reachable s -> Inv s.
Proof.
  intros Hw Hus Hr. induction Hr as [s Hs|s e s' _ IH Hp Hc Hh].
  - destruct (constructor_inv mark wc hw ws rs us w Hw Hus) as (s' & Hs' & Hi & _). congruence.
  - pose proof (handle_inv e s IH Hp Hc) as Hwp. unfold wp in Hwp. by rewrite Hh in Hwp.
Qed.
End run.

(** ** What one call does, exactly *)

Definition next_write s : write_result := match writes (sys s) with [] => WriteError EWOULDBLOCK | x :: _ => x end.

Lemma wp_write_exact E (Q : Z + Z -> t -> Prop) data len s :
  0 <= len <= lenZ data ->
  match next_write s with
  | Wrote n =>
      let n := Z.max 0 (Z.min n len) in
      Q (inl n) (set_sys (set_written (written (sys s) ++ take (Z.to_nat n) data) (set_writes (tail (writes (sys s))) (sys s))) s)
  | WriteError e => Q (inr e) (set_sys (set_errs (errs (sys s) ++ [e]) (set_writes (tail (writes (sys s))) (sys s))) s)
  end -> wp E (write data len) Q s.
Proof.
  intros Hlen HQ. unfold write. wp_step. rewrite check_true by (apply bool_decide_eq_true; lia).
  do 2 conn_step. fold (next_write s). by destruct (next_write s) as [n|e]; repeat conn_step.
Qed.

Definition no_memory (e : fault) : Prop := e = LengthError.

Lemma store_exact E e data nwrote remaining s :
  (forall f, no_memory f -> E f) ->
  chan_at channel_ fd (world_ s) e Registered -> Buffer.wf (outputBuffer_ s) ->
  0 < remaining <= vector_max_size -> remaining <= lenZ (drop (Z.to_nat nwrote) data) ->
  wp E (b ← lift (Buffer.append (drop (Z.to_nat nwrote) data) remaining (outputBuffer_ s));
        _ ← modify (set_outputBuffer b);
        c ← in_world (channel channel_);
        when_ (negb (Channel.isWriting c)) (in_world (enableWriting channel_)))
    (fun _ s' => exists w b, s' = set_world w (set_outputBuffer b s) /\
       Buffer.content b = Buffer.content (outputBuffer_ s) ++ take (Z.to_nat remaining) (drop (Z.to_nat nwrote) data)) s.
Proof.
  intros HE Hch Hwf Hrem Hlen. wp_step.
  pose proof (Buffer.append_total (drop (Z.to_nat nwrote) data) remaining _ Hwf) as Ha.
  destruct (Buffer.append _ _ _) as [b|f]; [|apply HE, Ha; lia]. destruct Ha as [_ Hc]; [lia..|]. do 2 wp_step.
  wp_focus. apply (wp_channel _ _ _ e Registered); [done|]. intros c _. wp_step.
  - change (enableWriting channel_) with (set_events_and_update (Client.ev_fun Client.EnableWriting) channel_).
    eapply wp_change; [exact Hch|by left|]. intros w' _. by exists w', b.
  - wp_step. exists (world_ s), b. by destruct s.
Qed.

(** What [sendInLoop] is to do with [data]: the bytes the kernel takes, the bytes that join
    the output buffer, the callbacks that are queued. *)
Definition buffered (rest : bytes) s : bytes * list functor :=
  let size := lenZ (Buffer.content (outputBuffer_ s)) in
  (rest, if bool_decide (rest <> []) && bool_decide (size < highWaterMark_ s <= size + lenZ rest) &&
            highWaterMarkCallback_ s
         then [F_highWaterMark (size + lenZ rest)] else []).

Definition send_effect (data : bytes) s : bytes * (bytes * list functor) :=
  match Buffer.content (outputBuffer_ s), next_write s with
  | [], Wrote n =>
      let n := Z.to_nat (Z.max 0 (Z.min n (lenZ data))) in
      (take n data, if decide (drop n data = []) then ([], if writeCompleteCallback_ s then [F_writeComplete] else [])
                    else buffered (drop n data) s)
  | [], WriteError e => ([], if decide (e = EPIPE \/ e = ECONNRESET) then ([], []) else buffered data s)
  | _, _ => ([], buffered data s)
  end.

Definition sent (data : bytes) s s' : Prop :=
  let '(taken, (kept, queued)) := send_effect data s in
  written (sys s') = written (sys s) ++ taken /\
  Buffer.content (outputBuffer_ s') = Buffer.content (outputBuffer_ s) ++ kept /\
  pending s' = pending s ++ queued /\ state_ s' = state_ s /\ log (sys s') = log (sys s).

(** The second half of [sendInLoop], when [rest] is left. *)
Lemma buffer_rest_exact e data nwrote s s1 :
  let rest := drop (Z.to_nat nwrote) data in
  chan_at channel_ fd (world_ s1) e Registered -> Buffer.wf (outputBuffer_ s) ->
  outputBuffer_ s1 = outputBuffer_ s -> highWaterMark_ s1 = highWaterMark_ s ->
  highWaterMarkCallback_ s1 = highWaterMarkCallback_ s -> pending s1 = pending s ->
  0 <= nwrote <= lenZ data -> lenZ data < 2 ^ 31 -> rest <> [] ->
  wp no_memory
    (let oldLen := Buffer.readableBytes (outputBuffer_ s) in
     let remaining := lenZ data - nwrote in
     _ ← when_ (bool_decide (highWaterMark_ s <= size_add oldLen remaining) &&
                bool_decide (oldLen < highWaterMark_ s) && highWaterMarkCallback_ s)
           (queueInLoop (F_highWaterMark (size_add oldLen remaining)));
     b ← lift (Buffer.append (drop (Z.to_nat nwrote) data) remaining (outputBuffer_ s));
     _ ← modify (set_outputBuffer b);
     c ← in_world (channel channel_);
     when_ (negb (Channel.isWriting c)) (in_world (enableWriting channel_)))
    (fun _ s' => Buffer.content (outputBuffer_ s') = Buffer.content (outputBuffer_ s) ++ rest /\
       pending s' = pending s ++ (buffered rest s).2 /\ state_ s' = state_ s1 /\
       sys s' = sys s1) s1.
Proof.
  intros rest Hch Hwf Ho Hm Hh Hp Hn Hlen Hne. cbv zeta.
  assert (lenZ rest = lenZ data - nwrote) as Hrl by (unfold rest, lenZ in *; rewrite length_drop; lia).
  assert (0 < lenZ rest) as Hpos by (unfold lenZ; destruct rest; [done|simpl; lia]).
  pose proof (Buffer.lenZ_content _ Hwf) as Hcl. pose proof Hwf as (Hb1 & Hb2 & Hb3). unfold vector_max_size in Hb3.
  rewrite (Buffer.readable_content _ Hwf), size_add_small by lia. rewrite <- Hrl.
  assert (forall s2, world_ s2 = world_ s1 -> outputBuffer_ s2 = outputBuffer_ s ->
    pending s2 = pending s ++ (buffered rest s).2 -> state_ s2 = state_ s1 -> sys s2 = sys s1 ->
    wp no_memory (b ← lift (Buffer.append (drop (Z.to_nat nwrote) data) (lenZ rest) (outputBuffer_ s));
        _ ← modify (set_outputBuffer b); c ← in_world (channel channel_);
        when_ (negb (Channel.isWriting c)) (in_world (enableWriting channel_)))
    (fun _ s' => Buffer.content (outputBuffer_ s') = Buffer.content (outputBuffer_ s) ++ rest /\
       pending s' = pending s ++ (buffered rest s).2 /\ state_ s' = state_ s1 /\ sys s' = sys s1) s2) as Hstore.
  { intros s2 Hw2 Ho2 Hp2 Hs2 Hy2. rewrite <- Ho2. eapply wp_mono; [apply (store_exact no_memory e); try done|].
    - by rewrite Hw2.
    - by rewrite Ho2.
    - unfold vector_max_size. lia.
    - intros _ s' (w & b & -> & Hc). simpl. fold rest in Hc. rewrite Hc.
      split; [|done]. f_equal. by rewrite take_ge by (unfold lenZ; lia). }
  assert (bool_decide (rest <> []) && bool_decide (lenZ (Buffer.content (outputBuffer_ s)) < highWaterMark_ s <=
      lenZ (Buffer.content (outputBuffer_ s)) + lenZ rest) =
    bool_decide (highWaterMark_ s <= lenZ (Buffer.content (outputBuffer_ s)) + lenZ rest) &&
    bool_decide (lenZ (Buffer.content (outputBuffer_ s)) < highWaterMark_ s)) as Hcond.
  { rewrite bool_decide_eq_true_2 by done. simpl. repeat case_bool_decide; lia || done. }
  apply wp_bind. wp_step; unfold buffered in Hstore |- *; cbv zeta in *; simpl in Hstore |- *; rewrite Hcond, Heqb in Hstore |- *.
  - conn_step. apply Hstore; try done. simpl. by rewrite Hp.
  - conn_step. apply Hstore; try done. simpl. by rewrite Hp, app_nil_r.
Qed.

Lemma sendInLoop_exact ph data s :
  inv_at ph s -> may_close (state_ s) = true -> lenZ data < 2 ^ 31 ->
  wp no_memory (sendInLoop channel_ data (lenZ data)) (fun _ s' => sent data s s') s.
Proof.
  intros Hi Hst Hlen. unfold sendInLoop. wp_step.
  destruct (decide _) as [Hd|Hd]; [by rewrite Hd in Hst|].
  destruct (inv_open _ _ _ Hi Hst) as (e & Hch & Hw & _). pose proof (i_out _ _ _ Hi) as Hwf.
  pose proof (lenZ_nonneg data) as Hnn. conn_step. set (s1 := set_sys _ s).
  wp_focus. apply (wp_channel _ _ _ e Registered); [done|]. intros c Hc.
  assert (Channel.isWriting c = bool_decide (Buffer.content (outputBuffer_ s) <> [])) as Hwr
    by (unfold Channel.isWriting; by rewrite Hc, Hw).
  rewrite Hwr, (Buffer.readable_content _ Hwf).
  assert (forall s2 nwrote taken, world_ s2 = world_ s -> outputBuffer_ s2 = outputBuffer_ s ->
    highWaterMark_ s2 = highWaterMark_ s -> highWaterMarkCallback_ s2 = highWaterMarkCallback_ s ->
    pending s2 = pending s -> state_ s2 = state_ s -> log (sys s2) = log (sys s) -> written (sys s2) = written (sys s) ++ taken ->
    0 <= nwrote <= lenZ data ->
    send_effect data s = (taken, buffered (drop (Z.to_nat nwrote) data) s) ->
    wp no_memory
     (_ ← sassert (bool_decide (lenZ data - nwrote <= lenZ data));
      if negb false && bool_decide (0 < lenZ data - nwrote) then
        let oldLen := lenZ (Buffer.content (outputBuffer_ s)) in
        let remaining := lenZ data - nwrote in
        _ ← when_ (bool_decide (highWaterMark_ s <= size_add oldLen remaining) &&
                   bool_decide (oldLen < highWaterMark_ s) && highWaterMarkCallback_ s)
              (queueInLoop (F_highWaterMark (size_add oldLen remaining)));
        b ← lift (Buffer.append (drop (Z.to_nat nwrote) data) remaining (outputBuffer_ s));
        _ ← modify (set_outputBuffer b);
        c ← in_world (channel channel_);
        when_ (negb (Channel.isWriting c)) (in_world (enableWriting channel_))
      else mret tt) (fun _ s' => sent data s s') s2) as Hrest.
  { intros s2 n taken Hw2 Ho2 Hm2 Hh2 Hp2 Hs2 Hl2 Hwr2 Hn Heff.
    conn_step; [apply bool_decide_eq_true; lia|].
    unfold sent. rewrite Heff. destruct (bool_decide_reflect (0 < lenZ data - n)) as [Hpos|Hz]; simpl.
    - rewrite <- (Buffer.readable_content _ Hwf).
      eapply wp_mono; [apply (buffer_rest_exact e data n s s2); try done|].
      + by rewrite Hw2.
      + intros Hnil. apply (f_equal lenZ) in Hnil. unfold lenZ in *. rewrite length_drop in Hnil. simpl in Hnil. lia.
      + intros _ s' (H1 & H2 & H3 & H4). simpl. rewrite H1, H2, H3, H4, !(Buffer.readable_content _ Hwf). done.
    - wp_step. assert (drop (Z.to_nat n) data = []) as Hnil.
      { apply drop_ge. unfold lenZ in *. lia. }
      rewrite Hnil, Ho2, Hp2, !app_nil_r. done. }
  destruct (decide (Buffer.content (outputBuffer_ s) = [])) as [Hnil|Hne].
  2: { rewrite (bool_decide_eq_true_2 (Buffer.content (outputBuffer_ s) <> [])) by done. simpl. wp_focus. apply wp_ret.
       pose proof (Hrest s1 0 []) as Hx. rewrite Z.sub_0_r in Hx. apply Hx; try done; [by rewrite app_nil_r|].
       unfold send_effect. by destruct (Buffer.content (outputBuffer_ s)). }
  rewrite (bool_decide_eq_false_2 (Buffer.content (outputBuffer_ s) <> [])) by (intros Hx; by apply Hx).
  rewrite (bool_decide_eq_true_2 (lenZ _ = 0)) by (by rewrite Hnil).
  change (negb false && true) with true. cbv iota.
  wp_focus. apply wp_write_exact; [lia|]. change (next_write s1) with (next_write s).
  destruct (next_write s) as [n|er] eqn:Enw; cbv zeta.
  - set (m := Z.max 0 (Z.min n (lenZ data))). assert (0 <= m <= lenZ data) as Hm by lia.
    rewrite size_sub_small by lia. set (s2 := set_sys _ s1).
    destruct (decide (drop (Z.to_nat m) data = [])) as [Hd0|Hd0].
    + assert (lenZ data - m = 0) as Hz.
      { apply (f_equal length) in Hd0. rewrite length_drop in Hd0. unfold lenZ in *. simpl in Hd0. lia. }
      rewrite Hz. rewrite (bool_decide_eq_true_2 (0 = 0)) by done. simpl andb.
      unfold sent, send_effect. rewrite Hnil, Enw. cbv zeta. fold m. rewrite decide_True by done.
      destruct (writeCompleteCallback_ s) eqn:Ewc; simpl; repeat conn_step; simpl; try (by apply bool_decide_eq_true; lia);
        rewrite ?app_nil_r; done.
    + assert (0 < lenZ data - m) as Hpos.
      { destruct (decide (lenZ data - m = 0)); [|lia]. destruct Hd0. apply drop_ge. unfold lenZ in *. lia. }
      rewrite (bool_decide_eq_false_2 (lenZ data - m = 0)) by lia. simpl andb. wp_focus. apply wp_ret. wp_focus. apply wp_ret.
      apply (Hrest s2 m (take (Z.to_nat m) data)); try done.
      unfold send_effect. rewrite Hnil, Enw. cbv zeta. fold m. by rewrite decide_False.
  - wp_focus. apply wp_ret. set (s2 := set_sys _ s1).
    assert (negb (bool_decide (er = EWOULDBLOCK)) && bool_decide (er = EPIPE \/ er = ECONNRESET) =
      bool_decide (er = EPIPE \/ er = ECONNRESET)) as ->.
    { destruct (bool_decide_reflect (er = EWOULDBLOCK)) as [->|]; done. }
    destruct (bool_decide_reflect (er = EPIPE \/ er = ECONNRESET)) as [Hf|Hf].
    + conn_step; [apply bool_decide_eq_true; lia|]. wp_step. unfold sent, send_effect. rewrite Hnil, Enw, decide_True by done.
      by rewrite !app_nil_r.
    + pose proof (Hrest s2 0 []) as Hx. rewrite Z.sub_0_r in Hx. apply Hx; try done; [by rewrite app_nil_r|].
      unfold send_effect. by rewrite Hnil, Enw, decide_False.
Qed.

(** One [handleWrite] that makes progress on a connection that is being shut down. *)
Definition progress s s' : Prop :=
  exists n ws, writes (sys s) = Wrote n :: ws /\ writes (sys s') = ws /\
    let n := Z.to_nat (Z.min n (lenZ (Buffer.content (outputBuffer_ s)))) in
    written (sys s') = written (sys s) ++ take n (Buffer.content (outputBuffer_ s)) /\
    Buffer.content (outputBuffer_ s') = drop n (Buffer.content (outputBuffer_ s)) /\
    state_ s' = kDisconnecting /\
    half_closed (sys s') = half_closed (sys s) ++
      (if decide (Buffer.content (outputBuffer_ s') = []) then [(kDisconnecting, [])] else []).

Lemma shutdown_drained e s s1 Q :
  chan_at channel_ fd (world_ s1) e Registered -> state_ s1 = kDisconnecting ->
  (forall w pe, Q tt (set_world w (set_pending pe (set_sys (set_half_closed
      (half_closed (sys s1) ++ [(kDisconnecting, Buffer.content (outputBuffer_ s1))]) (sys s1)) s1)))) ->
  wp no_fault (_ ← in_world (disableWriting channel_);
               _ ← when_ (writeCompleteCallback_ s) (queueInLoop F_writeComplete);
               s ← get;
               when_ (bool_decide (state_ s = kDisconnecting)) (shutdownInLoop channel_)) Q s1.
Proof.
  intros Hch Hs HQ.
  change (disableWriting channel_) with (set_events_and_update (Client.ev_fun Client.DisableWriting) channel_).
  wp_focus. eapply wp_change; [exact Hch|by left|]. intros w' Hw'.
  destruct (event_bits Client.DisableWriting e (chan_at_events _ _ _ _ _ Hch)) as [Hb1 _].
  assert (forall pe, wp no_fault (s ← get; when_ (bool_decide (state_ s = kDisconnecting)) (shutdownInLoop channel_)) Q
    (set_pending pe (set_world w' s1))) as Hend.
  { intros pe. wp_step. simpl. rewrite Hs, bool_decide_eq_true_2 by done. simpl.
    unfold shutdownInLoop. wp_focus. eapply wp_channel; [exact Hw'|]. intros c Hc.
    unfold Channel.isWriting. rewrite Hc, Hb1. simpl. unfold shutdownWrite. do 2 conn_step. simpl. rewrite Hs.
    specialize (HQ w' pe). by destruct s1. }
  conn_step; conn_step; [apply Hend|]. specialize (Hend (pending s1)). by destruct s1.
Qed.

Lemma handleWrite_progress ph n ws s :
  log_info = false -> inv_at ph s -> state_ s = kDisconnecting -> Buffer.content (outputBuffer_ s) <> [] ->
  writes (sys s) = Wrote n :: ws -> 0 < n ->
  wp no_fault (handleWrite channel_ log_info) (fun _ s' => progress s s') s.
Proof.
  intros Hlog Hi Hst Hne Hws Hn. unfold handleWrite. wp_step.
  assert (may_close (state_ s) = true) as Hopen by (by rewrite Hst).
  destruct (inv_open _ _ _ Hi Hopen) as (e & Hch & Hw & Hrd).
  wp_focus. eapply wp_channel; [exact Hch|]. intros c Hc. unfold Channel.isWriting.
  rewrite Hc, Hw, bool_decide_eq_true_2 by done. cbv zeta. set (out := outputBuffer_ s) in *.
  pose proof (i_out _ _ _ Hi) as Hwf. fold out in Hwf. pose proof Hwf as (Hb1 & Hb2 & Hb3).
  assert (0 < Buffer.readableBytes out) as Hpos.
  { rewrite Buffer.readable_content by done. unfold lenZ. destruct (Buffer.content out); [done|simpl; lia]. }
  wp_focus. apply wp_write_exact.
  { rewrite Buffer.readable_wf in * by done. unfold lenZ, Buffer.peek in *. rewrite length_drop. lia. }
  unfold next_write. rewrite Hws. cbv zeta. unfold log_peek. rewrite Hlog. wp_focus. apply wp_ret.
  rewrite Z.max_r by lia. set (m := Z.min n (Buffer.readableBytes out)).
  assert (0 < m <= Buffer.readableBytes out) as Hm by lia. unfold when_ at 1. rewrite bool_decide_eq_true_2 by lia.
  destruct (Buffer.retrieve_spec m out Hwf ltac:(lia)) as (b & Hb & Hwfb & Hcb & _).
  wp_step. rewrite Hb. do 1 wp_step.
  assert (take (Z.to_nat m) (drop (Z.to_nat (Buffer.peek out)) (Buffer.buffer_ out)) = take (Z.to_nat m) (Buffer.content out)) as Htk.
  { unfold Buffer.content, slice, Buffer.peek. rewrite take_take. f_equal. rewrite Buffer.readable_wf in Hm by done. lia. }
  rewrite Htk. unfold progress.
  assert (m = Z.min n (lenZ (Buffer.content (outputBuffer_ s)))) as Hmc by (unfold m; by rewrite Buffer.readable_content).
  wp_step.
  - apply bool_decide_eq_true in Heqb0. rewrite (Buffer.readable_content b Hwfb) in Heqb0.
    assert (Buffer.content b = []) as Hnil by (apply length_zero_iff_nil; unfold lenZ in Heqb0; lia).
    eapply shutdown_drained; [exact Hch|exact Hst|]. intros w pe. simpl. rewrite Hnil, decide_True, Hws, Hst by done.
    exists n, ws. rewrite <- Hmc. fold out. by rewrite <- Hcb, Hnil.
  - wp_step. simpl. rewrite decide_False, Hws, app_nil_r.
    { exists n, ws. by rewrite <- Hmc. }
    intros Hx. by rewrite (Buffer.readable_content b Hwfb), Hx in Heqb0.
Qed.

(** Writes that take at least a byte each send the whole buffer and then half-close. *)
Lemma drain_spec ph s :
  log_info = false -> inv_at ph s -> state_ s = kDisconnecting -> Buffer.content (outputBuffer_ s) <> [] ->
  (length (Buffer.content (outputBuffer_ s)) <= length (writes (sys s)))%nat ->
  Forall (fun r => exists n, r = Wrote n /\ 0 < n) (writes (sys s)) ->
  exists k s', (k <= length (Buffer.content (outputBuffer_ s)))%nat /\
    for_each (fun _ => handleWrite channel_ log_info) (replicate k tt) s = Ok (tt, s') /\
    Buffer.content (outputBuffer_ s') = [] /\
    written (sys s') = written (sys s) ++ Buffer.content (outputBuffer_ s) /\
    half_closed (sys s') = half_closed (sys s) ++ [(kDisconnecting, [])].
Proof.
  remember (length (Buffer.content (outputBuffer_ s))) as len eqn:El. revert s El.
  induction len as [len IH] using lt_wf_ind. intros s El Hlog Hi Hst Hne Hlen Hall.
  destruct (writes (sys s)) as [|r ws] eqn:Ew; [destruct (Buffer.content _); simpl in *; [done|lia]|].
  apply list.Forall_cons in Hall as [(n & -> & Hn) Hall].
  pose proof (handleWrite_progress ph n ws s Hlog Hi Hst Hne Ew Hn) as Hp.
  apply wp_total in Hp as ([] & s1 & Hrun & n' & ws' & Ew' & Hws1 & Hwr1 & Hc1 & Hs1 & Hh1).
  rewrite Ew in Ew'. injection Ew' as <- <-.
  assert (inv_at ph s1) as Hi1.
  { pose proof (handleWrite_spec ph s Hi ltac:(by rewrite Hst)) as Hx. unfold wp in Hx. rewrite Hrun in Hx. apply Hx. }
  set (d := Buffer.content (outputBuffer_ s)) in *.
  assert (0 < Z.min n (lenZ d)) as Hm by (unfold lenZ; destruct d; [done|simpl; lia]).
  assert (length (drop (Z.to_nat (Z.min n (lenZ d))) d) < len)%nat as Hlt by (rewrite length_drop; unfold lenZ in *; lia).
  destruct (decide (Buffer.content (outputBuffer_ s1) = [])) as [Hnil|Hnn].
  - exists 1%nat, s1. split_and!; [lia| |done| |done].
    + simpl. unfold mbind, st_bind. by rewrite Hrun.
    + rewrite Hwr1. f_equal. rewrite Hc1 in Hnil. rewrite <- (take_drop (Z.to_nat (Z.min n (lenZ d))) d) at 3. by rewrite Hnil, app_nil_r.
  - rewrite app_nil_r in Hh1.
    destruct (IH (length (Buffer.content (outputBuffer_ s1))) ltac:(by rewrite Hc1) s1 eq_refl Hlog Hi1 Hs1 Hnn) as
      (k & s2 & Hk & Hrun2 & Hc2 & Hwr2 & Hh2); [rewrite Hws1, Hc1; simpl in *; lia|by rewrite Hws1|].
    exists (S k), s2. rewrite Hc1 in *. split_and!; [lia| |done| |congruence].
    + simpl. unfold mbind, st_bind. by rewrite Hrun.
    + by rewrite Hwr2, Hwr1, <- app_assoc, take_drop.
Qed.
End invariant.

(** A run of given events, as long as they are allowed. *)
Section exec.
Context {P : Type} `{Poller P}.
Context (channel_ : Z) (log_info : bool) (allowed : t (P := P) -> event -> bool).

Fixpoint exec (es : list event) (s : t) : option (res t) :=
  match es with
  | [] => Some (Ok s)
  | e :: es' =>
      if allowed s e then
        match handle channel_ log_info e s with
        | Ok (_, s') => exec es' s'
        | Fail f => Some (Fail f)
        end
      else None
  end.
End exec.

Lemma exec_reachable {P} `{PollerSpec P} channel_ fd log_info mark wc hw ws rs us (w : world P) es s s' :
  reachable channel_ fd log_info mark wc hw ws rs us w s ->
  exec channel_ log_info (fun s e => possible channel_ s e && contract s e) es s = Some (Ok s') ->
  reachable channel_ fd log_info mark wc hw ws rs us w s'.
Proof.
  revert s; induction es as [|e es IH]; intros s Hr; simpl; [by intros [= <-]|].
  destruct (possible channel_ s e) eqn:Hp, (contract s e) eqn:Hc; simpl; try done.
  destruct (handle channel_ log_info e s) as [[[] s1]|f] eqn:Hh; [|done]. apply IH. by eapply reach_step.
Qed.

(** A loop with nothing registered but a new connection. *)
Definition fresh_world : world EPollPoller.t := mk_world ∅ EPollPoller.init.

Lemma fresh_can_open : can_open 1 5 fresh_world.
Proof.
  split; [done|]. exists Client.init. split_and!; [|done|done|done].
  apply Client.shows_init; [apply EPollProofs.epoll_inv_init|done].
Qed.

(** The connection at address 1 for descriptor 5, with a write-complete and a high-water
    callback, and the high-water mark at 4 bytes. *)
Definition new_connection ws rs us : res t := TcpConnection 1 5 4 true true (env ws rs us) fresh_world.

Definition run_new (log_info : bool) (allowed : t -> event -> bool) ws rs us (es : list event) : option (res t) :=
  match new_connection ws rs us with
  | Ok s => exec 1 log_info allowed es s
  | Fail f => Some (Fail f)
  end.

Definition in_contract (s : t) (e : event) : bool := possible (P := EPollPoller.t) 1 s e && contract s e.

(** An echo: two bytes come in and are sent back in two writes; another thread shuts the
    connection down; the peer closes. *)
Definition echo_writes : list write_result := [Wrote 1; Wrote 5].
Definition echo_reads : list Buffer.readv_result := [Buffer.ReadvData (bs "hi"); Buffer.ReadvData []].
Definition echo_users : list (list api) := [[]; [WhenConnected StopRead; SendInput; WhenConnected StartRead]].
Definition echo_sending : list event := [Establish; Ready POLLIN].
Definition echo : list event :=
  echo_sending ++ [Ready POLLOUT; RunFunctor; Remote Shutdown; RemoteStep 0; RemoteStep 0; RunFunctor;
    Ready (Z.lor POLLIN POLLHUP); Removed; RunFunctor; Release].

Definition state_after (es : list event) : option t :=
  match run_new false in_contract echo_writes echo_reads echo_users es with
  | Some (Ok s) => Some s
  | _ => None
  end.

Lemma state_after_reachable es s :
  state_after es = Some s -> reachable 1 5 false 4 true true echo_writes echo_reads echo_users fresh_world s.
Proof.
  unfold state_after, run_new. destruct (new_connection _ _ _) as [s0|] eqn:E0; [|done].
  destruct (exec _ _ _ _ _) as [[s1|]|] eqn:E1; try done. intros [= <-].
  eapply exec_reachable; [by apply reach_new|exact E1].
Qed.

(** A view of the state after a run is computed without naming the state. *)
Lemma state_after_view {A} (f : t -> A) es s a :
  state_after es = Some s -> f <$> state_after es = Some a -> f s = a.
Proof. intros ->. by intros [=]. Qed.

Lemma echo_users_ok : Forall (Forall (fun a => api_ok a = true)) echo_users.
Proof. repeat constructor. Qed.

(** ** Claims *)

(** C11: the connection is safe.  While the contract is kept, whatever the kernel answers,
    user callbacks call and other threads interleave, an event can only fail by running
    out of memory, or, with [LOG_INFO] enabled, by reading past the end of a buffer to log
    it: no assertion fails and nothing freed is used.  While the connection is open, its
    channel is registered for exactly the events it wants: reading as [reading_] says,
    writing when bytes wait in the output buffer; once it is down the poller watches
    nothing. *)
Theorem connection_safe {P} `{PollerSpec P} channel_ fd log_info mark wc hw ws rs us (w : world P) s :
  can_open channel_ fd w -> Forall (Forall (fun a => api_ok a = true)) us ->
  reachable channel_ fd log_info mark wc hw ws rs us w s ->
  (forall e f, possible channel_ s e = true -> contract s e = true -> handle channel_ log_info e s = Fail f ->
     f = LengthError \/ (log_info = true /\ f = OutOfBounds)) /\
  (may_close (state_ s) = true -> exists c,
     chans (world_ s) !! channel_ = Some c /\ channels_ (poller (world_ s)) !! fd = Some channel_ /\
     Channel.isWriting c = bool_decide (Buffer.content (outputBuffer_ s) <> []) /\
     Channel.isReading c = reading_ s) /\
  (state_ s = kDisconnected -> exists c, chans (world_ s) !! channel_ = Some c /\ Channel.isNoneEvent c = true).
Proof.
  intros Hw Hus Hr. pose proof (conn_reachable_inv _ _ _ _ _ _ _ _ _ _ _ Hw Hus Hr) as Hv. split_and!.
  - intros e f Hp Hc Hh. pose proof (handle_inv _ _ log_info e s Hv Hp Hc) as Hwp. unfold wp in Hwp. by rewrite Hh in Hwp.
  - intros Hst. destruct (inv_open _ _ _ _ _ (v_inv _ _ _ Hv) Hst) as (e & (cs & Hs & Ho & Hreg) & Hwr & Hrd).
    destruct (Client.shows_chan _ _ _ _ _ Hs Ho) as (c & Hc & _ & He). exists c.
    rewrite (Client.sh_reg _ _ Hs). unfold Channel.isWriting, Channel.isReading. by rewrite He.
  - intros Hst. pose proof (i_chan _ _ _ _ _ (v_inv _ _ _ Hv)) as Hch. unfold chan_ok in Hch. rewrite Hst in Hch.
    destruct (chan_at_channel _ _ _ _ _ Hch) as (c & Hc & He). exists c. unfold Channel.isNoneEvent. by rewrite He.
Qed.

(** C10: the byte stream.  Unless [write] has failed with [EPIPE] or [ECONNRESET], the bytes
    that the kernel has taken followed by those in the output buffer are the bytes given
    to [sendInLoop], in order, each once.  A half-close never cuts off bytes that are still
    to be written: the output buffer is empty at each [shutdownWrite] of an open connection. *)
Theorem stream_in_order {P} `{PollerSpec P} channel_ fd log_info mark wc hw ws rs us (w : world P) s :
  can_open channel_ fd w -> Forall (Forall (fun a => api_ok a = true)) us ->
  reachable channel_ fd log_info mark wc hw ws rs us w s ->
  (EPIPE ∉ errs (sys s) -> ECONNRESET ∉ errs (sys s) ->
     written (sys s) ++ Buffer.content (outputBuffer_ s) = accepted (sys s)) /\
  (forall st unsent, (st, unsent) ∈ half_closed (sys s) -> st <> kDisconnected -> unsent = []).
Proof.
  intros Hw Hus Hr. pose proof (v_inv _ _ _ (conn_reachable_inv _ _ _ _ _ _ _ _ _ _ _ Hw Hus Hr)) as Hi. split.
  - intros H1 H2. rewrite <- (i_stream _ _ _ _ _ Hi), app_nil_r; [done|].
    apply list.Forall_forall. by intros e He [-> | ->].
  - intros st u Hin Hst. pose proof (i_half _ _ _ _ _ Hi) as Hh. rewrite list.Forall_forall in Hh.
    by destruct (Hh _ Hin).
Qed.

(** C12: the life of a connection.  [connectionCallback_] is called once when the connection
    is up and once when it is down, in this order, the message callback only in between,
    and [closeCallback_] at most once, after the connection callback; the state agrees. *)
Theorem connection_life {P} `{PollerSpec P} channel_ fd log_info mark wc hw ws rs us (w : world P) s :
  can_open channel_ fd w -> Forall (Forall (fun a => api_ok a = true)) us ->
  reachable channel_ fd log_info mark wc hw ws rs us w s ->
  exists x, life_of (log (sys s)) = Some x /\
    (x = New <-> state_ s = kConnecting) /\
    (x = Up <-> state_ s = kConnected \/ state_ s = kDisconnecting) /\
    (x = Down \/ x = Closed <-> state_ s = kDisconnected).
Proof.
  intros Hw Hus Hr. pose proof (v_inv _ _ _ (conn_reachable_inv _ _ _ _ _ _ _ _ _ _ _ Hw Hus Hr)) as Hi.
  pose proof (i_life _ _ _ _ _ Hi) as Hl. unfold life_ok in Hl.
  destruct (state_ s); [destruct Hl as [Hl|Hl]|..]; rewrite Hl; eexists; (split; [reflexivity|]); naive_solver.
Qed.

(** what [sendInLoop] does, on every branch.  On an open connection it writes at once
    when nothing waits, buffers what is left (all of it when bytes wait already, nothing
    after [EPIPE] or [ECONNRESET]), queues the write-complete callback exactly when the
    kernel took everything, and the high-water callback exactly when the buffer passes the
    mark; it can only fail by running out of memory. *)
Theorem send_functional {P} `{PollerSpec P} channel_ fd log_info mark wc hw ws rs us (w : world P) s data :
  can_open channel_ fd w -> Forall (Forall (fun a => api_ok a = true)) us ->
  reachable channel_ fd log_info mark wc hw ws rs us w s ->
  may_close (state_ s) = true -> lenZ data < 2 ^ 31 ->
  match sendInLoop channel_ data (lenZ data) s with
  | Ok (_, s') => sent data s s'
  | Fail f => f = LengthError
  end.
Proof.
  intros Hw Hus Hr Hst Hlen.
  pose proof (v_inv _ _ _ (conn_reachable_inv _ _ _ _ _ _ _ _ _ _ _ Hw Hus Hr)) as Hi.
  pose proof (sendInLoop_exact _ _ _ data s Hi Hst Hlen) as Hwp. unfold wp in Hwp. by destruct (sendInLoop _ _ _ _) as [[]|].
Qed.

(** C13: a shutdown completes.  On a connection in [kDisconnecting] with bytes waiting, once
    every [write] takes at least one byte, at most as many [handleWrite] as there are bytes
    send all of them, in order, and then half-close the socket, once. *)
Theorem shutdown_completes {P} `{PollerSpec P} channel_ fd mark wc hw ws rs us (w : world P) s :
  can_open channel_ fd w -> Forall (Forall (fun a => api_ok a = true)) us ->
  reachable channel_ fd false mark wc hw ws rs us w s ->
  state_ s = kDisconnecting -> Buffer.content (outputBuffer_ s) <> [] ->
  (length (Buffer.content (outputBuffer_ s)) <= length (writes (sys s)))%nat ->
  Forall (fun r => exists n, r = Wrote n /\ 0 < n) (writes (sys s)) ->
  exists k s', (k <= length (Buffer.content (outputBuffer_ s)))%nat /\
    for_each (fun _ => handleWrite channel_ false) (replicate k tt) s = Ok (tt, s') /\
    Buffer.content (outputBuffer_ s') = [] /\
    written (sys s') = written (sys s) ++ Buffer.content (outputBuffer_ s) /\
    half_closed (sys s') = half_closed (sys s) ++ [(kDisconnecting, [])].
Proof.
  intros Hw Hus Hr. pose proof (v_inv _ _ _ (conn_reachable_inv _ _ _ _ _ _ _ _ _ _ _ Hw Hus Hr)) as Hi.
  by apply (drain_spec channel_ fd false (phase_of s)).
Qed.

(** every clause of the contract is needed.  With another thread between its test of
    [state_] in [forceClose] and [setState], a closed connection is closed again and its
    owner is told twice; a [send] of another thread that is queued after the connection
    has been destroyed runs on freed memory; a queued [startRead] that runs after the close
    makes [connectDestroyed] fail the assertion of [Channel::remove]; so does destroying
    the owner while a shut down connection waits for its peer; and with [LOG_INFO] enabled,
    a message that fills the input buffer is logged past its end. *)
Theorem connection_contract_is_needed :
  (exists s, run_new false (possible 1) [] [Buffer.ReadvData []; Buffer.ReadvData []] []
     [Establish; Remote ForceClose; Ready POLLIN; RemoteStep 0; RemoteStep 0; RunFunctor] = Some (Ok s) /\
     log (sys s) = [ConnectionCallback true; ConnectionCallback false; CloseCallback;
                    ConnectionCallback false; CloseCallback]) /\
  run_new false (possible 1) [] [Buffer.ReadvData []] []
     [Establish; Remote (Send (StringPiece.of_string (bs "x"))); Ready POLLIN; Removed; RunFunctor;
      RemoteStep 0; Release; RunFunctor] = Some (Fail UseAfterFree) /\
  run_new false (possible 1) [] [Buffer.ReadvData []] []
     [Establish; Remote StartRead; RemoteStep 0; Ready POLLIN; Removed; RunFunctor; RunFunctor]
     = Some (Fail AssertionFailed) /\
  run_new false (possible 1) [] [] []
     [Establish; Remote Shutdown; RemoteStep 0; RemoteStep 0; RunFunctor; ServerGone]
     = Some (Fail AssertionFailed) /\
  run_new true in_contract [] [Buffer.ReadvData (replicate 1024 "a"%byte)] [] [Establish; Ready POLLIN]
     = Some (Fail OutOfBounds).
Proof.
  split; [|vm_compute; done].
  destruct (run_new _ _ _ _ _ _) as [[s|]|] eqn:E; [|by vm_compute in E..].
  exists s. split; [done|]. apply (f_equal (fun o => match o with Some (Ok s) => Some (log (sys s)) | _ => None end)) in E.
  vm_compute in E. injection E as E. symmetry. exact E.
Qed.

(** The echo again, when one byte waits, and when it has ended. *)
Lemma connection_safe_witness : exists s, state_after echo_sending = Some s /\
  may_close (state_ s) = true /\ exists c, chans (world_ s) !! 1 = Some c /\ Channel.isWriting c = true.
Proof.
  destruct (state_after echo_sending) as [s|] eqn:E; [|by vm_compute in E].
  exists s. split; [done|].
  destruct (connection_safe 1 5 false 4 true true echo_writes echo_reads echo_users fresh_world s
    fresh_can_open echo_users_ok (state_after_reachable _ _ E)) as (_ & Hopen & _).
  assert ((may_close (state_ s), Buffer.content (outputBuffer_ s)) = (true, bs "i")) as [= Hst Hc].
  { apply (state_after_view (fun s => (may_close (state_ s), Buffer.content (outputBuffer_ s))) _ _ _ E). by vm_compute. }
  split; [done|]. destruct (Hopen Hst) as (c & Hch & _ & Hw & _). exists c. split; [done|].
  rewrite Hw, Hc. done.
Defined.

Lemma stream_in_order_witness : exists s, state_after echo = Some s /\ written (sys s) = bs "hi".
Proof.
  destruct (state_after echo) as [s|] eqn:E; [|by vm_compute in E].
  exists s. split; [done|].
  destruct (stream_in_order 1 5 false 4 true true echo_writes echo_reads echo_users fresh_world s
    fresh_can_open echo_users_ok (state_after_reachable _ _ E)) as [Hs _].
  assert ((errs (sys s), Buffer.content (outputBuffer_ s), accepted (sys s)) = ([], [], bs "hi")) as [= He Hc Ha].
  { apply (state_after_view (fun s => (errs (sys s), Buffer.content (outputBuffer_ s), accepted (sys s))) _ _ _ E).
    by vm_compute. }
  rewrite <- Ha, <- Hs, Hc, app_nil_r; [done|by rewrite He; apply not_elem_of_nil..].
Defined.

Lemma connection_life_witness : exists s, state_after echo = Some s /\ state_ s = kDisconnected.
Proof.
  destruct (state_after echo) as [s|] eqn:E; [|by vm_compute in E].
  exists s. split; [done|].
  destruct (connection_life 1 5 false 4 true true echo_writes echo_reads echo_users fresh_world s
    fresh_can_open echo_users_ok (state_after_reachable _ _ E)) as (x & Hx & _ & _ & Hd).
  apply Hd. right. assert (life_of (log (sys s)) = Some Closed) as Hc; [|congruence].
  apply (state_after_view (fun s => life_of (log (sys s))) _ _ _ E). by vm_compute.
Defined.

Lemma send_functional_witness : exists s s', state_after echo_sending = Some s /\
  sendInLoop 1 (bs "xyz") 3 s = Ok (tt, s') /\ sent (bs "xyz") s s' /\
  send_effect (bs "xyz") s = ([], (bs "xyz", [F_highWaterMark 4])).
Proof.
  destruct (state_after echo_sending) as [s|] eqn:E; [|by vm_compute in E].
  set (view (s : @t EPollPoller.t) := (may_close (state_ s), match sendInLoop 1 (bs "xyz") 3 s with Ok _ => true | _ => false end,
    send_effect (bs "xyz") s)).
  assert (view s = (true, true, ([], (bs "xyz", [F_highWaterMark 4])))) as [= Hst Hok He].
  { apply (state_after_view view _ _ _ E). by vm_compute. }
  pose proof (send_functional 1 5 false 4 true true echo_writes echo_reads echo_users fresh_world s (bs "xyz")
    fresh_can_open echo_users_ok (state_after_reachable _ _ E) Hst eq_refl) as Hs.
  change (lenZ (bs "xyz")) with 3 in Hs. 
  destruct (sendInLoop 1 (bs "xyz") 3 s) as [[[] s']|] eqn:Hrun; [|discriminate Hok].
  exists s, s'. exact (conj eq_refl (conj Hrun (conj Hs He))).
Defined.

Lemma shutdown_completes_witness : exists s k s', state_after (echo_sending ++ [Remote Shutdown; RemoteStep 0]) = Some s /\
  for_each (fun _ => handleWrite 1 false) (replicate k tt) s = Ok (tt, s') /\
  written (sys s') = bs "hi" /\ half_closed (sys s') = [(kDisconnecting, [])].
Proof.
  destruct (state_after (echo_sending ++ [Remote Shutdown; RemoteStep 0])) as [s|] eqn:E; [|by vm_compute in E].
  set (view (s : @t EPollPoller.t) := (state_ s, Buffer.content (outputBuffer_ s), writes (sys s), written (sys s), half_closed (sys s))).
  assert (view s = (kDisconnecting, bs "i", [Wrote 5], bs "h", [])) as [= Hst Hc Hw Hwr Hh].
  { apply (state_after_view view _ _ _ E). by vm_compute. }
  destruct (shutdown_completes 1 5 4 true true echo_writes echo_reads echo_users fresh_world s
    fresh_can_open echo_users_ok (state_after_reachable _ _ E) Hst) as (k & s' & _ & Hrun & _ & Hw' & Hh').
  - by rewrite Hc.
  - by rewrite Hc, Hw.
  - rewrite Hw. constructor; [|done]. exists 5. split; reflexivity.
  - exists s, k, s'. split; [reflexivity|]. split; [exact Hrun|].
    split; [rewrite Hw', Hwr, Hc; reflexivity|rewrite Hh', Hh; reflexivity].
Defined.
End TcpConnection.
