(* ===== verification/Connector.v ===== *)
(** Connecting to a server ([muduo/net/Connector.h], [Connector.cc]).

    The connector runs on any poller that keeps [PollerSpec].  Events interleave its loop
    (calls, queued functors, timers, ready events) with other threads that call [start] and
    [stop]; what the kernel answers is part of the events. *)
From S2P Require Import Prelude State Channel Poller.
Open Scope Z_scope.

Module Connector.

Inductive States := kDisconnected | kConnecting | kConnected.

#[global] Instance States_eq_dec : EqDecision States.
Proof. solve_decision. Defined.

Definition kMaxRetryDelayMs : Z := 30 * 1000.
Definition kInitRetryDelayMs : Z := 500.

Definition EINPROGRESS : Z := 115.
Definition EINTR : Z := 4.
Definition EISCONN : Z := 106.
Definition EAGAIN : Z := 11.
Definition EADDRINUSE : Z := 98.
Definition EADDRNOTAVAIL : Z := 99.
Definition ECONNREFUSED : Z := 111.
Definition ENETUNREACH : Z := 101.

Inductive functor := F_start | F_stop | F_reset.

#[global] Instance functor_eq_dec : EqDecision functor.
Proof. solve_decision. Defined.

Section connector.
Context {P : Type} `{Poller P}.

(** [channel_] is the address of the channel object.  Beside the members of the class: the
    functors queued and the timers set in the loop, the threads inside [start] ([true]) or
    [stop] before they queue their functor, the next free address, and the history: the
    sockets created, closed and handed to [newConnectionCallback_], the delays since the
    last [restart]. *)
Record t := mk {
  world_ : world P;
  connect_ : bool;
  state_ : States;
  channel_ : option Z;
  retryDelayMs_ : Z;
  pending : list functor;
  timers : list Z;
  remote : list bool;
  next_address : Z;
  opened : list Z;
  closed : list Z;
  given : list Z;
  delays : list Z
}.

Definition set_world x s := mk x (connect_ s) (state_ s) (channel_ s) (retryDelayMs_ s) (pending s) (timers s) (remote s) (next_address s) (opened s) (closed s) (given s) (delays s).
Definition set_connect x s := mk (world_ s) x (state_ s) (channel_ s) (retryDelayMs_ s) (pending s) (timers s) (remote s) (next_address s) (opened s) (closed s) (given s) (delays s).
Definition set_state x s := mk (world_ s) (connect_ s) x (channel_ s) (retryDelayMs_ s) (pending s) (timers s) (remote s) (next_address s) (opened s) (closed s) (given s) (delays s).
Definition set_channel x s := mk (world_ s) (connect_ s) (state_ s) x (retryDelayMs_ s) (pending s) (timers s) (remote s) (next_address s) (opened s) (closed s) (given s) (delays s).
Definition set_delay x s := mk (world_ s) (connect_ s) (state_ s) (channel_ s) x (pending s) (timers s) (remote s) (next_address s) (opened s) (closed s) (given s) (delays s).
Definition set_pending x s := mk (world_ s) (connect_ s) (state_ s) (channel_ s) (retryDelayMs_ s) x (timers s) (remote s) (next_address s) (opened s) (closed s) (given s) (delays s).
Definition set_timers x s := mk (world_ s) (connect_ s) (state_ s) (channel_ s) (retryDelayMs_ s) (pending s) x (remote s) (next_address s) (opened s) (closed s) (given s) (delays s).
Definition set_remote x s := mk (world_ s) (connect_ s) (state_ s) (channel_ s) (retryDelayMs_ s) (pending s) (timers s) x (next_address s) (opened s) (closed s) (given s) (delays s).
Definition set_next x s := mk (world_ s) (connect_ s) (state_ s) (channel_ s) (retryDelayMs_ s) (pending s) (timers s) (remote s) x (opened s) (closed s) (given s) (delays s).
Definition set_opened x s := mk (world_ s) (connect_ s) (state_ s) (channel_ s) (retryDelayMs_ s) (pending s) (timers s) (remote s) (next_address s) x (closed s) (given s) (delays s).
Definition set_closed x s := mk (world_ s) (connect_ s) (state_ s) (channel_ s) (retryDelayMs_ s) (pending s) (timers s) (remote s) (next_address s) (opened s) x (given s) (delays s).
Definition set_given x s := mk (world_ s) (connect_ s) (state_ s) (channel_ s) (retryDelayMs_ s) (pending s) (timers s) (remote s) (next_address s) (opened s) (closed s) x (delays s).
Definition set_delays x s := mk (world_ s) (connect_ s) (state_ s) (channel_ s) (retryDelayMs_ s) (pending s) (timers s) (remote s) (next_address s) (opened s) (closed s) (given s) x.

Abbreviation M := (ST t).

Definition in_world {A} (m : W P A) : M A := fun s =>
  match m (world_ s) with
  | Ok (a, w) => Ok (a, set_world w s)
  | Fail e => Fail e
  end.

Definition Connector (w : world P) (next : Z) : t :=
  mk w false kDisconnected None kInitRetryDelayMs [] [] [] next [] [] [] [].

Definition setState (st : States) : M unit := modify (set_state st).
Definition queueInLoop (f : functor) : M unit := modify (fun s => set_pending (pending s ++ [f]) s).
Definition close (sockfd : Z) : M unit := modify (fun s => set_closed (closed s ++ [sockfd]) s).

(** [runAfter] of [startInLoop], in milliseconds. *)
Definition runAfter (ms : Z) : M unit :=
  modify (fun s => set_delays (delays s ++ [ms]) (set_timers (timers s ++ [ms]) s)).

Definition retry (sockfd : Z) : M unit :=
  _ ← close sockfd;
  _ ← setState kDisconnected;
  s ← get;
  when_ (connect_ s)
    (_ ← runAfter (retryDelayMs_ s);
     modify (fun s => set_delay (Z.min (retryDelayMs_ s * 2) kMaxRetryDelayMs) s)).

(** [new Channel(loop_, sockfd)] with the write and the error callback. *)
Definition new_channel (sockfd : Z) : M Z :=
  s ← get;
  let a := next_address s in
  let c := Channel.set_callbacks false true false true (Channel.Channel sockfd) in
  _ ← in_world (modify (fun w => mk_world (<[a := c]> (chans w)) (poller w)));
  _ ← modify (set_next (a + 1));
  mret a.

Definition connecting (sockfd : Z) : M unit :=
  _ ← setState kConnecting;
  s ← get;
  _ ← sassert (bool_decide (channel_ s = None));
  a ← new_channel sockfd;
  _ ← modify (set_channel (Some a));
  in_world (enableWriting a).

(** [connect], with the socket that [createNonblockingOrDie] returns and the errno of
    [connect(2)], 0 for success. *)
Definition connect (k : Z * Z) : M unit :=
  let '(sockfd, savedErrno) := k in
  _ ← modify (fun s => set_opened (opened s ++ [sockfd]) s);
  if bool_decide (savedErrno ∈ [0; EINPROGRESS; EINTR; EISCONN]) then connecting sockfd
  else if bool_decide (savedErrno ∈ [EAGAIN; EADDRINUSE; EADDRNOTAVAIL; ECONNREFUSED; ENETUNREACH]) then retry sockfd
  else close sockfd.

Definition startInLoop (k : Z * Z) : M unit :=
  s ← get;
  _ ← sassert (bool_decide (state_ s = kDisconnected));
  if connect_ s then connect k else mret tt.

(** The callers of [channel_->...]. *)
Definition the_channel : M Z :=
  s ← get;
  match channel_ s with Some a => mret a | None => fail NullPointer end.

Definition removeAndResetChannel : M Z :=
  a ← the_channel;
  _ ← in_world (disableAll a);
  _ ← in_world (channel_remove a);
  c ← in_world (channel a);
  let sockfd := Channel.fd_ c in
  _ ← queueInLoop F_reset;
  mret sockfd.

Definition resetChannel : M unit := modify (set_channel None).

Definition stopInLoop : M unit :=
  s ← get;
  when_ (bool_decide (state_ s = kConnecting))
    (_ ← setState kDisconnected;
     sockfd ← removeAndResetChannel;
     retry sockfd).

(** [start], [stop] and [restart] in the loop thread. *)
Definition start (k : Z * Z) : M unit := _ ← modify (set_connect true); startInLoop k.
Definition stop : M unit := _ ← modify (set_connect false); queueInLoop F_stop.

Definition restart (k : Z * Z) : M unit :=
  _ ← setState kDisconnected;
  _ ← modify (set_delay kInitRetryDelayMs);
  _ ← modify (set_delays []);
  _ ← modify (set_connect true);
  startInLoop k.

(** [handleWrite], with what [getSocketError] and [isSelfConnect] say. *)
Definition handleWrite (err : Z) (self : bool) : M unit :=
  s ← get;
  if bool_decide (state_ s = kConnecting) then
    sockfd ← removeAndResetChannel;
    if bool_decide (err <> 0) then retry sockfd
    else if self then retry sockfd
    else
      _ ← setState kConnected;
      s ← get;
      if connect_ s then modify (fun s => set_given (given s ++ [sockfd]) s)
      else close sockfd
  else sassert (bool_decide (state_ s = kDisconnected)).

Definition handleError (err : Z) : M unit :=
  s ← get;
  when_ (bool_decide (state_ s = kConnecting)) (sockfd ← removeAndResetChannel; retry sockfd).

(** ** The interleaving *)

Definition dispatch (err : Z) (self : bool) (c : Channel.callback) : M unit :=
  match c with
  | Channel.Write => handleWrite err self
  | Channel.Error => handleError err
  | Channel.Read | Channel.Close => mret tt
  end.

Inductive event :=
  | Start (k : Z * Z)
  | Stop
  | Restart (k : Z * Z)
  | Enter (starts : bool)             (* another thread calls start or stop: connect_ is set *)
  | Queue (i : nat)                   (* and then its functor is queued *)
  | RunFunctor (k : Z * Z)
  | TimerFires (i : nat) (k : Z * Z)
  | Ready (revents err : Z) (self : bool).

Definition run_functor (f : functor) (k : Z * Z) : M unit :=
  match f with
  | F_start => startInLoop k
  | F_stop => stopInLoop
  | F_reset => resetChannel
  end.

Definition handle (e : event) : M unit :=
  match e with
  | Start k => start k
  | Stop => stop
  | Restart k => restart k
  | Enter b => modify (fun s => set_remote (remote s ++ [b]) (set_connect b s))
  | Queue i =>
      s ← get;
      match remote s !! i with
      | Some b =>
          _ ← modify (set_remote (delete i (remote s)));
          queueInLoop (if b : bool then F_start else F_stop)
      | None => mret tt
      end
  | RunFunctor k =>
      s ← get;
      match pending s with
      | f :: fs => _ ← modify (set_pending fs); run_functor f k
      | [] => mret tt
      end
  | TimerFires i k =>
      s ← get;
      _ ← modify (set_timers (delete i (timers s)));
      startInLoop k
  | Ready revents err self =>
      a ← the_channel;
      _ ← in_world (update_chan (Channel.set_revents revents) a);
      c ← in_world (channel a);
      for_each (dispatch err self) (Channel.handleEvent c)
  end.

(** ** The contract *)

(** What may start an attempt, and the attempt itself. *)
Definition driver (s : t) : nat :=
  length (filter (fun f => f = F_start) (pending s)) + length (timers s) +
  length (filter (fun b => b = true) (remote s)) + (if decide (state_ s = kConnecting) then 1 else 0).

Definition idle (s : t) : bool := bool_decide (driver s = 0%nat) && bool_decide (channel_ s = None).

(** A new socket: a descriptor that no channel of the loop has. *)
Definition new_socket (s : t) (k : Z * Z) : bool :=
  bool_decide (0 <= k.1) && bool_decide (channels_ (poller (world_ s)) !! k.1 = None) &&
  bool_decide (Z.of_nat (size (channels_ (poller (world_ s)))) < 2 ^ 31 - 1).

(** [start] and [restart] only while no attempt is under way or will be, and the channel of
    the last attempt is gone; a timer does not overtake the functor that resets the
    channel; ready events are those of an enabled channel. *)
Definition contract (s : t) (e : event) : bool :=
  match e with
  | Start k => idle s && bool_decide (state_ s = kDisconnected) && new_socket s k
  | Restart k => idle s && new_socket s k
  | Enter true => idle s && bool_decide (state_ s = kDisconnected)
  | Enter false | Stop => true
  | Queue i => bool_decide (is_Some (remote s !! i))
  | RunFunctor k => bool_decide (pending s <> []) && new_socket s k
  | TimerFires i k => bool_decide (is_Some (timers s !! i)) && bool_decide (channel_ s = None) && new_socket s k
  | Ready _ _ _ =>
      match channel_ s with
      | Some a => match chans (world_ s) !! a with Some c => negb (Channel.isNoneEvent c) | None => false end
      | None => false
      end
  end.

Inductive reachable (s0 : t) : t -> Prop :=
  | reach_start : reachable s0 s0
  | reach_step s e s' : reachable s0 s -> contract s e = true -> handle e s = Ok (tt, s') -> reachable s0 s'.
End connector.

(** ** The channel in its poller *)

Section proofs.
Context {P : Type} `{PollerSpec P}.
Implicit Types s : t (P := P).
Implicit Types cs : Client.t.

Lemma channel_opens cs w a fd :
  Client.shows cs w -> Client.objs cs !! a = None -> Client.reg cs !! fd = None -> 0 <= fd ->
  Z.of_nat (size (Client.reg cs)) < 2 ^ 31 - 1 ->
  exists w' cs', enableWriting a (mk_world (<[a := Channel.set_callbacks false true false true (Channel.Channel fd)]> (chans w)) (poller w))
      = Ok (tt, w') /\ Client.shows cs' w' /\
    Client.objs cs' = <[a := (fd, 4)]> (Client.objs cs) /\ Client.reg cs' = <[fd := a]> (Client.reg cs) /\
    exists c, chans w' !! a = Some c /\ Channel.writeCallback_ c = true /\ Channel.tied_ c = false.
Proof.
  intros Hs Ho Hr Hfd Hsz. set (c := Channel.set_callbacks _ _ _ _ _).
  set (cs1 := Client.mk (<[a := (fd, 0)]> (Client.objs cs)) (Client.reg cs) ({[a]} ∪ Client.fresh cs)).
  assert (Client.shows cs1 (mk_world (<[a := c]> (chans w)) (poller w))) as Hs1.
  { pose proof (Client.client_simulates cs1 (mk_world (<[a := Channel.Channel fd]> (chans w)) (poller w)) a (Channel.Channel fd) c
      ltac:(by apply Client.new_simulates) ltac:(simpl; apply lookup_insert_eq) eq_refl) as Hc.
    simpl in Hc. by rewrite insert_insert_eq in Hc. }
  destruct (Client.change_simulates Client.EnableWriting cs1 _ a fd 0 Hs1) as (w' & Hrun & Hs').
  { simpl. apply lookup_insert_eq. }
  { right. split_and!; [done|simpl; set_solver|done|done]. }
  rewrite Client.run_change in Hrun.
  destruct (set_events_and_update _ _ _) as [[[] w1]|] eqn:E; [|done]. injection Hrun as <-.
  exists w1. eexists. split_and!; [exact E|exact Hs'| |done|]; [simpl; by rewrite insert_insert_eq|].
  destruct (update_ok (mk_world (<[a := c]> (chans w)) (poller w)) a c Channel.writing_on) as (w2 & Hrun & _ & _ & Hk & _).
  - apply Hs1.
  - simpl. apply lookup_insert_eq.
  - vm_compute. split; [discriminate|reflexivity].
  - right. simpl. rewrite (Client.sh_reg _ _ Hs). split_and!; done.
  - simpl in E. rewrite Hrun in E. injection E as ->. simpl in Hk. rewrite insert_insert_eq in Hk.
    destruct (chans_kept_lookup _ _ a _ Hk ltac:(apply lookup_insert_eq)) as (c' & Hc' & Hv). exists c'.
    destruct c'. unfold client_view in Hv. simpl in *. by injection Hv as -> -> -> -> -> -> -> -> -> -> ->.
Qed.

Lemma channel_closes cs w a fd e :
  Client.shows cs w -> Client.objs cs !! a = Some (fd, e) -> Client.reg cs !! fd = Some a ->
  exists w1 w2 cs' c, disableAll a w = Ok (tt, w1) /\ channel_remove a w1 = Ok (tt, w2) /\ Client.shows cs' w2 /\
    chans w2 !! a = Some c /\ Channel.fd_ c = fd /\
    Client.objs cs' = <[a := (fd, 0)]> (Client.objs cs) /\ Client.reg cs' = delete fd (Client.reg cs).
Proof.
  intros Hs Ho Hr.
  destruct (Client.change_simulates Client.DisableAll cs w a fd e Hs Ho) as (w1' & Hrun & Hs1); [by left|].
  rewrite Client.run_change in Hrun.
  destruct (set_events_and_update _ _ w) as [[[] w1]|] eqn:E; [|done]. injection Hrun as <-.
  set (cs1 := Client.mk _ _ _) in Hs1.
  assert (Client.objs cs1 !! a = Some (fd, 0)) as Ho1 by (simpl; apply lookup_insert_eq).
  destruct (Client.remove_simulates cs1 w1 a fd Hs1 Ho1) as (w2' & Hrem & Hs2); [simpl; apply lookup_insert_eq|].
  simpl in Hrem. unfold mbind, st_bind in Hrem. destruct (channel_remove a w1) as [[[] w2]|] eqn:E2; [|done].
  injection Hrem as <-. destruct (Client.shows_chan _ _ a fd 0 Hs2 Ho1) as (c & Hc & Hfd & _).
  exists w1, w2. eexists. exists c. split_and!; try done. simpl. by rewrite delete_insert_eq.
Qed.

(** ** The invariant *)

Definition count (f : functor) s : nat := length (filter (fun g => g = f) (pending s)).

(** The delay after [n] retries. *)
Definition backoff (n : nat) : Z := Z.min (kInitRetryDelayMs * 2 ^ Z.of_nat n) kMaxRetryDelayMs.

(** The socket that the connector owns. *)
Definition holding s : list Z :=
  match state_ s, channel_ s with
  | kConnecting, Some a => match chans (world_ s) !! a with Some c => [Channel.fd_ c] | None => [] end
  | _, _ => []
  end.

Record inv cs s : Prop := {
  i_shows : Client.shows cs (world_ s);
  i_next : forall a, next_address s <= a -> Client.objs cs !! a = None;
  i_driver : (driver s <= 1)%nat;
  i_chan : match state_ s, channel_ s with
           | kConnecting, Some a => exists fd, Client.objs cs !! a = Some (fd, 4) /\ Client.reg cs !! fd = Some a /\
                                     count F_reset s = 0%nat /\
                                     exists c, chans (world_ s) !! a = Some c /\ Channel.writeCallback_ c = true /\
                                       Channel.tied_ c = false
           | kConnecting, None => False
           | _, Some a => (exists fd, Client.objs cs !! a = Some (fd, 0)) /\
                          count F_reset s = 1%nat /\ count F_start s = 0%nat /\ true ∉ remote s
           | _, None => count F_reset s = 0%nat
           end;
  i_connected : state_ s = kConnected -> driver s = 0%nat;
  i_fds : opened s ≡ₚ closed s ++ given s ++ holding s;
  i_delay : retryDelayMs_ s = backoff (length (delays s));
  i_delays : delays s = map backoff (seq 0 (length (delays s)));
  i_timers : forall ms, ms ∈ timers s -> exists n, ms = backoff n
}.

Definition Inv s : Prop := exists cs, inv cs s.

Lemma backoff_S n : Z.min (backoff n * 2) kMaxRetryDelayMs = backoff (S n).
Proof.
  unfold backoff, kInitRetryDelayMs, kMaxRetryDelayMs. rewrite Nat2Z.inj_succ, Z.pow_succ_r by lia. lia.
Qed.

Lemma backoff_range n : kInitRetryDelayMs <= backoff n <= kMaxRetryDelayMs.
Proof.
  unfold backoff, kInitRetryDelayMs, kMaxRetryDelayMs. pose proof (Z.pow_pos_nonneg 2 (Z.of_nat n) ltac:(lia) ltac:(lia)). lia.
Qed.

(** The driver, part by part. *)
Definition starting s : nat := length (filter (fun b => b = true) (remote s)).
Lemma driver_parts s :
  driver s = (count F_start s + length (timers s) + starting s + (if decide (state_ s = kConnecting) then 1 else 0))%nat.
Proof. done. Qed.

Lemma starting_none s : true ∉ remote s <-> starting s = 0%nat.
Proof.
  unfold starting. rewrite length_zero_iff_nil. split.
  - intros Hn. apply elem_of_nil_inv. intros b [-> Hb]%list_elem_of_filter. done.
  - intros Hn Ht. assert (true ∈ filter (fun b => b = true) (remote s)) as Hin by by apply list_elem_of_filter.
    rewrite Hn in Hin. by apply not_elem_of_nil in Hin.
Qed.

(** ** The operations *)

Definition retried (fd : Z) s : t :=
  let s := set_state kDisconnected (set_closed (closed s ++ [fd]) s) in
  if connect_ s then
    set_delay (Z.min (retryDelayMs_ s * 2) kMaxRetryDelayMs)
      (set_delays (delays s ++ [retryDelayMs_ s]) (set_timers (timers s ++ [retryDelayMs_ s]) s))
  else s.

Lemma retry_run fd s : retry fd s = Ok (tt, retried fd s).
Proof. unfold retried. by destruct s as [? []]. Qed.

Definition detached (w : world P) s : t := set_pending (pending s ++ [F_reset]) (set_world w s).

Lemma remove_channel_run s a fd cs e :
  channel_ s = Some a -> Client.shows cs (world_ s) -> Client.objs cs !! a = Some (fd, e) -> Client.reg cs !! fd = Some a ->
  exists w' cs', removeAndResetChannel s = Ok (fd, detached w' s) /\ Client.shows cs' w' /\
    Client.objs cs' = <[a := (fd, 0)]> (Client.objs cs) /\ Client.reg cs' = delete fd (Client.reg cs).
Proof.
  intros Hc Hs Ho Hr. destruct (channel_closes cs (world_ s) a fd e Hs Ho Hr)
    as (w1 & w2 & cs' & c & H1 & H2 & Hs' & Hcc & Hfd & Ho' & Hr').
  exists w2, cs'. split; [|done]. unfold removeAndResetChannel, the_channel, in_world, mbind, st_bind, get, mret, st_ret.
  rewrite Hc, H1. simpl. rewrite H2. simpl.
  unfold channel, gets, mbind, st_bind. rewrite Hcc. simpl. by rewrite Hfd.
Qed.

(** What the functor queue counts after [queueInLoop]. *)
Lemma count_snoc f g (l : list functor) :
  length (filter (fun h => h = f) (l ++ [g])) = (length (filter (fun h => h = f) l) + (if decide (g = f) then 1 else 0))%nat.
Proof. rewrite list.filter_app, length_app. simpl. destruct (decide (g = f)); rewrite filter_cons; by case_decide. Qed.

(** An attempt under way: its channel and nothing else. *)
Lemma inv_connecting cs s :
  inv cs s -> state_ s = kConnecting ->
  exists a fd, channel_ s = Some a /\ Client.objs cs !! a = Some (fd, 4) /\ Client.reg cs !! fd = Some a /\
    count F_reset s = 0%nat /\ count F_start s = 0%nat /\ timers s = [] /\ starting s = 0%nat /\ holding s = [fd].
Proof.
  intros Hi Hst. pose proof (i_chan _ _ Hi) as Hc. pose proof (i_driver _ _ Hi) as Hd. rewrite driver_parts, Hst in Hd.
  rewrite Hst in Hc. destruct (channel_ s) as [a|] eqn:Ha; [|done]. destruct Hc as (fd & Ho & Hr & HF0 & _).
  rewrite decide_True in Hd by done. exists a, fd. split_and!; try done; try lia.
  - apply length_zero_iff_nil. lia.
  - unfold holding. rewrite Hst, Ha. destruct (Client.shows_chan _ _ _ _ _ (i_shows _ _ Hi) Ho) as (c & -> & -> & _). done.
Qed.

Lemma i_chan_write cs s :
  inv cs s -> state_ s = kConnecting -> forall a, channel_ s = Some a ->
  exists c, chans (world_ s) !! a = Some c /\ Channel.writeCallback_ c = true /\ Channel.tied_ c = false.
Proof. intros Hi Hst a Ha. pose proof (i_chan _ _ Hi) as Hc. rewrite Hst, Ha in Hc. by destruct Hc as (? & _ & _ & _ & ?). Qed.

(** The parts of the invariant that an attempt's end does not touch. *)
Record ends cs s s' : Prop := {
  e_shows : Client.shows cs (world_ s');
  e_objs : forall a, next_address s' <= a -> Client.objs cs !! a = None;
  e_pending : pending s' = pending s ++ [F_reset];
  e_remote : remote s' = remote s;
  e_channel : exists a fd, channel_ s' = Some a /\ Client.objs cs !! a = Some (fd, 0);
  e_state : state_ s' <> kConnecting
}.

Lemma inv_ended cs cs' s s' :
  inv cs s -> state_ s = kConnecting -> ends cs' s s' ->
  (timers s' = [] \/ (state_ s' = kDisconnected /\ exists n, timers s' = [backoff n])) ->
  opened s' ≡ₚ closed s' ++ given s' ->
  retryDelayMs_ s' = backoff (length (delays s')) -> delays s' = map backoff (seq 0 (length (delays s'))) ->
  inv cs' s'.
Proof.
  intros Hi Hst [Hs Ho Hp Hr (a & fd & Ha & Hoa) Hne] Ht Hfds Hd Hds.
  destruct (inv_connecting _ _ Hi Hst) as (_ & _ & _ & _ & _ & HF0 & HF1 & _ & HF2 & _).
  assert (count F_reset s' = 1%nat /\ count F_start s' = 0%nat /\ starting s' = 0%nat) as (Hc1 & Hc2 & Hc3).
  { unfold count, starting in *. rewrite Hp, Hr, !count_snoc. simpl. lia. }
  split; try done.
  - rewrite driver_parts, Hc2, Hc3, decide_False by done. destruct Ht as [->|[_ [n ->]]]; simpl; lia.
  - rewrite Ha. pose proof (proj2 (starting_none s') Hc3). destruct (state_ s'); [by split; [exists fd|]|done|by split; [exists fd|]].
  - intros Hk. rewrite driver_parts, Hc2, Hc3, decide_False by done. destruct Ht as [->|[? _]]; [done|congruence].
  - unfold holding. destruct (state_ s'); [by rewrite app_nil_r|done|by rewrite app_nil_r].
  - intros ms. destruct Ht as [->|[_ [n ->]]]; [by intros ?%not_elem_of_nil|].
    intros ->%list_elem_of_singleton. by exists n.
Qed.

(** The same for [retry]. *)
Lemma retried_ends cs cs' s s' fd :
  inv cs s -> state_ s = kConnecting -> ends cs' s (retried fd s') ->
  opened s' = opened s -> closed s' = closed s -> given s' = given s -> holding s = [fd] ->
  retryDelayMs_ s' = retryDelayMs_ s -> delays s' = delays s -> timers s' = timers s -> inv cs' (retried fd s').
Proof.
  intros Hi Hst He Ho Hc Hg Hh Hr Hds Ht. eapply inv_ended; [exact Hi|done|exact He|..];
    destruct (inv_connecting _ _ Hi Hst) as (_ & _ & _ & _ & _ & _ & _ & Htn & _ & _);
    pose proof (i_fds _ _ Hi) as Hf; pose proof (i_delay _ _ Hi) as Hdl; pose proof (i_delays _ _ Hi) as Hdls;
    unfold retried; destruct (connect_ _); simpl; rewrite ?Ho, ?Hc, ?Hg, ?Hr, ?Hds, ?Ht, ?Htn in *; try done.
  - right. split; [done|]. exists (length (delays s)). by rewrite Hdl.
  - by left.
  - rewrite Hf, Hh. solve_Permutation.
  - rewrite Hf, Hh. solve_Permutation.
  - rewrite Hdl, backoff_S, length_app. simpl. f_equal. lia.
  - rewrite length_app, seq_app, map_app. simpl. by rewrite <- Hdls, Hdl.
Qed.

(** Only the world and the queue have changed. *)
Lemma detached_ends cs cs' w a fd s s' :
  inv cs s -> Client.shows cs' w -> Client.objs cs !! a = Some (fd, 4) -> channel_ s = Some a ->
  Client.objs cs' = <[a := (fd, 0)]> (Client.objs cs) ->
  world_ s' = w -> next_address s' = next_address s -> pending s' = pending s ++ [F_reset] ->
  remote s' = remote s -> channel_ s' = channel_ s -> state_ s' <> kConnecting -> ends cs' s s'.
Proof.
  intros Hi Hs Hoa Ha Ho <- Hn Hp Hr Hc Hst. split; try done.
  - intros b Hb. rewrite Ho, lookup_insert_ne; [apply (i_next _ _ Hi); lia|].
    intros ->. rewrite (i_next _ _ Hi) in Hoa by lia. done.
  - exists a, fd. rewrite Hc, Ho. by rewrite lookup_insert_eq.
Qed.

(** An attempt ends: [f] is what is done with the socket. *)
Lemma ended cs s :
  inv cs s -> state_ s = kConnecting ->
  exists w cs' a fd, removeAndResetChannel s = Ok (fd, detached w s) /\
    removeAndResetChannel (set_state kDisconnected s) = Ok (fd, detached w (set_state kDisconnected s)) /\
    channel_ s = Some a /\ holding s = [fd] /\
    (forall s', world_ s' = w -> next_address s' = next_address s -> pending s' = pending s ++ [F_reset] ->
       remote s' = remote s -> channel_ s' = channel_ s -> state_ s' <> kConnecting -> ends cs' s s').
Proof.
  intros Hi Hst. destruct (inv_connecting _ _ Hi Hst) as (a & fd & Ha & Ho & Hr & _ & _ & _ & _ & Hh).
  destruct (remove_channel_run s a fd cs 4 Ha (i_shows _ _ Hi) Ho Hr) as (w & cs' & Hrun & Hs & Ho' & Hr').
  exists w, cs', a, fd. split_and!; [done| |done|done|].
  - revert Hrun. unfold removeAndResetChannel, the_channel, in_world, mbind, st_bind, get. simpl. rewrite Ha. simpl.
    destruct (disableAll a (world_ s)) as [[[] w1]|]; simpl; [|done]. destruct (channel_remove a w1) as [[[] w2]|]; simpl; [|done].
    destruct (channel a w2) as [[c w3]|]; simpl; [|done]. intros [= <- <-]. done.
  - intros s' ? ? ? ? ? ?. by eapply detached_ends.
Qed.

Lemma attempt_stopped s : Inv s -> exists s', stopInLoop s = Ok (tt, s') /\ Inv s'.
Proof.
  intros [cs Hi]. unfold stopInLoop, get, mbind, st_bind, when_.
  destruct (bool_decide_reflect (state_ s = kConnecting)) as [Hst|Hst]; [|exists s; split; [done|by exists cs]].
  destruct (ended cs s Hi Hst) as (w & cs' & a & fd & _ & Hrun & Ha & Hh & He). simpl. rewrite Hrun, retry_run.
  eexists. split; [done|]. exists cs'. eapply retried_ends; [exact Hi|done|apply He|..]; try done.
  all: unfold retried; destruct (connect_ _); done.
Qed.

Lemma attempt_failed err s :
  Inv s -> state_ s <> kConnected -> exists s', handleError err s = Ok (tt, s') /\ Inv s' /\ state_ s' = kDisconnected.
Proof.
  intros [cs Hi] Hne. unfold handleError, get, mbind, st_bind, when_.
  destruct (bool_decide_reflect (state_ s = kConnecting)) as [Hst|Hst].
  - destruct (ended cs s Hi Hst) as (w & cs' & a & fd & Hrun & _ & Ha & Hh & He). rewrite Hrun, retry_run.
    eexists. split; [done|]. split; [|unfold retried; destruct (connect_ _); done].
    exists cs'. eapply retried_ends; [exact Hi|done|apply He|..]; try done.
    all: unfold retried; destruct (connect_ _); done.
  - exists s. split; [done|]. split; [by exists cs|]. by destruct (state_ s).
Qed.

Lemma attempt_written err self s :
  Inv s -> state_ s <> kConnected ->
  exists s', handleWrite err self s = Ok (tt, s') /\ Inv s' /\
    (state_ s = kConnecting -> err = 0 -> self = false -> connect_ s = true ->
     state_ s' = kConnected /\ given s' = given s ++ holding s /\ delays s' = delays s).
Proof.
  intros [cs Hi] Hne. unfold handleWrite, get, mbind at 1, st_bind at 1.
  destruct (bool_decide_reflect (state_ s = kConnecting)) as [Hst|Hst].
  2: { exists s. split_and!; [by destruct (state_ s)|by exists cs|done]. }
  destruct (ended cs s Hi Hst) as (w & cs' & a & fd & Hrun & _ & Ha & Hh & He).
  unfold mbind, st_bind. rewrite Hrun.
  assert (exists s', retry fd (detached w s) = Ok (tt, s') /\ Inv s') as Hretry.
  { rewrite retry_run. eexists. split; [done|]. exists cs'. eapply retried_ends; [exact Hi|done|apply He|..]; try done.
    all: unfold retried; destruct (connect_ _); done. }
  assert (forall s', retry fd (detached w s) = Ok (tt, s') /\ Inv s' -> (err <> 0 \/ self = true) ->
    exists s', retry fd (detached w s) = Ok (tt, s') /\ Inv s' /\ (kConnecting = kConnecting -> err = 0 -> self = false ->
      connect_ s = true -> state_ s' = kConnected /\ given s' = given s ++ holding s /\ delays s' = delays s)) as Hwrap.
  { intros s' [? ?] Hor. exists s'. split_and!; [done|done|]. intros _ -> ->. by destruct Hor. }
  destruct Hretry as [sr Hretry]. rewrite Hst.
  destruct (bool_decide_reflect (err <> 0)) as [He0|He0]; [by eapply Hwrap; [|left]|]. destruct self; [by eapply Hwrap; [|right]|].
  pose proof (i_fds _ _ Hi) as Hf. rewrite Hh in Hf. destruct (inv_connecting _ _ Hi Hst) as (_ & _ & _ & _ & _ & _ & _ & Ht & _).
  simpl. destruct (connect_ s); eexists; (split; [reflexivity|]); (split; [|by rewrite Hh]); exists cs';
    (eapply inv_ended; [exact Hi|done|apply He; done|by left|..|apply Hi|apply Hi]); simpl; rewrite Hf; solve_Permutation.
Qed.

(** Changes that keep the invariant: the parts it reads, one by one. *)
Lemma inv_resting cs s s' :
  inv cs s -> world_ s' = world_ s -> next_address s' = next_address s -> channel_ s = None -> channel_ s' = None ->
  state_ s <> kConnecting -> state_ s' = kDisconnected -> (driver s' <= 1)%nat -> count F_reset s' = 0%nat ->
  opened s' ≡ₚ closed s' ++ given s' ->
  retryDelayMs_ s' = backoff (length (delays s')) -> delays s' = map backoff (seq 0 (length (delays s'))) ->
  (forall ms, ms ∈ timers s' -> exists n, ms = backoff n) -> inv cs s'.
Proof.
  intros Hi Hw Hn Hc Hc' Hst Hst' Hd Hr Hf Hdl Hdls Ht. split; try done.
  - rewrite Hw. apply Hi.
  - rewrite Hn. apply Hi.
  - by rewrite Hst', Hc'.
  - by rewrite Hst'.
  - unfold holding. rewrite Hst', app_nil_r. done.
Qed.

Lemma resting_fds cs s : inv cs s -> state_ s <> kConnecting -> opened s ≡ₚ closed s ++ given s.
Proof.
  intros Hi Hst. pose proof (i_fds _ _ Hi) as Hf. unfold holding in Hf. destruct (state_ s); by rewrite ?app_nil_r in Hf.
Qed.

Lemma resting_count cs s : inv cs s -> channel_ s = None -> count F_reset s = 0%nat.
Proof. intros Hi Hc. pose proof (i_chan _ _ Hi) as Hch. rewrite Hc in Hch. by destruct (state_ s). Qed.

Lemma connecting_spec cs s fd :
  inv cs s -> driver s = 0%nat -> channel_ s = None -> state_ s = kDisconnected ->
  0 <= fd -> Client.reg cs !! fd = None -> Z.of_nat (size (Client.reg cs)) < 2 ^ 31 - 1 ->
  exists s', connecting fd (set_opened (opened s ++ [fd]) s) = Ok (tt, s') /\ Inv s' /\
    (state_ s' = kConnecting /\ connect_ s' = connect_ s /\ holding s' = [fd] /\ given s' = given s /\ delays s' = delays s).
Proof.
  intros Hi Hd Hc Hst Hfd Hr Hsz. set (a := next_address s).
  destruct (channel_opens cs (world_ s) a fd (i_shows _ _ Hi) (i_next _ _ Hi a ltac:(lia)) Hr Hfd Hsz)
    as (w & cs' & Hrun & Hs & Ho & Hr' & Hcb).
  unfold connecting, setState, modify, get, mbind, st_bind. simpl. unfold new_channel, get, mbind, st_bind, in_world, modify. simpl. rewrite Hc. simpl. fold a. rewrite Hrun.
  destruct (Client.shows_chan _ _ a fd 4 Hs) as (c & Hcc & Hcf & _); [by rewrite Ho, lookup_insert_eq|].
  eexists. split; [done|]. split; [|split_and!; try done; unfold holding; simpl; by rewrite Hcc, Hcf].
  exists cs'. pose proof (resting_count _ _ Hi Hc) as Hrc. rewrite driver_parts, Hst in Hd. destruct Hi. split; simpl; try done.
  - intros b Hb. rewrite Ho, lookup_insert_ne by (unfold a in *; lia). apply i_next0. lia.
  - rewrite driver_parts. unfold count, starting in *. simpl. lia.
  - exists fd. split_and!; [by rewrite Ho, lookup_insert_eq|by rewrite Hr', lookup_insert_eq|done|done].
  - unfold holding in *. simpl. rewrite Hcc, Hcf. rewrite Hst in i_fds0. rewrite i_fds0. solve_Permutation.
Qed.

Lemma startInLoop_spec s k :
  Inv s -> driver s = 0%nat -> channel_ s = None -> state_ s = kDisconnected -> new_socket s k = true ->
  exists s', startInLoop k s = Ok (tt, s') /\ Inv s'.
Proof.
  intros [cs Hi] Hd Hc Hst Hk. destruct k as [fd e]. unfold new_socket in Hk. simpl in Hk.
  rewrite (Client.sh_reg _ _ (i_shows _ _ Hi)), !andb_true_iff, !bool_decide_eq_true in Hk. destruct Hk as [[Hfd Hr] Hsz].
  pose proof (resting_fds _ _ Hi ltac:(by rewrite Hst)) as Hf. pose proof (resting_count _ _ Hi Hc) as Hrc.
  unfold startInLoop, get, mbind, st_bind. rewrite Hst. simpl. destruct (connect_ s) eqn:Hcn; [|exists s; split; [done|by exists cs]].
  unfold modify. cbn [mbind st_bind]. unfold mbind, st_bind. destruct (bool_decide _).
  { destruct (connecting_spec cs s fd Hi Hd Hc Hst Hfd Hr Hsz) as (s' & ? & ? & _). by exists s'. }
  rewrite driver_parts, Hst in Hd. simpl in Hd. destruct (bool_decide _).
  - rewrite retry_run. eexists. split; [done|]. exists cs. pose proof (i_delay _ _ Hi) as Hdl. pose proof (i_delays _ _ Hi) as Hdls.
    unfold retried. simpl. rewrite Hcn. eapply inv_resting; [exact Hi|..]; simpl; try done.
    + by rewrite Hst.
    + rewrite driver_parts. unfold count, starting in *. simpl. rewrite length_app. simpl. lia.
    + rewrite Hf. solve_Permutation.
    + rewrite Hdl, backoff_S, length_app. simpl. f_equal. lia.
    + rewrite length_app, seq_app, map_app. simpl. by rewrite <- Hdls, Hdl.
    + intros ms [Hms| ->%list_elem_of_singleton]%elem_of_app; [by apply (i_timers _ _ Hi)|]. by exists (length (delays s)).
  - eexists. split; [done|]. exists cs. eapply inv_resting; [exact Hi|..]; simpl; try done; try apply Hi.
    + by rewrite Hst.
    + rewrite Hf. solve_Permutation.
Qed.

(** Only [connect_], the queues and the timers change. *)
Lemma inv_queues cs s s' :
  inv cs s -> world_ s' = world_ s -> next_address s' = next_address s -> channel_ s' = channel_ s -> state_ s' = state_ s ->
  retryDelayMs_ s' = retryDelayMs_ s -> delays s' = delays s -> opened s' = opened s -> closed s' = closed s ->
  given s' = given s -> count F_reset s' = count F_reset s ->
  channel_ s = None \/ (count F_start s' + starting s' <= count F_start s + starting s)%nat ->
  (driver s' <= 1)%nat -> (state_ s = kConnected -> driver s' = 0%nat) -> timers s' ⊆ timers s -> inv cs s'.
Proof.
  intros Hi Hw Hn Hc Hst Hr Hds Ho Hcl Hg Hrc Hle Hd Hcn Ht. pose proof Hi as []. split; try done.
  - by rewrite Hw.
  - by rewrite Hn.
  - rewrite Hst, Hc, Hrc, Hw. destruct (state_ s) eqn:Es, (channel_ s) eqn:Ec; try done.
    all: destruct Hle as [?|Hle]; [done|]; destruct i_chan0 as ((fd & Hfd) & ? & H2 & H3%starting_none);
      split_and!; [by exists fd|done|lia|apply starting_none; lia].
  - by rewrite Hst.
  - unfold holding in *. by rewrite Ho, Hcl, Hg, Hst, Hc, Hw.
  - by rewrite Hr, Hds.
  - by rewrite Hds.
  - intros ms Hms. apply i_timers0. set_solver.
Qed.

Lemma idle_spec s : idle s = true <-> driver s = 0%nat /\ channel_ s = None.
Proof. unfold idle. by rewrite andb_true_iff, !bool_decide_eq_true. Qed.

(** Nothing starts while an attempt is under way, or its channel still exists. *)
Lemma starts_alone cs s :
  inv cs s -> (0 < count F_start s + length (timers s) + starting s)%nat ->
  state_ s = kDisconnected /\ driver s = 1%nat /\ (channel_ s = None \/ (count F_start s + starting s = 0)%nat).
Proof.
  intros Hi Hpos. destruct Hi. rewrite driver_parts in *. destruct (state_ s) eqn:Es; try (simpl in *; lia).
  - split_and!; [done|simpl in *; lia|]. destruct (channel_ s); [|by left]. right.
    destruct i_chan0 as (_ & _ & ? & ?%starting_none). lia.
  - specialize (i_connected0 eq_refl). simpl in *. lia.
Qed.

Lemma count_cons f g (l : list functor) :
  length (filter (fun h => h = f) (g :: l)) = ((if decide (g = f) then 1 else 0) + length (filter (fun h => h = f) l))%nat.
Proof. rewrite filter_cons. by destruct (decide (g = f)). Qed.

Lemma starting_delete (l : list bool) i (b : bool) :
  l !! i = Some b ->
  length (filter (fun c : bool => c = true) l) =
    ((if b then 1 else 0) + length (filter (fun c : bool => c = true) (delete i l)))%nat.
Proof.
  intros Hi. rewrite (delete_Permutation l i b) at 1 by done. rewrite filter_cons. by destruct b.
Qed.

Lemma functor_inv s k :
  Inv s -> pending s <> [] -> new_socket s k = true -> exists s', handle (RunFunctor k) s = Ok (tt, s') /\ Inv s'.
Proof.
  intros [cs Hi] Hne Hk. unfold handle, get, mbind, st_bind. destruct (pending s) as [|f fs] eqn:Hp; [done|]. clear Hne.
  simpl. set (s1 := set_pending fs s).
  assert (forall g, count g s = ((if decide (f = g) then 1 else 0) + count g s1)%nat) as Hcount.
  { intros g. unfold count, s1. rewrite Hp. simpl. apply count_cons. }
  pose proof (Hcount F_start) as Hs. pose proof (Hcount F_reset) as Hr. destruct f; simpl in Hs, Hr.
  - destruct (starts_alone _ _ Hi ltac:(lia)) as (Hst & Hd & Hc). destruct Hc as [Hc|?]; [|lia].
    assert (driver s1 = 0%nat) as Hd1.
    { rewrite driver_parts in *. unfold starting, s1 in *. simpl in *. lia. }
    apply startInLoop_spec; try done. exists cs. eapply inv_queues; [exact Hi|..]; try done; unfold starting, s1 in *; simpl; try lia.
  - apply attempt_stopped. exists cs. pose proof (i_driver _ _ Hi) as Hd. pose proof (i_connected _ _ Hi) as Hcn. rewrite driver_parts in *.
    eapply inv_queues; [exact Hi|..]; try done; rewrite ?driver_parts; unfold starting, s1 in *; simpl in *; try lia.
    intros Hk1%Hcn. lia.
  - eexists. split; [reflexivity|]. exists cs. pose proof (i_chan _ _ Hi) as Hc. destruct Hi.
    assert (state_ s <> kConnecting) as Hnc.
    { intros Hst. rewrite Hst in Hc. destruct (channel_ s); [|done]. destruct Hc as (? & ? & ? & ? & ?). lia. }
    assert (count F_reset s1 = 0%nat) as Hr0.
    { destruct (state_ s), (channel_ s); try done; try (destruct Hc as (? & ? & ?)); lia. }
    assert (driver s1 = driver s) as Hd by (rewrite !driver_parts; unfold starting, s1 in *; simpl in *; lia).
    split; try done; simpl.
    + unfold driver in *. simpl in *. lia.
    + by destruct (state_ s).
    + intros Hk'. rewrite <- (i_connected0 Hk'), <- Hd. done.
    + unfold holding in *. simpl. by destruct (state_ s).
Qed.

Lemma timer_inv s i k :
  Inv s -> contract s (TimerFires i k) = true -> exists s', handle (TimerFires i k) s = Ok (tt, s') /\ Inv s'.
Proof.
  intros [cs Hi] Hc. simpl in Hc. rewrite !andb_true_iff, !bool_decide_eq_true in Hc. destruct Hc as [[[ms Hms] Hch] Hk].
  pose proof (length_delete (timers s) i ltac:(by exists ms)) as Hl. pose proof (lookup_lt_Some _ _ _ Hms) as Hlt.
  destruct (starts_alone _ _ Hi ltac:(lia)) as (Hst & Hd & _). rewrite driver_parts in Hd.
  unfold handle, get, mbind, st_bind, modify. set (s1 := set_timers _ s).
  assert (driver s1 = 0%nat) as Hd1.
  { rewrite driver_parts. unfold count, starting, s1 in *. simpl in *. lia. }
  apply startInLoop_spec; try done. exists cs. eapply inv_queues; [exact Hi|..]; try done; try (by left); try lia.
  intros x Hx. by apply list_elem_of_delete_inv in Hx.
Qed.

Lemma handleEvent_parts c :
  exists l1 l2, Channel.handleEvent c = l1 ++ l2 /\ Channel.Write ∉ l1 /\ (l2 = [] \/ l2 = [Channel.Write]).
Proof.
  unfold Channel.handleEvent. assert (exists l1 l2, Channel.handleEventWithGuard c = l1 ++ l2 /\ Channel.Write ∉ l1 /\
    (l2 = [] \/ l2 = [Channel.Write])) as Hg.
  { unfold Channel.handleEventWithGuard. rewrite !app_assoc.
    eexists _, _. split; [reflexivity|]. split; [|by destruct (_ && Channel.writeCallback_ c); auto].
    rewrite !not_elem_of_app. split_and!; destruct (_ && _); try apply not_elem_of_nil; intros Hin; by apply list_elem_of_singleton in Hin. }
  assert (exists l1 l2, @nil Channel.callback = l1 ++ l2 /\ Channel.Write ∉ l1 /\ (l2 = [] \/ l2 = [Channel.Write])) as Hn.
  { exists [], []. split_and!; [done|apply not_elem_of_nil|by left]. }
  destruct (Channel.tied_ c); [destruct (Channel.tie_ c)|]; done.
Qed.

Lemma dispatch_inv err self l s :
  Channel.Write ∉ l -> Inv s -> state_ s <> kConnected ->
  exists s', for_each (dispatch err self) l s = Ok (tt, s') /\ Inv s' /\ state_ s' <> kConnected.
Proof.
  revert s; induction l as [|c l IH]; intros s Hw Hi Hst; [by exists s|].
  apply not_elem_of_cons in Hw as [Hc Hw]. simpl. destruct c; try done.
  - by apply IH.
  - by apply IH.
  - simpl. unfold mbind, st_bind. destruct (attempt_failed err s Hi Hst) as (s1 & -> & Hi1 & Hst1).
    apply IH; [done|done|]. by rewrite Hst1.
Qed.

Lemma ready_inv s revents err self :
  Inv s -> contract s (Ready revents err self) = true ->
  exists s', handle (Ready revents err self) s = Ok (tt, s') /\ Inv s' /\
    (revents = POLLOUT -> err = 0 -> self = false -> connect_ s = true ->
     state_ s' = kConnected /\ given s' = given s ++ holding s /\ delays s' = delays s).
Proof.
  intros [cs Hi] Hc. simpl in Hc. destruct (channel_ s) as [a|] eqn:Ha; [|done].
  destruct (chans (world_ s) !! a) as [c|] eqn:Hca; [|done]. apply negb_true_iff, bool_decide_eq_false in Hc. unfold Channel.kNoneEvent in Hc.
  assert (state_ s = kConnecting) as Hst.
  { pose proof (i_chan _ _ Hi) as Hch. rewrite Ha in Hch. destruct (state_ s); try done.
    all: destruct Hch as ([fd Ho] & _); destruct (Client.shows_chan _ _ _ _ _ (i_shows _ _ Hi) Ho) as (c' & Hc' & _ & He); congruence. }
  set (c1 := Channel.set_revents revents c). set (s1 := set_world (mk_world (<[a := c1]> (chans (world_ s))) (poller (world_ s))) s).
  assert (Inv s1) as Hi1.
  { exists cs. pose proof Hi as []. split; try done.
    - by eapply Client.client_simulates.
    - simpl. rewrite Hst, Ha in *. destruct i_chan0 as (fd & ? & ? & ? & c' & Hc' & Hcb). exists fd. split_and!; try done.
      exists c1. rewrite lookup_insert_eq. rewrite Hca in Hc'. injection Hc' as <-. done.
    - unfold holding in *. simpl. rewrite Hst, Ha in *. rewrite lookup_insert_eq. rewrite Hca in i_fds0. done. }
  unfold handle, the_channel, get, mbind, st_bind. rewrite Ha. simpl. unfold in_world.
  rewrite (update_chan_run a c) by done. fold c1. change (set_world _ s) with s1.
  unfold channel, gets, mbind, st_bind. simpl. rewrite lookup_insert_eq. simpl.
  replace (set_world _ s1) with s1 by (unfold s1; done).
  assert (holding s1 = holding s) as Hh.
  { unfold holding, s1. simpl. rewrite Hst, Ha, lookup_insert_eq, Hca. done. }
  destruct (decide (revents = POLLOUT /\ Channel.handleEvent c1 = [Channel.Write])) as [[Hr ->]|Hr].
  { simpl. unfold mbind, st_bind. destruct (attempt_written err self s1 Hi1) as (s3 & -> & Hi3 & Hok); [by rewrite (Hst : state_ s1 = _)|].
    exists s3. split_and!; [done|done|]. intros _ He Hs Hcn. by rewrite <- Hh; apply Hok. }
  destruct (handleEvent_parts c1) as (l1 & l2 & Hl & Hw & Hl2). rewrite Hl, for_each_app.
  destruct (dispatch_inv err self l1 s1 Hw Hi1) as (s2 & -> & Hi2 & Hs2); [by rewrite (Hst : state_ s1 = _)|].
  assert (revents = POLLOUT -> False) as Hno.
  { intros ->. apply Hr. split; [done|]. destruct (i_chan_write _ _ Hi Hst a Ha) as (c' & Hc' & Hwc & Htd).
    rewrite Hca in Hc'. injection Hc' as <-. unfold Channel.handleEvent, Channel.handleEventWithGuard. simpl.
    by rewrite Htd, Hwc. }
  destruct Hl2 as [-> | ->]; [exists s2; split_and!; [done|done|by intros ?%Hno]|]. simpl. unfold mbind, st_bind.
  destruct (attempt_written err self s2 Hi2 Hs2) as (s3 & -> & Hi3 & _). exists s3. split_and!; [done|done|by intros ?%Hno].
Qed.

(** The state from which [restart] makes its attempt. *)
Definition restart_state s : t := set_connect true (set_delays [] (set_delay kInitRetryDelayMs (set_state kDisconnected s))).

Lemma restart_inv cs s :
  inv cs s -> driver s = 0%nat -> channel_ s = None -> inv cs (restart_state s) /\ driver (restart_state s) = 0%nat /\
    connect_ (restart_state s) = true.
Proof.
  intros Hi Hd Hch. pose proof Hd as Hd1. rewrite driver_parts in Hd1.
  assert (state_ s <> kConnecting) as Hne by (intros Hst; rewrite Hst in Hd1; simpl in Hd1; lia).
  assert (driver (restart_state s) = 0%nat) as Hd2 by (rewrite driver_parts; unfold count, starting in *; simpl; lia).
  split_and!; [|exact Hd2|done]. unfold restart_state. eapply inv_resting; [exact Hi|..]; try done; simpl.
  - unfold restart_state in Hd2. lia.
  - apply (resting_count _ _ Hi Hch).
  - by eapply resting_fds.
  - apply Hi.
Qed.

Lemma call_inv s e :
  Inv s -> contract s e = true ->
  match e with Start _ | Restart _ | Stop | Enter _ | Queue _ => True | _ => False end ->
  exists s', handle e s = Ok (tt, s') /\ Inv s'.
Proof.
  intros [cs Hi] Hc He. pose proof (i_driver _ _ Hi) as Hd. pose proof (i_connected _ _ Hi) as Hcn.
  destruct e as [k| |k|b|i|k|i k|]; try done; simpl in Hc.
  - rewrite !andb_true_iff, bool_decide_eq_true in Hc. destruct Hc as [[[Hd0 Hch]%idle_spec Hst] Hk].
    apply (startInLoop_spec (set_connect true s)); try done. exists cs. by eapply inv_queues; [exact Hi|..]; try done; left.
  - eexists. split; [reflexivity|]. exists cs. eapply inv_queues; [exact Hi|..]; try done;
      rewrite ?driver_parts in *; unfold count, starting; simpl; rewrite ?count_snoc; simpl; unfold count, starting in *; try lia.
    intros Hk%Hcn. lia.
  - rewrite andb_true_iff in Hc. destruct Hc as [[Hd0 Hch]%idle_spec Hk].
    destruct (restart_inv cs s Hi Hd0 Hch) as (Hi1 & Hd1 & _). unfold handle, restart. unfold setState, modify, mbind, st_bind.
    apply (startInLoop_spec (restart_state s)); try done. by exists cs.
  - eexists. split; [reflexivity|]. exists cs. destruct b.
    + rewrite andb_true_iff, bool_decide_eq_true in Hc. destruct Hc as [[Hd0 Hch]%idle_spec Hst].
      rewrite driver_parts, Hst in Hd0. simpl in Hd0.
      eapply inv_queues; [exact Hi|..]; try done; [by left| |by rewrite Hst].
      rewrite driver_parts. unfold count, starting in *. simpl. rewrite list.filter_app, length_app, Hst. simpl. lia.
    + assert (starting (set_remote (remote s ++ [false]) (set_connect false s)) = starting s) as Hs.
      { unfold starting. simpl. by rewrite list.filter_app, app_nil_r. }
      rewrite driver_parts in *. eapply inv_queues; [exact Hi|..]; try done; rewrite ?driver_parts, ?Hs; try done. right. done.
  - apply bool_decide_eq_true in Hc as [b Hb]. unfold handle, get, mbind, st_bind. rewrite Hb. eexists. split; [reflexivity|].
    pose proof (starting_delete _ _ _ Hb) as Hs. exists cs.
    eapply inv_queues; [exact Hi|..]; try done; rewrite ?driver_parts in *; unfold count, starting in *; simpl;
      rewrite ?count_snoc; destruct b; simpl; try lia.
    all: intros Hk%Hcn; lia.
Qed.

(** A restart whose attempt is under way. *)
Lemma restart_attempts s fd :
  Inv s -> driver s = 0%nat -> channel_ s = None -> new_socket s (fd, EINPROGRESS) = true ->
  exists s', handle (Restart (fd, EINPROGRESS)) s = Ok (tt, s') /\ Inv s' /\ state_ s' = kConnecting /\ connect_ s' = true /\
    holding s' = [fd] /\ given s' = given s.
Proof.
  intros [cs Hi] Hd Hch Hk. unfold new_socket in Hk. simpl in Hk.
  rewrite (Client.sh_reg _ _ (i_shows _ _ Hi)), !andb_true_iff, !bool_decide_eq_true in Hk. destruct Hk as [[Hfd Hr] Hsz].
  destruct (restart_inv cs s Hi Hd Hch) as (Hi1 & Hd1 & Hcn).
  destruct (connecting_spec cs (restart_state s) fd Hi1 Hd1 Hch eq_refl Hfd Hr Hsz) as (s' & Hrun & Hi' & Hst & Hcn' & Hh & Hg & _).
  exists s'. split_and!; [exact Hrun|done..].
Qed.

Lemma connector_step s e : Inv s -> contract s e = true -> exists s', handle e s = Ok (tt, s') /\ Inv s'.
Proof.
  intros Hi Hc. destruct e as [k| |k|b|i|k|i k|r err self]; try by apply call_inv.
  - simpl in Hc. rewrite andb_true_iff, bool_decide_eq_true in Hc. destruct Hc. by apply functor_inv.
  - by apply timer_inv.
  - destruct (ready_inv s r err self Hi Hc) as (s' & ? & ? & _). by exists s'.
Qed.

Lemma connector_init cs w next :
  Client.shows cs w -> (forall a, next <= a -> Client.objs cs !! a = None) -> Inv (Connector w next).
Proof. intros Hs Hn. exists cs. split; try done; simpl; [rewrite driver_parts; unfold count, starting; simpl; lia|]. by intros ms ?%not_elem_of_nil. Qed.

Lemma connector_reachable_inv cs w next s :
  Client.shows cs w -> (forall a, next <= a -> Client.objs cs !! a = None) -> reachable (Connector w next) s -> Inv s.
Proof.
  intros Hs Hn. induction 1 as [|s e s' _ IH Hc Hrun]; [by eapply connector_init|].
  destruct (connector_step s e IH Hc) as (s2 & Hrun2 & ?). rewrite Hrun in Hrun2. by injection Hrun2 as <-.
Qed.

(** C20: In any loop, whatever the kernel answers and however calls, functors, timers, ready
    events and other threads interleave within the contract: no assertion of the connector
    fails; there is at most one attempt or start to come; a channel is registered for its
    socket exactly while it connects; every socket is closed, handed over or owned by the
    attempt, exactly once; the delays since the last restart double from half a second and
    stop at thirty. *)
Theorem connector_safe cs (w : world P) next s :
  Client.shows cs w -> (forall a, next <= a -> Client.objs cs !! a = None) -> reachable (Connector w next) s ->
  (forall e, contract s e = true -> exists s', handle e s = Ok (tt, s')) /\
  (driver s <= 1)%nat /\
  (state_ s = kConnecting <-> exists a fd, channel_ s = Some a /\ holding s = [fd] /\
     channels_ (poller (world_ s)) !! fd = Some a) /\
  opened s ≡ₚ closed s ++ given s ++ holding s /\
  delays s = map backoff (seq 0 (length (delays s))) /\
  (forall ms, ms ∈ retryDelayMs_ s :: timers s -> kInitRetryDelayMs <= ms <= kMaxRetryDelayMs).
Proof.
  intros Hs Hn Hr. destruct (connector_reachable_inv cs w next s Hs Hn Hr) as [cs' Hi]. split_and!; try apply Hi.
  - intros e Hc. destruct (connector_step s e) as (s' & ? & _); [by exists cs'|done|by exists s'].
  - split.
    + intros Hst. destruct (inv_connecting _ _ Hi Hst) as (a & fd & Ha & _ & Hreg & _ & _ & _ & _ & Hh).
      exists a, fd. rewrite (Client.sh_reg _ _ (i_shows _ _ Hi)). done.
    + intros (a & fd & Ha & Hh & _). unfold holding in Hh. by destruct (state_ s).
  - intros ms [->|Hms]%elem_of_cons; [rewrite (i_delay _ _ Hi); apply backoff_range|].
    destruct (i_timers _ _ Hi _ Hms) as [n ->]. apply backoff_range.
Qed.

(** ** A server that answers in the end *)

Fixpoint run (l : list event) s : res t :=
  match l with
  | [] => Ok s
  | e :: l' => match handle e s with Ok (_, s') => run l' s' | Fail f => Fail f end
  end.

(** Attempts that are refused, each followed by the timer, and a last one under way. *)
Fixpoint attempts (first : Z * Z -> event) (refused : list Z) (last : Z) : list event :=
  match refused with
  | [] => [first (last, EINPROGRESS)]
  | fd :: refused => first (fd, ECONNREFUSED) :: attempts (TimerFires 0) refused last
  end.

(** The state in which an attempt starts, after [k] refusals. *)
Definition attempt_starts (w : world P) (k : nat) s : Prop :=
  Inv s /\ driver s = 0%nat /\ channel_ s = None /\ state_ s = kDisconnected /\ connect_ s = true /\ world_ s = w /\
  length (delays s) = k /\ given s = [] /\ timers s = [].

Definition free (w : world P) (fd : Z) : Prop := 0 <= fd /\ channels_ (poller w) !! fd = None.

Lemma started s k : state_ s = kDisconnected -> connect_ s = true -> startInLoop k s = connect k s.
Proof. intros Hst Hcn. unfold startInLoop, get, mbind, st_bind. by rewrite Hst, Hcn. Qed.

Lemma refused_again w k s fd :
  attempt_starts w k s -> free w fd -> Z.of_nat (size (channels_ (poller w))) < 2 ^ 31 - 1 ->
  exists s', startInLoop (fd, ECONNREFUSED) s = Ok (tt, s') /\
    forall key, handle (TimerFires 0 key) s' = startInLoop key (set_timers [] s') /\ attempt_starts w (S k) (set_timers [] s').
Proof.
  intros (Hi & Hd & Hc & Hst & Hcn & Hw & Hk & Hg & Ht) [Hfd Hr] Hsz.
  destruct (startInLoop_spec s (fd, ECONNREFUSED) Hi Hd Hc Hst) as (s' & Hrun & [cs Hi']).
  { unfold new_socket. simpl. rewrite Hw, !andb_true_iff, !bool_decide_eq_true. done. }
  exists s'. split; [done|]. intros key.
  assert (s' = retried fd (set_opened (opened s ++ [fd]) s)) as ->.
  { rewrite (started s (fd, ECONNREFUSED) Hst Hcn) in Hrun. change (connect _ _) with (retry fd (set_opened (opened s ++ [fd]) s)) in Hrun.
    rewrite retry_run in Hrun. by injection Hrun as <-. }
  unfold retried in *. simpl in *. rewrite Hcn in *. simpl in *. rewrite Ht in *. split; [done|].
  pose proof (i_driver _ _ Hi') as Hd'. rewrite driver_parts in Hd'. unfold count, starting in Hd'. simpl in Hd'.
  assert (forall s2 : t, s2 = set_timers [] (set_delay ((retryDelayMs_ s * 2) `min` kMaxRetryDelayMs)
    (set_delays (delays s ++ [retryDelayMs_ s]) (set_timers [retryDelayMs_ s] (set_state kDisconnected
      (set_closed (closed s ++ [fd]) (set_opened (opened s ++ [fd]) s)))))) -> driver s2 = 0%nat) as Hd2.
  { intros s2 ->. rewrite driver_parts. unfold count, starting. simpl. lia. }
  split_and!; simpl; try done; [|by apply Hd2|].
  - exists cs. eapply inv_queues; [exact Hi'|..]; try done; first [by left | rewrite Hd2 by done; lia | by intros ? ?%not_elem_of_nil].
  - rewrite length_app, Hk. simpl. lia.
Qed.

Lemma attempts_spec w refused last first s0 k s :
  (forall key, handle (first key) s0 = startInLoop key s) -> attempt_starts w k s ->
  (forall fd, fd ∈ last :: refused -> free w fd) -> Z.of_nat (size (channels_ (poller w))) < 2 ^ 31 - 1 ->
  exists s', run (attempts first refused last) s0 = Ok s' /\ Inv s' /\ state_ s' = kConnecting /\ connect_ s' = true /\
    holding s' = [last] /\ given s' = [] /\ length (delays s') = (k + length refused)%nat.
Proof.
  revert first s0 k s; induction refused as [|fd refused IH]; intros first s0 k s Hf Hs Hfree Hsz; simpl; rewrite Hf.
  - destruct Hs as ([cs Hi] & Hd & Hc & Hst & Hcn & Hw & Hk & Hg & Ht). destruct (Hfree last) as [Hl Hr]; [left|].
    rewrite <- Hw, (Client.sh_reg _ _ (i_shows _ _ Hi)) in Hr, Hsz.
    destruct (connecting_spec cs s last Hi Hd Hc Hst Hl Hr Hsz) as (s' & Hrun & Hi' & H1 & H2 & H3 & H4 & H5).
    rewrite (started s (last, EINPROGRESS) Hst Hcn).
    change (connect _ _) with (connecting last (set_opened (opened s ++ [last]) s)). rewrite Hrun.
    exists s'. rewrite H2, H4, H5, Hg, Hk. split_and!; (done || lia).
  - destruct (refused_again w k s fd Hs) as (s1 & -> & Hs1); [apply Hfree; right; left|done|].
    destruct (IH (TimerFires 0) s1 (S k) (set_timers [] s1)) as (s' & ? & ? & ? & ? & ? & ? & ?).
    + intros key. apply Hs1.
    + apply (Hs1 (0, 0)).
    + intros x [->|Hx]%elem_of_cons; apply Hfree; [left|by right; right].
    + done.
    + exists s'. split_and!; try done. lia.
Qed.

(** When the server refuses a number of attempts and then accepts, [start] leads to the
    connection: the last socket and no other is handed over, after one delay for each
    refusal, doubling from half a second up to thirty. *)
Theorem connector_reaches_server cs (w : world P) next refused last :
  Client.shows cs w -> (forall a, next <= a -> Client.objs cs !! a = None) ->
  (forall fd, fd ∈ last :: refused -> free w fd) -> Z.of_nat (size (channels_ (poller w))) < 2 ^ 31 - 1 ->
  exists s, run (attempts Start refused last ++ [Ready POLLOUT 0 false]) (Connector w next) = Ok s /\
    state_ s = kConnected /\ given s = [last] /\ delays s = map backoff (seq 0 (length refused)).
Proof.
  intros Hs Hn Hfree Hsz. pose proof (connector_init cs w next Hs Hn) as [cs0 Hi0].
  destruct (attempts_spec w refused last Start (Connector w next) 0 (set_connect true (Connector w next)))
    as (s1 & Hrun & Hi1 & Hst & Hcn & Hh & Hg & Hd); try done.
  { split_and!; try done. exists cs0. by eapply inv_queues; [exact Hi0|..]; try done; try (left; done); unfold driver; simpl; lia. }
  pose proof Hi1 as [cs1 Hi]. destruct (inv_connecting _ _ Hi Hst) as (a & fd & Ha & Ho & _).
  destruct (Client.shows_chan _ _ _ _ _ (i_shows _ _ Hi) Ho) as (c & Hcc & _ & He).
  destruct (ready_inv s1 POLLOUT 0 false Hi1) as (s2 & Hready & [cs2 Hi2] & Hok).
  { unfold contract. rewrite Ha, Hcc. unfold Channel.isNoneEvent. by rewrite He. }
  destruct (Hok eq_refl eq_refl eq_refl Hcn) as (Hst2 & Hg2 & Hd2). exists s2.
  assert (forall l1 l2 (s : t (P := P)), run (l1 ++ l2) s = match run l1 s with Ok s' => run l2 s' | Fail f => Fail f end) as Happ.
  { intros l1 l2. induction l1 as [|e l1 IH]; intros s; simpl; [done|]. by destruct (handle e s) as [[[] s']|]; [apply IH|]. }
  rewrite Happ, Hrun. cbn [run]. rewrite Hready. split_and!; [done|done|by rewrite Hg2, Hg, Hh|].
  rewrite (i_delays _ _ Hi2), Hd2, Hd. done.
Qed.
End proofs.

(** ** Concrete runs *)

Definition empty_loop : world PollPoller.t := mk_world ∅ PollPoller.init.

Lemma empty_loop_shown : Client.shows Client.init empty_loop.
Proof. by apply Client.shows_init; [apply PollProofs.ppoll_inv_init|]. Qed.

Lemma connector_safe_witness :
  exists s', handle (Start (5, EINPROGRESS)) (Connector empty_loop 100) = Ok (tt, s').
Proof.
  destruct (connector_safe Client.init empty_loop 100 (Connector empty_loop 100)) as (Hok & _).
  - exact empty_loop_shown.
  - intros a _. reflexivity.
  - constructor.
  - apply Hok. vm_compute. reflexivity.
Defined.

Lemma connector_reaches_server_witness :
  exists s, run (attempts Start [5; 6; 7] 8 ++ [Ready POLLOUT 0 false]) (Connector empty_loop 100) = Ok s /\
    state_ s = kConnected /\ given s = [8] /\ delays s = [500; 1000; 2000].
Proof.
  destruct (connector_reaches_server Client.init empty_loop 100 [5; 6; 7] 8) as (s & H1 & H2 & H3 & H4).
  - exact empty_loop_shown.
  - intros a _. reflexivity.
  - intros fd Hfd. split; [|reflexivity]. rewrite !elem_of_cons, elem_of_nil in Hfd. lia.
  - vm_compute. reflexivity.
  - exists s. split; [exact H1|]. split; [exact H2|]. split; [exact H3|]. rewrite H4. vm_compute. reflexivity.
Defined.

(** The contract is needed.  A second [start], or a [start] after [stop] while the retry
    timer still runs, fails the assertion of [startInLoop]; [stop] and [start] of another
    thread in one round of functors fail the assertion of [connecting], since the channel is
    reset in the next round; an attempt that is closed for an unexpected errno is never
    made again. *)
Theorem connector_contract_is_needed :
  let s0 := Connector empty_loop 100 in
  run [Start (5, EINPROGRESS); Start (6, EINPROGRESS)] s0 = Fail AssertionFailed /\
  run [Start (5, ECONNREFUSED); Stop; RunFunctor (0, 0); Start (6, EINPROGRESS); TimerFires 0 (7, 0)] s0 = Fail AssertionFailed /\
  run [Start (5, EINPROGRESS); Enter false; Queue 0; Enter true; Queue 0; RunFunctor (0, 0); RunFunctor (6, EINPROGRESS)] s0
    = Fail AssertionFailed /\
  exists s, run [Start (5, 113)] s0 = Ok s /\ connect_ s = true /\ driver s = 0%nat /\ given s = [].
Proof.
  intros s0. split_and!; [vm_compute; reflexivity..|]. eexists. split; [vm_compute; reflexivity|]. split_and!; reflexivity.
Qed.
End Connector.
