(* ===== verification/TcpClient.v ===== *)
(** The TCP client ([muduo/net/TcpClient.h], [TcpClient.cc]).

    A client joins a [Connector] (the model of Connector.v, on any poller) with the
    connections it makes, of which it sees what their owner sees.  Both queue functors in one
    loop, whose rounds are modelled: the ready channels of a poll, then the functors that
    were queued before the round took them. *)
From S2P Require Import Prelude State Channel Poller Decimal Connector.
Open Scope Z_scope.

(** ** What a step of the connector does to its queue and its sockets *)

Module ConnectorSteps.
Import Connector.

Section frames.
Context {P : Type} `{PollerSpec P}.
Implicit Types s : t (P := P).

(** Any fault: the steps are known to succeed (Connector.v). *)
Abbreviation any := (fun _ : fault => True).

Record same s s' : Prop := {
  same_pending : pending s' = pending s;
  same_connect : connect_ s' = connect_ s;
  same_given : given s' = given s
}.

(** The attempt gives its socket. *)
Record gives s s' : Prop := {
  gives_connecting : state_ s = kConnecting;
  gives_wanted : connect_ s = true;
  gives_connected : state_ s' = kConnected;
  gives_pending : pending s' = pending s ++ [F_reset];
  gives_connect : connect_ s' = connect_ s;
  gives_channel : channel_ s' = channel_ s;
  gives_socket : exists fd, given s' = given s ++ [fd]
}.

(** It ends without giving it, or nothing happens. *)
Record ends_badly s s' : Prop := {
  bad_pending : exists new, pending s' = pending s ++ new;
  bad_connect : connect_ s' = connect_ s;
  bad_given : given s' = given s
}.

Lemma same_bad s s' : same s s' -> ends_badly s s'.
Proof. intros [Hp ? ?]. split; [exists []; by rewrite Hp, app_nil_r|done..]. Qed.

Lemma wp_world_only {A} (m : W P A) (Q : A -> t -> Prop) s : (forall a w, Q a (set_world w s)) -> wp any (in_world m) Q s.
Proof. intros HQ. unfold wp, in_world. destruct (m (world_ s)) as [[a w]|]; [apply HQ|done]. Qed.

Lemma retried_same fd s : same s (retried fd s) /\ state_ (retried fd s) = kDisconnected.
Proof. unfold retried. by destruct (connect_ _) eqn:E. Qed.

Lemma wp_retry fd s s0 (Q : unit -> t -> Prop) :
  same s0 s -> (forall s', same s0 s' -> state_ s' = kDisconnected -> Q tt s') -> wp any (retry fd) Q s.
Proof.
  intros [Hp Hc Hg] HQ. unfold wp. rewrite retry_run. destruct (retried_same fd s) as [[Hp' Hc' Hg'] Hst]. apply HQ; [|done].
  split; congruence.
Qed.

Lemma wp_sassert_any b (Q : unit -> t -> Prop) s : (b = true -> Q tt s) -> wp any (sassert b) Q s.
Proof. intros HQ. destruct b; [by apply HQ|done]. Qed.

Lemma connecting_same fd s0 s : same s0 s -> wp any (connecting fd) (fun _ => same s0) s.
Proof.
  intros Hs. unfold connecting, setState. wp_step. wp_step. wp_focus. apply wp_sassert_any. intros _.
  wp_focus. unfold new_channel. wp_step. wp_focus. apply wp_world_only. intros [] w. wp_step. wp_step. wp_step.
  apply wp_world_only. intros [] w'. destruct Hs. by split.
Qed.

Lemma connect_same k s : wp any (connect k) (fun _ => same s) s.
Proof.
  destruct k as [fd e]. unfold connect. wp_step. case_match; [by apply connecting_same|].
  case_match; [by eapply (wp_retry fd _ s); [split|]|by split].
Qed.

Lemma startInLoop_same k s : wp any (startInLoop k) (fun _ => same s) s.
Proof.
  unfold startInLoop. wp_step. wp_focus. apply wp_sassert_any. intros _. destruct (connect_ s) eqn:E; [apply connect_same|by split].
Qed.

(** The channel is let go and the functor that resets it is queued. *)
Lemma wp_remove_channel s (Q : Z -> t -> Prop) :
  (forall fd s', pending s' = pending s ++ [F_reset] -> connect_ s' = connect_ s -> given s' = given s -> state_ s' = state_ s ->
     channel_ s' = channel_ s -> Q fd s') -> wp any removeAndResetChannel Q s.
Proof.
  intros HQ. unfold removeAndResetChannel, the_channel. wp_step. wp_step. destruct (channel_ s) as [a|] eqn:Ha; [|done]. wp_step.
  wp_focus. apply wp_world_only. intros [] w1. wp_focus. apply wp_world_only. intros [] w2. wp_focus. apply wp_world_only. intros c w3.
  wp_step. wp_step. by apply HQ.
Qed.

Lemma stopInLoop_bad s : wp any stopInLoop (fun _ => ends_badly s) s.
Proof.
  unfold stopInLoop, setState. wp_step. wp_step; [|by apply wp_ret, same_bad]. wp_step. wp_focus. apply wp_remove_channel.
  intros fd s' Hp Hc Hg _ _. eapply wp_retry; [done|]. intros s2 [Hp2 Hc2 Hg2] _. simpl in *.
  split; [exists [F_reset]; congruence|congruence..].
Qed.

Lemma handleError_bad err s : wp any (handleError err) (fun _ s' => ends_badly s s' /\ (state_ s' = kConnecting -> s' = s)) s.
Proof.
  unfold handleError. wp_step. wp_step; [|apply wp_ret; split; [by apply same_bad|done]]. wp_focus. apply wp_remove_channel.
  intros fd s' Hp Hc Hg _ _. eapply wp_retry; [done|]. intros s2 [Hp2 Hc2 Hg2] Hst. split; [|congruence].
  split; [exists [F_reset]; congruence|congruence..].
Qed.

Lemma written_spec err self s : wp any (handleWrite err self) (fun _ s' => ends_badly s s' \/ gives s s') s.
Proof.
  unfold handleWrite. wp_step. destruct (bool_decide_reflect (state_ s = kConnecting)) as [Hst|Hst].
  2: { apply wp_sassert_any. intros _. left. by apply same_bad. }
  wp_focus. apply wp_remove_channel. intros fd s' Hp Hc Hg Hs Hch.
  assert (wp any (retry fd) (fun _ s'' => ends_badly s s'' \/ gives s s'') s') as Hretry.
  { eapply wp_retry; [done|]. intros s2 [Hp2 Hc2 Hg2] _. left. split; [exists [F_reset]; congruence|congruence..]. }
  case_match; [exact Hretry|]. destruct self; [exact Hretry|]. unfold setState. wp_step. wp_step. cbn [connect_ set_state].
  destruct (connect_ s') eqn:Ec.
  - wp_step. right. split; simpl; try congruence; try done. exists fd. by rewrite Hg.
  - unfold close. wp_step. left. split; simpl; [by exists [F_reset]|congruence|done].
Qed.

(** The callbacks before a write callback, and then all of them. *)
Lemma dispatch_bad err self l s :
  Channel.Write ∉ l -> wp any (for_each (dispatch err self) l) (fun _ s' => ends_badly s s' /\ (state_ s' = kConnecting -> s' = s)) s.
Proof.
  revert s; induction l as [|c l IH]; intros s Hl; [apply wp_ret; split; [by apply same_bad|done]|].
  apply not_elem_of_cons in Hl as [Hc Hl]. simpl. apply wp_bind. destruct c; try done; try (apply wp_ret; by apply IH).
  simpl. eapply wp_mono; [apply handleError_bad|]. intros [] s1 [[(n1 & Hp1) Hc1 Hg1] Hst1].
  eapply wp_mono; [by apply IH|]. intros [] s2 [[(n2 & Hp2) Hc2 Hg2] Hst2]. split.
  - split; [exists (n1 ++ n2); by rewrite Hp2, Hp1, app_assoc|congruence..].
  - intros Hk. specialize (Hst2 Hk) as ->. by apply Hst1.
Qed.

Lemma bad_trans s1 s2 s3 : ends_badly s1 s2 -> ends_badly s2 s3 -> ends_badly s1 s3.
Proof.
  intros [(n1 & Hp1) Hc1 Hg1] [(n2 & Hp2) Hc2 Hg2].
  split; [exists (n1 ++ n2); by rewrite Hp2, Hp1, app_assoc|congruence..].
Qed.

Lemma ready_steps r err self s : wp any (handle (Ready r err self)) (fun _ s' => ends_badly s s' \/ gives s s') s.
Proof.
  unfold handle, the_channel. wp_step. wp_step. destruct (channel_ s) as [a|] eqn:Ha; [|done]. wp_step.
  wp_focus. apply wp_world_only. intros [] w1. wp_focus. apply wp_world_only. intros c w2. set (s1 := set_world _ _).
  assert (forall s', ends_badly s1 s' \/ gives s1 s' -> ends_badly s s' \/ gives s s') as Hpre by (intros s' [[]|[]]; [left|right]; by split).
  destruct (handleEvent_parts c) as (l1 & l2 & -> & Hw & Hl2).
  assert (forall Q, wp any (for_each (dispatch err self) l1) (fun _ s' => wp any (for_each (dispatch err self) l2) Q s') s1 ->
    wp any (for_each (dispatch err self) (l1 ++ l2)) Q s1) as Happ.
  { intros Q. unfold wp. rewrite for_each_app. by destruct (for_each _ l1 s1) as [[[] s2]|]. }
  apply Happ. eapply wp_mono; [by apply dispatch_bad|]. intros [] s2 [Hb Hst2].
  destruct Hl2 as [->| ->]; [apply wp_ret, Hpre; by left|]. simpl. apply wp_bind. eapply wp_mono; [apply written_spec|].
  intros [] s3 Hs3. apply wp_ret, Hpre. destruct Hs3 as [Hb3|Hg3]; [left; by eapply bad_trans|]. right.
  by rewrite <- (Hst2 (gives_connecting _ _ Hg3)).
Qed.

(** What a step leaves of the queue, what it wants of the next attempt, what it gives. *)
Definition rest_of (e : event) s : list functor := match e with RunFunctor _ => tail (pending s) | _ => pending s end.
Definition wanted_after (e : event) s : bool :=
  match e with Start _ | Restart _ => true | Stop => false | Enter b => b | _ => connect_ s end.

Lemma step_shape s e s' :
  handle e s = Ok (tt, s') ->
  (exists new, pending s' = rest_of e s ++ new) /\ connect_ s' = wanted_after e s /\
  (given s' = given s \/ (exists r err self, e = Ready r err self) /\ gives s s').
Proof.
  intros Hrun. assert (forall s0, wp any (handle e) (fun _ s' => ends_badly s0 s') s -> pending s0 = rest_of e s -> connect_ s0 = wanted_after e s ->
    given s0 = given s -> (exists new, pending s' = rest_of e s ++ new) /\ connect_ s' = wanted_after e s /\
  (given s' = given s \/ (exists r err self, e = Ready r err self) /\ gives s s')) as Hbad.
  { intros s0 Hwp Hp Hcn Hg. pose proof (wp_ok _ _ _ _ _ _ Hwp Hrun) as [Hp' Hcn' Hg']. rewrite Hp in Hp'. rewrite Hcn in Hcn'. rewrite Hg in Hg'.
    split_and!; [done|done|by left]. }
  destruct e as [k| |k|b|i|k|i k|r err self].
  - apply (Hbad (set_connect true s)); try done. unfold handle, start. wp_step. eapply wp_mono; [apply startInLoop_same|]. intros [] s1. apply same_bad.
  - apply (Hbad (set_connect false s)); try done. unfold handle, stop, queueInLoop. wp_step. wp_step. split; [by exists [F_stop]|done..].
  - apply (Hbad (set_connect true s)); try done. unfold handle, restart, setState. wp_step. wp_step. wp_step. wp_step.
    eapply wp_mono; [apply startInLoop_same|]. intros [] s1 [? ? ?]. by apply same_bad.
  - apply (Hbad (set_connect b s)); try done. unfold handle. wp_step. by apply same_bad.
  - apply (Hbad s); try done. unfold handle. wp_step. destruct (remote s !! i) as [b|]; [|by apply wp_ret, same_bad]. unfold queueInLoop. wp_step. wp_step.
    split; [by eexists|done..].
  - apply (Hbad (set_pending (tail (pending s)) s)); try done. unfold handle. wp_step. destruct (pending s) as [|f fs] eqn:Hp.
    { apply wp_ret, same_bad. by split. }
    wp_step. destruct f; simpl.
    + eapply wp_mono; [apply startInLoop_same|]. intros [] s1. apply same_bad.
    + apply stopInLoop_bad.
    + unfold resetChannel. wp_step. apply same_bad. by split.
  - apply (Hbad s); try done. unfold handle. wp_step. wp_step. eapply wp_mono; [apply startInLoop_same|]. intros [] s1 [? ? ?]. by apply same_bad.
  - pose proof (wp_ok _ _ _ _ _ _ (ready_steps r err self s) Hrun) as [[? ? ?]|Hg]; [split_and!; [done|done|by left]|].
    pose proof Hg as []. split_and!; [by exists [F_reset]|done|right]. split; [by eexists _, _, _|done].
Qed.

Lemma restart_same k s s' : handle (Restart k) s = Ok (tt, s') -> pending s' = pending s.
Proof.
  intros Hrun. eapply (wp_ok _ _ (fun _ s' => pending s' = pending s)); [|exact Hrun].
  unfold handle, restart, setState. wp_step. wp_step. wp_step. wp_step. eapply wp_mono; [apply startInLoop_same|]. by intros [] s1 [].
Qed.

(** While a connection exists, only [restart] makes another attempt. *)
Lemma connected_stays s e s' :
  Inv s -> state_ s = kConnected -> contract s e = true -> (forall k, e <> Restart k) -> handle e s = Ok (tt, s') ->
  state_ s' = kConnected /\ given s' = given s /\ (exists new, pending s' = rest_of e s ++ new /\ F_reset ∉ new) /\
  channel_ s' = match e, pending s with RunFunctor _, F_reset :: _ => None | _, _ => channel_ s end.
Proof.
  intros [cs Hi] Hst Hc Hne. pose proof (i_connected _ _ Hi Hst) as Hd. rewrite driver_parts in Hd.
  assert (forall (x : functor) l, exists new, l = l ++ new /\ x ∉ new) as Hnil.
  { intros x l. exists []. split; [by rewrite app_nil_r|apply not_elem_of_nil]. }
  destruct e as [k| |k|b|i|k|i k|r err self]; simpl in Hc.
  - rewrite !andb_true_iff, bool_decide_eq_true, Hst in Hc. by destruct Hc as [[_ ?] _].
  - intros [= <-]. split_and!; try done; exists [F_stop]; (split; [done|]); by intros ?%list_elem_of_singleton.
  - by destruct (Hne k).
  - destruct b; [rewrite andb_true_iff, bool_decide_eq_true, Hst in Hc; by destruct Hc|]. intros [= <-]. split_and!; first [done|apply Hnil].
  - apply bool_decide_eq_true in Hc as [b Hb]. unfold handle, get, mbind, st_bind. rewrite Hb. destruct b.
    { pose proof (starting_delete _ _ _ Hb) as Hs. simpl in Hs. unfold starting in Hd. lia. }
    intros [= <-]. split_and!; try done; exists [F_stop]; (split; [done|]); by intros ?%list_elem_of_singleton.
  - unfold handle, get, mbind, st_bind. destruct (pending s) as [|f fs] eqn:Hp.
    { intros [= <-]. simpl. rewrite Hp. split_and!; first [done|apply Hnil]. }
    destruct f; simpl.
    + unfold count in Hd. rewrite Hp, count_cons in Hd. simpl in Hd. lia.
    + unfold stopInLoop, get, mbind, st_bind, when_. simpl. rewrite Hst. simpl. intros [= <-]. simpl. rewrite Hp. split_and!; first [done|apply Hnil].
    + intros [= <-]. simpl. rewrite Hp. split_and!; first [done|apply Hnil].
  - rewrite !andb_true_iff, !bool_decide_eq_true in Hc. destruct Hc as [[[ms Hms] _] _]. apply lookup_lt_Some in Hms. lia.
  - destruct (channel_ s) as [a|] eqn:Ha; [|done]. destruct (chans (world_ s) !! a) as [c|] eqn:Hca; [|done].
    pose proof (i_chan _ _ Hi) as Hch. rewrite Hst, Ha in Hch. destruct Hch as ([fd Ho] & _).
    destruct (Client.shows_chan _ _ _ _ _ (i_shows _ _ Hi) Ho) as (c' & Hc' & _ & He). rewrite Hca in Hc'. injection Hc' as <-.
    unfold Channel.isNoneEvent in Hc. by rewrite He in Hc.
Qed.

End frames.
End ConnectorSteps.

(** ** The client *)

Module TcpClient.

Inductive life := Connecting | Up | Down | Destroyed.

#[global] Instance life_eq_dec : EqDecision life.
Proof. solve_decision. Defined.

(** The close callback of a connection: [TcpClient::removeConnection] of its client, or
    [detail::removeConnection] when the client is gone. *)
Inductive closer := ByClient | ByLoop.

(** A connection as its owner sees it. *)
Record conn := mk_conn { conn_name : bytes; conn_fd : Z; conn_life : life; closeCallback : closer }.

Inductive functor :=
  | F_connector (f : Connector.functor)
  | F_connectDestroyed (c : nat)
  | F_forceClose (c : nat).

#[global] Instance client_functor_eq_dec : EqDecision functor.
Proof. solve_decision. Defined.

(** Where the loop is: the channels that a poll returned, or the functors that its round
    has still to run. *)
Inductive phase := Channels | Functors (left : nat).

#[global] Instance phase_eq_dec : EqDecision phase.
Proof. solve_decision. Defined.

Section client.
Context {P : Type} `{Poller P}.
(** The server's address as [toIpPort] prints it, and [name_]. *)
Context (ipPort_ name_ : bytes).

(** [conns] has every connection that was made; the first [polled] of them were registered at
    the last poll.  [alive]: the client is not destroyed.  [holds]: the timer of one second
    that the destructor sets holds the connector; [connector_alive]: the connector is not
    destroyed. *)
Record t := mk {
  connector_ : Connector.t (P := P);
  retry_ : bool;
  connect_ : bool;
  nextConnId_ : Z;
  connection_ : option nat;
  conns : list conn;
  pendingFunctors : list functor;
  round : phase;
  polled : nat;
  alive : bool;
  holds : bool;
  connector_alive : bool
}.

Definition set_connector x s := mk x (retry_ s) (connect_ s) (nextConnId_ s) (connection_ s) (conns s) (pendingFunctors s) (round s) (polled s) (alive s) (holds s) (connector_alive s).
Definition set_retry x s := mk (connector_ s) x (connect_ s) (nextConnId_ s) (connection_ s) (conns s) (pendingFunctors s) (round s) (polled s) (alive s) (holds s) (connector_alive s).
Definition set_connect x s := mk (connector_ s) (retry_ s) x (nextConnId_ s) (connection_ s) (conns s) (pendingFunctors s) (round s) (polled s) (alive s) (holds s) (connector_alive s).
Definition set_id x s := mk (connector_ s) (retry_ s) (connect_ s) x (connection_ s) (conns s) (pendingFunctors s) (round s) (polled s) (alive s) (holds s) (connector_alive s).
Definition set_connection x s := mk (connector_ s) (retry_ s) (connect_ s) (nextConnId_ s) x (conns s) (pendingFunctors s) (round s) (polled s) (alive s) (holds s) (connector_alive s).
Definition set_conns x s := mk (connector_ s) (retry_ s) (connect_ s) (nextConnId_ s) (connection_ s) x (pendingFunctors s) (round s) (polled s) (alive s) (holds s) (connector_alive s).
Definition set_functors x s := mk (connector_ s) (retry_ s) (connect_ s) (nextConnId_ s) (connection_ s) (conns s) x (round s) (polled s) (alive s) (holds s) (connector_alive s).
Definition set_round x s := mk (connector_ s) (retry_ s) (connect_ s) (nextConnId_ s) (connection_ s) (conns s) (pendingFunctors s) x (polled s) (alive s) (holds s) (connector_alive s).
Definition set_polled x s := mk (connector_ s) (retry_ s) (connect_ s) (nextConnId_ s) (connection_ s) (conns s) (pendingFunctors s) (round s) x (alive s) (holds s) (connector_alive s).
Definition set_alive x s := mk (connector_ s) (retry_ s) (connect_ s) (nextConnId_ s) (connection_ s) (conns s) (pendingFunctors s) (round s) (polled s) x (holds s) (connector_alive s).
Definition set_holds x s := mk (connector_ s) (retry_ s) (connect_ s) (nextConnId_ s) (connection_ s) (conns s) (pendingFunctors s) (round s) (polled s) (alive s) x (connector_alive s).
Definition set_connector_alive x s := mk (connector_ s) (retry_ s) (connect_ s) (nextConnId_ s) (connection_ s) (conns s) (pendingFunctors s) (round s) (polled s) (alive s) (holds s) x.

Abbreviation M := (ST t).

Definition TcpClient (connector : Connector.t (P := P)) : t := mk connector false true 1 None [] [] (Functors 0) 0 true false true.

(** ** A connection, by its number *)

Definition the_conn (c : nat) : M conn :=
  s ← get;
  match conns s !! c with Some k => mret k | None => fail UseAfterFree end.

Definition set_life (c : nat) (l : life) : M unit :=
  k ← the_conn c;
  modify (fun s => set_conns (<[c := mk_conn (conn_name k) (conn_fd k) l (closeCallback k)]> (conns s)) s).

Definition setCloseCallback (c : nat) (cb : closer) : M unit :=
  k ← the_conn c;
  modify (fun s => set_conns (<[c := mk_conn (conn_name k) (conn_fd k) (conn_life k) cb]> (conns s)) s).

Definition connectEstablished (c : nat) : M unit :=
  k ← the_conn c;
  _ ← sassert (bool_decide (conn_life k = Connecting));
  set_life c Up.

Definition connectDestroyed (c : nat) : M unit :=
  k ← the_conn c;
  _ ← sassert (bool_decide (conn_life k = Up \/ conn_life k = Down));
  set_life c Destroyed.

Definition queueInLoop (f : functor) : M unit := modify (fun s => set_functors (pendingFunctors s ++ [f]) s).

(** [forceClose] of a connection queues [forceCloseInLoop]. *)
Definition forceClose (c : nat) : M unit :=
  k ← the_conn c;
  when_ (bool_decide (conn_life k = Up)) (queueInLoop (F_forceClose c)).

(** ** The client's own functions *)

Definition conn_name_of (id : Z) : bytes := name_ ++ (snprintf 32 (bs ":" ++ ipPort_ ++ bs "#" ++ dec id)).1.

(** The connector's callback is bound to the client itself. *)
Definition newConnection (sockfd : Z) : M unit :=
  s ← get;
  _ ← lift (check UseAfterFree (alive s));
  let connName := conn_name_of (nextConnId_ s) in
  _ ← lift (check Overflow (bool_decide (nextConnId_ s + 1 < 2 ^ 31)));
  _ ← modify (set_id (nextConnId_ s + 1));
  let c := length (conns s) in
  _ ← modify (fun s => set_conns (conns s ++ [mk_conn connName sockfd Connecting ByClient]) s);
  _ ← modify (set_connection (Some c));
  connectEstablished c.

(** A step of the connector, by its address: its functors and the callbacks of its channel are
    bound to it without holding it.  What it queues goes into the loop's queue, and the socket that it
    gives, as the last thing of [handleWrite], to [newConnection]. *)
Definition on_connector (e : Connector.event) : M unit := fun s =>
  match (_ ← check UseAfterFree (connector_alive s); Connector.handle e (connector_ s)) with
  | Fail f => Fail f
  | Ok (_, c) =>
      let queued := drop (length (ConnectorSteps.rest_of e (connector_ s))) (Connector.pending c) in
      let sockets := drop (length (Connector.given (connector_ s))) (Connector.given c) in
      for_each newConnection sockets (set_functors (pendingFunctors s ++ map F_connector queued) (set_connector c s))
  end.

(** The holders of the connector, a [shared_ptr]: the client, the timer of its destructor, and
    the connector's own timers; when none is left, [~Connector]. *)
Definition held (s : t) : bool := alive s || holds s || bool_decide (Connector.timers (connector_ s) <> []).

Definition release_connector : M unit :=
  s ← get;
  when_ (negb (held s))
    (_ ← sassert (bool_decide (Connector.channel_ (connector_ s) = None));
     modify (set_connector_alive false)).

(** [TcpClient::removeConnection], with the kernel's answer to a new attempt. *)
Definition removeConnection (c : nat) (k : Z * Z) : M unit :=
  s ← get;
  _ ← lift (check UseAfterFree (alive s));
  _ ← sassert (bool_decide (connection_ s = Some c));
  _ ← modify (set_connection None);
  _ ← queueInLoop (F_connectDestroyed c);
  when_ (retry_ s && connect_ s) (on_connector (Connector.Restart k)).

(** [detail::removeConnection]. *)
Definition detail_removeConnection (c : nat) : M unit := queueInLoop (F_connectDestroyed c).

(** [TcpConnection::handleClose]. *)
Definition handleClose (c : nat) (k : Z * Z) : M unit :=
  conn ← the_conn c;
  _ ← sassert (bool_decide (conn_life conn = Up));
  _ ← set_life c Down;
  match closeCallback conn with
  | ByClient => removeConnection c k
  | ByLoop => detail_removeConnection c
  end.

Definition forceCloseInLoop (c : nat) (k : Z * Z) : M unit :=
  conn ← the_conn c;
  when_ (bool_decide (conn_life conn = Up)) (handleClose c k).

Definition connect (k : Z * Z) : M unit := _ ← modify (set_connect true); on_connector (Connector.Start k).

(** The connection is shut down, which its owner does not see before it closes. *)
Definition disconnect : M unit := modify (set_connect false).

Definition stop : M unit := _ ← modify (set_connect false); on_connector Connector.Stop.

Definition enableRetry : M unit := modify (set_retry true).

(** The destructor, in the loop; [unique]: nobody else holds the connection.  Without a
    connection it sets a timer of one second that holds the connector.  Then the members. *)
Definition destruct_body (unique : bool) : M unit :=
  s ← get;
  _ ← (match connection_ s with
       | Some c => _ ← setCloseCallback c ByLoop; when_ unique (forceClose c)
       | None => _ ← on_connector Connector.Stop; modify (set_holds true)
       end);
  modify (set_alive false).
Definition destruct_client (unique : bool) : M unit := _ ← destruct_body unique; release_connector.

(** That timer fires ([detail::removeConnector] does nothing) and is deleted. *)
Definition removeConnector : M unit := _ ← modify (set_holds false); release_connector.

(** ** The loop *)

Definition run_functor (f : functor) (k : Z * Z) : M unit :=
  match f with
  | F_connector _ => on_connector (Connector.RunFunctor k)
  | F_connectDestroyed c => connectDestroyed c
  | F_forceClose c => forceCloseInLoop c k
  end.

Inductive event :=
  | Connect (k : Z * Z)
  | Disconnect
  | StopClient
  | EnableRetry
  | Enter (starts : bool)            (* connect or stop of another thread, before its functor is queued *)
  | Queue (i : nat)
  | TimerFires (i : nat) (k : Z * Z)
  | Ready (revents err : Z) (self : bool)
  | Poll
  | Swap                             (* doPendingFunctors takes the queue *)
  | RunFunctor (k : Z * Z)
  | PeerCloses (c : nat) (k : Z * Z)
  | ForceClose (c : nat)
  | ClientGone (unique : bool)
  | HolderFires.

Definition handle (e : event) : M unit :=
  match e with
  | Connect k => connect k
  | Disconnect => disconnect
  | StopClient => stop
  | EnableRetry => enableRetry
  | Enter b => _ ← modify (set_connect b); on_connector (Connector.Enter b)
  | Queue i => on_connector (Connector.Queue i)
  | TimerFires i k => _ ← on_connector (Connector.TimerFires i k); release_connector
  | Ready revents err self => on_connector (Connector.Ready revents err self)
  | Poll => modify (fun s => set_polled (length (conns s)) (set_round Channels s))
  | Swap => modify (fun s => set_round (Functors (length (pendingFunctors s))) s)
  | RunFunctor k =>
      s ← get;
      match round s, pendingFunctors s with
      | Functors (S n), f :: fs => _ ← modify (fun s => set_functors fs (set_round (Functors n) s)); run_functor f k
      | _, _ => mret tt
      end
  | PeerCloses c k => handleClose c k
  | ForceClose c => forceClose c
  | ClientGone unique => destruct_client unique
  | HolderFires => removeConnector
  end.

Definition is_up (s : t) (c : nat) : bool :=
  match conns s !! c with Some k => bool_decide (conn_life k = Up) | None => false end.

(** What can happen: the client is used while it exists; timers and ready channels come
    between a poll and the functors of the round; a connection is ready when it was
    registered at the poll. *)
Definition possible (s : t) (e : event) : bool :=
  match e with
  | Connect _ | Disconnect | StopClient | EnableRetry | Enter _ | ClientGone _ => alive s
  | Queue _ => true
  | TimerFires _ _ | Ready _ _ _ | Swap => bool_decide (round s = Channels)
  | Poll => bool_decide (round s = Functors 0)
  | RunFunctor _ => match round s, pendingFunctors s with Functors (S _), _ :: _ => true | _, _ => false end
  | PeerCloses c _ => bool_decide (round s = Channels) && bool_decide (c < polled s)%nat && is_up s c
  | ForceClose c => is_up s c
  | HolderFires => bool_decide (round s = Channels) && holds s
  end.

(** The connector's part of the queue. *)
Definition of_connector (l : list functor) : list Connector.functor :=
  omap (fun f => match f with F_connector f => Some f | _ => None end) l.

(** The connector has let its channel go, and none of its functors is queued. *)
Definition quiet (s : t) : bool :=
  bool_decide (Connector.channel_ (connector_ s) = None) && bool_decide (of_connector (pendingFunctors s) = []).

(** [connect] only when the connector may start (see Connector.v); the kernel gives new
    sockets; fewer than [2 ^ 31 - 1] connections.  Nothing is asked of the moment at which
    a connection closes.  A client with a connection is destroyed when its connector is
    quiet, and one second is enough for the connector of a client without; no other thread is
    in [connect] or [stop] when the client is destroyed. *)
Definition contract (s : t) (e : event) : bool :=
  let c := connector_ s in
  match e with
  | Connect k => Connector.contract c (Connector.Start k)
  | Enter b => Connector.contract c (Connector.Enter b)
  | Queue i => alive s && Connector.contract c (Connector.Queue i)
  | TimerFires i k => Connector.contract c (Connector.TimerFires i k)
  | Ready revents err self => Connector.contract c (Connector.Ready revents err self) && bool_decide (nextConnId_ s + 1 < 2 ^ 31)
  | RunFunctor k | PeerCloses _ k => Connector.new_socket c k
  | ClientGone _ => match connection_ s with Some _ => quiet s | None => true end
  | HolderFires => quiet s
  | _ => true
  end.

Inductive reachable (s0 : t) : t -> Prop :=
  | reach_start : reachable s0 s0
  | reach_step s e s' : reachable s0 s -> possible s e = true -> contract s e = true -> handle e s = Ok (tt, s') -> reachable s0 s'.
End client.

(** ** The invariant *)

Section proofs.
Context {P : Type} `{PollerSpec P} (ipPort_ name_ : bytes).
Implicit Types s : t (P := P).

Abbreviation name_of := (conn_name_of ipPort_ name_).

Definition destroys (c : nat) (l : list functor) : nat := length (filter (fun f => f = F_connectDestroyed c) l).

(** All but the queue of the connector, which is [rest], and the channel to be reset. *)
Record inv0 (rest : list Connector.functor) s : Prop := {
  i_connector : Connector.Inv (connector_ s);
  i_queue : of_connector (pendingFunctors s) = rest;
  i_id : nextConnId_ s = Z.of_nat (S (length (conns s))) /\ nextConnId_ s <= 2 ^ 31 - 1;
  i_given : map conn_fd (conns s) = Connector.given (connector_ s);
  i_names : forall c k, conns s !! c = Some k -> conn_name k = name_of (Z.of_nat (S c));
  i_current : forall c, alive s = true -> connection_ s = Some c ->
    Connector.state_ (connector_ s) = Connector.kConnected /\ S c = length (conns s) /\
    exists k, conns s !! c = Some k /\ conn_life k = Up /\ closeCallback k = ByClient;
  i_up : forall c k, conns s !! c = Some k -> conn_life k = Up ->
    if alive s then connection_ s = Some c else closeCallback k = ByLoop;
  i_life : forall c k, conns s !! c = Some k ->
    conn_life k <> Connecting /\ destroys c (pendingFunctors s) = (if decide (conn_life k = Down) then 1 else 0)%nat;
  i_functors : forall c, F_connectDestroyed c ∈ pendingFunctors s \/ F_forceClose c ∈ pendingFunctors s -> (c < length (conns s))%nat;
  i_polled : (polled s <= length (conns s))%nat;
  i_round : match round s with Functors n => (n <= length (pendingFunctors s))%nat | Channels => True end;
  i_dead : alive s = false -> Connector.connect_ (connector_ s) = false \/ Connector.state_ (connector_ s) = Connector.kConnected
}.

(** The functor that resets the connector's channel comes before the connection can close: the
    connection is not yet polled, and the round runs the functor before any [forceClose]. *)
Definition ahead s (c : nat) : Prop :=
  (polled s <= c)%nat /\ exists q1 q2, pendingFunctors s = q1 ++ F_connector Connector.F_reset :: q2 /\ F_forceClose c ∉ q1 /\
    match round s with Functors n => (length q1 < n)%nat | Channels => True end.
Definition reset_ahead (channel : option Z) s : Prop :=
  forall c, alive s = true -> connection_ s = Some c -> channel <> None -> ahead s c.

Definition inv s : Prop := inv0 (Connector.pending (connector_ s)) s /\ reset_ahead (Connector.channel_ (connector_ s)) s.

(** Who is there: the client, the holder, the connector. *)
Definition life_of s : bool * bool * bool := (alive s, holds s, connector_alive s).

(** The connector is there as long as it is held, and quiet when only its timers hold it. *)
Record owned s : Prop := {
  o_alive : connector_alive s = held s;
  o_client : alive s = true -> holds s = false;
  o_quiet : alive s = false -> holds s = false -> quiet s = true
}.

Lemma of_connector_app a b : of_connector (a ++ b) = of_connector a ++ of_connector b.
Proof. apply omap_app. Qed.

Lemma of_connector_map l : of_connector (map F_connector l) = l.
Proof. induction l as [|f l IH]; [done|]. change (of_connector (map F_connector (f :: l))) with (f :: of_connector (map F_connector l)). by rewrite IH. Qed.

Lemma destroys_app c a b : destroys c (a ++ b) = (destroys c a + destroys c b)%nat.
Proof. unfold destroys. by rewrite list.filter_app, length_app. Qed.

Lemma destroys_connector c l : destroys c (map F_connector l) = 0%nat.
Proof. unfold destroys. induction l as [|f l IH]; [done|]. simpl. rewrite filter_cons. by rewrite decide_False. Qed.

Lemma destroys_cons c f l : destroys c (f :: l) = ((if decide (f = F_connectDestroyed c) then 1 else 0) + destroys c l)%nat.
Proof. unfold destroys. rewrite filter_cons. by case_decide. Qed.

(** ** Steps of the connector *)

(** The connector goes on and gives no socket. *)
Definition advanced (new : list Connector.functor) (c : Connector.t) s : t :=
  set_functors (pendingFunctors s ++ map F_connector new) (set_connector c s).

Lemma inv_advanced rest s c new :
  inv0 rest s -> Connector.Inv c -> Connector.pending c = rest ++ new -> Connector.given c = Connector.given (connector_ s) ->
  (forall i, alive s = true -> connection_ s = Some i -> Connector.state_ c = Connector.kConnected) ->
  (alive s = false -> Connector.connect_ c = false \/ Connector.state_ c = Connector.kConnected) ->
  inv0 (Connector.pending c) (advanced new c s).
Proof.
  intros [] Hc Hp Hg Hcur Hdead. split; simpl; try done.
  - by rewrite of_connector_app, of_connector_map, i_queue0.
  - by rewrite Hg.
  - intros i Ha Hi. destruct (i_current0 i Ha Hi) as (_ & ? & ?). split_and!; [by eapply Hcur|done|done].
  - intros i k Hk. rewrite destroys_app, destroys_connector, Nat.add_0_r. by apply i_life0.
  - intros i Hin. apply i_functors0. rewrite !elem_of_app in Hin.
    destruct Hin as [[?|Hin]|[?|Hin]]; try (by left); try (by right); by apply list_elem_of_fmap in Hin as (? & ? & _).
  - destruct (round s); [done|]. rewrite length_app. lia.
Qed.

Lemma reset_ahead_advanced ch s c new : reset_ahead ch s -> reset_ahead ch (advanced new c s).
Proof.
  intros Hr i Ha Hi Hch. destruct (Hr i Ha Hi Hch) as (Hp & q1 & q2 & Hq & Hn & Hround). split; [done|]. simpl.
  exists q1, (q2 ++ map F_connector new). by rewrite Hq, <- app_assoc.
Qed.

Lemma advanced_run e s c :
  connector_alive s = true -> Connector.handle e (connector_ s) = Ok (tt, c) -> Connector.given c = Connector.given (connector_ s) ->
  exists new, on_connector ipPort_ name_ e s = Ok (tt, advanced new c s) /\ Connector.pending c = ConnectorSteps.rest_of e (connector_ s) ++ new.
Proof.
  intros Hcl Hrun Hg. destruct (ConnectorSteps.step_shape _ _ _ Hrun) as ((new & Hp) & _). exists new. split; [|done].
  unfold on_connector. rewrite Hcl. cbn [check mbind res_bind]. rewrite Hrun, Hg, drop_all, Hp, drop_app_length. done.
Qed.

(** The channel after a step while a connection exists. *)
Definition channel_after (e : Connector.event) (c : Connector.t (P := P)) : option Z :=
  match e, Connector.pending c with Connector.RunFunctor _, Connector.F_reset :: _ => None | _, _ => Connector.channel_ c end.

(** The events with which an attempt may begin. *)
Definition starts (e : Connector.event) : bool :=
  match e with Connector.Start _ | Connector.Restart _ | Connector.Enter true => true | _ => false end.

Lemma client_the_conn_run c k s : conns s !! c = Some k -> the_conn c s = Ok (k, s).
Proof. intros Hk. unfold the_conn, get, mbind, st_bind. by rewrite Hk. Qed.

Definition with_life (c : nat) (k : conn) (l : life) s : t :=
  set_conns (<[c := mk_conn (conn_name k) (conn_fd k) l (closeCallback k)]> (conns s)) s.

Lemma client_set_life_run c k l s : conns s !! c = Some k -> set_life c l s = Ok (tt, with_life c k l s).
Proof. intros Hk. unfold set_life. by rewrite (bind_run _ _ _ _ _ (client_the_conn_run c k s Hk)). Qed.

Lemma client_established_run c k s :
  conns s !! c = Some k -> conn_life k = Connecting -> connectEstablished c s = Ok (tt, with_life c k Up s).
Proof.
  intros Hk Hl. unfold connectEstablished. rewrite (bind_run _ _ _ _ _ (client_the_conn_run c k s Hk)).
  rewrite assert_run by by apply bool_decide_eq_true. by apply client_set_life_run.
Qed.

Lemma connection_made s c fd rest :
  inv0 rest s -> alive s = true -> connection_ s = None -> nextConnId_ s + 1 < 2 ^ 31 -> round s = Channels ->
  Connector.Inv c -> Connector.pending c = rest ++ [Connector.F_reset] -> Connector.given c = Connector.given (connector_ s) ++ [fd] ->
  Connector.state_ c = Connector.kConnected ->
  exists s', newConnection ipPort_ name_ fd (advanced [Connector.F_reset] c s) = Ok (tt, s') /\ inv s' /\ life_of s' = life_of s /\ connection_ s' = Some (length (conns s)) /\
    conns s' = conns s ++ [mk_conn (name_of (nextConnId_ s)) fd Up ByClient] /\ nextConnId_ s' = nextConnId_ s + 1.
Proof.
  intros Hi Ha Hn Hid Hr Hc Hp Hg Hst. unfold newConnection. unfold get, modify, lift, mbind, st_bind. cbn [alive advanced set_functors set_connector nextConnId_].
  rewrite Ha. cbn [check]. rewrite bool_decide_eq_true_2 by done. cbn [check].
  erewrite client_established_run; [|simpl; by apply list_lookup_middle|done]. eexists. split; [reflexivity|].
  unfold with_life. cbn [conns set_conns set_connection set_id advanced set_functors set_connector].
  rewrite insert_app_r_alt, Nat.sub_diag by done. simpl insert.
  destruct Hi. split; [|split; [unfold life_of; simpl; by rewrite Ha|done]]. split.
  - split; simpl; try done.
    + by rewrite of_connector_app, i_queue0, Hp.
    + rewrite length_app. simpl. lia.
    + by rewrite map_app, i_given0, Hg.
    + intros i k Hk. apply lookup_app_Some in Hk as [Hk|[Hl Hk]]; [by apply i_names0|].
      apply list_lookup_singleton_Some in Hk as [Hz <-]. simpl. f_equal. lia.
    + intros i _ [= <-]. rewrite length_app. simpl. split_and!; [done|lia|]. eexists. split; [by apply list_lookup_middle|done].
    + intros i k Hk. apply lookup_app_Some in Hk as [Hk|[Hl Hk]].
      * intros Hup. specialize (i_up0 i k Hk Hup). rewrite Ha in *. congruence.
      * apply list_lookup_singleton_Some in Hk as [Hz <-]. rewrite Ha. intros _. f_equal. lia.
    + intros i k Hk. rewrite destroys_app, destroys_cons. simpl. apply lookup_app_Some in Hk as [Hk|[Hl Hk]].
      * destruct (i_life0 i k Hk) as [? ->]. split; [done|]. by rewrite Nat.add_0_r.
      * apply list_lookup_singleton_Some in Hk as [Hz <-]. split; [done|]. simpl. rewrite Nat.add_0_r.
        unfold destroys. apply length_zero_iff_nil, elem_of_nil_inv. intros f [-> Hf]%list_elem_of_filter.
        assert (i < length (conns s))%nat by (apply i_functors0; by left). lia.
    + intros i Hin. rewrite length_app. simpl. rewrite !elem_of_app, !list_elem_of_singleton in Hin.
      assert (i < length (conns s))%nat; [|lia]. apply i_functors0. destruct Hin as [[?|?]|[?|?]]; try done; [by left|by right].
    + rewrite length_app. lia.
    + by rewrite Hr.
    + by right.
  - intros i _ [= <-] _. split; [done|]. simpl. exists (pendingFunctors s), []. split_and!; [done| |by rewrite Hr].
    intros Hin. assert (length (conns s) < length (conns s))%nat by (apply i_functors0; by right). lia.
Qed.

Lemma connector_event e s :
  connector_alive s = true -> inv0 (ConnectorSteps.rest_of e (connector_ s)) s -> reset_ahead (channel_after e (connector_ s)) s ->
  Connector.contract (connector_ s) e = true -> (forall k, e <> Connector.Restart k) -> (alive s = false -> starts e = false) ->
  (forall r err self, e = Connector.Ready r err self -> round s = Channels /\ nextConnId_ s + 1 < 2 ^ 31) ->
  exists s', on_connector ipPort_ name_ e s = Ok (tt, s') /\ inv s' /\ life_of s' = life_of s.
Proof.
  intros Hcl Hi Hahead Hcon Hne Hstart Hready. pose proof (i_connector _ _ Hi) as Hc.
  destruct (Connector.connector_step _ _ Hc Hcon) as (c & Hrun & Hc').
  destruct (ConnectorSteps.step_shape _ _ _ Hrun) as (_ & Hcn & Hg).
  assert (Connector.state_ (connector_ s) = Connector.kConnected ->
    Connector.state_ c = Connector.kConnected /\ Connector.channel_ c = channel_after e (connector_ s)) as Hstays.
  { intros Hst. destruct (ConnectorSteps.connected_stays _ _ _ Hc Hst Hcon Hne Hrun) as (? & _ & _ & ?). done. }
  assert (alive s = false -> Connector.connect_ c = false \/ Connector.state_ c = Connector.kConnected) as Hdead.
  { intros Ha. destruct (i_dead _ _ Hi Ha) as [Hoff|Hst]; [left|right; by apply Hstays]. specialize (Hstart Ha).
    rewrite Hcn. destruct e as [| | |[]| | | |]; done. }
  destruct Hg as [Hg|[(r & err & self & ->) Hg]].
  - destruct (advanced_run _ _ _ Hcl Hrun Hg) as (new & Hadv & Hp). exists (advanced new c s). split; [done|]. split; [|done]. split.
    + eapply inv_advanced; try done. intros i Ha Hci. apply Hstays. by apply (i_current _ _ Hi i).
    + apply reset_ahead_advanced. intros i Ha Hci Hch. apply (Hahead i Ha Hci).
      destruct (i_current _ _ Hi i Ha Hci) as (Hst & _). by rewrite <- (proj2 (Hstays Hst)).
  - destruct (Hready _ _ _ eq_refl) as [Hr Hid]. pose proof Hg as [Hconn Hwant Hst' Hp _ _ [fd Hgiv]].
    assert (alive s = true) as Ha.
    { destruct (alive s) eqn:Ea; [done|]. destruct (i_dead _ _ Hi Ea); congruence. }
    assert (connection_ s = None) as Hn.
    { destruct (connection_ s) as [i|] eqn:Eci; [|done]. destruct (i_current _ _ Hi i Ha Eci) as (? & _). congruence. }
    destruct (connection_made s c fd _ Hi Ha Hn Hid Hr Hc') as (s' & Hnew & Hinv & Hlife & _); try done.
    exists s'. split; [|done]. unfold on_connector. rewrite Hcl. cbn [check mbind res_bind]. rewrite Hrun, Hgiv, drop_app_length. simpl in *. rewrite Hp, drop_app_length.
    cbn [for_each]. unfold mbind, st_bind. change (set_functors _ _) with (advanced [Connector.F_reset] c s). by rewrite Hnew.
Qed.

(** ** A connection closes *)

Definition closed (c : nat) (k : conn) (x : option nat) s : t :=
  set_functors (pendingFunctors s ++ [F_connectDestroyed c]) (set_connection x (with_life c k Down s)).

Lemma life_lookup c k l s c' k' :
  conns s !! c = Some k -> conns (with_life c k l s) !! c' = Some k' ->
  exists k0, conns s !! c' = Some k0 /\ conn_name k' = conn_name k0 /\ closeCallback k' = closeCallback k0 /\
    conn_life k' = if decide (c' = c) then l else conn_life k0.
Proof.
  intros Hk Hk'. simpl in Hk'. apply list_lookup_insert_Some in Hk' as [(-> & <- & Hl)|[Hne Hk']].
  - exists k. by rewrite decide_True.
  - exists k'. by rewrite decide_False by congruence.
Qed.

Lemma life_given c k l s : conns s !! c = Some k -> map conn_fd (conns (with_life c k l s)) = map conn_fd (conns s).
Proof.
  intros Hk. simpl. change (conn_fd <$> <[c := mk_conn (conn_name k) (conn_fd k) l (closeCallback k)]> (conns s) = conn_fd <$> conns s).
  rewrite list_fmap_insert. apply list_insert_id. by rewrite list_lookup_fmap, Hk.
Qed.

Lemma inv0_closed rest s c k x :
  inv0 rest s -> conns s !! c = Some k -> conn_life k = Up -> (alive s = true -> x = None) -> inv0 rest (closed c k x s).
Proof.
  intros Hi Hk Hup Hx. pose proof (life_given c k Down s Hk) as Hgiv. destruct Hi. pose proof (lookup_lt_Some _ _ _ Hk) as Hlt.
  split; simpl; rewrite ?length_insert; try done.
  - rewrite of_connector_app, app_nil_r. done.
  - simpl in Hgiv. by rewrite Hgiv.
  - intros i ki Hki. apply (life_lookup c k Down s i ki Hk) in Hki as (k0 & Hk0 & -> & _). by apply i_names0.
  - intros i Ha Hi. by rewrite (Hx Ha) in Hi.
  - intros i ki Hki. apply (life_lookup c k Down s i ki Hk) in Hki as (k0 & Hk0 & _ & Hcb & ->). case_decide as Hic; [done|]. intros Hu.
    pose proof (i_up0 i k0 Hk0 Hu) as Hi. pose proof (i_up0 c k Hk Hup) as Hc. destruct (alive s); congruence.
  - intros i ki Hki. apply (life_lookup c k Down s i ki Hk) in Hki as (k0 & Hk0 & _ & _ & Hl). destruct (i_life0 i k0 Hk0) as [Hn Hd].
    rewrite destroys_app, destroys_cons, Hd. change (destroys i []) with 0%nat. rewrite Hl. destruct (decide (i = c)) as [->|Hne].
    + assert (k0 = k) as -> by congruence. rewrite Hup. split; [done|]. by rewrite (decide_True (P := F_connectDestroyed c = F_connectDestroyed c)).
    + split; [done|]. rewrite (decide_False (P := F_connectDestroyed c = F_connectDestroyed i)) by congruence. lia.
  - intros i Hin. rewrite !elem_of_app, !list_elem_of_singleton in Hin. destruct Hin as [[?|[= ->]]|[?|?]]; try done; apply i_functors0; auto.
  - destruct (round s); [done|]. rewrite length_app. lia.
Qed.

Lemma close_inv s c k0 k :
  inv s -> conns s !! c = Some k0 -> conn_life k0 = Up ->
  (alive s = true -> connector_alive s = true) ->
  (alive s = true -> Connector.channel_ (connector_ s) = None) -> Connector.new_socket (connector_ s) k = true ->
  exists s', handleClose ipPort_ name_ c k s = Ok (tt, s') /\ inv s' /\ life_of s' = life_of s /\
    (alive s = false -> connector_ s' = connector_ s) /\
    (alive s = true -> connection_ s' = None /\
       (if retry_ s && connect_ s then
          exists x new, Connector.handle (Connector.Restart k) (connector_ s) = Ok (tt, x) /\ s' = advanced new x (closed c k0 None s)
        else connector_ s' = connector_ s)).
Proof.
  intros [Hi Hahead] Hk Hup Hcl Hch Hnew. unfold handleClose. rewrite (bind_run _ _ _ _ _ (client_the_conn_run c k0 s Hk)).
  rewrite assert_run by by apply bool_decide_eq_true. rewrite (bind_run _ _ _ _ _ (client_set_life_run c k0 Down s Hk)).
  pose proof (i_up _ _ Hi c k0 Hk Hup) as Hcur. destruct (alive s) eqn:Ha.
  - destruct (i_current _ _ Hi c Ha Hcur) as (Hst & _ & k1 & Hk1 & _ & Hcb). rewrite Hk in Hk1. injection Hk1 as <-. rewrite Hcb.
    pose proof (inv0_closed _ s c k0 None Hi Hk Hup ltac:(done)) as Hi1.
    unfold removeConnection, get, lift, queueInLoop, modify, mbind, st_bind. cbn [alive with_life set_conns check]. rewrite Ha. cbn [check].
    unfold sassert, lift. rewrite bool_decide_eq_true_2 by exact Hcur. cbn [check].
    change (set_functors _ _) with (closed c k0 None s). unfold when_. cbn [retry_ connect_ with_life set_conns].
    destruct (retry_ s && connect_ s).
    + assert (Connector.contract (connector_ s) (Connector.Restart k) = true) as Hcon.
      { simpl. rewrite Hnew, andb_true_r. apply Connector.idle_spec. destruct (i_connector _ _ Hi) as [cs Hc].
        split; [by apply (Connector.i_connected _ _ Hc)|by apply Hch]. }
      destruct (Connector.connector_step _ _ (i_connector _ _ Hi) Hcon) as (x & Hrun & Hx).
      destruct (ConnectorSteps.step_shape _ _ _ Hrun) as (_ & _ & [Hg|[(r & err & self & [=]) _]]).
      destruct (advanced_run (Connector.Restart k) (closed c k0 None s) x (Hcl eq_refl) Hrun Hg) as (new & Hadv & Hp).
      exists (advanced new x (closed c k0 None s)). split_and!; [done| |done|done|by intros _; split; [|exists x, new]]. split.
      * eapply inv_advanced; try done. simpl. congruence.
      * apply reset_ahead_advanced. by intros i _ [=].
    + eexists. split; [reflexivity|]. split; [split; [exact Hi1|by intros i _ [=]]|]. by split_and!.
  - rewrite Hcur. pose proof (inv0_closed _ s c k0 (connection_ s) Hi Hk Hup ltac:(by rewrite Ha)) as Hi1.
    exists (closed c k0 (connection_ s) s). split_and!; [by destruct s| |unfold life_of; simpl; by rewrite Ha|done|done]. split; [exact Hi1|]. intros i Hal. simpl in Hal. congruence.
Qed.

(** ** The functors of a round *)

Definition popped (fs : list functor) (n : nat) s : t := set_functors fs (set_round (Functors n) s).

Lemma inv0_popped rest s f fs n :
  inv0 rest s -> pendingFunctors s = f :: fs -> round s = Functors (S n) -> (forall c, f <> F_connectDestroyed c) ->
  inv0 (of_connector fs) (popped fs n s).
Proof.
  intros [] Hp Hr Hf. rewrite Hp, Hr in *. split; simpl; try done.
  - intros c k Hk. destruct (i_life0 c k Hk) as [? Hd]. rewrite destroys_cons, decide_False in Hd by apply Hf. done.
  - intros c Hin. apply i_functors0. rewrite !elem_of_cons. tauto.
  - simpl in *. lia.
Qed.

Lemma inv0_destroyed rest s c fs n :
  inv0 rest s -> pendingFunctors s = F_connectDestroyed c :: fs -> round s = Functors (S n) ->
  exists s', connectDestroyed c (popped fs n s) = Ok (tt, s') /\ inv0 rest s' /\ connector_ s' = connector_ s /\
    s' = set_conns (conns s') (popped fs n s).
Proof.
  intros Hi Hp Hr. assert (c < length (conns s))%nat as Hlt by (apply (i_functors _ _ Hi); left; rewrite Hp; left).
  apply lookup_lt_is_Some in Hlt as [k Hk]. destruct (i_life _ _ Hi c k Hk) as [_ Hd]. rewrite Hp, destroys_cons, decide_True in Hd by done.
  assert (conn_life k = Down) as Hdown by (case_decide; [done|lia]). rewrite decide_True in Hd by done.
  exists (with_life c k Destroyed (popped fs n s)). split_and!; [| |done|done].
  { unfold connectDestroyed. rewrite (bind_run _ _ _ _ _ (client_the_conn_run c k (popped fs n s) Hk)).
    rewrite assert_run by (apply bool_decide_eq_true; by right). by apply client_set_life_run. }
  pose proof (life_given c k Destroyed s Hk) as Hgiv. destruct Hi. rewrite Hp, Hr in *. split; simpl; rewrite ?length_insert; try done.
  - simpl in Hgiv. by rewrite Hgiv.
  - intros i ki Hki. apply (life_lookup c k Destroyed s i ki Hk) in Hki as (k0 & Hk0 & -> & _). by apply i_names0.
  - intros i Ha Hci. destruct (i_current0 i Ha Hci) as (? & ? & ki & Hki & Hu & Hcb). split_and!; [done|done|]. exists ki.
    rewrite list_lookup_insert_ne; [done|]. intros <-. congruence.
  - intros i ki Hki. apply (life_lookup c k Destroyed s i ki Hk) in Hki as (k0 & Hk0 & _ & -> & ->). case_decide; [done|]. by apply i_up0.
  - intros i ki Hki. apply (life_lookup c k Destroyed s i ki Hk) in Hki as (k0 & Hk0 & _ & _ & ->). destruct (i_life0 i k0 Hk0) as [Hn Hd'].
    rewrite destroys_cons in Hd'. destruct (decide (i = c)) as [->|Hic].
    + rewrite decide_True in Hd' by done. assert (k0 = k) as -> by congruence. rewrite decide_True in Hd' by done. split; [done|]. rewrite (decide_False (P := Destroyed = Down)) by done. lia.
    + rewrite decide_False in Hd' by congruence. done.
  - intros i Hin. apply i_functors0. rewrite !elem_of_cons. tauto.
  - simpl in *. lia.
Qed.

Lemma ahead_popped s f fs n c :
  ahead s c -> pendingFunctors s = f :: fs -> round s = Functors (S n) -> f <> F_connector Connector.F_reset ->
  f <> F_forceClose c /\ ahead (popped fs n s) c.
Proof.
  intros (Hpl & q1 & q2 & Hq & Hn & Hr) Hp Hround Hf. rewrite Hp in Hq. rewrite Hround in Hr. destruct q1 as [|g q1]; injection Hq as -> Hq; [done|].
  apply not_elem_of_cons in Hn as [Hne Hn]. split; [congruence|]. split; [done|]. exists q1, q2. simpl in *. split_and!; [done|done|lia].
Qed.

Lemma inv_settings b r s : inv s -> inv (set_connect b s) /\ inv (set_retry r s).
Proof. intros [[] Hr]. split; (split; [by split|exact Hr]). Qed.

(** The steps that leave the client, and who holds the connector, as they are; the connector
    of a client that is gone goes on only as long as the destructor's timer holds it. *)
Definition stays s s' : Prop :=
  life_of s' = life_of s /\ (alive s = false -> holds s = false -> connector_ s' = connector_ s).

Lemma quiet_spec s : quiet s = true <-> Connector.channel_ (connector_ s) = None /\ of_connector (pendingFunctors s) = [].
Proof. unfold quiet. by rewrite andb_true_iff, !bool_decide_eq_true. Qed.

Lemma life_fields s s' : life_of s' = life_of s -> alive s' = alive s /\ holds s' = holds s /\ connector_alive s' = connector_alive s.
Proof. intros E. injection E. auto. Qed.

(** While the client or its timer is there, so is the connector. *)
Lemma owned_held s : owned s -> alive s || holds s = true -> connector_alive s = true.
Proof. intros [Ho _ _] E. rewrite Ho. unfold held. by rewrite E. Qed.

Lemma owned_stays s s' : inv s -> inv s' -> owned s -> stays s s' -> owned s'.
Proof.
  intros [Hi _] [Hi' _] [Ho Hc Hq] [Hl Hcon]. apply life_fields in Hl as (Ea & Eh & Ec). unfold held in *.
  split; rewrite ?Ea, ?Eh, ?Ec in *; [|done|].
  - unfold held. rewrite Ea, Eh. destruct (alive s) eqn:A; [done|]. destruct (holds s) eqn:B; [done|]. by rewrite Hcon.
  - intros A B. specialize (Hq A B). rewrite quiet_spec, (i_queue _ _ Hi) in Hq.
    rewrite quiet_spec, (i_queue _ _ Hi'), (Hcon A B). done.
Qed.

Lemma client_functor_step k s :
  inv s -> owned s -> possible s (RunFunctor k) = true -> contract s (RunFunctor k) = true ->
  exists s', handle ipPort_ name_ (RunFunctor k) s = Ok (tt, s') /\ inv s' /\ stays s s'.
Proof.
  intros [Hi Hahead] Hown Hpos Hcon. simpl in Hpos, Hcon. cbn [handle]. unfold get, mbind, st_bind.
  destruct (round s) as [|[|n]] eqn:Hr; [done..|]. destruct (pendingFunctors s) as [|f fs] eqn:Hp; [done|]. unfold modify.
  change (set_functors fs (set_round (Functors n) s)) with (popped fs n s). pose proof (i_queue _ _ Hi) as Hq. rewrite Hp in Hq.
  assert (f <> F_connector Connector.F_reset -> reset_ahead (Connector.channel_ (connector_ s)) (popped fs n s)) as Hahead'.
  { intros Hf c Ha Hc Hch. by destruct (ahead_popped s f fs n c (Hahead c Ha Hc Hch) Hp Hr Hf). }
  destruct f as [g|c|c]; cbn [run_functor].
  - change (g :: of_connector fs = Connector.pending (connector_ s)) in Hq.
    assert (alive s || holds s = true) as Hheld.
    { apply not_false_iff_true. intros [A B]%orb_false_iff. pose proof (o_quiet _ Hown A B) as [_ Hn]%quiet_spec.
      rewrite (i_queue _ _ Hi), <- Hq in Hn. done. }
    destruct (connector_event (Connector.RunFunctor k) (popped fs n s)) as (s' & Hrun & Hinv' & Hl); try done.
    + simpl. by apply owned_held.
    + simpl. rewrite <- Hq. simpl. by eapply inv0_popped.
    + simpl. unfold channel_after. rewrite <- Hq. destruct g; try (apply Hahead'; done). by intros c _ _.
    + simpl. rewrite Hcon, andb_true_r. apply bool_decide_eq_true. by rewrite <- Hq.
    + exists s'. split_and!; [done|done|]. split; [exact Hl|]. intros A B. by rewrite A, B in Hheld.
  - destruct (inv0_destroyed _ s c fs n Hi Hp Hr) as (s' & Hrun & Hi' & Hc' & Hs'). exists s'. split; [exact Hrun|]. rewrite <- Hc' in Hi'.
    split; [split; [exact Hi'|]; rewrite Hc', Hs'; exact (Hahead' ltac:(done))|]. split; [by rewrite Hs'|done].
  - assert (c < length (conns s))%nat as Hlt by (apply (i_functors _ _ Hi); right; rewrite Hp; left).
    apply lookup_lt_is_Some in Hlt as [k0 Hk]. unfold forceCloseInLoop. rewrite (bind_run _ _ _ _ _ (client_the_conn_run c k0 (popped fs n s) Hk)).
    assert (inv (popped fs n s)) as Hinv.
    { split; [|by apply Hahead']. pose proof (inv0_popped _ s _ fs n Hi Hp Hr ltac:(done)) as Hi'. simpl in *. by rewrite <- Hq. }
    unfold when_. destruct (bool_decide_reflect (conn_life k0 = Up)) as [Hup|Hup]; [|by exists (popped fs n s)].
    destruct (close_inv (popped fs n s) c k0 k Hinv Hk Hup) as (s' & Hrun & Hinv' & Hl & Hdead & _);
      [simpl; intros Ha; apply owned_held; [done|by rewrite Ha]| |done|exists s'; split_and!; [done|done|]; split; [exact Hl|by intros A _; apply Hdead]].
    simpl. intros Ha. destruct (Connector.channel_ (connector_ s)) as [a|] eqn:Hch; [exfalso|done].
    pose proof (i_up _ _ Hi c k0 Hk Hup) as Hc. rewrite Ha in Hc.
    by destruct (ahead_popped s _ fs n c (Hahead c Ha Hc ltac:(done)) Hp Hr ltac:(done)).
Qed.

(** ** Every event *)

Lemma forced_inv s c k :
  inv s -> conns s !! c = Some k -> exists s', forceClose c s = Ok (tt, s') /\ inv s' /\ s' = set_functors (pendingFunctors s') s.
Proof.
  intros [Hi Hahead] Hk. unfold forceClose. rewrite (bind_run _ _ _ _ _ (client_the_conn_run c k s Hk)). unfold when_.
  destruct (bool_decide _); [|by exists s; split_and!; [| |by destruct s]].
  eexists. split; [reflexivity|]. split; [|done]. pose proof (lookup_lt_Some _ _ _ Hk) as Hlt. split.
  - destruct Hi. split; simpl; try done.
    + by rewrite of_connector_app, app_nil_r.
    + intros i ki Hki. destruct (i_life0 i ki Hki) as [? Hd]. split; [done|]. rewrite destroys_app, Hd. simpl. rewrite Nat.add_0_r. done.
    + intros i. rewrite !elem_of_app, !list_elem_of_singleton. intros [[?|?]|[?|[= ->]]]; try done; apply i_functors0; auto.
    + destruct (round s); [done|]. rewrite length_app. simpl. lia.
  - intros i Ha Hc Hch. destruct (Hahead i Ha Hc Hch) as (? & q1 & q2 & Hq & Hn & Hr). split; [done|].
    exists q1, (q2 ++ [F_forceClose c]). simpl. by rewrite Hq, <- app_assoc.
Qed.

(** What the destructor leaves: with a connection, the connector as it is; without one, the
    timer that holds it. *)
Lemma body_inv unique s :
  inv s -> owned s -> alive s = true ->
  exists s', destruct_body ipPort_ name_ unique s = Ok (tt, s') /\ inv s' /\ alive s' = false /\ connector_alive s' = true /\
    match connection_ s with
    | Some _ => holds s' = false /\ connector_ s' = connector_ s
    | None => holds s' = true
    end.
Proof.
  intros Hinv Hown Ha. pose proof (owned_held s Hown ltac:(by rewrite Ha)) as Hcl. pose proof (o_client _ Hown Ha) as Hh.
  unfold destruct_body, get. unfold mbind at 1, st_bind at 1. destruct (connection_ s) as [c|] eqn:Hc.
  - pose proof Hinv as [Hi Hahead]. destruct (i_current _ _ Hi c Ha Hc) as (Hst & Hlast & k & Hk & Hup & Hcb).
    set (s1 := set_conns (<[c := mk_conn (conn_name k) (conn_fd k) (conn_life k) ByLoop]> (conns s)) s).
    assert (setCloseCallback c ByLoop s = Ok (tt, s1)) as Hset by (unfold setCloseCallback; by rewrite (bind_run _ _ _ _ _ (client_the_conn_run c k s Hk))).
    assert (inv (set_alive false s1)) as Hinv1.
    { assert (forall i ki, conns s1 !! i = Some ki -> exists k0, conns s !! i = Some k0 /\ conn_name ki = conn_name k0 /\ conn_life ki = conn_life k0 /\
        (i = c -> closeCallback ki = ByLoop)) as Hold.
      { intros i ki. simpl. rewrite list_lookup_insert_Some. intros [(-> & <- & _)|[Hne Hki]]; [by exists k|]. by exists ki. }
      split; [|by intros i]. destruct Hi. split; simpl; rewrite ?length_insert; try done.
      - change (conn_fd <$> <[c := mk_conn (conn_name k) (conn_fd k) (conn_life k) ByLoop]> (conns s) = Connector.given (connector_ s)).
        rewrite list_fmap_insert. rewrite <- i_given0. apply list_insert_id. by rewrite list_lookup_fmap, Hk.
      - intros i ki (k0 & Hk0 & -> & _)%Hold. by apply i_names0.
      - intros i ki (k0 & Hk0 & _ & -> & Hby)%Hold Hu. apply Hby. specialize (i_up0 i k0 Hk0 Hu). rewrite Ha in i_up0. congruence.
      - intros i ki (k0 & Hk0 & _ & -> & _)%Hold. by apply i_life0.
      - by right. }
    destruct unique; simpl.
    + assert (conns (set_alive false s1) !! c = Some (mk_conn (conn_name k) (conn_fd k) (conn_life k) ByLoop)) as Hk1.
      { simpl. apply list_lookup_insert_eq. lia. }
      destruct (forced_inv (set_alive false s1) c _ Hinv1 Hk1) as (s' & Hrun & Hinv' & Hs').
      exists s'. split; [|split; [exact Hinv'|rewrite Hs'; by split_and!]]. unfold mbind, st_bind. rewrite Hset. unfold when_.
      assert (forceClose c s1 = Ok (tt, set_alive true s')) as ->.
      { revert Hrun. unfold forceClose. rewrite (bind_run _ _ _ _ _ (client_the_conn_run c _ (set_alive false s1) Hk1)).
        rewrite (bind_run _ _ _ _ _ (client_the_conn_run c _ s1 Hk1)). unfold when_. destruct (bool_decide _).
        - intros [= <-]. unfold s1. destruct s; simpl in *. by subst.
        - intros [= <-]. unfold s1. destruct s; simpl in *. by subst. }
      unfold modify. rewrite Hs'. simpl. done.
    + exists (set_alive false s1). split; [|by split_and!]. unfold mbind, st_bind. by rewrite Hset.
  - destruct Hinv as [Hi Hahead]. destruct (Connector.connector_step _ Connector.Stop (i_connector _ _ Hi) ltac:(done)) as (x & Hrun & Hx).
    destruct (ConnectorSteps.step_shape _ _ _ Hrun) as (_ & Hcn & [Hg|[(r & err & self & [=]) _]]).
    destruct (advanced_run Connector.Stop s x Hcl Hrun Hg) as (new & Hadv & Hp). unfold mbind, st_bind. rewrite Hadv.
    eexists. split; [reflexivity|]. split; [|by split_and!]. split; [|by intros i]. assert (inv0 (Connector.pending x) (advanced new x s)) as Hi1.
    { eapply inv_advanced; try done; [by intros i _; rewrite Hc|congruence]. }
    destruct Hi1. split; try done; simpl in *.
    + intros i k Hk Hu. specialize (i_up0 i k Hk Hu). rewrite Ha in i_up0. congruence.
    + intros _. left. exact Hcn.
Qed.

(** The holders are left one by one. *)
Lemma release_inv s :
  inv s -> connector_alive s = true -> (alive s = true -> holds s = false) -> (alive s = false -> holds s = false -> quiet s = true) ->
  exists s', release_connector s = Ok (tt, s') /\ inv s' /\ owned s'.
Proof.
  intros Hinv Hc Hh Hq. unfold release_connector, get, mbind, st_bind, when_. destruct (held s) eqn:Eh; simpl.
  - exists s. split_and!; [done|done|]. split; [congruence|done|done].
  - unfold held in Eh. rewrite !orb_false_iff in Eh. destruct Eh as [[A B] T]. specialize (Hq A B).
    pose proof Hq as [Hch _]%quiet_spec. unfold sassert, lift. rewrite check_true by (by apply bool_decide_eq_true).
    eexists. split; [reflexivity|]. split; [destruct Hinv as [[] ?]; split; [by split|done]|].
    split; simpl; [unfold held; simpl; by rewrite A, B, T|by rewrite A|done].
Qed.

Lemma gone_inv unique s :
  inv s -> owned s -> alive s = true -> contract s (ClientGone unique) = true ->
  exists s', destruct_client ipPort_ name_ unique s = Ok (tt, s') /\ inv s' /\ owned s'.
Proof.
  intros Hinv Hown Ha Hcon. destruct (body_inv unique s Hinv Hown Ha) as (s1 & Hrun & Hinv1 & A & Hc & Hcase).
  unfold destruct_client. rewrite (bind_run _ _ _ _ _ Hrun). apply release_inv; [done|done|by rewrite A|].
  intros _ B. simpl in Hcon. destruct (connection_ s); [|congruence]. destruct Hcase as [_ Hx].
  rewrite quiet_spec in *. pose proof (i_queue _ _ (proj1 Hinv)) as Q. pose proof (i_queue _ _ (proj1 Hinv1)) as Q1.
  by rewrite Q1, Hx, <- Q.
Qed.

(** A timer of the connector of a client that is gone starts nothing. *)
Lemma idle_timer s i k s' :
  inv s -> alive s = false -> holds s = false -> Connector.contract (connector_ s) (Connector.TimerFires i k) = true ->
  on_connector ipPort_ name_ (Connector.TimerFires i k) s = Ok (tt, s') -> quiet s = true -> quiet s' = true.
Proof.
  intros [Hi _] A B Hcon Hrun Hq. destruct (i_dead _ _ Hi A) as [Hoff|Hst].
  - revert Hrun. unfold on_connector. destruct (check _ _); [|done]. cbn [mbind res_bind Connector.handle].
    unfold Connector.startInLoop, get, modify, mbind, st_bind. simpl. unfold sassert, lift, check.
    destruct (bool_decide _); [|done]. rewrite Hoff. simpl. rewrite !drop_all. simpl. intros [= <-].
    rewrite quiet_spec in *. simpl. rewrite app_nil_r. done.
  - exfalso. simpl in Hcon. rewrite !andb_true_iff, !bool_decide_eq_true in Hcon. destruct Hcon as [[[ms Hms] _] _].
    destruct (i_connector _ _ Hi) as [cs Hc]. pose proof (Connector.i_connected _ _ Hc Hst) as Hd.
    rewrite Connector.driver_parts in Hd. apply lookup_lt_Some in Hms. lia.
Qed.

Lemma client_step s e :
  inv s /\ owned s -> possible s e = true -> contract s e = true ->
  exists s', handle ipPort_ name_ e s = Ok (tt, s') /\ inv s' /\ owned s'.
Proof.
  intros [Hinv Hown] Hpos Hcon. pose proof Hinv as [Hi Hahead].
  assert (forall m : ST t unit, (exists s', m s = Ok (tt, s') /\ inv s' /\ stays s s') -> exists s', m s = Ok (tt, s') /\ inv s' /\ owned s') as Hstays.
  { intros m (s' & Hrun & Hinv' & Hst). exists s'. split_and!; [done|done|]. by apply (owned_stays s). }
  assert (forall b e', connector_alive s = true -> Connector.contract (connector_ s) e' = true -> (forall k, e' <> Connector.Restart k) -> (forall k, e' <> Connector.RunFunctor k) ->
    (starts e' = true -> alive s = true) ->
    (forall r err self, e' = Connector.Ready r err self -> round s = Channels /\ nextConnId_ s + 1 < 2 ^ 31) ->
    exists s', on_connector ipPort_ name_ e' (set_connect b s) = Ok (tt, s') /\ inv s' /\ life_of s' = life_of s) as Hevent.
  { intros b e' Hcl Hc Hn1 Hn2 Hal Hrd. destruct (inv_settings b true s Hinv) as [[Hi' Hahead'] _].
    apply (connector_event e' (set_connect b s)); try done.
    - destruct e'; try exact Hi'. by destruct (Hn2 k).
    - destruct e'; try exact Hahead'. by destruct (Hn2 k).
    - simpl. intros Ha. destruct (starts e'); [|done]. specialize (Hal eq_refl). congruence. }
  assert (forall b e', alive s || holds s = true -> Connector.contract (connector_ s) e' = true -> (forall k, e' <> Connector.Restart k) -> (forall k, e' <> Connector.RunFunctor k) ->
    (starts e' = true -> alive s = true) ->
    (forall r err self, e' = Connector.Ready r err self -> round s = Channels /\ nextConnId_ s + 1 < 2 ^ 31) ->
    exists s', on_connector ipPort_ name_ e' (set_connect b s) = Ok (tt, s') /\ inv s' /\ stays s s') as Hkept.
  { intros b e' Hal ?????. destruct (Hevent b e') as (s' & ? & ? & ?); try done; [by apply owned_held|].
    exists s'. split_and!; [done|done|]. split; [done|]. intros A B. by rewrite A, B in Hal. }
  assert (set_connect (connect_ s) s = s) as Hsame by (by destruct s).
  destruct e as [k| | | |b|i|i k|r err self| | |k|c k|c|u|]; simpl in Hpos, Hcon.
  - apply Hstays. apply (Hkept true (Connector.Start k)); try done. by rewrite Hpos.
  - apply Hstays. eexists. split; [reflexivity|]. split; [by apply (inv_settings false true)|done].
  - apply Hstays. apply (Hkept false Connector.Stop); try done. by rewrite Hpos.
  - apply Hstays. eexists. split; [reflexivity|]. split; [by apply (inv_settings false true)|done].
  - apply Hstays. apply (Hkept b (Connector.Enter b)); try done. by rewrite Hpos.
  - apply andb_true_iff in Hcon as [A Hcon]. apply Hstays. rewrite <- Hsame. cbn [handle].
    destruct (Hkept (connect_ s) (Connector.Queue i)) as (s' & ? & ?); try done; [by rewrite A|by exists s'].
  - assert (connector_alive s = true) as Hcl.
    { rewrite (o_alive _ Hown). unfold held. rewrite !andb_true_iff, !bool_decide_eq_true in Hcon. destruct Hcon as [[[ms Hms] _] _].
      rewrite bool_decide_eq_true_2; [apply orb_true_r|]. intros E. by rewrite E in Hms. }
    destruct (Hevent (connect_ s) (Connector.TimerFires i k)) as (s1 & Hrun & Hinv1 & Hl); try done. rewrite Hsame in Hrun.
    cbn [handle]. rewrite (bind_run _ _ _ _ _ Hrun). apply life_fields in Hl as (Ea & Eh & Ec).
    apply release_inv; rewrite ?Ea, ?Eh, ?Ec; [done|done|apply Hown|].
    intros A B. apply (idle_timer s i k); try done. by apply (o_quiet _ Hown).
  - apply andb_true_iff in Hcon as [Hcon Hid]. apply bool_decide_eq_true in Hid, Hpos. apply Hstays. rewrite <- Hsame. cbn [handle].
    destruct (Hkept (connect_ s) (Connector.Ready r err self)) as (s' & ? & ?); try done; [|by exists s'].
    apply not_false_iff_true. intros [A B]%orb_false_iff. pose proof (o_quiet _ Hown A B) as [Hn _]%quiet_spec. by rewrite Hn in Hcon.
  - apply bool_decide_eq_true in Hpos. apply Hstays. eexists. split; [reflexivity|]. split; [|done]. split; [destruct Hi; by split|].
    intros c Ha Hc Hch. destruct (Hahead c Ha Hc Hch) as (_ & q1 & q2 & _ & _ & Hr). rewrite Hpos in Hr. lia.
  - apply bool_decide_eq_true in Hpos. apply Hstays. eexists. split; [reflexivity|]. split; [|done]. split; [destruct Hi; split; first [done|simpl; lia]|].
    intros c Ha Hc Hch. destruct (Hahead c Ha Hc Hch) as (? & q1 & q2 & Hq & ? & _). split; [done|]. exists q1, q2. simpl.
    split_and!; [done|done|]. rewrite Hq, length_app. simpl. lia.
  - apply Hstays. by apply client_functor_step.
  - rewrite !andb_true_iff, !bool_decide_eq_true in Hpos. destruct Hpos as [[Hr Hpl] Hu]. unfold is_up in Hu.
    destruct (conns s !! c) as [k0|] eqn:Hk; [|done]. apply bool_decide_eq_true in Hu. apply Hstays.
    destruct (close_inv s c k0 k Hinv Hk Hu) as (s' & ? & ? & ? & Hdead & _);
      [intros Ha; apply owned_held; [done|by rewrite Ha]| |done|exists s'; split_and!; [done|done|]; split; [done|by intros A _; apply Hdead]].
    intros Ha. destruct (Connector.channel_ (connector_ s)) as [a|] eqn:Hch; [exfalso|done].
    pose proof (i_up _ _ Hi c k0 Hk Hu) as Hc. rewrite Ha in Hc. destruct (Hahead c Ha Hc) as [? _]; [done|lia].
  - unfold is_up in Hpos. destruct (conns s !! c) as [k0|] eqn:Hk; [|done]. apply Hstays.
    destruct (forced_inv s c k0 Hinv Hk) as (s' & ? & ? & E). exists s'. split_and!; [done|done|]. by rewrite E.
  - by apply gone_inv.
  - apply andb_true_iff in Hpos as [_ Hh]. assert (inv (set_holds false s)) as Hinv' by (destruct Hi; by split; [split|]).
    destruct (alive s) eqn:A; [pose proof (o_client _ Hown A); congruence|].
    cbn [handle]. unfold removeConnector, modify, mbind, st_bind.
    apply release_inv; [done|simpl; apply owned_held; [done|by rewrite Hh, orb_true_r]|simpl; congruence|done].
Qed.

Lemma client_init cs (w : world P) next :
  Client.shows cs w -> (forall a, next <= a -> Client.objs cs !! a = None) ->
  inv (TcpClient (Connector.Connector w next)) /\ owned (TcpClient (Connector.Connector w next)).
Proof.
  intros Hs Hn. split; [|by split]. split; [|by intros c]. split; simpl; try done; [by eapply Connector.connector_init|].
  by intros c [?%not_elem_of_nil|?%not_elem_of_nil].
Qed.

Lemma client_reachable_inv s0 s : inv s0 /\ owned s0 -> reachable ipPort_ name_ s0 s -> inv s /\ owned s.
Proof.
  intros Hi. induction 1 as [|s e s' _ IH Hp Hc Hrun]; [done|].
  destruct (client_step s e IH Hp Hc) as (s2 & Hrun2 & ?). rewrite Hrun in Hrun2. by injection Hrun2 as <-.
Qed.

(** C29: In any loop, however the calls, the functors, the timers, the ready channels, the
    closing connections and the destruction of the client interleave within the contract: no
    assertion of the client, of its connections or of its connector fails, that of
    [~Connector] included, and nobody uses a destroyed client or connector; so the restart
    after a connection closed, and the end of a connection whose client is gone, are always
    allowed.  The connector lives exactly as long as the client, the timer of the client's
    destructor or a timer of its own holds it.  Every socket of the connector is one
    connection, named after its number.  While the client exists, [connection_] is the one
    connection that is up, the last one, and the connector makes no other attempt.  A
    connection that is down has exactly one [connectDestroyed] to come.  (The contract asks
    that a client with a connection is destroyed when its connector has let its channel go
    and has no functor queued, see [destroyed_too_early].) *)
Theorem client_safe cs (w : world P) next s :
  Client.shows cs w -> (forall a, next <= a -> Client.objs cs !! a = None) ->
  reachable ipPort_ name_ (TcpClient (Connector.Connector w next)) s ->
  (forall e, possible s e = true -> contract s e = true -> exists s', handle ipPort_ name_ e s = Ok (tt, s')) /\
  (connector_alive s = true <-> alive s = true \/ holds s = true \/ Connector.timers (connector_ s) <> []) /\
  (connector_alive s = false -> Connector.channel_ (connector_ s) = None /\ of_connector (pendingFunctors s) = []) /\
  map conn_fd (conns s) = Connector.given (connector_ s) /\
  (forall c k, conns s !! c = Some k -> conn_name k = name_of (Z.of_nat (S c))) /\
  (alive s = true -> forall c, (exists k, conns s !! c = Some k /\ conn_life k = Up) <-> connection_ s = Some c) /\
  (alive s = true -> forall c, connection_ s = Some c ->
     S c = length (conns s) /\ Connector.state_ (connector_ s) = Connector.kConnected /\ Connector.driver (connector_ s) = 0%nat) /\
  (forall c k, conns s !! c = Some k ->
     conn_life k <> Connecting /\ destroys c (pendingFunctors s) = (if decide (conn_life k = Down) then 1 else 0)%nat).
Proof.
  intros Hs Hn Hr. pose proof (client_reachable_inv _ _ (client_init cs w next Hs Hn) Hr) as Hboth.
  pose proof Hboth as [Hinv Hown]. pose proof Hinv as [Hi _].
  split_and!; try apply Hi.
  - intros e Hp Hc. destruct (client_step s e Hboth Hp Hc) as (s' & ? & _). by exists s'.
  - rewrite (o_alive _ Hown). unfold held. rewrite !orb_true_iff, bool_decide_eq_true. tauto.
  - rewrite (o_alive _ Hown). unfold held. rewrite !orb_false_iff. intros [[A B] _].
    by apply quiet_spec, (o_quiet _ Hown).
  - intros Ha c. split.
    + intros (k & Hk & Hup). pose proof (i_up _ _ Hi c k Hk Hup) as Hc. by rewrite Ha in Hc.
    + intros Hc. destruct (i_current _ _ Hi c Ha Hc) as (_ & _ & k & ? & ? & _). by exists k.
  - intros Ha c Hc. destruct (i_current _ _ Hi c Ha Hc) as (Hst & Hl & _). split_and!; [done|done|].
    destruct (i_connector _ _ Hi) as [cs' Hci]. by apply (Connector.i_connected _ _ Hci).
Qed.

(** ** A connection that comes back *)

Fixpoint run (l : list event) s : res t :=
  match l with
  | [] => Ok s
  | e :: l' => match handle ipPort_ name_ e s with Ok (_, s') => run l' s' | Fail f => Fail f end
  end.

Lemma functor_run k f fs n s :
  round s = Functors (S n) -> pendingFunctors s = f :: fs ->
  handle ipPort_ name_ (RunFunctor k) s = run_functor ipPort_ name_ f k (popped fs n s).
Proof. intros Hr Hp. cbn [handle]. unfold get, mbind, st_bind. by rewrite Hr, Hp. Qed.

Lemma client_run_step e l s s1 :
  inv s /\ owned s -> possible s e = true -> contract s e = true -> handle ipPort_ name_ e s = Ok (tt, s1) ->
  run (e :: l) s = run l s1 /\ inv s1 /\ owned s1.
Proof.
  intros Hi Hp Hc Hrun. destruct (client_step s e Hi Hp Hc) as (s2 & Hrun2 & ?). simpl. rewrite Hrun. split; [done|].
  rewrite Hrun in Hrun2. by injection Hrun2 as ->.
Qed.

(** An attempt that is answered becomes the connection. *)
Lemma ready_connects s fd :
  inv s -> connector_alive s = true -> alive s = true -> round s = Channels -> nextConnId_ s + 1 < 2 ^ 31 -> Connector.state_ (connector_ s) = Connector.kConnecting ->
  Connector.connect_ (connector_ s) = true -> Connector.holding (connector_ s) = [fd] ->
  exists s', handle ipPort_ name_ (Ready POLLOUT 0 false) s = Ok (tt, s') /\ connection_ s' = Some (length (conns s)) /\
    conns s' = conns s ++ [mk_conn (name_of (nextConnId_ s)) fd Up ByClient].
Proof.
  intros [Hi Hahead] Hcl Ha Hr Hid Hst Hcn Hh. destruct (i_connector _ _ Hi) as [cs Hci].
  assert (connection_ s = None) as Hn.
  { destruct (connection_ s) as [i|] eqn:Eci; [|done]. destruct (i_current _ _ Hi i Ha Eci) as (? & _). congruence. }
  destruct (Connector.inv_connecting _ _ Hci Hst) as (a & fd' & Hca & Ho & _).
  destruct (Client.shows_chan _ _ _ _ _ (Connector.i_shows _ _ Hci) Ho) as (ch & Hcc & _ & He).
  destruct (Connector.ready_inv (connector_ s) POLLOUT 0 false) as (x & Hrun & Hx & Hok); [by exists cs| |].
  { unfold Connector.contract. rewrite Hca, Hcc. unfold Channel.isNoneEvent. by rewrite He. }
  destruct (Hok eq_refl eq_refl eq_refl Hcn) as (Hst' & Hg & _). rewrite Hh in Hg.
  destruct (ConnectorSteps.step_shape _ _ _ Hrun) as (_ & _ & [Hsame|[_ Hgives]]).
  { rewrite Hsame in Hg. apply (f_equal length) in Hg. rewrite length_app in Hg. simpl in Hg. lia. }
  pose proof (ConnectorSteps.gives_pending _ _ Hgives) as Hp.
  destruct (connection_made s x fd _ Hi Ha Hn Hid Hr Hx Hp Hg Hst') as (s' & Hnew & _ & _ & Hc & Hl & _).
  exists s'. split; [|done]. cbn [handle]. unfold on_connector. rewrite Hcl. cbn [check mbind res_bind]. rewrite Hrun, Hg, drop_app_length. simpl. rewrite Hp, drop_app_length.
  cbn [for_each]. unfold mbind, st_bind. change (set_functors _ _) with (advanced [Connector.F_reset] x s). by rewrite Hnew.
Qed.

(** C30: With [enableRetry], a connection that closes comes back: when the next attempt is
    answered, the connection after it is up in the next turn of the loop, on the new socket
    and under the next name, and the one that closed is destroyed. *)
Theorem client_reconnects cs (w : world P) next s c fd :
  Client.shows cs w -> (forall a, next <= a -> Client.objs cs !! a = None) ->
  reachable ipPort_ name_ (TcpClient (Connector.Connector w next)) s ->
  alive s = true -> retry_ s = true -> connect_ s = true -> connection_ s = Some c -> pendingFunctors s = [] ->
  possible s (PeerCloses c (fd, Connector.EINPROGRESS)) = true -> contract s (PeerCloses c (fd, Connector.EINPROGRESS)) = true ->
  nextConnId_ s + 1 < 2 ^ 31 ->
  exists s', run [PeerCloses c (fd, Connector.EINPROGRESS); Swap; RunFunctor (0, 0); Poll; Ready POLLOUT 0 false] s = Ok s' /\
    connection_ s' = Some (S c) /\ length (conns s') = S (S c) /\
    conns s' !! S c = Some (mk_conn (name_of (nextConnId_ s)) fd Up ByClient) /\
    (exists k, conns s' !! c = Some k /\ conn_life k = Destroyed).
Proof.
  intros Hs Hn Hr Ha Hre Hcn Hc Hp Hpos Hnew Hid.
  pose proof (client_reachable_inv _ _ (client_init cs w next Hs Hn) Hr) as Hboth.
  pose proof Hboth as [Hinv Hown]. pose proof Hinv as [Hi Hahead]. pose proof (owned_held s Hown ltac:(by rewrite Ha)) as Hcl.
  simpl in Hpos, Hnew. rewrite !andb_true_iff, !bool_decide_eq_true in Hpos. destruct Hpos as [[Hround Hpl] _].
  destruct (i_current _ _ Hi c Ha Hc) as (Hst & Hlast & k & Hk & Hup & _).
  assert (Connector.channel_ (connector_ s) = None) as Hch.
  { destruct (Connector.channel_ (connector_ s)) eqn:Hch; [|done]. destruct (Hahead c Ha Hc) as [? _]; [done|lia]. }
  destruct (close_inv s c k _ Hinv Hk Hup (fun _ => Hcl) (fun _ => Hch) Hnew) as (s1 & Hclose & Hinv1 & Hlife1 & _ & Hthen).
  destruct (Hthen Ha) as [Hc1 Hshape]. rewrite Hre, Hcn in Hshape. destruct Hshape as (x & new & Hrun & ->). clear Hthen.
  destruct (i_connector _ _ Hi) as [cs1 Hci].
  destruct (Connector.restart_attempts (connector_ s) fd) as (x' & Hrun' & Hx & Hxst & Hxcn & Hxh & Hxg); try done;
    [by exists cs1|by apply (Connector.i_connected _ _ Hci)|]. rewrite Hrun in Hrun'. injection Hrun' as <-.
  assert (new = []) as ->.
  { pose proof (i_queue _ _ (proj1 Hinv1)) as Hq. simpl in Hq. rewrite Hp, of_connector_app, of_connector_map in Hq.
    rewrite (ConnectorSteps.restart_same _ _ _ Hrun), <- (i_queue _ _ Hi), Hp in Hq. exact Hq. }
  set (s1 := advanced [] x (closed c k None s)) in *. pose proof (lookup_lt_Some _ _ _ Hk) as Hlt.
  assert (conns s1 !! c = Some (mk_conn (conn_name k) (conn_fd k) Down (closeCallback k))) as Hk1 by (by apply list_lookup_insert_eq).
  assert (pendingFunctors s1 = [F_connectDestroyed c]) as Hp1 by (simpl; by rewrite Hp).
  set (s2 := set_round (Functors 1) s1). set (s3 := with_life c (mk_conn (conn_name k) (conn_fd k) Down (closeCallback k)) Destroyed (popped [] 0 s2)).
  set (s4 := set_polled (length (conns s3)) (set_round Channels s3)).
  assert (handle ipPort_ name_ (PeerCloses c (fd, Connector.EINPROGRESS)) s = Ok (tt, s1)) as R1 by exact Hclose.
  assert (handle ipPort_ name_ Swap s1 = Ok (tt, s2)) as R2 by (cbn [handle]; unfold modify; by rewrite Hp1).
  assert (handle ipPort_ name_ (RunFunctor (0, 0)) s2 = Ok (tt, s3)) as R3.
  { rewrite (functor_run _ _ _ _ s2 eq_refl Hp1). cbn [run_functor]. unfold connectDestroyed.
    rewrite (bind_run _ _ _ _ _ (client_the_conn_run c _ (popped [] 0 s2) Hk1)). rewrite assert_run by done. by apply client_set_life_run. }
  assert (handle ipPort_ name_ Poll s3 = Ok (tt, s4)) as R4 by done.
  assert (Hpc : possible s (PeerCloses c (fd, Connector.EINPROGRESS)) = true).
  { simpl. unfold is_up. rewrite Hround, Hk, Hup, !bool_decide_eq_true_2 by done. done. }
  destruct (client_run_step _ [Swap; RunFunctor (0, 0); Poll; Ready POLLOUT 0 false] _ _ Hboth Hpc Hnew R1) as [-> [_ Hown1]].
  assert (possible s1 Swap = true) as Hp2 by (simpl; by rewrite Hround).
  destruct (client_run_step _ [RunFunctor (0, 0); Poll; Ready POLLOUT 0 false] _ _ (conj Hinv1 Hown1) Hp2 eq_refl R2) as [-> [Hinv2 Hown2]].
  assert (run [RunFunctor (0, 0); Poll; Ready POLLOUT 0 false] s2 = run [Poll; Ready POLLOUT 0 false] s3 /\ inv s3) as [-> Hinv3].
  { split; [change (run (RunFunctor (0, 0) :: ?l) s2) with (match handle ipPort_ name_ (RunFunctor (0, 0)) s2 with Ok (_, s') => run l s' | Fail f => Fail f end); by rewrite R3|]. rewrite (functor_run _ _ _ _ s2 eq_refl Hp1) in R3.
    destruct (inv0_destroyed _ s2 c [] 0 (proj1 Hinv2) Hp1 eq_refl) as (s' & Hrun3 & Hi3 & _). cbn [run_functor] in R3.
    rewrite R3 in Hrun3. injection Hrun3 as <-. by split. }
  assert (owned s3) as Hown3 by (by apply (owned_stays s2)).
  destruct (client_run_step Poll [Ready POLLOUT 0 false] s3 s4 (conj Hinv3 Hown3) eq_refl eq_refl R4) as [-> [Hinv4 Hown4]].
  destruct (ready_connects s4 fd Hinv4 (owned_held s4 Hown4 ltac:(simpl; by rewrite Ha))) as (s5 & R5 & Hc5 & Hl5); try done.
  exists s5. cbn [run]. rewrite R5. split; [done|]. assert (length (conns s4) = S c) as Hl4 by (simpl; rewrite !length_insert; done).
  rewrite Hc5, Hl5, length_app, Hl4. split_and!; [done|simpl; lia|by apply list_lookup_middle|].
  eexists. rewrite lookup_app_l by lia. split; [apply list_lookup_insert_eq; simpl; rewrite length_insert; exact Hlt|done].
Qed.

(** A run whose every step is possible and within the contract. *)
Fixpoint legal (l : list event) s : option t :=
  match l with
  | [] => Some s
  | e :: l' =>
      if possible s e && contract s e then
        match handle ipPort_ name_ e s with Ok (_, s') => legal l' s' | Fail _ => None end
      else None
  end.

Lemma legal_reachable s0 l s s' : reachable ipPort_ name_ s0 s -> legal l s = Some s' -> reachable ipPort_ name_ s0 s'.
Proof.
  revert s; induction l as [|e l IH]; intros s Hr; [by intros [= <-]|]. simpl.
  destruct (possible s e && contract s e) eqn:Hok; [|done]. apply andb_true_iff in Hok as [Hp Hc].
  destruct (handle ipPort_ name_ e s) as [[[] s1]|] eqn:Hrun; [|done]. apply IH. by eapply reach_step.
Qed.
End proofs.

(** ** Concrete runs *)

Definition client0 : t (P := PollPoller.t) := TcpClient (Connector.Connector Connector.empty_loop 100).
Definition server : bytes := bs "10.0.0.1:80".
Definition client_name : bytes := bs "c".

(** The client connects, and the connection is polled. *)
Definition connects : list event :=
  [Connect (5, Connector.EINPROGRESS); Poll; Ready POLLOUT 0 false; EnableRetry; Swap; RunFunctor (6, 0); Poll].

Definition connected : t (P := PollPoller.t) :=
  Eval vm_compute in match legal server client_name connects client0 with Some s => s | None => client0 end.

Lemma connected_reachable : reachable server client_name client0 connected.
Proof. apply (legal_reachable server client_name client0 connects client0); [constructor|]. vm_compute. reflexivity. Qed.

Lemma client_safe_witness : exists s', handle server client_name (PeerCloses 0 (6, Connector.EINPROGRESS)) connected = Ok (tt, s').
Proof.
  destruct (client_safe server client_name Client.init Connector.empty_loop 100 connected) as (Hok & _).
  - exact Connector.empty_loop_shown.
  - intros a _. reflexivity.
  - exact connected_reachable.
  - apply Hok; vm_compute; reflexivity.
Defined.

Lemma client_reconnects_witness :
  exists s' : t (P := PollPoller.t), conns s' !! 1%nat = Some (mk_conn (bs "c:10.0.0.1:80#2") 6 Up ByClient) /\ connection_ s' = Some 1%nat.
Proof.
  destruct (client_reconnects server client_name Client.init Connector.empty_loop 100 connected 0 6) as (s' & _ & Hc & _ & Hk & _).
  - exact Connector.empty_loop_shown.
  - intros a _. reflexivity.
  - exact connected_reachable.
  - reflexivity.
  - reflexivity.
  - reflexivity.
  - reflexivity.
  - reflexivity.
  - vm_compute. reflexivity.
  - vm_compute. reflexivity.
  - vm_compute. reflexivity.
  - exists s'. split; [rewrite Hk; vm_compute; reflexivity|exact Hc].
Defined.

(** Without [enableRetry] the connector stays connected when the connection closes, so that a
    later [connect] fails the assertion of [startInLoop]. *)
Lemma connect_again_asserts :
  run server client_name
    [Connect (5, Connector.EINPROGRESS); Poll; Ready POLLOUT 0 false; Swap; RunFunctor (6, 0); Poll; PeerCloses 0 (6, 0);
     Swap; RunFunctor (6, 0); Connect (6, Connector.EINPROGRESS)] client0 = Fail AssertionFailed.
Proof. vm_compute. reflexivity. Qed.

(** A client is destroyed in an orderly way: the connection is up, the functor that resets the
    channel has run; the connector goes with the client, the connection ends by itself. *)
Example destroyed_in_order : exists s,
  legal server client_name (connects ++ [ClientGone true; Swap; RunFunctor (6, 0); Poll; Swap; RunFunctor (6, 0)]) client0 = Some s /\
  connector_alive s = false /\ map conn_life (conns s) = [Destroyed].
Proof. eexists. split; [vm_compute; reflexivity|]. split; reflexivity. Qed.

(** And in the middle of an attempt: the timer holds the connector until the attempt is taken
    back and the channel is reset. *)
Example destroyed_while_connecting : exists s,
  legal server client_name [Connect (5, Connector.EINPROGRESS); ClientGone true; Poll; Swap; RunFunctor (6, 0); Poll; Swap; RunFunctor (6, 0); Poll; HolderFires] client0
    = Some s /\ connector_alive s = false /\ Connector.closed (connector_ s) = [5].
Proof. eexists. split; [vm_compute; reflexivity|]. split; reflexivity. Qed.

(** The contract is needed.  A client that is destroyed before its connector's channel is
    reset, in the callback of the new connection say, fails the assertion of [~Connector]; a
    client that is stopped and then destroyed while it has a connection leaves a functor that
    is bound to the destroyed connector; and a client without a connection that is destroyed
    relies on its loop to run the functors within a second. *)
Lemma destroyed_too_early :
  run server client_name [Connect (5, Connector.EINPROGRESS); Poll; Ready POLLOUT 0 false; ClientGone true] client0 = Fail AssertionFailed /\
  run server client_name (connects ++ [StopClient; ClientGone true; Swap; RunFunctor (6, 0)]) client0 = Fail UseAfterFree /\
  run server client_name [Connect (5, Connector.EINPROGRESS); Poll; ClientGone true; HolderFires] client0 = Fail AssertionFailed.
Proof. vm_compute. split_and!; reflexivity. Qed.

(** The names of connections to a server with a long address are cut before the number. *)
Lemma long_address_names :
  conn_name_of (bs "fe80:1234:5678:9abc:def0:1234:5678:9abc:65535") client_name 1 =
  conn_name_of (bs "fe80:1234:5678:9abc:def0:1234:5678:9abc:65535") client_name 2.
Proof. vm_compute. reflexivity. Qed.
End TcpClient.
