(* ===== verification/Server.v ===== *)
(** The server side ([muduo/net/TcpServer.*], [EventLoopThreadPool.*], [Acceptor.*]).

    A [TcpServer] gives each new connection to a loop of its pool, keeps it in a map by name
    and takes it out when it closes.  Connections are seen as their owner sees them: open,
    closed, destroyed, each transition once (Connection.v proves that of one connection).
    The loops are threads: an event runs one functor of one loop. *)
From S2P Require Import Prelude State Decimal.
Open Scope Z_scope.

(** ** The pool *)

Module EventLoopThreadPool.

(** Loops are numbers; the base loop is 0, the loop of the [i]-th thread is [i + 1]. *)
Record t := mk { started_ : bool; numThreads_ : Z; next_ : Z; loops_ : list nat }.

Definition baseLoop_ : nat := 0%nat.

Definition EventLoopThreadPool : t := mk false 0 0 [].

Definition setThreadNum (n : Z) (p : t) : t := mk (started_ p) n (next_ p) (loops_ p).

(** [start]; [startLoop] returns the loop of a new thread. *)
Definition start (p : t) : res t :=
  _ ← assert_ (negb (started_ p));
  mret (mk true (numThreads_ p) (next_ p) (loops_ p ++ map S (seq 0 (Z.to_nat (numThreads_ p))))).

Definition getNextLoop (p : t) : res (nat * t) :=
  _ ← assert_ (started_ p);
  match loops_ p with
  | [] => mret (baseLoop_, p)
  | _ :: _ =>
      match loops_ p !! Z.to_nat (next_ p) with
      | None => Fail OutOfBounds
      | Some loop =>
          let next := next_ p + 1 in
          let next := if bool_decide (next >= lenZ (loops_ p)) then 0 else next in
          mret (loop, mk (started_ p) (numThreads_ p) next (loops_ p))
      end
  end.

Definition getLoopForHash (hashCode : Z) (p : t) : nat :=
  match loops_ p with
  | [] => baseLoop_
  | l => default baseLoop_ (l !! Z.to_nat (hashCode mod lenZ l))
  end.

Definition getAllLoops (p : t) : res (list nat) :=
  _ ← assert_ (started_ p);
  mret (match loops_ p with [] => [baseLoop_] | l => l end).

End EventLoopThreadPool.

(** ** The acceptor's reaction to a ready listening socket *)

Module Acceptor.

Definition EMFILE : Z := 24.

(** The kernel: the connections that wait, and how many descriptors are open.  [idleFd_] is
    whether the spare descriptor is open. *)
Record t := mk { listenning_ : bool; idleFd_ : bool; backlog : list Z; nopen : Z }.

Section acceptor.
(** The limit of open descriptors, and whether a callback is set. *)
Context (limit : Z) (newConnectionCallback_ : bool).

(** [accept(2)]: the peer, or the errno. *)
Definition accept (s : t) : (Z + Z) * t :=
  match backlog s with
  | [] => (inr 11, s)
  | peer :: rest =>
      if bool_decide (nopen s < limit) then (inl peer, mk (listenning_ s) (idleFd_ s) rest (nopen s + 1))
      else (inr EMFILE, s)
  end.

Definition close_one (s : t) : t := mk (listenning_ s) (idleFd_ s) (backlog s) (nopen s - 1).

Definition open_idle (s : t) : t :=
  if bool_decide (nopen s < limit) then mk (listenning_ s) true (backlog s) (nopen s + 1)
  else mk (listenning_ s) false (backlog s) (nopen s).

(** [handleRead]: the connection handed over, if any. *)
Definition handleRead (s : t) : option Z * t :=
  match accept s with
  | (inl connfd, s) => if newConnectionCallback_ then (Some connfd, s) else (None, close_one s)
  | (inr errno, s) =>
      if bool_decide (errno = EMFILE) then
        let s := if idleFd_ s then close_one s else s in
        match accept s with
        | (inl _, s) => (None, open_idle (close_one s))
        | (inr _, s) => (None, open_idle s)
        end
      else (None, s)
  end.

Definition listen (s : t) : t := mk true (idleFd_ s) (backlog s) (nopen s).

(** Every ready event takes one waiting connection off the kernel's queue, also when the
    process has no descriptor left but the spare one; the spare one is there again after
    it, and the limit is kept. *)
Lemma handleRead_takes_one s peer rest :
  backlog s = peer :: rest -> idleFd_ s = true -> 0 < nopen s <= limit ->
  let '(handed, s') := handleRead s in
  backlog s' = rest /\ idleFd_ s' = true /\ nopen s' <= limit /\
  (nopen s < limit -> handed = if newConnectionCallback_ then Some peer else None) /\
  (nopen s = limit -> handed = None /\ nopen s' = nopen s).
Proof.
  intros Hb Hi Hn. unfold handleRead, accept. rewrite Hb. destruct (bool_decide_reflect (nopen s < limit)) as [Hlt|Hge].
  - destruct newConnectionCallback_; simpl; rewrite ?Hi; repeat split; try done; lia.
  - simpl. rewrite Hi. unfold close_one, open_idle. simpl. rewrite Hb. rewrite bool_decide_eq_true_2 by lia. simpl.
    rewrite bool_decide_eq_true_2 by lia. simpl. repeat split; try done; lia.
Qed.
End acceptor.
End Acceptor.

(** ** The server *)

Module TcpServer.

(** A connection as its owner sees it. *)
Inductive life := Connecting | Up | Down | Destroyed.

#[global] Instance life_eq_dec : EqDecision life.
Proof. solve_decision. Defined.

Record conn := mk_conn { conn_name : bytes; conn_loop : nat; conn_life : life }.

(** What is queued in a loop, about the connection of a number. *)
Inductive functor :=
  | F_connectEstablished (c : nat)
  | F_removeConnectionInLoop (c : nat)
  | F_connectDestroyed (c : nat).

#[global] Instance functor_eq_dec : EqDecision functor.
Proof. solve_decision. Defined.

Definition about (f : functor) : nat :=
  match f with F_connectEstablished c | F_removeConnectionInLoop c | F_connectDestroyed c => c end.

(** [connections_] maps names to connections; beside the members of the class: all the
    connections ever made, the functors queued in the loops, in order, and whether the
    server still exists. *)
Record t := mk {
  started_ : Z;
  nextConnId_ : Z;
  connections_ : gmap bytes nat;
  threadPool_ : EventLoopThreadPool.t;
  listening : bool;
  conns : list conn;
  pending : list (nat * functor);
  alive : bool
}.

Section server.
(** [ipPort_] and [name_]. *)
Context (ipPort_ name_ : bytes).

Abbreviation M := (ST t).

Definition TcpServer : t := mk 0 1 ∅ EventLoopThreadPool.EventLoopThreadPool false [] [] true.

Definition set_pool p (s : t) := mk (started_ s) (nextConnId_ s) (connections_ s) p (listening s) (conns s) (pending s) (alive s).
Definition set_started b (s : t) := mk b (nextConnId_ s) (connections_ s) (threadPool_ s) (listening s) (conns s) (pending s) (alive s).
Definition set_listening b (s : t) := mk (started_ s) (nextConnId_ s) (connections_ s) (threadPool_ s) b (conns s) (pending s) (alive s).
Definition set_id i (s : t) := mk (started_ s) i (connections_ s) (threadPool_ s) (listening s) (conns s) (pending s) (alive s).
Definition set_connections m (s : t) := mk (started_ s) (nextConnId_ s) m (threadPool_ s) (listening s) (conns s) (pending s) (alive s).
Definition set_conns l (s : t) := mk (started_ s) (nextConnId_ s) (connections_ s) (threadPool_ s) (listening s) l (pending s) (alive s).
Definition set_pending l (s : t) := mk (started_ s) (nextConnId_ s) (connections_ s) (threadPool_ s) (listening s) (conns s) l (alive s).
Definition set_alive b (s : t) := mk (started_ s) (nextConnId_ s) (connections_ s) (threadPool_ s) (listening s) (conns s) (pending s) b.

(** ** A connection, by its number *)

Definition the_conn (c : nat) : M conn :=
  s ← get;
  match conns s !! c with Some k => mret k | None => fail UseAfterFree end.

Definition set_life (c : nat) (l : life) : M unit :=
  k ← the_conn c;
  modify (fun s => set_conns (<[c := mk_conn (conn_name k) (conn_loop k) l]> (conns s)) s).

(** What [TcpConnection] asserts of its owner. *)
Definition connectEstablished (c : nat) : M unit :=
  k ← the_conn c;
  _ ← sassert (bool_decide (conn_life k = Connecting));
  set_life c Up.

Definition connectDestroyed (c : nat) : M unit :=
  k ← the_conn c;
  _ ← sassert (bool_decide (conn_life k = Up \/ conn_life k = Down));
  set_life c Destroyed.

(** ** The loops *)

Definition queueInLoop (loop : nat) (f : functor) : M unit := modify (fun s => set_pending (pending s ++ [(loop, f)]) s).

(** [newConnection]'s name for the connection. *)
Definition conn_name_of (id : Z) : bytes := name_ ++ (snprintf 64 (bs "-" ++ ipPort_ ++ bs "#" ++ dec id)).1.

Definition removeConnectionInLoop (c : nat) : M unit :=
  s ← get;
  _ ← lift (check UseAfterFree (alive s));
  k ← the_conn c;
  let n := if connections_ s !! conn_name k then 1 else 0 in
  _ ← modify (set_connections (delete (conn_name k) (connections_ s)));
  _ ← sassert (bool_decide (n = 1));
  queueInLoop (conn_loop k) (F_connectDestroyed c).

Definition run_functor (f : functor) : M unit :=
  match f with
  | F_connectEstablished c => connectEstablished c
  | F_removeConnectionInLoop c => removeConnectionInLoop c
  | F_connectDestroyed c => connectDestroyed c
  end.

(** [runInLoop(f)] called in the loop [here]. *)
Definition runInLoop (here loop : nat) (f : functor) : M unit :=
  if decide (here = loop) then run_functor f else queueInLoop loop f.

Definition baseLoop : nat := EventLoopThreadPool.baseLoop_.

(** [removeConnection], the close callback, called in the connection's loop. *)
Definition removeConnection (c : nat) : M unit :=
  s ← get;
  _ ← lift (check UseAfterFree (alive s));
  k ← the_conn c;
  runInLoop (conn_loop k) baseLoop (F_removeConnectionInLoop c).

(** The handler that closes a connection, in its loop. *)
Definition handleClose (c : nat) : M unit :=
  k ← the_conn c;
  _ ← sassert (bool_decide (conn_life k = Up));
  _ ← set_life c Down;
  removeConnection c.

Definition newConnection : M unit :=
  s ← get;
  '(ioLoop, pool) ← lift (EventLoopThreadPool.getNextLoop (threadPool_ s));
  _ ← modify (set_pool pool);
  let connName := conn_name_of (nextConnId_ s) in
  _ ← lift (check Overflow (bool_decide (nextConnId_ s + 1 < 2 ^ 31)));
  _ ← modify (set_id (nextConnId_ s + 1));
  let c := length (conns s) in
  _ ← modify (fun s => set_conns (conns s ++ [mk_conn connName ioLoop Connecting]) s);
  _ ← modify (fun s => set_connections (<[connName := c]> (connections_ s)) s);
  runInLoop baseLoop ioLoop (F_connectEstablished c).

Definition setThreadNum (numThreads : Z) : M unit :=
  _ ← sassert (bool_decide (0 <= numThreads));
  modify (fun s => set_pool (EventLoopThreadPool.setThreadNum numThreads (threadPool_ s)) s).

Definition start : M unit :=
  s ← get;
  _ ← modify (set_started 1);
  when_ (bool_decide (started_ s = 0))
    (p ← lift (EventLoopThreadPool.start (threadPool_ s));
     _ ← modify (set_pool p);
     _ ← sassert (negb (listening s));
     modify (set_listening true)).

(** The destructor, in the base loop.  The destruction of [threadPool_] behind it, which quits
    and joins the threads, is that of LoopThread.v. *)
Definition destruct_server : M unit :=
  s ← get;
  _ ← for_each (fun item : bytes * nat =>
        k ← the_conn item.2;
        runInLoop baseLoop (conn_loop k) (F_connectDestroyed item.2)) (map_to_list (connections_ s));
  _ ← modify (set_connections ∅);
  modify (set_alive false).

(** ** The interleaving *)

Inductive event :=
  | SetThreadNum (n : Z)
  | Start
  | Accept
  | Close (c : nat)       (* the connection closes, in its loop *)
  | Run (i : nat)         (* the [i]-th pending functor, the first one of its loop *)
  | ServerGone.

Definition handle (e : event) : M unit :=
  match e with
  | SetThreadNum n => setThreadNum n
  | Start => start
  | Accept => newConnection
  | Close c => handleClose c
  | Run i =>
      s ← get;
      match pending s !! i with
      | Some (loop, f) => _ ← modify (set_pending (delete i (pending s))); run_functor f
      | None => mret tt
      end
  | ServerGone => destruct_server
  end.

(** What can happen: threads are set before the start; the acceptor's callback needs the
    server and a listening socket; open connections close; loops keep the order of their
    functors. *)
Definition possible (s : t) (e : event) : bool :=
  match e with
  | SetThreadNum n => alive s && bool_decide (started_ s = 0) && bool_decide (0 <= n)
  | Start => alive s
  | Accept => alive s && listening s
  | Close c => match conns s !! c with Some k => bool_decide (conn_life k = Up) | None => false end
  | Run i => match pending s !! i with
             | Some (loop, _) => bool_decide (Forall (fun p => p.1 <> loop) (take i (pending s)))
             | None => false
             end
  | ServerGone => alive s
  end.

(** The owner's contract: fewer than [2^31 - 1] connections; the server is not destroyed
    while a connection's removal is queued, and no connection closes by itself after it. *)
Definition contract (s : t) (e : event) : bool :=
  match e with
  | Accept => bool_decide (nextConnId_ s + 1 < 2 ^ 31)
  | Close _ => alive s
  | ServerGone => forallb (fun p => match p.2 with F_removeConnectionInLoop _ => false | _ => true end) (pending s)
  | _ => true
  end.

Inductive reachable : t -> Prop :=
  | reach_start : reachable TcpServer
  | reach_step s e s' : reachable s -> possible s e = true -> contract s e = true -> handle e s = Ok (tt, s') -> reachable s'.

End server.

(** ** What the owner keeps of each connection *)

Section proofs.
Context (ipPort_ name_ : bytes).
(** [ipPort] as [toIpPort] prints it: at most 47 characters, an address in brackets and a port. *)
Context (ipPort_short : (length ipPort_ <= 47)%nat).

Abbreviation name_of := (conn_name_of ipPort_ name_).

(** The queued functors about a connection, each with its loop. *)
Definition tasks (c : nat) (l : list (nat * functor)) : list (nat * functor) := filter (fun p => about p.2 = c) l.

Definition in_map (s : t) (c : nat) (k : conn) : Prop := connections_ s !! conn_name k = Some c.

(** Kept by the server: what is still to come while it is in the map. *)
Definition kept (l : list (nat * functor)) (c : nat) (k : conn) : Prop :=
  match conn_life k with
  | Connecting => tasks c l = [(conn_loop k, F_connectEstablished c)] /\ conn_loop k <> baseLoop
  | Up => tasks c l = []
  | Down => tasks c l = [(baseLoop, F_removeConnectionInLoop c)]
  | Destroyed => False
  end.

(** Let go: its destruction is queued in its loop, or has happened. *)
Definition let_go (l : list (nat * functor)) (c : nat) (k : conn) : Prop :=
  match conn_life k with
  | Connecting => tasks c l = [(conn_loop k, F_connectEstablished c); (conn_loop k, F_connectDestroyed c)]
  | Up | Down => tasks c l = [(conn_loop k, F_connectDestroyed c)]
  | Destroyed => tasks c l = []
  end.

Definition stage (s : t) (c : nat) (k : conn) : Prop :=
  (alive s = true /\ in_map s c k /\ kept (pending s) c k) \/
  (~ in_map s c k /\ let_go (pending s) c k /\ (alive s = true -> conn_life k = Down \/ conn_life k = Destroyed)).

(** The loop of the [c]-th connection. *)
Definition loop_of (p : EventLoopThreadPool.t) (c : nat) : nat :=
  match length (EventLoopThreadPool.loops_ p) with O => baseLoop | n => S (c mod n) end.

(** The index of the next loop after [n] connections. *)
Definition turn (n : nat) (loops : list nat) : Z := if decide (loops = []) then 0 else Z.of_nat (n mod length loops).

Definition pool_ok (s : t) : Prop :=
  let p := threadPool_ s in
  if decide (started_ s = 0) then
    EventLoopThreadPool.started_ p = false /\ EventLoopThreadPool.loops_ p = [] /\ EventLoopThreadPool.next_ p = 0 /\
    listening s = false /\ conns s = []
  else
    EventLoopThreadPool.started_ p = true /\
    EventLoopThreadPool.loops_ p = map S (seq 0 (length (EventLoopThreadPool.loops_ p))) /\
    EventLoopThreadPool.next_ p = turn (length (conns s)) (EventLoopThreadPool.loops_ p).

Record inv (s : t) : Prop := {
  i_stage : forall c k, conns s !! c = Some k -> stage s c k;
  i_pending : forall p, p ∈ pending s -> is_Some (conns s !! about p.2);
  i_map : forall n c, connections_ s !! n = Some c -> exists k, conns s !! c = Some k /\ conn_name k = n;
  i_conn : forall c k, conns s !! c = Some k ->
    conn_name k = name_of (Z.of_nat (S c)) /\ conn_loop k = loop_of (threadPool_ s) c;
  i_id : nextConnId_ s = Z.of_nat (S (length (conns s))) /\ nextConnId_ s <= 2 ^ 31 - 1;
  i_gone : alive s = false -> connections_ s = ∅;
  i_pool : pool_ok s
}.

Lemma name_of_inj i j : s_in 32 i -> s_in 32 j -> name_of i = name_of j -> i = j.
Proof using ipPort_short.
  intros Hi Hj. unfold conn_name_of. intros Heq%(inj (app name_)).
  rewrite !snprintf_fits in Heq.
  - apply (inj (app _)), (inj (app _)), (inj (app _)) in Heq. by apply dec_inj.
  - pose proof (dec_length_int j Hj). rewrite !length_app. simpl. lia.
  - pose proof (dec_length_int i Hi). rewrite !length_app. simpl. lia.
Qed.

Lemma conn_names s c1 c2 k1 k2 :
  inv s -> conns s !! c1 = Some k1 -> conns s !! c2 = Some k2 -> conn_name k1 = conn_name k2 -> c1 = c2.
Proof using ipPort_short.
  intros Hi H1 H2 Heq. destruct (i_conn _ Hi _ _ H1) as [Hn1 _], (i_conn _ Hi _ _ H2) as [Hn2 _].
  rewrite Hn1, Hn2 in Heq. pose proof (i_id _ Hi) as [Hid Hle].
  apply lookup_lt_Some in H1, H2. apply name_of_inj in Heq; unfold s_in; simpl; lia.
Qed.

(** Every change about one connection: the others keep their stage. *)
Lemma server_update s s' c k l :
  inv s -> conns s !! c = Some k -> conns s' = <[c := mk_conn (conn_name k) (conn_loop k) l]> (conns s) ->
  threadPool_ s' = threadPool_ s -> started_ s' = started_ s -> nextConnId_ s' = nextConnId_ s ->
  listening s' = listening s -> alive s' = alive s ->
  (forall c', c' <> c -> tasks c' (pending s') = tasks c' (pending s)) ->
  (forall n, n <> conn_name k -> connections_ s' !! n = connections_ s !! n) ->
  (connections_ s' !! conn_name k = connections_ s !! conn_name k \/ connections_ s' !! conn_name k = None) ->
  (forall p, p ∈ pending s' -> p ∈ pending s \/ about p.2 = c) ->
  stage s' c (mk_conn (conn_name k) (conn_loop k) l) -> inv s'.
Proof using ipPort_short.
  intros Hi Hc Hcs Hp Hst Hid Hl Ha Ht Hm Hmc Hpd Hstage.
  assert (forall c' k', conns s' !! c' = Some k' -> exists k0, conns s !! c' = Some k0 /\
    conn_name k' = conn_name k0 /\ conn_loop k' = conn_loop k0 /\ (c' <> c -> k' = k0)) as Hold.
  { intros c' k'. rewrite Hcs. destruct (decide (c' = c)) as [->|Hne].
    - rewrite list_lookup_insert_eq by (by eapply lookup_lt_Some). intros [= <-]. by exists k.
    - rewrite list_lookup_insert_ne by done. intros Hk. by exists k'. }
  assert (forall c', is_Some (conns s !! c') -> is_Some (conns s' !! c')) as Hsome.
  { intros c' Hx. rewrite Hcs. apply lookup_lt_is_Some. rewrite length_insert. by apply lookup_lt_is_Some. }
  pose proof Hi as []. split.
  - intros c' k' Hk'. destruct (decide (c' = c)) as [->|Hne].
    { rewrite Hcs, list_lookup_insert_eq in Hk' by (by eapply lookup_lt_Some). by injection Hk' as <-. }
    destruct (Hold _ _ Hk') as (k0 & Hk0 & _ & _ & Heq). rewrite (Heq Hne) in *.
    assert (conn_name k0 <> conn_name k) as Hnn by (intros Hn; apply Hne; by eapply conn_names).
    unfold stage, in_map, kept, let_go. rewrite Ha, (Ht _ Hne), (Hm _ Hnn). by apply i_stage0.
  - intros p [Hin|<-]%Hpd; apply Hsome; [by apply i_pending0|by exists k].
  - intros n c' Hn. assert (connections_ s !! n = Some c') as Hn0.
    { destruct (decide (n = conn_name k)) as [->|Hne]; [|by rewrite <- Hm]. destruct Hmc as [Hmc|Hmc]; congruence. }
    destruct (i_map0 _ _ Hn0) as (k0 & Hk0 & Hname). destruct (Hsome c') as [k' Hk']; [by exists k0|].
    exists k'. split; [done|]. destruct (Hold _ _ Hk') as (k1 & Hk1 & -> & _). congruence.
  - intros c' k' Hk'. destruct (Hold _ _ Hk') as (k0 & Hk0 & -> & -> & _). rewrite Hp. by apply i_conn0.
  - rewrite Hid, Hcs, length_insert. done.
  - rewrite Ha. intros Hg. apply map_empty. intros n. specialize (i_gone0 Hg). destruct (decide (n = conn_name k)) as [->|Hne].
    + destruct Hmc as [-> | ->]; [|done]. by rewrite i_gone0, lookup_empty.
    + by rewrite Hm, i_gone0, lookup_empty.
  - unfold pool_ok in *. rewrite Hp, Hst, Hl. destruct (decide _).
    + destruct i_pool0 as (? & ? & ? & ? & Hnil). by rewrite Hnil in Hc.
    + by rewrite Hcs, length_insert.
Qed.

(** ** The steps *)

Lemma tasks_snoc c l p : tasks c (l ++ [p]) = tasks c l ++ (if decide (about p.2 = c) then [p] else []).
Proof. unfold tasks. by rewrite list.filter_app. Qed.

Lemma tasks_none c l : (forall p, p ∈ l -> about p.2 <> c) -> tasks c l = [].
Proof.
  intros Hn. apply elem_of_nil_inv. intros p [Hp Hin]%list_elem_of_filter. by apply (Hn p).
Qed.

(** Taking the first functor of a loop out of the queue. *)
Lemma tasks_pick l i loop f :
  l !! i = Some (loop, f) -> Forall (fun p => p.1 <> loop) (take i l) ->
  (forall c, c <> about f -> tasks c (delete i l) = tasks c l) /\
  exists a, tasks (about f) l = a ++ (loop, f) :: tasks (about f) (drop (S i) l) /\
    tasks (about f) (delete i l) = a ++ tasks (about f) (drop (S i) l) /\ Forall (fun p => p.1 <> loop) a.
Proof.
  intros Hi Hf. pose proof (take_drop_middle l i _ Hi) as Hl. split.
  - intros c Hc. rewrite delete_take_drop. rewrite <- Hl at 3. unfold tasks. rewrite !list.filter_app, filter_cons.
    rewrite decide_False; [done|]. simpl. congruence.
  - exists (tasks (about f) (take i l)). split_and!.
    + rewrite <- Hl at 1. unfold tasks. rewrite list.filter_app, filter_cons, decide_True by done. done.
    + rewrite delete_take_drop. unfold tasks. by rewrite list.filter_app.
    + apply list.Forall_forall. intros p [_ Hp]%list_elem_of_filter. rewrite list.Forall_forall in Hf. by apply Hf.
Qed.

(** When the tasks of a connection are known, the picked one is the first. *)
Lemma pick_first (a : list (nat * functor)) loop f rest p l :
  a ++ (loop, f) :: rest = p :: l -> Forall (fun q => q.1 <> loop) a -> Forall (fun q => q.1 = p.1) l ->
  p = (loop, f) /\ a = [] /\ rest = l.
Proof.
  intros Heq Ha Hl. destruct a as [|q a]; [injection Heq as -> ->; done|]. exfalso. injection Heq as -> <-.
  apply list.Forall_cons in Ha as [Hne _]. apply Hne. apply Forall_app in Hl as [_ [Hl _]%list.Forall_cons]. by symmetry.
Qed.

Lemma the_conn_run {B} c k (g : conn -> ST t B) s : conns s !! c = Some k -> (the_conn c ≫= g) s = g k s.
Proof. intros Hc. unfold the_conn, get, mbind, st_bind. by rewrite Hc. Qed.

Lemma set_life_run c k l s :
  conns s !! c = Some k -> set_life c l s = Ok (tt, set_conns (<[c := mk_conn (conn_name k) (conn_loop k) l]> (conns s)) s).
Proof. intros Hc. unfold set_life. by rewrite (the_conn_run c k). Qed.

Lemma established_run c k s :
  conns s !! c = Some k -> conn_life k = Connecting ->
  connectEstablished c s = Ok (tt, set_conns (<[c := mk_conn (conn_name k) (conn_loop k) Up]> (conns s)) s).
Proof.
  intros Hc Hl. unfold connectEstablished. rewrite (the_conn_run c k) by done. rewrite Hl. simpl.
  unfold mbind, st_bind. simpl. by apply set_life_run.
Qed.

Lemma destroyed_run c k s :
  conns s !! c = Some k -> conn_life k = Up \/ conn_life k = Down ->
  connectDestroyed c s = Ok (tt, set_conns (<[c := mk_conn (conn_name k) (conn_loop k) Destroyed]> (conns s)) s).
Proof.
  intros Hc Hl. unfold connectDestroyed. rewrite (the_conn_run c k) by done. rewrite assert_run by by apply bool_decide_eq_true.
  by apply set_life_run.
Qed.

Lemma removed_run c k s :
  alive s = true -> conns s !! c = Some k -> in_map s c k ->
  removeConnectionInLoop c s =
    Ok (tt, set_pending (pending s ++ [(conn_loop k, F_connectDestroyed c)])
      (set_connections (delete (conn_name k) (connections_ s)) s)).
Proof.
  intros Ha Hc Hm. unfold removeConnectionInLoop, get, mbind, st_bind. rewrite Ha. simpl.
  unfold the_conn, get, mbind, st_bind. rewrite Hc. simpl. unfold in_map in Hm. by rewrite Hm.
Qed.

(** The state after a change of the life of [c]. *)
Definition moved (s : t) (c : nat) (k : conn) (l : life) pend m : t :=
  set_pending pend (set_connections m (set_conns (<[c := mk_conn (conn_name k) (conn_loop k) l]> (conns s)) s)).

Lemma moved_inv s c k l pend m :
  inv s -> conns s !! c = Some k ->
  (forall c', c' <> c -> tasks c' pend = tasks c' (pending s)) ->
  (forall p, p ∈ pend -> p ∈ pending s \/ about p.2 = c) ->
  m = connections_ s \/ m = delete (conn_name k) (connections_ s) ->
  stage (moved s c k l pend m) c (mk_conn (conn_name k) (conn_loop k) l) -> inv (moved s c k l pend m).
Proof using ipPort_short.
  intros Hi Hk Ht Hp Hm Hst. eapply (server_update s _ c k l); try done.
  - intros n Hn. simpl. destruct Hm as [->| ->]; [done|]. by rewrite lookup_delete_ne.
  - simpl. destruct Hm as [->| ->]; [by left|right]. apply lookup_delete_eq.
Qed.

(** The functor of a connection that the server keeps. *)
Lemma kept_step s s1 c k loop f a :
  inv s -> conns s !! c = Some k -> alive s = true -> in_map s c k -> kept (pending s) c k -> c = about f ->
  s1 = set_pending (pending s1) s ->
  (forall c', c' <> c -> tasks c' (pending s1) = tasks c' (pending s)) -> (forall p, p ∈ pending s1 -> p ∈ pending s) ->
  (forall r, tasks c (pending s) = a ++ (loop, f) :: r -> tasks c (pending s1) = a ++ r) ->
  Forall (fun p => p.1 <> loop) a -> (exists r, tasks c (pending s) = a ++ (loop, f) :: r) ->
  exists s', run_functor f s1 = Ok (tt, s') /\ inv s'.
Proof using ipPort_short.
  intros Hi Hk Hal Hm Hkept Hf Hs1 Hother Hsub Hafter Ha [r Hr]. specialize (Hafter r Hr).
  assert (conns s1 = conns s /\ connections_ s1 = connections_ s /\ alive s1 = alive s) as (Hc1 & Hm1 & Ha1) by by rewrite Hs1.
  unfold kept in Hkept. destruct (conn_life k) eqn:El; [| | |done].
  - destruct Hkept as [Ht Hne]. rewrite Ht in Hr. symmetry in Hr.
    destruct (pick_first _ _ _ _ _ _ Hr Ha) as ([= <- <-] & -> & ->); [constructor|]. simpl in Hf, Hafter.
    exists (moved s c k Up (pending s1) (connections_ s)). split.
    + simpl. rewrite (established_run c k) by (by rewrite ?Hc1). by rewrite Hs1.
    + apply moved_inv; auto. left. split_and!; [done|exact Hm|]. exact Hafter.
  - rewrite Hkept in Hr. by destruct a.
  - rewrite Hkept in Hr. symmetry in Hr.
    destruct (pick_first _ _ _ _ _ _ Hr Ha) as ([= <- <-] & -> & ->); [constructor|]. simpl in Hf, Hafter.
    exists (moved s c k Down (pending s1 ++ [(conn_loop k, F_connectDestroyed c)]) (delete (conn_name k) (connections_ s))). split.
    + simpl. rewrite (removed_run c k) by (by rewrite ?Ha1, ?Hc1; unfold in_map; rewrite ?Hm1).
      unfold moved. rewrite list_insert_id by (rewrite Hk; destruct k; simpl in *; by rewrite El). by rewrite Hs1.
    + apply moved_inv; auto.
      * intros c' Hc'. rewrite tasks_snoc, decide_False by (simpl; congruence). rewrite app_nil_r. auto.
      * intros p [Hin| ->%list_elem_of_singleton]%elem_of_app; auto.
      * right. split_and!; [|unfold let_go; simpl; by rewrite tasks_snoc, Hafter, decide_True|simpl; auto].
        unfold in_map. simpl. by rewrite lookup_delete_eq.
Qed.

(** The functor of a connection that the server has let go. *)
Lemma let_go_step s s1 c k loop f a :
  inv s -> conns s !! c = Some k -> ~ in_map s c k -> let_go (pending s) c k ->
  (alive s = true -> conn_life k = Down \/ conn_life k = Destroyed) -> c = about f ->
  s1 = set_pending (pending s1) s ->
  (forall c', c' <> c -> tasks c' (pending s1) = tasks c' (pending s)) -> (forall p, p ∈ pending s1 -> p ∈ pending s) ->
  (forall r, tasks c (pending s) = a ++ (loop, f) :: r -> tasks c (pending s1) = a ++ r) ->
  Forall (fun p => p.1 <> loop) a -> (exists r, tasks c (pending s) = a ++ (loop, f) :: r) ->
  exists s', run_functor f s1 = Ok (tt, s') /\ inv s'.
Proof using ipPort_short.
  intros Hi Hk Hm Hgo Hal Hf Hs1 Hother Hsub Hafter Ha [r Hr]. specialize (Hafter r Hr).
  assert (conns s1 = conns s) as Hc1 by by rewrite Hs1. unfold let_go in Hgo.
  destruct (decide (conn_life k = Connecting)) as [El|Hnc].
  - rewrite El in *. rewrite Hgo in Hr. symmetry in Hr.
    destruct (pick_first _ _ _ _ _ _ Hr Ha) as ([= <- <-] & -> & ->); [by repeat constructor|]. simpl in Hf, Hafter.
    exists (moved s c k Up (pending s1) (connections_ s)). split.
    + simpl. rewrite (established_run c k) by (by rewrite ?Hc1). by rewrite Hs1.
    + apply moved_inv; auto. right. split_and!; [exact Hm|exact Hafter|]. intros Hx%Hal. by destruct Hx.
  - destruct (decide (conn_life k = Destroyed)) as [El|Hnd].
    { rewrite El in Hgo. rewrite Hgo in Hr. by destruct a. }
    assert (conn_life k = Up \/ conn_life k = Down) as Hl by (destruct (conn_life k); auto; done).
    assert (tasks c (pending s) = [(conn_loop k, F_connectDestroyed c)]) as Ht by (by destruct Hl as [El|El]; rewrite El in Hgo).
    rewrite Ht in Hr. symmetry in Hr. destruct (pick_first _ _ _ _ _ _ Hr Ha) as ([= <- <-] & -> & ->); [constructor|].
    exists (moved s c k Destroyed (pending s1) (connections_ s)). split.
    + simpl. rewrite (destroyed_run c k) by (by rewrite ?Hc1). by rewrite Hs1.
    + apply moved_inv; auto. right. split_and!; [exact Hm|exact Hafter|]. simpl. auto.
Qed.

Lemma functor_step s i :
  inv s -> possible s (Run i) = true -> exists s', handle ipPort_ name_ (Run i) s = Ok (tt, s') /\ inv s'.
Proof using ipPort_short.
  intros Hi Hp. simpl in Hp. destruct (pending s !! i) as [[loop f]|] eqn:Hpi; [|done]. apply bool_decide_eq_true in Hp.
  unfold handle, get, mbind, st_bind. rewrite Hpi. simpl. set (s1 := set_pending (delete i (pending s)) s).
  destruct (tasks_pick _ _ _ _ Hpi Hp) as [Hother (a & Hbefore & Hafter & Ha)].
  destruct (i_pending _ Hi (loop, f)) as [k Hk]; [by eapply list_elem_of_lookup_2|]. simpl in Hk.
  assert (forall r, tasks (about f) (pending s) = a ++ (loop, f) :: r -> tasks (about f) (pending s1) = a ++ r) as Hr.
  { intros r Heq. rewrite Hbefore in Heq. apply app_inv_head in Heq as [= <-]. exact Hafter. }
  assert (forall p, p ∈ pending s1 -> p ∈ pending s) as Hsub by (intros p; apply list_elem_of_delete_inv).
  destruct (i_stage _ Hi _ _ Hk) as [(? & ? & ?)|(? & ? & ?)]; [eapply kept_step|eapply let_go_step]; try done; by eexists.
Qed.

Lemma close_step s c :
  inv s -> possible s (Close c) = true -> alive s = true ->
  exists s', handle ipPort_ name_ (Close c) s = Ok (tt, s') /\ inv s'.
Proof using ipPort_short.
  intros Hi Hp Ha. simpl in Hp. destruct (conns s !! c) as [k|] eqn:Hk; [|done]. apply bool_decide_eq_true in Hp.
  destruct (i_stage _ Hi _ _ Hk) as [(_ & Hm & Ht)|(_ & _ & Hx)]; [|destruct (Hx Ha); congruence].
  unfold kept in Ht. rewrite Hp in Ht. unfold handle, handleClose. rewrite (the_conn_run c k) by done. rewrite Hp. simpl.
  unfold mbind, st_bind. simpl. rewrite (set_life_run c k) by done.
  set (k1 := mk_conn (conn_name k) (conn_loop k) Down). set (s1 := set_conns _ s).
  assert (conns s1 !! c = Some k1) as Hk1 by (simpl; apply list_lookup_insert_eq; by eapply lookup_lt_Some).
  unfold removeConnection, get, mbind, st_bind. simpl. rewrite Ha. simpl. unfold the_conn, get, mbind, st_bind. rewrite Hk1. simpl.
  unfold runInLoop. destruct (decide (conn_loop k = baseLoop)) as [Hb|Hb].
  - simpl. rewrite (removed_run c k1) by done. eexists. split; [done|].
    apply (moved_inv s c k Down (pending s ++ [(conn_loop k, F_connectDestroyed c)]) (delete (conn_name k) (connections_ s))); auto.
    + intros c' Hc'. rewrite tasks_snoc, decide_False by (simpl; congruence). by rewrite app_nil_r.
    + intros p [Hin| ->%list_elem_of_singleton]%elem_of_app; auto.
    + right. split_and!; [|unfold let_go; simpl; by rewrite tasks_snoc, Ht, decide_True|simpl; auto].
      unfold in_map. simpl. by rewrite lookup_delete_eq.
  - eexists. split; [done|].
    apply (moved_inv s c k Down (pending s ++ [(baseLoop, F_removeConnectionInLoop c)]) (connections_ s)); auto.
    + intros c' Hc'. rewrite tasks_snoc, decide_False by (simpl; congruence). by rewrite app_nil_r.
    + intros p [Hin| ->%list_elem_of_singleton]%elem_of_app; auto.
    + left. split_and!; [done|done|]. unfold kept. simpl. by rewrite tasks_snoc, Ht, decide_True.
Qed.

Lemma pool_next s :
  pool_ok s -> started_ s <> 0 ->
  exists p', EventLoopThreadPool.getNextLoop (threadPool_ s) = Ok (loop_of (threadPool_ s) (length (conns s)), p') /\
    EventLoopThreadPool.started_ p' = true /\ EventLoopThreadPool.loops_ p' = EventLoopThreadPool.loops_ (threadPool_ s) /\
    EventLoopThreadPool.next_ p' = turn (S (length (conns s))) (EventLoopThreadPool.loops_ p').
Proof.
  clear ipPort_short. unfold pool_ok, turn. intros Hp Hst. rewrite decide_False in Hp by done. destruct Hp as (Hs & Hl & Hn).
  unfold EventLoopThreadPool.getNextLoop, loop_of. rewrite Hs. cbn [check mbind res_bind mret res_ret].
  destruct (EventLoopThreadPool.loops_ (threadPool_ s)) as [|l ls] eqn:El.
  { exists (threadPool_ s). rewrite El. by split_and!. }
  rewrite decide_False in Hn by done. rewrite <- El in *. set (ls' := EventLoopThreadPool.loops_ (threadPool_ s)) in *. set (n := length ls') in *.
  assert (0 < n)%nat as Hpos by (unfold n; rewrite El; simpl; lia). pose proof (Nat.mod_upper_bound (length (conns s)) n ltac:(lia)) as Hm.
  assert (ls' !! (length (conns s) mod n)%nat = Some (S (length (conns s) mod n))) as Hlk.
  { rewrite Hl, list_lookup_fmap, lookup_seq_lt by lia. done. }
  replace (match n with O => baseLoop | S n0 => S (length (conns s) mod S n0) end) with (S (length (conns s) mod n))
    by (by destruct n; [lia|]).
  rewrite Hn, Nat2Z.id, Hlk. eexists. split; [reflexivity|]. cbn [EventLoopThreadPool.started_ EventLoopThreadPool.loops_ EventLoopThreadPool.next_].
  split_and!; try done. fold ls'. rewrite decide_False by (by rewrite El). unfold lenZ. fold n.
  destruct (bool_decide_reflect (Z.of_nat (length (conns s) mod n) + 1 >= Z.of_nat n)) as [Hge|Hlt].
  - assert (length (conns s) mod n = n - 1)%nat as Heq by lia.
    pose proof (Nat.div_mod (length (conns s)) n ltac:(lia)) as Hdm. rewrite Heq in Hdm.
    replace (S (length (conns s))) with ((length (conns s) / n + 1) * n)%nat by nia. by rewrite Nat.Div0.mod_mul.
  - pose proof (Nat.div_mod (length (conns s)) n ltac:(lia)) as Hdm.
    replace (S (length (conns s))) with ((length (conns s) mod n + 1) + (length (conns s) / n) * n)%nat by nia.
    rewrite Nat.Div0.mod_add. generalize dependent (length (conns s) mod n)%nat. intros m _ Hm _ Hlt _. rewrite Nat.mod_small by lia. lia.
Qed.

(** A stage depends on the connection's own part of the state. *)
Lemma stage_frame s s' c k :
  stage s c k -> alive s' = alive s -> tasks c (pending s') = tasks c (pending s) ->
  connections_ s' !! conn_name k = connections_ s !! conn_name k -> stage s' c k.
Proof. unfold stage, in_map, kept, let_go. by intros Hs -> -> ->. Qed.

Lemma accept_step s :
  inv s -> possible s Accept = true -> contract s Accept = true ->
  exists s', handle ipPort_ name_ Accept s = Ok (tt, s') /\ inv s'.
Proof using ipPort_short.
  intros Hi Hp Hc. simpl in Hp, Hc. apply andb_prop in Hp as [Ha Hl]. apply bool_decide_eq_true in Hc.
  pose proof Hi as [Hst Hpend Hmap Hconn [Hid Hle] Hgone Hpool].
  assert (started_ s <> 0) as Hs0.
  { intros H0. unfold pool_ok in Hpool. rewrite decide_True in Hpool by done. destruct Hpool as (_ & _ & _ & ? & _). congruence. }
  destruct (pool_next s Hpool Hs0) as (p' & Hnext & Hps & Hpl & Hpn).
  set (c := length (conns s)) in *. set (loop := loop_of (threadPool_ s) c) in *.
  set (name := name_of (nextConnId_ s)).
  assert (connections_ s !! name = None) as Hfresh.
  { destruct (connections_ s !! name) as [c'|] eqn:Hx; [|done]. destruct (Hmap _ _ Hx) as (k' & Hk' & Hn).
    destruct (Hconn _ _ Hk') as [Hn' _]. rewrite Hn in Hn'. apply name_of_inj in Hn'; apply lookup_lt_Some in Hk'; unfold s_in; simpl; lia. }
  assert (forall c' k', conns s !! c' = Some k' -> conn_name k' <> name) as Hnames.
  { intros c' k' Hk' Heq. destruct (Hconn _ _ Hk') as [Hn' _]. rewrite Heq in Hn'.
    apply lookup_lt_Some in Hk'. apply name_of_inj in Hn'; unfold s_in; simpl; lia. }
  assert (tasks c (pending s) = []) as Htc.
  { apply tasks_none. intros p Hin Hab. apply Hpend in Hin as [k' Hk']. rewrite Hab in Hk'. apply lookup_lt_Some in Hk'. unfold c in Hk'. lia. }
  assert (forall l pend, (l = Up /\ pend = pending s /\ loop = baseLoop) \/
      (l = Connecting /\ pend = pending s ++ [(loop, F_connectEstablished c)] /\ loop <> baseLoop) ->
    inv (mk (started_ s) (nextConnId_ s + 1) (<[name := c]> (connections_ s)) p' (listening s)
      (conns s ++ [mk_conn name loop l]) pend (alive s))) as Hinv.
  { intros l pend Hcase. split; simpl.
    - intros c' k' [Hk'|[Hge Hk']]%lookup_app_Some.
      + eapply stage_frame; [by apply Hst|done| |simpl; apply lookup_insert_ne; by apply not_eq_sym, (Hnames c')].
        simpl. destruct Hcase as [(_ & -> & _)|(_ & -> & _)]; [done|]. rewrite tasks_snoc, decide_False, app_nil_r; [done|].
        simpl. apply lookup_lt_Some in Hk'. unfold c. lia.
      + apply list_lookup_singleton_Some in Hk' as [Heq <-]. assert (c' = c) as -> by (unfold c; lia).
        left. split_and!; [done|unfold in_map; simpl; by rewrite lookup_insert_eq|]. unfold kept. simpl.
        destruct Hcase as [(-> & -> & ?)|(-> & -> & ?)]; [done|]. by rewrite tasks_snoc, Htc, decide_True.
    - intros p Hin. assert (p ∈ pending s \/ about p.2 = c) as [Hin'| ->].
      { destruct Hcase as [(_ & -> & _)|(_ & -> & _)]; [by left|].
        apply elem_of_app in Hin as [?| ->%list_elem_of_singleton]; [by left|by right]. }
      + destruct (Hpend _ Hin') as [k' Hk']. exists k'. by apply lookup_app_l_Some.
      + exists (mk_conn name loop l). by rewrite lookup_app_r, Nat.sub_diag.
    - intros n c' [[<- <-]|[_ Hx]]%lookup_insert_Some.
      + exists (mk_conn name loop l). by rewrite lookup_app_r, Nat.sub_diag.
      + destruct (Hmap _ _ Hx) as (k' & ? & ?). exists k'. split; [by apply lookup_app_l_Some|done].
    - intros c' k' [Hk'|[Hge Hk']]%lookup_app_Some.
      + unfold loop_of. rewrite Hpl. by apply Hconn.
      + apply list_lookup_singleton_Some in Hk' as [Heq <-]. assert (c' = c) as -> by (unfold c; lia).
        simpl. unfold name. rewrite Hid. split; [done|]. unfold loop, loop_of. by rewrite Hpl.
    - rewrite length_app. simpl. fold c. lia.
    - intros Hf. congruence.
    - unfold pool_ok. simpl. rewrite decide_False by done. split_and!; [done| |].
      + unfold pool_ok in Hpool. rewrite decide_False in Hpool by done. rewrite Hpl. apply Hpool.
      + rewrite length_app. simpl. fold c. replace (c + 1)%nat with (S c) by lia. exact Hpn. }
  unfold handle, newConnection, get, mbind at 1, st_bind at 1. unfold lift at 1, mbind at 1, st_bind at 1.
  rewrite Hnext. unfold mbind, st_bind, modify. simpl. rewrite bool_decide_eq_true_2 by lia. simpl.
  unfold runInLoop. destruct (decide (baseLoop = loop)) as [Hb|Hb].
  - simpl. fold c name. rewrite (established_run c (mk_conn name loop Connecting)); [|simpl; by rewrite lookup_app_r, Nat.sub_diag|done].
    simpl. rewrite insert_app_r_alt, Nat.sub_diag by done. simpl. eexists. split; [reflexivity|]. apply (Hinv Up (pending s)). by left.
  - eexists. split; [reflexivity|]. apply (Hinv Connecting (pending s ++ [(loop, F_connectEstablished c)])). right. split_and!; (done || congruence).
Qed.

(** Starting changes the pool only. *)
Lemma inv_pool s s' :
  inv s -> conns s' = conns s -> connections_ s' = connections_ s -> pending s' = pending s -> alive s' = alive s ->
  nextConnId_ s' = nextConnId_ s -> (conns s <> [] -> threadPool_ s' = threadPool_ s) -> pool_ok s' -> inv s'.
Proof.
  clear ipPort_short. intros [] Hc Hm Hp Ha Hid Hpool Hok. split; rewrite ?Hc, ?Hp, ?Hm, ?Ha, ?Hid; try done.
  - intros c k Hk. eapply stage_frame; [by apply i_stage0|done|by rewrite Hp|by rewrite Hm].
  - intros c k Hk. rewrite Hpool; [by apply i_conn0|]. intros Hnil. by rewrite Hnil in Hk.
Qed.

Lemma start_step s e :
  inv s -> possible s e = true -> match e with SetThreadNum _ | Start => True | _ => False end ->
  exists s', handle ipPort_ name_ e s = Ok (tt, s') /\ inv s'.
Proof.
  clear ipPort_short. intros Hi Hp He. pose proof (i_pool _ Hi) as Hpool. unfold pool_ok in Hpool. destruct e as [n| | | | |]; try done; simpl in Hp.
  - rewrite !andb_true_iff, !bool_decide_eq_true in Hp. destruct Hp as [[_ H0] Hn]. rewrite decide_True in Hpool by done.
    unfold handle, setThreadNum. rewrite assert_run by by apply bool_decide_eq_true. eexists. split; [done|].
    eapply inv_pool; try done; [by intros; destruct Hpool as (_ & _ & _ & _ & ?)|]. unfold pool_ok. simpl. by rewrite decide_True.
  - unfold handle, start, get, mbind, st_bind, modify, when_. simpl. destruct (bool_decide_reflect (started_ s = 0)) as [H0|H0].
    + rewrite decide_True in Hpool by done. destruct Hpool as (H1 & H2 & H3 & H4 & H5).
      unfold lift, EventLoopThreadPool.start, mbind, st_bind, res_bind, mret, res_ret. simpl. rewrite H1. simpl. rewrite H4. simpl.
      eexists. split; [done|]. eapply inv_pool; [exact Hi|done..|by intros Hne|]. unfold pool_ok, turn. simpl.
      rewrite H2, H3, H5. simpl. split_and!; [done|by rewrite length_map, length_seq|].
      destruct (Z.to_nat _); simpl; [done|]. by rewrite Nat.sub_diag.
    + rewrite decide_False in Hpool by done. eexists. split; [done|]. eapply inv_pool; try done.
Qed.

(** The destructor's loop: what it has let go so far, and what it still has to. *)
Record leaving (s0 : t) (rest : list (bytes * nat)) (s : t) : Prop := {
  l_same : threadPool_ s = threadPool_ s0 /\ started_ s = started_ s0 /\ nextConnId_ s = nextConnId_ s0 /\
           listening s = listening s0 /\ alive s = alive s0 /\ connections_ s = connections_ s0;
  l_length : length (conns s) = length (conns s0);
  l_conn : forall c k, conns s !! c = Some k -> conn_name k = name_of (Z.of_nat (S c)) /\ conn_loop k = loop_of (threadPool_ s) c;
  l_pending : forall p, p ∈ pending s -> is_Some (conns s !! about p.2);
  l_stage : forall c k, conns s !! c = Some k ->
    ((conn_name k, c) ∈ rest /\ kept (pending s) c k /\ conn_life k <> Down) \/ (c ∉ rest.*2 /\ let_go (pending s) c k)
}.

Lemma leaving_one s0 n c rest s :
  leaving s0 ((n, c) :: rest) s -> NoDup ((n, c) :: rest).*2 -> (exists k, conns s !! c = Some k /\ conn_name k = n) ->
  exists s', (k ← the_conn c; runInLoop baseLoop (conn_loop k) (F_connectDestroyed c)) s = Ok (tt, s') /\ leaving s0 rest s'.
Proof.
  clear ipPort_short. intros [] Hnd (k & Hk & Hn). simpl in Hnd. apply list.NoDup_cons in Hnd as [Hnc Hnd].
  destruct (l_stage0 _ _ Hk) as [(_ & Hkept & Hnotdown)|[Hx _]]; [|exfalso; apply Hx; left].
  rewrite (the_conn_run c k) by done. unfold runInLoop.
  assert (forall s', conns s' = conns s \/ conns s' = <[c := mk_conn (conn_name k) (conn_loop k) Destroyed]> (conns s) ->
    threadPool_ s' = threadPool_ s /\ started_ s' = started_ s /\ nextConnId_ s' = nextConnId_ s /\
           listening s' = listening s /\ alive s' = alive s /\ connections_ s' = connections_ s ->
    (forall c', c' <> c -> tasks c' (pending s') = tasks c' (pending s)) ->
    (forall p, p ∈ pending s' -> p ∈ pending s \/ about p.2 = c) ->
    (forall k', conns s' !! c = Some k' -> let_go (pending s') c k') -> leaving s0 rest s') as Hdone.
  { intros s' Hcs (E1 & E2 & E3 & E4 & E5 & E6) Ht Hp Hgo.
    assert (forall c' k', conns s' !! c' = Some k' -> exists k0, conns s !! c' = Some k0 /\ conn_name k' = conn_name k0 /\
      conn_loop k' = conn_loop k0 /\ (c' <> c -> k' = k0)) as Hold.
    { intros c' k' Hk'. destruct Hcs as [Hcs|Hcs]; rewrite Hcs in Hk'; [by exists k'|]. destruct (decide (c' = c)) as [->|Hne].
      - rewrite list_lookup_insert_eq in Hk' by (by eapply lookup_lt_Some). injection Hk' as <-. by exists k.
      - rewrite list_lookup_insert_ne in Hk' by done. by exists k'. }
    assert (length (conns s') = length (conns s)) as Hlen by (destruct Hcs as [-> | ->]; [done|apply length_insert]).
    split; rewrite ?E1, ?E2, ?E3, ?E4, ?E5, ?E6, ?Hlen; try done.
    - intros c' k' (k0 & Hk0 & -> & -> & _)%Hold. by apply l_conn0.
    - intros p [Hin| ->]%Hp; apply lookup_lt_is_Some; rewrite Hlen; apply lookup_lt_is_Some; [by apply l_pending0|by exists k].
    - intros c' k' Hk'. destruct (decide (c' = c)) as [->|Hne]; [by right; auto|].
      destruct (Hold _ _ Hk') as (k0 & Hk0 & _ & _ & Heq). rewrite (Heq Hne) in *. unfold kept, let_go. rewrite (Ht _ Hne).
      destruct (l_stage0 _ _ Hk0) as [(Hin & ? & ?)|[Hin ?]]; [left|right].
      + split; [|done]. apply elem_of_cons in Hin as [[= _ ->]|?]; done.
      + split; [|done]. intros Hx. apply Hin. by right. }
  destruct (decide (baseLoop = conn_loop k)) as [Hb|Hb].
  - unfold kept in Hkept. destruct (conn_life k) eqn:El; try done.
    + destruct Hkept as [_ Hne]. by destruct Hne.
    + simpl. rewrite (destroyed_run c k) by auto. eexists. split; [done|]. apply Hdone; simpl; auto; [by split_and!|].
      intros k' Hk'. rewrite list_lookup_insert_eq in Hk' by (by eapply lookup_lt_Some). by injection Hk' as <-.
  - eexists. split; [done|]. apply Hdone; simpl; auto.
    + split_and!; done.
    + intros c' Hc'. rewrite tasks_snoc, decide_False by (simpl; congruence). by rewrite app_nil_r.
    + intros p [Hin| ->%list_elem_of_singleton]%elem_of_app; auto.
    + intros k' Hk'. rewrite Hk in Hk'. injection Hk' as <-. unfold kept, let_go in *. rewrite tasks_snoc, decide_True by done.
      destruct (conn_life k); try done; [by destruct Hkept as [-> _]|by rewrite Hkept].
Qed.

Lemma kept_alive s c k :
  inv s -> contract s ServerGone = true -> conns s !! c = Some k ->
  ((conn_name k, c) ∈ map_to_list (connections_ s) /\ kept (pending s) c k /\ conn_life k <> Down) \/
  (c ∉ (map_to_list (connections_ s)).*2 /\ let_go (pending s) c k).
Proof.
  clear ipPort_short. intros Hi Hc Hk. destruct (i_stage _ Hi _ _ Hk) as [(_ & Hm & Hkept)|(Hm & Hgo & _)]; [left|right].
  - split_and!; [by apply elem_of_map_to_list|done|]. intros Hd. unfold kept in Hkept. rewrite Hd in Hkept.
    assert ((baseLoop, F_removeConnectionInLoop c) ∈ tasks c (pending s)) as Hin by (rewrite Hkept; left).
    apply list_elem_of_filter in Hin as [_ Hin]. simpl in Hc. rewrite forallb_forall in Hc.
    specialize (Hc (baseLoop, F_removeConnectionInLoop c) ltac:(by apply list_elem_of_In)). done.
  - split; [|done]. intros ((n & c') & -> & Hin)%list_elem_of_fmap. apply elem_of_map_to_list in Hin.
    destruct (i_map _ Hi _ _ Hin) as (k' & Hk' & <-). simpl in *. rewrite Hk in Hk'. injection Hk' as <-. by apply Hm.
Qed.

Lemma map_values_distinct s : inv s -> NoDup (map_to_list (connections_ s)).*2.
Proof.
  clear ipPort_short. intros Hi. apply NoDup_fmap_2_strong; [|apply NoDup_map_to_list].
  intros [n1 c1] [n2 c2] H1%elem_of_map_to_list H2%elem_of_map_to_list. simpl. intros ->.
  destruct (i_map _ Hi _ _ H1) as (k1 & Hk1 & <-), (i_map _ Hi _ _ H2) as (k2 & Hk2 & <-). congruence.
Qed.

Lemma gone_step s :
  inv s -> contract s ServerGone = true -> exists s', handle ipPort_ name_ ServerGone s = Ok (tt, s') /\ inv s'.
Proof.
  clear ipPort_short. intros Hi Hc. unfold handle, destruct_server, get, mbind at 1, st_bind at 1.
  set (f := fun item : bytes * nat => _). set (l := map_to_list (connections_ s)).
  assert (wp no_fault (for_each f l) (fun _ s' => leaving s [] s' /\ NoDup ([] : list (bytes * nat)).*2) s) as Hloop.
  { eapply wp_mono; [apply (wp_for_each no_fault f (fun rest s' => leaving s rest s' /\ NoDup rest.*2 /\
      forall n c, (n, c) ∈ rest -> (c < length (conns s))%nat /\ n = name_of (Z.of_nat (S c))))|].
    - split_and!; [|by apply map_values_distinct|].
      + pose proof Hi as []. split; try done. intros c k Hk. by apply kept_alive.
      + intros n c Hin%elem_of_map_to_list. destruct (i_map _ Hi _ _ Hin) as (k & Hk & <-).
        split; [by eapply lookup_lt_Some|]. by apply (i_conn _ Hi).
    - intros [n c] rest s' (Hl & Hnd & Hin). destruct (Hin n c) as [Hlt ->]; [left|].
      destruct (lookup_lt_is_Some_2 (conns s') c) as [k Hk]; [by rewrite (l_length _ _ _ Hl)|].
      destruct (leaving_one s (name_of (Z.of_nat (S c))) c rest s' Hl Hnd) as (s2 & Hrun & Hl2).
      { exists k. split; [done|]. by apply (l_conn _ _ _ Hl). }
      unfold wp, f. simpl. rewrite Hrun. split_and!; [done|by apply list.NoDup_cons in Hnd as [_ ?]|].
      intros n' c' Hin'. apply Hin. by right.
    - intros _ s' (? & ? & _). done. }
  unfold wp in Hloop. unfold mbind, st_bind. destruct (for_each f l s) as [[[] s1]|]; [|done]. destruct Hloop as [[] _].
  eexists. split; [reflexivity|]. destruct l_same0 as (E1 & E2 & E3 & E4 & E5 & E6). split; simpl.
  - intros c k Hk. right. split_and!; [|by destruct (l_stage0 _ _ Hk) as [(? & _)|[_ ?]]; [set_solver|]|done].
    unfold in_map. simpl. by rewrite lookup_empty.
  - done.
  - intros n c Hx. by rewrite lookup_empty in Hx.
  - done.
  - rewrite E3, l_length0. apply Hi.
  - done.
  - pose proof (i_pool _ Hi) as Hp. unfold pool_ok in *. simpl. rewrite E1, E2, E4, l_length0. destruct (decide _); [|done].
    destruct Hp as (? & ? & ? & ? & Hnil). split_and!; try done. apply length_zero_iff_nil. by rewrite l_length0, Hnil.
Qed.

Lemma server_init : inv TcpServer.
Proof.
  clear ipPort_short. split; try done. by intros p ?%not_elem_of_nil.
Qed.

Lemma server_step s e :
  inv s -> possible s e = true -> contract s e = true -> exists s', handle ipPort_ name_ e s = Ok (tt, s') /\ inv s'.
Proof using ipPort_short.
  intros Hi Hp Hc. destruct e; [by apply start_step|by apply start_step|by apply accept_step| |by apply functor_step|by apply gone_step].
  by apply close_step.
Qed.

Lemma server_reachable s : reachable ipPort_ name_ s -> inv s.
Proof using ipPort_short.
  induction 1 as [|s e s' _ IH Hp Hc Hrun]; [apply server_init|].
  destruct (server_step s e IH Hp Hc) as (s2 & Hrun2 & ?). rewrite Hrun in Hrun2. by injection Hrun2 as <-.
Qed.
End proofs.

(** C21: However the loops of a server interleave its new connections, closes, removals and
    its own destruction within the contract, no assertion fails and nothing freed is used
    (in particular every removal finds its connection in the map, and every connection is
    established before it is destroyed, in its own loop, once); names are distinct; the
    connections are dealt to the loops in turn; and when nothing is queued any more exactly
    the open connections are in the map and the others are destroyed, all of them if the
    server is gone. *)
Theorem server_registry ipPort name s :
  (length ipPort <= 47)%nat -> reachable ipPort name s ->
  (forall e, possible s e = true -> contract s e = true -> exists s', handle ipPort name e s = Ok (tt, s')) /\
  (forall c1 c2 k1 k2, conns s !! c1 = Some k1 -> conns s !! c2 = Some k2 -> conn_name k1 = conn_name k2 -> c1 = c2) /\
  (forall c k, conns s !! c = Some k -> stage s c k /\ conn_loop k = loop_of (threadPool_ s) c) /\
  (pending s = [] -> forall c k, conns s !! c = Some k ->
     (in_map s c k <-> conn_life k = Up) /\ (conn_life k = Up \/ conn_life k = Destroyed) /\
     (alive s = false -> conn_life k = Destroyed)).
Proof.
  intros Hlen Hr. pose proof (server_reachable ipPort name Hlen s Hr) as Hi. split_and!.
  - intros e Hp Hc. destruct (server_step ipPort name Hlen s e Hi Hp Hc) as (s' & ? & _). by exists s'.
  - intros c1 c2 k1 k2. by eapply conn_names.
  - intros c k Hk. split; [by eapply i_stage|by eapply i_conn].
  - intros Hnil c k Hk. pose proof (i_stage _ _ _ Hi _ _ Hk) as Hst. unfold stage, kept, let_go in Hst. rewrite Hnil in Hst.
    destruct Hst as [(Ha & Hm & Ht)|(Hm & Ht & Ha)]; destruct (conn_life k); try done; try (by destruct Ht);
      split_and!; auto; try done; by rewrite Ha.
Qed.

(** Two loops; two connections, the second one in the second loop. *)
Definition demo_events : list event := [SetThreadNum 2; Start; Accept; Run 0; Accept; Run 0; Close 1; Run 0; Run 0].

Fixpoint run_events (ipPort name : bytes) (l : list event) (s : t) : res t :=
  match l with
  | [] => Ok s
  | e :: l' => match handle ipPort name e s with Ok (_, s') => run_events ipPort name l' s' | Fail f => Fail f end
  end.

Fixpoint allowed_events (ipPort name : bytes) (l : list event) (s : t) : bool :=
  match l with
  | [] => true
  | e :: l' => possible s e && contract s e &&
      match handle ipPort name e s with Ok (_, s') => allowed_events ipPort name l' s' | Fail _ => false end
  end.

Lemma run_events_reachable ipPort name l s s' :
  reachable ipPort name s -> allowed_events ipPort name l s = true -> run_events ipPort name l s = Ok s' ->
  reachable ipPort name s'.
Proof.
  revert s; induction l as [|e l IH]; intros s Hr Hl Hrun; simpl in *; [by injection Hrun as <-|].
  rewrite !andb_true_iff in Hl. destruct Hl as [[Hp Hc] Hl]. destruct (handle ipPort name e s) as [[[] s1]|] eqn:E; [|done].
  apply (IH s1); [by eapply reach_step|done|done].
Qed.

Lemma server_registry_witness :
  exists s, run_events (bs "0.0.0.0:80") (bs "web") demo_events TcpServer = Ok s /\
    map conn_life (conns s) = [Up; Destroyed] /\ map conn_loop (conns s) = [1; 2]%nat /\
    forall c k, conns s !! c = Some k -> (in_map s c k <-> conn_life k = Up).
Proof.
  destruct (run_events (bs "0.0.0.0:80") (bs "web") demo_events TcpServer) as [s|f] eqn:E;
    [|exfalso; vm_compute in E; discriminate E].
  exists s. split; [reflexivity|].
  assert ((map conn_life (conns s), map conn_loop (conns s), pending s) = ([Up; Destroyed], [1; 2]%nat, [])) as Hv.
  { vm_compute in E. injection E as <-. reflexivity. }
  injection Hv as H1 H2 H3. split; [exact H1|]. split; [exact H2|].
  destruct (server_registry (bs "0.0.0.0:80") (bs "web") s) as (_ & _ & _ & Hend).
  - apply Nat.leb_le. reflexivity.
  - apply (run_events_reachable _ _ demo_events TcpServer); [constructor|vm_compute; reflexivity|exact E].
  - intros c k Hk. destruct (Hend H3 c k Hk) as [Hiff _]. exact Hiff.
Defined.

(** The contract is needed: a server that is destroyed while a connection closes, or while
    its removal is queued, is used after it has been freed. *)
Lemma server_gone_too_early :
  let run l := run_events (bs "0.0.0.0:80") (bs "web") ([SetThreadNum 1; Start; Accept; Run 0] ++ l) TcpServer in
  run [ServerGone; Close 0] = Fail UseAfterFree /\ run [Close 0; ServerGone; Run 0] = Fail UseAfterFree.
Proof. split; vm_compute; reflexivity. Qed.
End TcpServer.
