(* ===== verification/Rpc.v ===== *)
(** Remote procedure calls ([muduo/net/protorpc/RpcChannel.*], with the messages of
    [rpc.proto] that RpcCodec carries).

    [Module RpcChannel] translates one end of the line.  [Module RpcLine] joins a client's and
    a server's end by the two directions of a connection, whole messages in order (which
    Codec.v and Connection.v prove of the connection); threads of the client call
    concurrently, and the services answer when they like. *)
From S2P Require Import Prelude Atomic.
Open Scope Z_scope.

Module RpcChannel.

Inductive MessageType := REQUEST | RESPONSE | ERROR.
Inductive ErrorCode := NO_ERROR | WRONG_PROTO | NO_SERVICE | NO_METHOD | INVALID_REQUEST | INVALID_RESPONSE | TIMEOUT.

#[global] Instance ErrorCode_eq_dec : EqDecision ErrorCode.
Proof. solve_decision. Defined.

(** [message RpcMessage]; an optional field that is asked for is an [option]. *)
Record RpcMessage := mkMessage {
  type : MessageType;
  id : Z;
  service : bytes;
  method : bytes;
  request : bytes;
  response : option bytes;
  error : option ErrorCode
}.

(** Whether the two pointers are not null. *)
Record OutstandingCall := mkCall { out_response : bool; out_done : bool }.

Record t := mk { id_ : Z; outstandings_ : gmap Z OutstandingCall }.

Definition RpcChannel : t := mk 0 ∅.

(** A service finds its methods by name, and a method parses its request or does not. *)
Abbreviation Service := (bytes -> option (bytes -> bool)).

(** What the channel does: sends, calls a service with a closure for [doneCallback], and, for the
    call with this number, parses a payload into the response, runs [done] (which deletes
    itself), deletes the response, deletes a [done] that is not run. *)
Inductive effect :=
  | Send (m : RpcMessage)
  | Invoke (service method request : bytes) (id : Z)
  | ParseResponse (id : Z) (payload : bytes)
  | RunDone (id : Z)
  | DeleteResponse (id : Z)
  | DeleteDone (id : Z).

#[global] Instance MessageType_eq_dec : EqDecision MessageType.
Proof. solve_decision. Defined.
#[global] Instance RpcMessage_eq_dec : EqDecision RpcMessage.
Proof. solve_decision. Defined.
#[global] Instance effect_eq_dec : EqDecision effect.
Proof. solve_decision. Defined.

(** ** [CallMethod]: the atomic increment, the block under the mutex, the sending *)

Definition new_id (ch : t) : res (Z * t) :=
  '(id, id_) ← AtomicIntegerT.incrementAndGet 64 (id_ ch);
  mret (id, mk id_ (outstandings_ ch)).

Definition call_message (id : Z) (service method request : bytes) : RpcMessage :=
  mkMessage REQUEST id service method request None None.

Definition insert_call (id : Z) (out : OutstandingCall) (ch : t) : t := mk (id_ ch) (<[id := out]> (outstandings_ ch)).

(** ** Receiving *)

Definition doneCallback (payload : bytes) (id : Z) : effect :=
  Send (mkMessage RESPONSE id [] [] [] (Some payload) None).

Section channel.
(** [services_], null at a client. *)
Context (services_ : option (gmap bytes Service)).

(** The error of a request, or [NO_ERROR] when the service is called. *)
Definition dispatch_error (m : RpcMessage) : ErrorCode :=
  match services_ with
  | Some services =>
      match (services !! service m : option Service) with
      | Some svc =>
          match svc (method m) with
          | Some parses => if parses (request m) then NO_ERROR else INVALID_REQUEST
          | None => NO_METHOD
          end
      | None => NO_SERVICE
      end
  | None => NO_SERVICE
  end.

Definition onRpcMessage (m : RpcMessage) (ch : t) : res (list effect * t) :=
  match type m with
  | RESPONSE =>
      _ ← assert_ (bool_decide (is_Some (response m)) || bool_decide (is_Some (error m)));
      let out := default (mkCall false false) (outstandings_ ch !! id m) in
      let ch := mk (id_ ch) (delete (id m) (outstandings_ ch)) in
      if out_response out then
        mret ((match response m with Some payload => [ParseResponse (id m) payload] | None => [] end) ++
              (if out_done out then [RunDone (id m)] else []) ++ [DeleteResponse (id m)], ch)
      else mret ([], ch)
  | REQUEST =>
      match dispatch_error m with
      | NO_ERROR => mret ([Invoke (service m) (method m) (request m) (id m)], ch)
      | e => mret ([Send (mkMessage RESPONSE (id m) [] [] [] None (Some e))], ch)
      end
  | ERROR => mret ([], ch)
  end.
End channel.

(** The destructor deletes what is outstanding; no [done] is run. *)
Definition destruct_channel (ch : t) : list effect :=
  concat (map (fun x => (if out_response x.2 then [DeleteResponse x.1] else []) ++
                        (if out_done x.2 then [DeleteDone x.1] else [])) (map_to_list (outstandings_ ch))).

End RpcChannel.

(** ** A client and a server *)

Module RpcLine.
Import RpcChannel.

(** Calls that are between their three steps; the two directions of the connection; the
    closures that services hold.  History: the calls made, the replies of the services, and
    the answers processed with what the client did. *)
Record t := mk {
  client : RpcChannel.t;
  server : RpcChannel.t;
  begun : list (RpcMessage * OutstandingCall);
  sending : list RpcMessage;
  to_server : list RpcMessage;
  invoked : list RpcMessage;
  to_client : list RpcMessage;
  calls : gmap Z (RpcMessage * OutstandingCall);
  replies : gmap Z bytes;
  answered : list (RpcMessage * list effect)
}.

Definition start : t := mk RpcChannel RpcChannel [] [] [] [] [] ∅ ∅ [].

Section line.
Context (services : gmap bytes Service).

Inductive event :=
  | Call (service method request : bytes) (out : OutstandingCall)   (* a thread enters [CallMethod] *)
  | Insert (k : nat)                                                (* one takes the mutex *)
  | Transmit (k : nat)                                              (* one sends *)
  | ServerReads
  | Reply (k : nat) (payload : bytes)                               (* a service runs its closure *)
  | ClientReads.

(** Taking element [k] out of a list. *)
Definition pick {A} (k : nat) (l : list A) : option (A * list A) := x ← l !! k; Some (x, delete k l).

(** What the server's end does: messages to the client, and calls of services. *)
Definition sent (l : list effect) : list RpcMessage := omap (fun e => match e with Send m => Some m | _ => None end) l.
Definition invocations (l : list effect) : list RpcMessage :=
  omap (fun e => match e with Invoke s m r i => Some (call_message i s m r) | _ => None end) l.

Definition handle (e : event) (w : t) : res t :=
  let '(mk cl sv bg sd ts iv tc ca rp an) := w in
  match e with
  | Call s m r out =>
      '(i, cl) ← new_id cl;
      mret (mk cl sv (bg ++ [(call_message i s m r, out)]) sd ts iv tc (<[i := (call_message i s m r, out)]> ca) rp an)
  | Insert k =>
      match pick k bg with
      | Some ((q, out), bg) => mret (mk (insert_call (id q) out cl) sv bg (sd ++ [q]) ts iv tc ca rp an)
      | None => mret w
      end
  | Transmit k =>
      match pick k sd with
      | Some (q, sd) => mret (mk cl sv bg sd (ts ++ [q]) iv tc ca rp an)
      | None => mret w
      end
  | ServerReads =>
      match ts with
      | q :: ts => '(o, sv) ← onRpcMessage (Some services) q sv; mret (mk cl sv bg sd ts (iv ++ invocations o) (tc ++ sent o) ca rp an)
      | [] => mret w
      end
  | Reply k payload =>
      match pick k iv with
      | Some (q, iv) => mret (mk cl sv bg sd ts iv (tc ++ sent [doneCallback payload (id q)]) ca (<[id q := payload]> rp) an)
      | None => mret w
      end
  | ClientReads =>
      match tc with
      | a :: tc => '(o, cl) ← onRpcMessage None a cl; mret (mk cl sv bg sd ts iv tc ca rp (an ++ [(a, o)]))
      | [] => mret w
      end
  end.

Inductive reachable : t -> Prop :=
  | reach_start : reachable start
  | reach_handle w e w' : reachable w -> handle e w = Ok w' -> reachable w'.

(** Whether the event is a step that somebody can make without a new call. *)
Definition enabled (w : t) (e : event) : bool :=
  match e with
  | Call _ _ _ _ => false
  | Insert k => bool_decide (k < length (begun w))%nat
  | Transmit k => bool_decide (k < length (sending w))%nat
  | ServerReads => bool_decide (0 < length (to_server w))%nat
  | Reply k _ => bool_decide (k < length (invoked w))%nat
  | ClientReads => bool_decide (0 < length (to_client w))%nat
  end.

(** ** Invariant *)

(** An answer to the question [q]. *)
Definition answers (w : t) (q a : RpcMessage) : Prop :=
  type a = RESPONSE /\ id a = id q /\
  if decide (dispatch_error (Some services) q = NO_ERROR) then error a = None /\ response a = replies w !! id q /\ is_Some (response a)
  else error a = Some (dispatch_error (Some services) q) /\ response a = None.

(** What the client does with it. *)
Definition completion (out : OutstandingCall) (a : RpcMessage) : list effect :=
  if out_response out then
    (match response a with Some payload => [ParseResponse (id a) payload] | None => [] end) ++
    (if out_done out then [RunDone (id a)] else []) ++ [DeleteResponse (id a)]
  else [].

Definition on_the_way (w : t) : list Z :=
  map id (sending w) ++ map id (to_server w) ++ map id (invoked w) ++ map id (to_client w).
Definition everywhere (w : t) : list Z := map (fun x => id x.1) (begun w) ++ on_the_way w ++ map (fun x => id x.1) (answered w).

Record inv (w : t) : Prop := {
  i_ids : everywhere w ≡ₚ seqZ 1 (id_ (client w));
  i_pos : 0 <= id_ (client w) < 2 ^ 63;
  i_out : forall i, is_Some (outstandings_ (client w) !! i) <-> i ∈ on_the_way w;
  i_same : forall i out, outstandings_ (client w) !! i = Some out -> exists q, calls w !! i = Some (q, out);
  i_calls : forall i q out, calls w !! i = Some (q, out) -> q = call_message i (service q) (method q) (request q) /\ 1 <= i <= id_ (client w);
  i_begun : Forall (fun x => calls w !! id x.1 = Some x) (begun w);
  i_sending : Forall (fun q => exists out, calls w !! id q = Some (q, out)) (sending w ++ to_server w);
  i_invoked : Forall (fun q => dispatch_error (Some services) q = NO_ERROR /\ exists out, calls w !! id q = Some (q, out)) (invoked w);
  i_client : Forall (fun a => exists q out, calls w !! id a = Some (q, out) /\ answers w q a) (to_client w);
  i_answered : Forall (fun x => exists q out, calls w !! id x.1 = Some (q, out) /\ answers w q x.1 /\ x.2 = completion out x.1) (answered w)
}.

Lemma pick_spec {A} k (l : list A) :
  match pick k l with
  | Some (x, rest) => l ≡ₚ x :: rest /\ x ∈ l
  | None => (length l <= k)%nat
  end.
Proof.
  unfold pick. destruct (l !! k) as [x|] eqn:E; simpl.
  - split; [by apply delete_Permutation|]. by eapply list_elem_of_lookup_2.
  - by apply lookup_ge_None.
Qed.

Lemma everywhere_nodup w : inv w -> NoDup (everywhere w).
Proof. intros []. rewrite i_ids0. apply NoDup_seqZ. Qed.

Lemma forall_pick {A} (P : A -> Prop) l x l' : Forall P l -> l ≡ₚ x :: l' -> P x /\ Forall P l'.
Proof. intros Hl Hp. rewrite Hp in Hl. by apply list.Forall_cons in Hl. Qed.

Lemma nodup_pick (i : Z) (l l' : list Z) : NoDup l -> l ≡ₚ i :: l' -> i ∉ l'.
Proof. intros Hn Hp. rewrite Hp in Hn. by apply list.NoDup_cons in Hn as [? _]. Qed.

Lemma new_id_spec n os :
  0 <= n < 2 ^ 63 -> new_id (RpcChannel.mk n os) = if decide (n < 2 ^ 63 - 1) then Ok (n + 1, RpcChannel.mk (n + 1) os) else Fail Overflow.
Proof.
  intros Hn. unfold new_id. simpl id_. unfold AtomicIntegerT.incrementAndGet. rewrite AtomicIntegerT.addAndGet_spec by lia.
  unfold s_in. do 2 case_decide; (done || lia).
Qed.

(** The numbers run out after [2 ^ 63 - 1] calls. *)
Lemma call_keeps s m r out w :
  inv w -> if decide (id_ (client w) < 2 ^ 63 - 1) then exists w', handle (Call s m r out) w = Ok w' /\ inv w' else handle (Call s m r out) w = Fail Overflow.
Proof.
  destruct w as [[n os] sv bg sd ts iv tc ca rp an]. intros []. cbn [handle]. rewrite new_id_spec by done. simpl in *.
  case_decide as Hroom; [|done]. eexists. split; [reflexivity|].
  set (q := call_message (n + 1) s m r).
  assert (ca !! (n + 1) = None) as Hnew.
  { destruct (ca !! (n + 1)) as [[q' out']|] eqn:E; [|done]. apply i_calls0 in E. lia. }
  assert (forall x i, ca !! i = Some x -> <[n + 1 := (q, out)]> ca !! i = Some x) as Hca.
  { intros x i Hi. rewrite lookup_insert_ne; [done|]. intros <-. congruence. }
  split; simpl.
  - unfold everywhere, on_the_way in *. simpl in *. rewrite map_app, <- app_assoc. simpl.
    rewrite seqZ_app, <- i_ids0 by lia. rewrite (Z.add_comm 1 n). simpl. solve_Permutation.
  - lia.
  - done.
  - intros i o Hi. destruct (i_same0 i o Hi) as [q' Hq]. exists q'. by apply Hca.
  - intros i q' o'. destruct (decide (i = n + 1)) as [->|Hne].
    + rewrite lookup_insert_eq. intros [= <- <-]. simpl. split; [done|lia].
    + rewrite lookup_insert_ne by done. intros Hi. destruct (i_calls0 i q' o' Hi) as (? & ?). split; [done|lia].
  - apply list.Forall_app. split.
    + eapply list.Forall_impl; [exact i_begun0|]. intros x Hx. by apply Hca.
    + apply list.Forall_cons. split; [|constructor]. simpl. apply lookup_insert_eq.
  - eapply list.Forall_impl; [exact i_sending0|]. intros x [o Ho]. exists o. by apply Hca.
  - eapply list.Forall_impl; [exact i_invoked0|]. intros x (? & o & Ho). split; [done|]. exists o. by apply Hca.
  - eapply list.Forall_impl; [exact i_client0|]. intros x (q' & o & Ho & ?). exists q', o. split; [by apply Hca|done].
  - eapply list.Forall_impl; [exact i_answered0|]. intros x (q' & o & Ho & ?). exists q', o. split; [by apply Hca|done].
Qed.

Lemma insert_keeps k w : inv w -> exists w', handle (Insert k) w = Ok w' /\ inv w'.
Proof.
  destruct w as [[n os] sv bg sd ts iv tc ca rp an]. intros Hi. simpl. pose proof (pick_spec k bg) as Hp.
  destruct (pick k bg) as [[[q out] bg']|]; [|by eexists]. destruct Hp as [Hp _].
  eexists. split; [reflexivity|]. pose proof (everywhere_nodup _ Hi) as Hnd. destruct Hi as []. simpl in *.
  destruct (forall_pick _ _ _ _ i_begun0 Hp) as [Hq Hbg]. simpl in Hq.
  assert (forall i, i ∈ map id (sd ++ [q]) ++ map id ts ++ map id iv ++ map id tc <-> i = id q \/ i ∈ map id sd ++ map id ts ++ map id iv ++ map id tc) as Hway.
  { intros i. rewrite map_app. simpl. rewrite <- app_assoc. simpl. rewrite <- Permutation_middle. apply elem_of_cons. }
  split; simpl; try done.
  - unfold everywhere, on_the_way in *. simpl in *. rewrite <- i_ids0. rewrite (fmap_Permutation (fun x => id x.1) _ _ Hp). simpl.
    rewrite map_app. simpl. solve_Permutation.
  - intros i. unfold on_the_way. simpl. rewrite Hway. rewrite <- i_out0. destruct (decide (i = id q)) as [->|Hne].
    + rewrite lookup_insert_eq. split; [by left|by eexists].
    + rewrite lookup_insert_ne by done. naive_solver.
  - intros i o. destruct (decide (i = id q)) as [->|Hne].
    + rewrite lookup_insert_eq. intros [= <-]. by exists q.
    + rewrite lookup_insert_ne by done. apply i_same0.
  - rewrite <- app_assoc. apply list.Forall_app in i_sending0 as [Hs Ht]. apply list.Forall_app. split; [done|].
    apply list.Forall_cons. split; [by exists out|done].
Qed.

Lemma transmit_keeps k w : inv w -> exists w', handle (Transmit k) w = Ok w' /\ inv w'.
Proof.
  destruct w as [[n os] sv bg sd ts iv tc ca rp an]. intros []. simpl. pose proof (pick_spec k sd) as Hp.
  destruct (pick k sd) as [[q sd']|]; [|by eexists; split; [reflexivity|split]]. destruct Hp as [Hp _].
  eexists. split; [reflexivity|]. simpl in *.
  assert (map id sd' ++ map id (ts ++ [q]) ++ map id iv ++ map id tc ≡ₚ map id sd ++ map id ts ++ map id iv ++ map id tc) as Hway.
  { rewrite (fmap_Permutation id _ _ Hp), map_app. simpl. solve_Permutation. }
  split; simpl; try done.
  - unfold everywhere, on_the_way in *. simpl in *. by rewrite Hway.
  - intros i. unfold on_the_way in *. simpl in *. by rewrite Hway.
  - rewrite app_assoc. rewrite Hp in i_sending0. rewrite <- app_comm_cons in i_sending0.
    apply list.Forall_cons in i_sending0 as [Hq Hs]. apply list.Forall_app. split; [done|]. by repeat constructor.
Qed.

Lemma server_reads_keeps w : inv w -> exists w', handle ServerReads w = Ok w' /\ inv w'.
Proof.
  destruct w as [[n os] sv bg sd ts iv tc ca rp an]. intros []. simpl.
  destruct ts as [|q ts]; [by eexists; split; [reflexivity|split]|]. simpl in *.
  pose proof i_sending0 as Hq. rewrite <- Permutation_middle in Hq. apply list.Forall_cons in Hq as [[out Hq] Hs].
  destruct (i_calls0 _ _ _ Hq) as [Heq Hrange].
  assert (forall iv' tc', map id iv' ++ map id tc' ≡ₚ id q :: map id iv ++ map id tc ->
    (Forall (fun q => dispatch_error (Some services) q = NO_ERROR /\ exists out, ca !! id q = Some (q, out)) iv') ->
    (Forall (fun a => exists q' out, ca !! id a = Some (q', out) /\ answers (mk (RpcChannel.mk n os) sv bg sd (q :: ts) iv tc ca rp an) q' a) tc') ->
    inv (mk (RpcChannel.mk n os) sv bg sd ts iv' tc' ca rp an)) as Hinv.
  { intros iv' tc' Hperm Hiv Htc.
    assert (map id sd ++ map id ts ++ map id iv' ++ map id tc' ≡ₚ map id sd ++ (id q :: map id ts) ++ map id iv ++ map id tc) as Hway.
    { rewrite Hperm. solve_Permutation. }
    split; simpl; try done.
    - unfold everywhere, on_the_way in *. simpl in *. by rewrite Hway.
    - intros i. unfold on_the_way in *. simpl in *. by rewrite Hway. }
  unfold onRpcMessage. assert (type q = REQUEST) as -> by by rewrite Heq.
  destruct (dispatch_error (Some services) q) eqn:Hd; cbn [mbind res_bind mret res_ret]; (eexists; split; [reflexivity|]); apply Hinv; simpl;
    rewrite ?app_nil_r; try done.
  all: try (apply list.Forall_app; split; [done|]; apply list.Forall_cons; split; [|constructor]).
  all: try (exists q, out; split; [exact Hq|]; split; [done|]; split; [done|]; rewrite decide_False by (rewrite Hd; discriminate);
            rewrite Hd; done).
  all: try (rewrite map_app; simpl; rewrite app_assoc; symmetry; apply Permutation_cons_append).
  - rewrite map_app. simpl. solve_Permutation.
  - rewrite <- Heq. split; [exact Hd|]. by exists out.
Qed.

Lemma answers_frame w w' q a :
  replies w' !! id q = replies w !! id q -> answers w q a -> answers w' q a.
Proof. unfold answers. by intros ->. Qed.

Lemma reply_keeps k payload w : inv w -> exists w', handle (Reply k payload) w = Ok w' /\ inv w'.
Proof.
  destruct w as [[n os] sv bg sd ts iv tc ca rp an]. intros Hi. simpl. pose proof (pick_spec k iv) as Hp.
  destruct (pick k iv) as [[q iv']|]; [|by eexists]. destruct Hp as [Hp _].
  eexists. split; [reflexivity|]. pose proof (everywhere_nodup _ Hi) as Hnd. destruct Hi as []. simpl in *.
  destruct (forall_pick _ _ _ _ i_invoked0 Hp) as [[Hd [out Hq]] Hiv].
  set (a := mkMessage RESPONSE (id q) [] [] [] (Some payload) None).
  assert (map id sd ++ map id ts ++ map id iv' ++ map id (tc ++ [a]) ≡ₚ map id sd ++ map id ts ++ map id iv ++ map id tc) as Hway.
  { rewrite (fmap_Permutation id _ _ Hp), map_app. simpl. solve_Permutation. }
  assert (id q ∉ map id tc ++ map (fun x => id x.1) an) as Hfresh.
  { intros Hin. unfold everywhere, on_the_way in Hnd. simpl in Hnd. rewrite (fmap_Permutation id _ _ Hp) in Hnd. simpl in Hnd.
    apply (nodup_pick (id q) _ (map (fun x => id x.1) bg ++ map id sd ++ map id ts ++ map id iv' ++ map id tc ++ map (fun x => id x.1) an) Hnd);
      [solve_Permutation|]. rewrite !elem_of_app. rewrite elem_of_app in Hin. naive_solver. }
  split; simpl; try done.
  - unfold everywhere, on_the_way in *. simpl in *. by rewrite Hway.
  - intros i. unfold on_the_way in *. simpl in *. by rewrite Hway.
  - apply list.Forall_app. split.
    + apply list.Forall_forall. intros x Hx. rewrite list.Forall_forall in i_client0. destruct (i_client0 x Hx) as (q' & o & Hq' & Ha).
      exists q', o. split; [done|]. eapply answers_frame; [|exact Ha]. simpl. rewrite lookup_insert_ne; [done|].
      intros Heq. apply Hfresh. apply elem_of_app. left. rewrite Heq. destruct Ha as (_ & <- & _). by apply list_elem_of_fmap_2.
    + apply list.Forall_cons. split; [|constructor]. exists q, out. split; [done|]. split; [done|]. split; [done|].
      rewrite decide_True by done. simpl. rewrite lookup_insert_eq. done.
  - apply list.Forall_forall. intros x Hx. rewrite list.Forall_forall in i_answered0. destruct (i_answered0 x Hx) as (q' & o & Hq' & Ha & Hc).
    exists q', o. split; [done|]. split; [|done]. eapply answers_frame; [|exact Ha]. simpl. rewrite lookup_insert_ne; [done|].
    intros Heq. apply Hfresh. apply elem_of_app. right. rewrite Heq. destruct Ha as (_ & <- & _). by apply (list_elem_of_fmap_2 (fun x => id x.1)).
Qed.

Lemma client_reads_keeps w : inv w -> exists w', handle ClientReads w = Ok w' /\ inv w'.
Proof.
  destruct w as [[n os] sv bg sd ts iv tc ca rp an]. intros Hi. simpl. destruct tc as [|a tc]; [by eexists|].
  pose proof (everywhere_nodup _ Hi) as Hnd. destruct Hi as []. simpl in *.
  apply list.Forall_cons in i_client0 as [(q & out & Hq & Ha) Htc].
  assert (map id sd ++ map id ts ++ map id iv ++ id a :: map id tc ≡ₚ id a :: map id sd ++ map id ts ++ map id iv ++ map id tc) as Hway.
  { solve_Permutation. }
  destruct (i_out0 (id a)) as [_ Hsome]. destruct Hsome as [out' Hout].
  { unfold on_the_way. simpl. rewrite Hway. apply list_elem_of_here. }
  destruct (i_same0 _ _ Hout) as [q' Hq']. rewrite Hq in Hq'. injection Hq' as <- <-.
  assert (onRpcMessage None a (RpcChannel.mk n os) = Ok (completion out a, RpcChannel.mk n (delete (id a) os))) as Hrun.
  { unfold onRpcMessage. destruct Ha as (-> & _ & Ha). rewrite check_true.
    2: { destruct (decide _); [destruct Ha as (_ & _ & [r Hr]); by rewrite Hr|destruct Ha as [He _]; rewrite He; apply orb_true_r]. }
    cbn [mbind res_bind]. simpl. rewrite Hout. simpl. unfold completion. by destruct (out_response out). }
  rewrite Hrun. eexists. split; [reflexivity|].
  assert (id a ∉ map id sd ++ map id ts ++ map id iv ++ map id tc) as Hfresh.
  { unfold everywhere, on_the_way in Hnd. simpl in Hnd. rewrite Hway in Hnd. apply list.NoDup_app in Hnd as (_ & _ & Hnd).
    simpl in Hnd. apply list.NoDup_cons in Hnd as [Hnd _]. intros Hin. apply Hnd. apply elem_of_app. by left. }
  split; simpl; try done.
  - unfold everywhere, on_the_way in *. simpl in *. rewrite <- i_ids0. rewrite map_app. simpl. solve_Permutation.
  - intros i. unfold on_the_way. simpl. specialize (i_out0 i). unfold on_the_way in i_out0. simpl in i_out0. rewrite Hway, elem_of_cons in i_out0.
    destruct (decide (i = id a)) as [->|Hne].
    + rewrite lookup_delete_eq. split; [by intros [? ?]|done].
    + rewrite lookup_delete_ne by done. rewrite i_out0. naive_solver.
  - intros i o. rewrite lookup_delete_Some. intros [_ Ho]. by apply i_same0.
  - apply list.Forall_app. split; [done|]. apply list.Forall_cons. split; [|constructor]. by exists q, out.
Qed.

Lemma handle_keeps_rpc e w w' : inv w -> handle e w = Ok w' -> inv w'.
Proof.
  assert (forall r, (exists w'', r = Ok w'' /\ inv w'') -> r = Ok w' -> inv w') as Hex by (intros r (? & -> & ?) [= <-]; done).
  intros Hi. destruct e as [s m r out|k|k| |k p|].
  1: { pose proof (call_keeps s m r out w Hi) as Hc. case_decide; [exact (Hex _ Hc)|by rewrite Hc]. }
  all: apply Hex; eauto using insert_keeps, transmit_keeps, server_reads_keeps, reply_keeps, client_reads_keeps.
Qed.

Lemma handle_ok_rpc e w : inv w -> id_ (client w) < 2 ^ 63 - 1 -> is_ok (handle e w).
Proof.
  assert (forall r, (exists w'', r = Ok w'' /\ inv w'') -> is_ok r) as Hex by (intros r (w' & ? & _); by exists w').
  intros Hi Hroom. destruct e as [s m r out|k|k| |k p|]; apply Hex; eauto using insert_keeps, transmit_keeps, server_reads_keeps, reply_keeps, client_reads_keeps.
  pose proof (call_keeps s m r out w Hi) as Hc. by rewrite decide_True in Hc.
Qed.

Lemma rpc_reachable w : reachable w -> inv w.
Proof.
  induction 1 as [|w e w' _ IH Hrun].
  - split; simpl; try done; try constructor.
    + intros [? H]. by rewrite lookup_empty in H.
    + intros H. by apply elem_of_nil in H.
  - by eapply handle_keeps_rpc.
Qed.

(** ** Every call is answered *)

Definition steps_left (w : t) : nat :=
  5 * length (begun w) + 4 * length (sending w) + 3 * length (to_server w) + 2 * length (invoked w) + length (to_client w).

Lemma pick_some {A} k (l : list A) : (k < length l)%nat -> exists x rest, pick k l = Some (x, rest) /\ length l = S (length rest).
Proof.
  intros Hk. pose proof (pick_spec k l) as Hp. destruct (pick k l) as [[x rest]|]; [|lia].
  destruct Hp as [Hp _]. exists x, rest. split; [done|]. apply Permutation_length in Hp. done.
Qed.

Lemma step_left e w w' : inv w -> enabled w e = true -> handle e w = Ok w' -> (steps_left w' < steps_left w)%nat.
Proof.
  destruct w as [[n os] sv bg sd ts iv tc ca rp an]. intros Hi He. pose proof He as He'.
  destruct e as [|k|k| |k payload|]; simpl in He; try done; try apply bool_decide_eq_true in He; simpl.
  - destruct (pick_some k bg He) as ([q out] & rest & -> & Hl). intros [= <-]. unfold steps_left. simpl. rewrite length_app. simpl. lia.
  - destruct (pick_some k sd He) as (q & rest & -> & Hl). intros [= <-]. unfold steps_left. simpl. rewrite length_app. simpl. lia.
  - destruct ts as [|q ts]; [simpl in He; lia|]. destruct Hi. simpl in *. rewrite <- Permutation_middle in i_sending0.
    apply list.Forall_cons in i_sending0 as [[out Hq] _]. destruct (i_calls0 _ _ _ Hq) as [Heq _]. unfold onRpcMessage.
    assert (type q = REQUEST) as -> by by rewrite Heq.
    destruct (dispatch_error (Some services) q); intros [= <-]; unfold steps_left; simpl; rewrite !length_app; simpl; lia.
  - destruct (pick_some k iv He) as (q & rest & -> & Hl). intros [= <-]. unfold steps_left. simpl. rewrite length_app. simpl. lia.
  - destruct tc as [|a tc]; [simpl in He; lia|]. destruct (onRpcMessage None a _) as [[o cl]|]; [|done]. intros [= <-].
    unfold steps_left. simpl. lia.
Qed.

Lemma rest_answered w : inv w -> (forall e, enabled w e = false) ->
  outstandings_ (client w) = ∅ /\ forall i q out, calls w !! i = Some (q, out) -> exists a, (a, completion out a) ∈ answered w /\ id a = i.
Proof.
  intros [] Hr. assert (forall (A : Type) (l : list A), bool_decide (0 < length l)%nat = false -> l = []) as Hnil.
  { intros A l Hl. apply bool_decide_eq_false in Hl. destruct l; [done|]. simpl in Hl. lia. }
  pose proof (Hnil _ _ (Hr (Insert 0))) as H1. pose proof (Hnil _ _ (Hr (Transmit 0))) as H2. pose proof (Hnil _ _ (Hr ServerReads)) as H3.
  pose proof (Hnil _ _ (Hr (Reply 0 []))) as H4. pose proof (Hnil _ _ (Hr ClientReads)) as H5.
  unfold everywhere, on_the_way in *. rewrite H1, H2, H3, H4, H5 in *. simpl in *. split.
  - apply map_empty. intros i. apply eq_None_not_Some. rewrite i_out0. apply not_elem_of_nil.
  - intros i q out Hc. destruct (i_calls0 _ _ _ Hc) as [_ Hrange].
    assert (i ∈ map (fun x => id x.1) (answered w)) as Hin by (rewrite i_ids0; apply elem_of_seqZ; lia).
    apply list_elem_of_fmap in Hin as ([a eff] & -> & Hin). rewrite list.Forall_forall in i_answered0.
    destruct (i_answered0 _ Hin) as (q' & out' & Hc' & _ & Heff). simpl in *. rewrite Hc in Hc'. injection Hc' as <- <-. subst eff. by exists a.
Qed.

(** What the client did, and how often it did one thing. *)
Definition did (w : t) : list effect := concat (map snd (answered w)).
Definition times (e : effect) (l : list effect) : nat := length (filter (fun x => x = e) l).
(** The answer to call [i] has been processed. *)
Definition is_answered (i : Z) (w : t) : bool := bool_decide (i ∈ map (fun x => id x.1) (answered w)).

Lemma times_app e l l' : times e (l ++ l') = (times e l + times e l')%nat.
Proof. unfold times. by rewrite list.filter_app, length_app. Qed.

Lemma times_none e l : Forall (fun x => x <> e) l -> times e l = 0%nat.
Proof.
  intros Hl. unfold times. induction Hl as [|x l Hx _ IH]; [done|]. rewrite filter_cons. by rewrite decide_False.
Qed.

Lemma times_completion out a i :
  times (RunDone i) (completion out a) = (if bool_decide (id a = i) && (out_response out && out_done out) then 1 else 0)%nat /\
  times (DeleteResponse i) (completion out a) = (if bool_decide (id a = i) && out_response out then 1 else 0)%nat.
Proof.
  unfold completion, times. destruct (out_response out); [|by rewrite !andb_false_r].
  destruct (response a), (out_done out); simpl; rewrite !filter_cons; case_bool_decide as E;
    repeat (first [rewrite decide_True by congruence|rewrite decide_False by congruence]; simpl); done.
Qed.

(** Each call is answered once, so that the number of times is that of its own answer. *)
Lemma times_answered (e : Z -> effect) (once : OutstandingCall -> bool) (ca : gmap Z (RpcMessage * OutstandingCall)) l :
  (forall out a i, times (e i) (completion out a) = if bool_decide (id a = i) && once out then 1 else 0)%nat ->
  NoDup (map (fun x : RpcMessage * list effect => id x.1) l) ->
  Forall (fun x => exists q out, ca !! id x.1 = Some (q, out) /\ x.2 = completion out x.1) l ->
  forall i q out, ca !! i = Some (q, out) ->
  times (e i) (concat (map snd l)) = (if bool_decide (i ∈ map (fun x => id x.1) l) && once out then 1 else 0)%nat.
Proof.
  intros He Hnd Hl i q out Hq. induction Hl as [|[a eff] l (q' & o & Ha & Heff) _ IH]; [done|].
  simpl in *. apply list.NoDup_cons in Hnd as [Hn Hnd]. rewrite times_app, (IH Hnd), Heff, He. clear IH.
  destruct (decide (id a = i)) as [E|E].
  - rewrite E in *. rewrite Hq in Ha. injection Ha as <- <-. rewrite (bool_decide_eq_false_2 (i ∈ _)) by done.
    rewrite !bool_decide_eq_true_2 by (done || left). by rewrite Nat.add_0_r.
  - rewrite (bool_decide_eq_false_2 (id a = i)) by done. simpl.
    replace (bool_decide (i ∈ id a :: map (fun x => id x.1) l)) with (bool_decide (i ∈ map (fun x => id x.1) l)); [done|].
    apply bool_decide_ext. rewrite elem_of_cons. naive_solver.
Qed.
End line.

(** C26: every call is answered exactly once, with the answer to its own question.  However
    the threads that call, the two ends of the line and the services interleave, no
    assertion fails (in the first [2 ^ 63 - 1] calls, for then the numbers overflow).  A call
    with a response object is completed when its answer is processed, and only then: the reply of
    the service to its request is parsed into the response (nothing is, for the error that
    its service, method or request deserves), its [done], if it has one, is run once, and its
    response is deleted once.  A call without a response object is answered too, but nothing
    is done for it: its [done] is never run.  The steps that can be made without a new call come to an
    end, and then every call has been answered and nothing is left in the table. *)
Theorem rpc_exactly_once services w :
  reachable services w ->
  (id_ (client w) < 2 ^ 63 - 1 -> forall e, is_ok (handle services e w)) /\
  (forall e w', enabled w e = true -> handle services e w = Ok w' -> (steps_left w' < steps_left w)%nat) /\
  (forall a eff, (a, eff) ∈ answered w -> exists q out, calls w !! id a = Some (q, out) /\ answers services w q a /\ eff = completion out a) /\
  NoDup (map (fun x => id x.1) (answered w)) /\
  (forall i q out, calls w !! i = Some (q, out) ->
     times (RunDone i) (did w) = (if is_answered i w && (out_response out && out_done out) then 1 else 0)%nat /\
     times (DeleteResponse i) (did w) = (if is_answered i w && out_response out then 1 else 0)%nat) /\
  ((forall e, enabled w e = false) ->
     outstandings_ (client w) = ∅ /\ forall i, is_Some (calls w !! i) -> is_answered i w = true).
Proof.
  intros Hi%rpc_reachable.
  assert (NoDup (map (fun x => id x.1) (answered w))) as Hnd.
  { pose proof (everywhere_nodup services w Hi) as Hn. unfold everywhere in Hn. rewrite app_assoc in Hn. by apply list.NoDup_app in Hn as (_ & _ & ?). }
  split_and!; [| | |done| |].
  - intros Hroom e. by apply handle_ok_rpc.
  - intros e w'. by apply step_left.
  - intros a eff Hin. destruct Hi. rewrite list.Forall_forall in i_answered0. apply (i_answered0 _ Hin).
  - assert (Forall (fun x => exists q out, calls w !! id x.1 = Some (q, out) /\ x.2 = completion out x.1) (answered w)) as Hans.
    { eapply list.Forall_impl; [apply Hi|]. intros x (q & out & ? & _ & ?). by exists q, out. }
    intros i q out Hq. split.
    + apply (times_answered RunDone (fun o => out_response o && out_done o) (calls w)) with q; [apply times_completion|done..].
    + apply (times_answered DeleteResponse out_response (calls w)) with q; [apply times_completion|done..].
  - intros Hrest. destruct (rest_answered services w Hi Hrest) as [Ho Hall]. split; [done|]. intros i [[q out] Hq].
    destruct (Hall i q out Hq) as (a & Hin & <-). apply bool_decide_eq_true. by apply (list_elem_of_fmap_2 (fun x => id x.1) _ _ Hin).
Qed.

(** One service with one method, which parses every request. *)
Definition echo_services : gmap bytes Service :=
  {[ bs "Echo" := fun m => if decide (m = bs "echo") then Some (fun _ => true) else None ]}.

Fixpoint run_line (l : list event) (w : t) : res t :=
  match l with
  | [] => Ok w
  | e :: l => w ← handle echo_services e w; run_line l w
  end.

Lemma run_line_reachable l w w' : run_line l w = Ok w' -> reachable echo_services w -> reachable echo_services w'.
Proof.
  revert w; induction l as [|e l IH]; simpl; intros w Hrun Hr; [by injection Hrun as <-|].
  apply bind_ok in Hrun as (w1 & E & Hrun). apply (IH w1 Hrun). by eapply reach_handle.
Qed.

(** Three calls, the second of a method that does not exist and answered first, the third
    without a response object. *)
Definition line_demo : list event :=
  [Call (bs "Echo") (bs "echo") (bs "hi") (mkCall true true); Insert 0; Transmit 0;
   Call (bs "Echo") (bs "none") (bs "hi") (mkCall true true); Insert 0; Transmit 0;
   Call (bs "Echo") (bs "echo") (bs "ho") (mkCall false true); Insert 0; Transmit 0;
   ServerReads; ServerReads; ServerReads; Reply 0 (bs "hi"); Reply 0 (bs "ho"); ClientReads; ClientReads; ClientReads].

Lemma rpc_exactly_once_witness :
  exists w, run_line line_demo start = Ok w /\ NoDup (map (fun x => id x.1) (answered w)) /\
    map snd (answered w) = [[RunDone 2; DeleteResponse 2]; [ParseResponse 1 (bs "hi"); RunDone 1; DeleteResponse 1]; []] /\
    times (RunDone 1) (did w) = 1%nat /\ times (RunDone 3) (did w) = 0%nat /\ is_answered 3 w = true.
Proof.
  destruct (run_line line_demo start) as [w|] eqn:E; [|exfalso; vm_compute in E; discriminate E].
  exists w. split; [reflexivity|].
  destruct (rpc_exactly_once echo_services w) as (_ & _ & _ & Hnd & Hdone & Hrest).
  { apply (run_line_reachable line_demo start w E). constructor. }
  split; [exact Hnd|]. vm_compute in E. injection E as <-. split; [reflexivity|].
  destruct (Hdone 1 _ _ eq_refl) as [H1 _]. destruct (Hdone 3 _ _ eq_refl) as [H3 _].
  split; [rewrite H1; vm_compute; reflexivity|]. split; [rewrite H3; vm_compute; reflexivity|].
  apply Hrest; [|by eexists]. intros [s m r out|k|k| |k p|]; vm_compute; try reflexivity; destruct k; reflexivity.
Defined.

(** A call without a response object is never completed: its [done] is not run. *)
Lemma no_response_no_done a : completion (mkCall false true) a = [].
Proof. done. Qed.
End RpcLine.
