(* ===== verification/AsyncLog.v ===== *)
(** Log files and the logging thread ([muduo/base/FileUtil.*], [LogFile.*],
    [AsyncLogging.*]).

    The clock, [fwrite] and [read] are parameters.  [Module AsyncLogging] interleaves
    threads that append log lines with the steps of the logging thread. *)
From S2P Require Import Prelude State Decimal Timestamp StringPiece LogStream.
Open Scope Z_scope.

Module FileUtil.

(** ** Appending *)

Module AppendFile.

(** What the stream has taken, the bytes counted, and the calls of [fwrite] so far. *)
Record t := mk { stream : bytes; writtenBytes_ : Z; calls : nat }.

Definition AppendFile : t := mk [] 0 0.

Section file.
(** [fwrite_unlocked(data, 1, len, fp)]: the count returned by the n-th call. *)
Context (fwrite : nat -> Z -> Z).

Definition write (logline : bytes) (f : t) : Z * t :=
  let n := fwrite (calls f) (lenZ logline) in
  (n, mk (stream f ++ take (Z.to_nat n) logline) (writtenBytes_ f) (S (calls f))).

(** The loop over the rest; [None] when the fuel does not suffice. *)
Fixpoint append_loop (fuel : nat) (rest : bytes) (f : t) : option t :=
  match fuel with
  | O => None
  | S fuel =>
      if bool_decide (0 < lenZ rest) then
        let '(x, f) := write rest f in
        if bool_decide (x = 0) then Some f else append_loop fuel (drop (Z.to_nat x) rest) f
      else Some f
  end.

Definition append (logline : bytes) (f : t) : option t :=
  let '(n, f) := write logline f in
  f ← append_loop (S (length logline)) (drop (Z.to_nat n) logline) f;
  Some (mk (stream f) (writtenBytes_ f + lenZ logline) (calls f)).

(** [fwrite] never returns more than it was given. *)
Definition fwrite_ok : Prop := forall i n, 0 <= n -> 0 <= fwrite i n <= n.

Lemma append_loop_ends (Hok : fwrite_ok) fuel rest f :
  (length rest < fuel)%nat ->
  exists f' taken, append_loop fuel rest f = Some f' /\ taken `prefix_of` rest /\ stream f' = stream f ++ taken /\
    writtenBytes_ f' = writtenBytes_ f /\ ((forall i n, 0 < n -> 0 < fwrite i n) -> taken = rest).
Proof.
  revert rest f; induction fuel as [|fuel IH]; intros rest f Hf; [lia|]. simpl.
  destruct (bool_decide_reflect (0 < lenZ rest)) as [Hpos|Hz].
  2: { exists f, []. rewrite app_nil_r. split_and!; try apply prefix_nil; try done. intros _.
       destruct rest; [done|]. unfold lenZ in Hz. simpl in Hz. lia. }
  pose proof (Hok (calls f) (lenZ rest) ltac:(lia)) as Hx. set (x := fwrite (calls f) (lenZ rest)) in *.
  destruct (bool_decide_reflect (x = 0)) as [H0|H0].
  - exists (mk (stream f ++ take (Z.to_nat x) rest) (writtenBytes_ f) (S (calls f))), [].
    rewrite H0. simpl. rewrite !app_nil_r. split_and!; try apply prefix_nil; try done.
    intros Hprog. specialize (Hprog (calls f) (lenZ rest) Hpos). unfold x in H0. lia.
  - destruct (IH (drop (Z.to_nat x) rest) (mk (stream f ++ take (Z.to_nat x) rest) (writtenBytes_ f) (S (calls f))))
      as (f' & taken & Hrun & [r Hr] & Hs & Hw & Hall).
    { rewrite length_drop. unfold lenZ in *. lia. }
    exists f', (take (Z.to_nat x) rest ++ taken). split_and!; [done| |by rewrite Hs; simpl; rewrite <- app_assoc|done|].
    + exists r. by rewrite <- app_assoc, <- Hr, take_drop.
    + intros Hprog. by rewrite (Hall Hprog), take_drop.
Qed.

(** Appending ends; the stream takes a prefix, and all of it when every [fwrite] makes
    progress. [writtenBytes_] counts the whole line in any case. *)
Lemma append_file_spec (Hok : fwrite_ok) logline f :
  exists f' taken, append logline f = Some f' /\ taken `prefix_of` logline /\ stream f' = stream f ++ taken /\
    writtenBytes_ f' = writtenBytes_ f + lenZ logline /\ ((forall i n, 0 < n -> 0 < fwrite i n) -> taken = logline).
Proof.
  unfold append, write. set (x := fwrite (calls f) (lenZ logline)).
  pose proof (Hok (calls f) (lenZ logline) (lenZ_nonneg _)) as Hx. fold x in Hx.
  destruct (append_loop_ends Hok (S (length logline)) (drop (Z.to_nat x) logline)
    (mk (stream f ++ take (Z.to_nat x) logline) (writtenBytes_ f) (S (calls f)))) as (f' & taken & -> & [r Hr] & Hs & Hw & Hall).
  { rewrite length_drop. lia. }
  simpl. eexists _, (take (Z.to_nat x) logline ++ taken). split_and!; [reflexivity| |simpl; by rewrite Hs; simpl; rewrite <- app_assoc|simpl; by rewrite Hw|].
  - exists r. by rewrite <- app_assoc, <- Hr, take_drop.
  - intros Hprog. by rewrite (Hall Hprog), take_drop.
Qed.
End file.
End AppendFile.

(** ** Reading a small file *)

Definition kBufferSize : Z := 64 * 1024.

Inductive read_result :=
  | ReadData (d : bytes)
  | ReadError (errno : Z).

(** The loop of [readToString] on the answers of [read(2)] (none: end of file): the content
    and the error. *)
Fixpoint read_loop (reads : list read_result) (maxSize : Z) (content : bytes) (err : Z) : bytes * Z :=
  if bool_decide (lenZ content < maxSize) then
    let toRead := Z.min (maxSize - lenZ content) kBufferSize in
    match reads with
    | [] => (content, err)
    | ReadError errno :: _ => (content, errno)
    | ReadData d :: reads =>
        let d := take (Z.to_nat toRead) d in
        if bool_decide (0 < lenZ d) then read_loop reads maxSize (content ++ d) err else (content, err)
    end
  else (content, err).

(** [readToString] of an open file ([fd_] at least 0); a directory is noted before the loop. *)
Definition readToString (is_dir : bool) (reads : list read_result) (maxSize : Z) : bytes * Z :=
  read_loop reads maxSize [] (if is_dir then 21 else 0).

(** Never more than [maxSize] bytes. *)
Lemma read_loop_bounded reads maxSize content err :
  lenZ content <= maxSize -> lenZ (read_loop reads maxSize content err).1 <= maxSize.
Proof.
  revert content err; induction reads as [|[d|e] reads IH]; intros content err Hc; simpl;
    destruct (bool_decide_reflect (lenZ content < maxSize)); try done.
  destruct (bool_decide _); [|done]. apply IH. rewrite lenZ_app. unfold lenZ at 2. rewrite length_take. lia.
Qed.

End FileUtil.

Module LogFile.

Definition kRollPerSeconds_ : Z := 60 * 60 * 24.

(** [file_] is the open file with its name; [finished] the closed ones, oldest first;
    [ticks] counts the calls of [time(NULL)]. *)
Record t := mk {
  count_ : Z;
  startOfPeriod_ : Z;
  lastRoll_ : Z;
  lastFlush_ : Z;
  file_ : option (bytes * FileUtil.AppendFile.t);
  finished : list (bytes * FileUtil.AppendFile.t);
  ticks : nat
}.

Section logfile.
Context (fwrite : nat -> Z -> Z) (time : nat -> Z) (hostname : bytes) (pid : Z).
Context (basename_ : bytes) (rollSize_ flushInterval_ checkEveryN_ : Z).

Definition getLogFileName (now : Z) : bytes :=
  let tm := gmtime now in
  let timebuf := bs "." ++ dec (tm_year tm + 1900) ++ fmt_0d 2 (tm_mon tm + 1) ++ fmt_0d 2 (tm_mday tm) ++ bs "-" ++
                 fmt_0d 2 (tm_hour tm) ++ fmt_0d 2 (tm_min tm) ++ fmt_0d 2 (tm_sec tm) ++ bs "." in
  basename_ ++ timebuf ++ hostname ++ (snprintf 32 (bs "." ++ dec pid)).1 ++ bs ".log".

Definition tick (l : t) : Z * t :=
  (time (ticks l), mk (count_ l) (startOfPeriod_ l) (lastRoll_ l) (lastFlush_ l) (file_ l) (finished l) (S (ticks l))).

(** Opening the new file closes the old one. *)
Definition rollFile (l : t) : bool * t :=
  let '(now, l) := tick l in
  let filename := getLogFileName now in
  let start := Z.quot now kRollPerSeconds_ * kRollPerSeconds_ in
  if bool_decide (now > lastRoll_ l) then
    (true, mk (count_ l) start now now (Some (filename, FileUtil.AppendFile.AppendFile))
             (finished l ++ match file_ l with Some f => [f] | None => [] end) (ticks l))
  else (false, l).

Definition LogFile : res t :=
  _ ← assert_ (bool_decide ("/"%byte ∉ basename_));
  mret (rollFile (mk 0 0 0 0 None [] 0)).2.

Definition set_file f (l : t) : t := mk (count_ l) (startOfPeriod_ l) (lastRoll_ l) (lastFlush_ l) (Some f) (finished l) (ticks l).
Definition set_count n (l : t) : t := mk n (startOfPeriod_ l) (lastRoll_ l) (lastFlush_ l) (file_ l) (finished l) (ticks l).
Definition set_lastFlush n (l : t) : t := mk (count_ l) (startOfPeriod_ l) (lastRoll_ l) n (file_ l) (finished l) (ticks l).

(** [append_unlocked]; [None] inside when the loop of [AppendFile] does not end. *)
Definition append (logline : bytes) (l : t) : res (option t) :=
  match file_ l with
  | None => Fail NullPointer
  | Some (name, f) =>
      match FileUtil.AppendFile.append fwrite logline f with
      | None => mret None
      | Some f =>
          let l := set_file (name, f) l in
          if bool_decide (FileUtil.AppendFile.writtenBytes_ f > rollSize_) then mret (Some (rollFile l).2)
          else
            let l := set_count (count_ l + 1) l in
            if bool_decide (count_ l >= checkEveryN_) then
              let '(now, l) := tick (set_count 0 l) in
              let thisPeriod_ := Z.quot now kRollPerSeconds_ * kRollPerSeconds_ in
              if bool_decide (thisPeriod_ <> startOfPeriod_ l) then mret (Some (rollFile l).2)
              else if bool_decide (now - lastFlush_ l > flushInterval_) then mret (Some (set_lastFlush now l))
              else mret (Some l)
            else mret (Some l)
      end
  end.

(** Everything written, in order, over all files. *)
Definition all_files (l : t) : list (bytes * FileUtil.AppendFile.t) :=
  finished l ++ match file_ l with Some f => [f] | None => [] end.
Definition written (l : t) : bytes := concat (map (fun f => FileUtil.AppendFile.stream f.2) (all_files l)).

(** [fwrite] takes some of what it is given. *)
Definition fwrite_works : Prop := FileUtil.AppendFile.fwrite_ok fwrite /\ (forall i n, 0 < n -> 0 < fwrite i n).

Lemma rollFile_keeps l :
  is_Some (file_ l) -> written (rollFile l).2 = written l /\ is_Some (file_ (rollFile l).2).
Proof.
  intros [f Hf]. unfold rollFile, tick. simpl. destruct (bool_decide _); simpl; [|split; [done|rewrite Hf; by eexists]].
  split; [|done]. unfold written, all_files. simpl. rewrite Hf, !map_app, !concat_app. simpl. by rewrite !app_nil_r.
Qed.

(** A line is written behind the others, in one file, whether or not the file is rolled. *)
Lemma log_append_spec logline l :
  fwrite_works -> is_Some (file_ l) ->
  exists l', append logline l = Ok (Some l') /\ written l' = written l ++ logline /\ is_Some (file_ l').
Proof.
  intros [Hok Hprog] [[name f] Hf]. unfold append. rewrite Hf.
  destruct (FileUtil.AppendFile.append_file_spec fwrite Hok logline f) as (f' & taken & -> & _ & Hs & _ & Hall).
  rewrite (Hall Hprog) in Hs. set (l1 := set_file (name, f') l).
  assert (written l1 = written l ++ logline) as Hw.
  { unfold written, all_files. simpl. rewrite Hf, !map_app, !concat_app. simpl. by rewrite Hs, !app_nil_r, app_assoc. }
  assert (forall n m k, written (set_count n l1) = written l1 /\
    written (mk n (startOfPeriod_ l1) (lastRoll_ l1) m (file_ l1) (finished l1) k) = written l1) as Hsame by done.
  destruct (bool_decide _).
  { destruct (rollFile_keeps l1) as [Hr1 Hr2]; [by eexists|]. eexists. split; [reflexivity|]. by rewrite Hr1, Hw. }
  destruct (bool_decide _); [|by eexists; split; [reflexivity|]; split; [exact Hw|by eexists]].
  simpl. destruct (bool_decide _).
  { match goal with |- context [rollFile ?x] => destruct (rollFile_keeps x) as [Hr1 Hr2]; [by eexists|] end.
    eexists. split; [reflexivity|]. rewrite Hr1. split; [exact Hw|done]. }
  destruct (bool_decide _); eexists; (split; [reflexivity|]); (split; [exact Hw|by eexists]).
Qed.

Lemma LogFile_spec :
  "/"%byte ∉ basename_ -> 0 < time 0%nat -> exists l, LogFile = Ok l /\ written l = [] /\ is_Some (file_ l).
Proof.
  intros Hb Ht. unfold LogFile. rewrite bool_decide_eq_true_2 by done. simpl. unfold rollFile, tick. simpl.
  rewrite bool_decide_eq_true_2 by lia. simpl. eexists. split; [reflexivity|]. split; [done|by eexists].
Qed.
End logfile.
End LogFile.

Module AsyncLogging.

Abbreviation Buffer := FixedBuffer.t.
Definition new_buffer : Buffer := FixedBuffer.create kLargeBuffer.

(** Where the logging thread is: at the head of its loop, at the lock (where it may wait),
    or writing. *)
Inductive place := NotStarted | Top | AtLock | Writing (buffersToWrite : list Buffer) | Exited.

(** [None] is a moved-from pointer.  [output], [newBuffer1] and [newBuffer2] are the local
    variables of [threadFunc].  History: the lines that fit a buffer, and whether buffers
    have been dropped. *)
Record t := mk {
  running_ : bool;
  currentBuffer_ : option Buffer;
  nextBuffer_ : option Buffer;
  buffers_ : list Buffer;
  output : option LogFile.t;
  newBuffer1 : option Buffer;
  newBuffer2 : option Buffer;
  pc : place;
  accepted : bytes;
  dropped : bool
}.

Definition set_running x s := mk x (currentBuffer_ s) (nextBuffer_ s) (buffers_ s) (output s) (newBuffer1 s) (newBuffer2 s) (pc s) (accepted s) (dropped s).
Definition set_front c n b s := mk (running_ s) c n b (output s) (newBuffer1 s) (newBuffer2 s) (pc s) (accepted s) (dropped s).
Definition set_output x s := mk (running_ s) (currentBuffer_ s) (nextBuffer_ s) (buffers_ s) x (newBuffer1 s) (newBuffer2 s) (pc s) (accepted s) (dropped s).
Definition set_new1 x s := mk (running_ s) (currentBuffer_ s) (nextBuffer_ s) (buffers_ s) (output s) x (newBuffer2 s) (pc s) (accepted s) (dropped s).
Definition set_new2 x s := mk (running_ s) (currentBuffer_ s) (nextBuffer_ s) (buffers_ s) (output s) (newBuffer1 s) x (pc s) (accepted s) (dropped s).
Definition set_pc x s := mk (running_ s) (currentBuffer_ s) (nextBuffer_ s) (buffers_ s) (output s) (newBuffer1 s) (newBuffer2 s) x (accepted s) (dropped s).
Definition accept line s := mk (running_ s) (currentBuffer_ s) (nextBuffer_ s) (buffers_ s) (output s) (newBuffer1 s) (newBuffer2 s) (pc s) (accepted s ++ line) (dropped s).
Definition drop_some s := mk (running_ s) (currentBuffer_ s) (nextBuffer_ s) (buffers_ s) (output s) (newBuffer1 s) (newBuffer2 s) (pc s) (accepted s) true.

Abbreviation M := (ST t).

Definition AsyncLogging : t := mk false (Some new_buffer) (Some new_buffer) [] None None None NotStarted [] false.

Definition deref (b : option Buffer) : M Buffer := match b with Some b => mret b | None => fail NullPointer end.

(** [append(logline, len)], under the lock. *)
Definition append (logline : bytes) : M unit :=
  s ← get;
  let len := lenZ logline in
  b ← deref (currentBuffer_ s);
  _ ← when_ (bool_decide (len < kLargeBuffer)) (modify (accept logline));
  if bool_decide (FixedBuffer.avail b > len) then
    b ← lift (FixedBuffer.append logline len b);
    modify (set_front (Some b) (nextBuffer_ s) (buffers_ s))
  else
    let current := match nextBuffer_ s with Some n => n | None => new_buffer end in
    b' ← lift (FixedBuffer.append logline len current);
    modify (set_front (Some b') None (buffers_ s ++ [b])).

Definition null (b : option Buffer) : bool := match b with Some _ => false | None => true end.

Section thread.
Context (fwrite : nat -> Z -> Z) (time : nat -> Z) (hostname : bytes) (pid : Z).
Context (basename_ : bytes) (rollSize_ : Z).

(** [LogFile output(basename_, rollSize_, false)]: flush every 3 seconds, look every 1024 lines. *)
Definition log_append (line : bytes) : M unit :=
  s ← get;
  match output s with
  | None => fail NullPointer
  | Some l =>
      r ← lift (LogFile.append fwrite time hostname pid basename_ rollSize_ 3 1024 line l);
      match r with
      | Some l => modify (set_output (Some l))
      | None => fail NoEnd
      end
  end.

(** [start], and [threadFunc] up to its loop. *)
Definition start : M unit :=
  _ ← modify (set_running true);
  s ← get;
  _ ← sassert (running_ s);
  l ← lift (LogFile.LogFile time hostname pid basename_);
  _ ← modify (set_output (Some l));
  _ ← modify (set_new1 (Some new_buffer));
  _ ← modify (set_new2 (Some new_buffer));
  modify (set_pc Top).

Definition stop : M unit := modify (set_running false).

Definition empty_buffer (b : option Buffer) : bool :=
  match b with Some b => bool_decide (FixedBuffer.length b = 0) | None => false end.

(** The head of the loop. *)
Definition loop_head : M unit :=
  s ← get;
  if running_ s then
    _ ← sassert (empty_buffer (newBuffer1 s));
    _ ← sassert (empty_buffer (newBuffer2 s));
    modify (set_pc AtLock)
  else modify (set_pc Exited).

(** The block under the lock, when the wait is over. *)
Definition swap_buffers : M unit :=
  s ← get;
  b ← deref (currentBuffer_ s);
  let buffersToWrite := buffers_ s ++ [b] in
  let next := match nextBuffer_ s with Some n => Some n | None => newBuffer2 s end in
  _ ← when_ (null (nextBuffer_ s)) (modify (set_new2 None));
  _ ← modify (set_front (newBuffer1 s) next []);
  _ ← modify (set_new1 None);
  modify (set_pc (Writing buffersToWrite)).

(** Taking a buffer back from the written ones. *)
Definition recycle (buffersToWrite : list Buffer) : M (Buffer * list Buffer) :=
  match list.last buffersToWrite with
  | None => fail AssertionFailed
  | Some b => mret (FixedBuffer.reset b, take (length buffersToWrite - 1) buffersToWrite)
  end.

(** Refilling [newBuffer1] and [newBuffer2] from at most two of the written buffers. *)
Definition take_back (buffersToWrite : list Buffer) : M unit :=
  let buffersToWrite := take 2 buffersToWrite in
  s ← get;
  buffersToWrite ←
    (if null (newBuffer1 s) then
       '(b, rest) ← recycle buffersToWrite; _ ← modify (set_new1 (Some b)); mret rest
     else mret buffersToWrite);
  if null (newBuffer2 s) then
    '(b, rest) ← recycle buffersToWrite; modify (set_new2 (Some b))
  else mret tt.

(** The rest of the loop, with the text of [Timestamp::now()]. *)
Definition write_buffers (now_text : bytes) (buffersToWrite : list Buffer) : M unit :=
  _ ← sassert (negb (bool_decide (length buffersToWrite = 0%nat)));
  buffersToWrite ←
    (if bool_decide (25 < length buffersToWrite)%nat then
       _ ← log_append (snprintf 256 (bs "Dropped log messages at " ++ now_text ++ bs ", " ++
             dec (lenZ buffersToWrite - 2) ++ bs " larger buffers" ++ [LF])).1;
       _ ← modify drop_some;
       mret (take 2 buffersToWrite)
     else mret buffersToWrite);
  _ ← for_each (fun b => log_append (FixedBuffer.data b)) buffersToWrite;
  _ ← take_back buffersToWrite;
  modify (set_pc Top).

Inductive event :=
  | Append (logline : bytes)
  | Start
  | Stop
  | Step (now_text : bytes).       (* the logging thread *)

Definition handle (e : event) : M unit :=
  match e with
  | Append logline => append logline
  | Start => start
  | Stop => stop
  | Step now_text =>
      s ← get;
      match pc s with
      | Top => loop_head
      | AtLock => swap_buffers
      | Writing l => write_buffers now_text l
      | NotStarted | Exited => mret tt
      end
  end.

(** It is started once. *)
Definition possible (s : t) (e : event) : bool :=
  match e with
  | Start => match pc s with NotStarted => true | _ => false end
  | Append logline => bool_decide (lenZ logline < 2 ^ 31)
  | _ => true
  end.

Inductive reachable : t -> Prop :=
  | reach_start : reachable AsyncLogging
  | reach_step s e s' : reachable s -> possible s e = true -> handle e s = Ok (tt, s') -> reachable s'.
End thread.

(** ** Where the lines are *)

Definition fb_ok (b : Buffer) : Prop := FixedBuffer.wf b /\ FixedBuffer.SIZE b = kLargeBuffer.
Definition lines (l : list Buffer) : bytes := concat (map FixedBuffer.data l).

(** In the files, in the buffers being written, in those that wait and the current one. *)
Definition in_files (s : t) : bytes := match output s with Some l => LogFile.written l | None => [] end.
Definition in_flight (s : t) : bytes := match pc s with Writing l => lines l | _ => [] end.
Definition queued (s : t) : bytes := lines (buffers_ s) ++ lines (option_list (currentBuffer_ s)).

Section proofs.
Context (fwrite : nat -> Z -> Z) (time : nat -> Z) (hostname : bytes) (pid : Z).
Context (basename_ : bytes) (rollSize_ : Z).
Context (Hfwrite : LogFile.fwrite_works fwrite) (Htime : 0 < time 0%nat) (Hname : "/"%byte ∉ basename_).

Abbreviation handle := (handle fwrite time hostname pid basename_ rollSize_).
Abbreviation log_append := (log_append fwrite time hostname pid basename_ rollSize_).

(** What the logging thread holds at each place. *)
Definition place_ok (s : t) : Prop :=
  match pc s with
  | NotStarted => output s = None
  | Top | AtLock => newBuffer1 s = Some new_buffer /\ newBuffer2 s = Some new_buffer
  | Writing l =>
      newBuffer1 s = None /\ Forall fb_ok l /\
      ((newBuffer2 s = Some new_buffer /\ (1 <= length l)%nat) \/ (newBuffer2 s = None /\ (2 <= length l)%nat))
  | Exited => True
  end.

Record inv (s : t) : Prop := {
  i_current : exists b, currentBuffer_ s = Some b /\ fb_ok b;
  i_next : match nextBuffer_ s with Some n => n = new_buffer | None => buffers_ s <> [] end;
  i_buffers : Forall fb_ok (buffers_ s);
  i_place : place_ok s;
  i_output : match output s with Some l => is_Some (LogFile.file_ l) | None => pc s = NotStarted end;
  i_lines : dropped s = false -> accepted s = in_files s ++ in_flight s ++ queued s
}.

Lemma new_buffer_ok : fb_ok new_buffer.
Proof. by vm_compute. Qed.

Lemma lines_app l1 l2 : lines (l1 ++ l2) = lines l1 ++ lines l2.
Proof. unfold lines. by rewrite map_app, concat_app. Qed.

Lemma lines_one b : lines [b] = FixedBuffer.data b.
Proof. apply app_nil_r. Qed.

(** A buffer takes a line when there is more room than it needs. *)
Lemma buffer_append line b :
  fb_ok b -> lenZ line < 2 ^ 31 ->
  bool_decide (FixedBuffer.avail b > lenZ line) = bool_decide (lenZ (FixedBuffer.data b) + lenZ line < kLargeBuffer) /\
  exists b', FixedBuffer.append line (lenZ line) b = Ok b' /\ fb_ok b' /\
    FixedBuffer.data b' = if bool_decide (lenZ (FixedBuffer.data b) + lenZ line < kLargeBuffer)
                          then FixedBuffer.data b ++ line else FixedBuffer.data b.
Proof.
  clear Htime Hfwrite Hname. intros [Hb Hsz] Hl. rewrite FixedBuffer.avail_wf by done. rewrite Hsz. split; [apply bool_decide_ext; lia|].
  destruct (FixedBuffer.append_wf line b Hb) as [-> Hwf]. rewrite Hsz in *. eexists. split; [reflexivity|]. destruct (bool_decide _); done.
Qed.

Lemma append_inv line s : inv s -> lenZ line < 2 ^ 31 -> exists s', append line s = Ok (tt, s') /\ inv s'.
Proof.
  clear Htime Hfwrite Hname. intros [] Hl. destruct i_current0 as (b & Hb & Hok). unfold append, get, mbind, st_bind. rewrite Hb. simpl.
  destruct (buffer_append line b Hok Hl) as (Hroom & b' & Hrun & Hok' & Hd). rewrite Hroom.
  assert (forall s1, (when_ (bool_decide (lenZ line < kLargeBuffer)) (modify (accept line)) : M unit) s1 =
    Ok (tt, if bool_decide (lenZ line < kLargeBuffer) then accept line s1 else s1)) as Hacc by (intros s1; unfold when_; destruct (bool_decide (lenZ line < kLargeBuffer)); reflexivity).
  rewrite Hacc. set (s1 := if bool_decide (lenZ line < kLargeBuffer) then _ else _).
  assert (accepted s1 = accepted s ++ (if bool_decide (lenZ line < kLargeBuffer) then line else [])) as Ha
    by (unfold s1; destruct (bool_decide (lenZ line < kLargeBuffer)); [done|by rewrite app_nil_r]).
  assert (forall c n l, set_front c n l s1 = mk (running_ s) c n l (output s) (newBuffer1 s) (newBuffer2 s) (pc s) (accepted s1) (dropped s)) as Hset
    by (intros; unfold s1; destruct (bool_decide (lenZ line < kLargeBuffer)); reflexivity).
  pose proof (lenZ_nonneg (FixedBuffer.data b)). destruct (bool_decide_reflect (lenZ (FixedBuffer.data b) + lenZ line < kLargeBuffer)) as [Hr|Hr].
  - unfold lift at 1. rewrite Hrun. unfold modify. rewrite Hset. eexists. split; [reflexivity|]. split; try done; [by exists b'|].
    simpl. intros Hdr. rewrite Ha, i_lines0 by done. rewrite bool_decide_eq_true_2 by lia.
    unfold in_files, in_flight, queued. simpl. rewrite Hb. unfold lines. simpl. rewrite Hd, !app_nil_r. by rewrite <- !app_assoc.
  - set (cur := match nextBuffer_ s with Some n => n | None => new_buffer end).
    assert (cur = new_buffer) as -> by (unfold cur; by destruct (nextBuffer_ s)).
    destruct (buffer_append line new_buffer new_buffer_ok Hl) as (_ & b2 & Hrun2 & Hok2 & Hd2).
    unfold lift at 1. rewrite Hrun2. unfold modify. rewrite Hset. eexists. split; [reflexivity|]. split; try done; simpl.
    + by exists b2.
    + by destruct (buffers_ s).
    + apply Forall_app. by split; [|constructor].
    + intros Hdr. rewrite Ha, i_lines0 by done. unfold in_files, in_flight, queued. simpl. rewrite Hb. simpl.
      rewrite lines_app, !lines_one, Hd2. change (lenZ (FixedBuffer.data new_buffer)) with 0. rewrite Z.add_0_l. simpl.
      destruct (bool_decide _); by rewrite <- !app_assoc.
Qed.

Lemma start_inv s :
  inv s -> pc s = NotStarted -> exists s', handle Start s = Ok (tt, s') /\ inv s'.
Proof using Htime Hname.
  clear Hfwrite. intros [] Hpc. unfold place_ok in i_place0. rewrite Hpc in i_place0. unfold AsyncLogging.handle, start, modify, get, mbind, st_bind. simpl.
  destruct (LogFile.LogFile_spec time hostname pid basename_ Hname Htime) as (l & Hl & Hw & Hf). unfold lift at 1. rewrite Hl.
  eexists. split; [reflexivity|]. split; try done; simpl.
  intros Hd. rewrite i_lines0 by done. unfold in_files, in_flight. simpl. by rewrite i_place0, Hpc, Hw.
Qed.

Lemma head_inv now_text s : inv s -> pc s = Top -> exists s', handle (Step now_text) s = Ok (tt, s') /\ inv s' /\
  (running_ s = true -> pc s' = AtLock /\ queued s' = queued s).
Proof.
  clear Htime Hfwrite Hname. intros Hi Hpc. pose proof Hi as []. unfold place_ok in i_place0. rewrite Hpc in i_place0. destruct i_place0 as [H1 H2].
  unfold AsyncLogging.handle, get, mbind, st_bind. rewrite Hpc. unfold loop_head, get, mbind, st_bind.
  rewrite H1, H2. destruct (running_ s); simpl; (eexists; split; [reflexivity|]; split; [|done]); split; try done; simpl.
  - by destruct (output s); [|congruence].
  - intros Hd. rewrite i_lines0 by done. unfold in_flight. simpl. by rewrite Hpc.
  - by destruct (output s); [|congruence].
  - intros Hd. rewrite i_lines0 by done. unfold in_flight. simpl. by rewrite Hpc.
Qed.

Lemma swap_inv now_text s : inv s -> pc s = AtLock -> exists s' l, handle (Step now_text) s = Ok (tt, s') /\ inv s' /\
  pc s' = Writing l /\ lines l = queued s /\ queued s' = [] /\ dropped s' = dropped s /\ length l = S (length (buffers_ s)).
Proof.
  clear Htime Hfwrite Hname. intros Hi Hpc. pose proof Hi as []. unfold place_ok in i_place0. rewrite Hpc in i_place0. destruct i_place0 as [H1 H2].
  destruct i_current0 as (b & Hb & Hok).
  unfold AsyncLogging.handle, get, mbind, st_bind. rewrite Hpc. unfold swap_buffers, get, mbind, st_bind. rewrite Hb, H1, H2. simpl.
  assert (lines (buffers_ s ++ [b]) = queued s) as Hlines.
  { unfold queued. rewrite Hb. simpl. by rewrite lines_app. }
  assert (Forall fb_ok (buffers_ s ++ [b])) as Hall by (apply Forall_app; by split; [|constructor]).
  destruct (nextBuffer_ s) as [n|] eqn:Hn; simpl; (do 2 eexists; split; [reflexivity|]);
    (split; [|split_and!; try done; rewrite ?length_app; simpl; lia]); split; simpl; try done.
  - by exists new_buffer.
  - unfold place_ok. simpl. split_and!; [done|done|]. left. rewrite length_app. simpl. split; [done|lia].
  - by destruct (output s); [|congruence].
  - intros Hd. rewrite i_lines0 by done. unfold in_files, in_flight. simpl. rewrite Hpc, Hlines. unfold queued at 2. simpl. by rewrite !app_nil_r.
  - by exists new_buffer.
  - unfold place_ok. simpl. split_and!; [done|done|]. right. rewrite length_app. simpl.
    destruct (buffers_ s); [done|]. simpl. split; [done|lia].
  - by destruct (output s); [|congruence].
  - intros Hd. rewrite i_lines0 by done. unfold in_files, in_flight. simpl. rewrite Hpc, Hlines. unfold queued at 2. simpl. by rewrite !app_nil_r.
Qed.

(** The output and nothing else. *)
Definition with_output (l : LogFile.t) (s : t) : t := set_output (Some l) s.

Lemma log_append_run line s l :
  output s = Some l -> is_Some (LogFile.file_ l) ->
  exists l', log_append line s = Ok (tt, with_output l' s) /\ is_Some (LogFile.file_ l') /\ LogFile.written l' = LogFile.written l ++ line.
Proof using Hfwrite.
  clear Htime Hname. intros Ho Hf. unfold AsyncLogging.log_append, get, mbind, st_bind. rewrite Ho.
  destruct (LogFile.log_append_spec fwrite time hostname pid basename_ rollSize_ 3 1024 line l Hfwrite Hf) as (l' & Hrun & Hw & Hf').
  unfold lift. rewrite Hrun. by exists l'.
Qed.

Lemma log_all_run bufs s l :
  output s = Some l -> is_Some (LogFile.file_ l) ->
  exists l', for_each (fun b => log_append (FixedBuffer.data b)) bufs s = Ok (tt, with_output l' s) /\
    is_Some (LogFile.file_ l') /\ LogFile.written l' = LogFile.written l ++ lines bufs.
Proof using Hfwrite.
  clear Htime Hname. revert s l; induction bufs as [|b bufs IH]; intros s l Ho Hf.
  - exists l. simpl. rewrite app_nil_r. split; [|done]. unfold with_output, set_output. rewrite <- Ho. by destruct s.
  - destruct (log_append_run (FixedBuffer.data b) s l Ho Hf) as (l1 & Hrun & Hf1 & Hw1).
    destruct (IH (with_output l1 s) l1 eq_refl Hf1) as (l2 & Hrun2 & Hf2 & Hw2).
    exists l2. simpl. unfold mbind, st_bind. rewrite Hrun, Hrun2. split_and!; [done|done|]. rewrite Hw2, Hw1. unfold lines. simpl. by rewrite <- app_assoc.
Qed.

(** Two buffers are taken back when two are needed. *)
Lemma recycle_run l b (s : t) : list.last l = Some b -> recycle l s = Ok ((FixedBuffer.reset b, take (length l - 1) l), s).
Proof. clear Htime Hfwrite Hname. unfold recycle. by intros ->. Qed.

Lemma reset_new b : fb_ok b -> FixedBuffer.reset b = new_buffer.
Proof. clear Htime Hfwrite Hname. intros [_ Hs]. unfold FixedBuffer.reset. by rewrite Hs. Qed.

Lemma take_back_run l s :
  newBuffer1 s = None -> Forall fb_ok l ->
  (newBuffer2 s = Some new_buffer /\ (1 <= length l)%nat) \/ (newBuffer2 s = None /\ (2 <= length l)%nat) ->
  take_back l s = Ok (tt, set_new2 (Some new_buffer) (set_new1 (Some new_buffer) s)).
Proof.
  clear Htime Hfwrite Hname. intros H1 Hl Hor. unfold take_back, get, mbind, st_bind. rewrite H1. cbn [null].
  destruct l as [|b1 [|b2 l]]; [destruct Hor as [[_ ?]|[_ ?]]; simpl in *; lia| |]; simpl take.
  - destruct Hor as [[H2 _]|[_ Hx]]; [|simpl in Hx; lia]. apply list.Forall_cons in Hl as [Hb1 _].
    rewrite H2. simpl. rewrite reset_new by done. unfold set_new2, set_new1. simpl. by rewrite <- H2.
  - apply list.Forall_cons in Hl as [Hb1 [Hb2 _]%list.Forall_cons]. change (take 0 l) with (@nil Buffer).
    rewrite (recycle_run [b1; b2] b2 s eq_refl), (reset_new b2 Hb2).
    destruct Hor as [[H2 _]|[H2 _]]; rewrite H2; unfold modify, mret, st_ret; cbn [null].
    + unfold set_new2, set_new1. simpl. by rewrite <- H2.
    + change (take _ [b1; b2]) with [b1]. rewrite (recycle_run [b1] b1 _ eq_refl), (reset_new b1 Hb1). done.
Qed.

Lemma write_inv now_text s l :
  inv s -> pc s = Writing l -> exists s', handle (Step now_text) s = Ok (tt, s') /\ inv s' /\ pc s' = Top /\ queued s' = queued s /\
    ((length l <= 25)%nat -> dropped s' = dropped s /\ in_files s' = in_files s ++ lines l).
Proof using Hfwrite.
  clear Htime Hname. intros Hi Hpc. pose proof Hi as []. unfold place_ok in i_place0. rewrite Hpc in i_place0. destruct i_place0 as (H1 & Hall & H2).
  destruct (output s) as [o|] eqn:Ho; [|congruence].
  assert (forall o' s1, set_pc Top (set_new2 (Some new_buffer) (set_new1 (Some new_buffer) (with_output o' s1))) =
    mk (running_ s1) (currentBuffer_ s1) (nextBuffer_ s1) (buffers_ s1) (Some o') (Some new_buffer) (Some new_buffer) Top (accepted s1) (dropped s1))
    as Hfinal by done.
  unfold AsyncLogging.handle, get, mbind at 1, st_bind at 1. rewrite Hpc. unfold write_buffers.
  rewrite assert_run by (rewrite bool_decide_eq_false_2 by (destruct H2 as [[_ ?]|[_ ?]]; lia); done).
  destruct (bool_decide_reflect (25 < length l)%nat) as [Hmany|Hfew].
  - set (text := (snprintf 256 _).1). destruct (log_append_run text s o Ho i_output0) as (o1 & Hrun1 & Hf1 & _).
    destruct (log_all_run (take 2 l) (drop_some (with_output o1 s)) o1 eq_refl Hf1) as (o2 & Hrun2 & Hf2 & _).
    unfold mbind, st_bind. rewrite Hrun1. unfold modify. simpl. simpl in Hrun2. rewrite Hrun2.
    rewrite take_back_run; [|done|by apply Forall_take|].
    2: { destruct H2 as [[? _]|[? _]]; [left|right]; (split; [done|]); rewrite length_take; lia. }
    eexists. split; [reflexivity|]. rewrite Hfinal. split; [|split_and!; try done; intros; lia]. split; done.
  - destruct (log_all_run l s o Ho i_output0) as (o2 & Hrun2 & Hf2 & Hw2).
    unfold mbind, st_bind, mret, st_ret. rewrite Hrun2. rewrite take_back_run by done.
    eexists. split; [reflexivity|]. unfold modify. rewrite Hfinal.
    split; [|split_and!; try done; intros _; split; [done|]; unfold in_files; simpl; by rewrite Ho, Hw2].
    split; try done. simpl. intros Hd. rewrite i_lines0 by done. unfold in_files, in_flight. simpl. rewrite Ho, Hpc, Hw2.
    by rewrite <- app_assoc.
Qed.

Lemma async_step s e : inv s -> possible s e = true -> exists s', handle e s = Ok (tt, s') /\ inv s'.
Proof using Hfwrite Htime Hname.
  intros Hi Hp. destruct e as [line| | |text]; simpl in Hp.
  - apply bool_decide_eq_true in Hp. by apply append_inv.
  - apply start_inv; [done|]. by destruct (pc s).
  - eexists. split; [reflexivity|]. by destruct Hi; split.
  - destruct (pc s) as [| | |l|] eqn:Hpc.
    + exists s. split; [|done]. unfold AsyncLogging.handle, get, mbind, st_bind. by rewrite Hpc.
    + destruct (head_inv text s Hi Hpc) as (s' & ? & ? & _). by exists s'.
    + destruct (swap_inv text s Hi Hpc) as (s' & ? & ? & ? & _). by exists s'.
    + destruct (write_inv text s l Hi Hpc) as (s' & ? & ? & _). by exists s'.
    + exists s. split; [|done]. unfold AsyncLogging.handle, get, mbind, st_bind. by rewrite Hpc.
Qed.

Lemma async_reachable s : reachable fwrite time hostname pid basename_ rollSize_ s -> inv s.
Proof using Hfwrite Htime Hname.
  induction 1 as [|s e s' _ IH Hp Hrun].
  - split; try done. exists new_buffer. split; [done|apply new_buffer_ok].
  - destruct (async_step s e IH Hp) as (s2 & Hrun2 & ?). rewrite Hrun in Hrun2. by injection Hrun2 as <-.
Qed.
End proofs.

Section runs.
Context (fwrite : nat -> Z -> Z) (time : nat -> Z) (hostname : bytes) (pid : Z).
Context (basename_ : bytes) (rollSize_ : Z).

Fixpoint run (l : list event) (s : t) : res t :=
  match l with
  | [] => Ok s
  | e :: l' => match handle fwrite time hostname pid basename_ rollSize_ e s with Ok (_, s') => run l' s' | Fail f => Fail f end
  end.

(** Events that other threads can make at any time: all but a second [start]. *)
Definition anytime (e : event) : Prop := match e with Append x => lenZ x < 2 ^ 31 | Start => False | _ => True end.

Lemma reachable_run_anytime l s s' : run l s = Ok s' -> Forall anytime l ->
  reachable fwrite time hostname pid basename_ rollSize_ s -> reachable fwrite time hostname pid basename_ rollSize_ s'.
Proof.
  intros Hrun Hl. revert s Hrun. induction Hl as [|e l He _ IH]; cbn [run]; intros s Hrun Hr; [by injection Hrun as <-|].
  destruct (handle _ _ _ _ _ _ e s) as [[[] s1]|] eqn:E; [|done]. apply (IH s1 Hrun). eapply reach_step; [done| |done].
  destruct e; simpl in *; try done. by apply bool_decide_eq_true.
Qed.

(** A logger is started once; then anything may happen. *)
Lemma reachable_run l s : run (Start :: l) AsyncLogging = Ok s -> Forall anytime l ->
  reachable fwrite time hostname pid basename_ rollSize_ AsyncLogging ->
  reachable fwrite time hostname pid basename_ rollSize_ s.
Proof.
  cbn [run]. intros Hrun Hl Hr. destruct (handle _ _ _ _ _ _ Start AsyncLogging) as [[[] s1]|] eqn:E; [|done].
  apply (reachable_run_anytime l s1 s Hrun Hl). by apply (reach_step _ _ _ _ _ _ AsyncLogging Start).
Qed.
End runs.

(** C22: However threads that append interleave with the logging thread, its assertions hold
    and no moved-from buffer is used.  Unless buffers were dropped (more than 25 of them),
    the lines appended are, in order and without gaps, those in the files, then those being
    written, then those in the buffers; and from the head of its loop a running thread
    moves everything that waits into the files in three steps, in order. *)
Theorem async_logging_keeps fwrite time hostname pid basename rollSize s :
  LogFile.fwrite_works fwrite -> 0 < time 0%nat -> "/"%byte ∉ basename ->
  reachable fwrite time hostname pid basename rollSize s ->
  (forall e, possible s e = true -> exists s', handle fwrite time hostname pid basename rollSize e s = Ok (tt, s')) /\
  (dropped s = false -> accepted s = in_files s ++ in_flight s ++ queued s) /\
  (pc s = Top -> running_ s = true -> (length (buffers_ s) < 25)%nat -> forall t1 t2 t3, exists s',
     run fwrite time hostname pid basename rollSize [Step t1; Step t2; Step t3] s = Ok s' /\
     in_files s' = in_files s ++ queued s /\ queued s' = [] /\ pc s' = Top).
Proof.
  intros Hf Ht Hn Hr. pose proof (async_reachable _ _ _ _ _ _ Hf Ht Hn s Hr) as Hi. split_and!.
  - intros e Hp. destruct (async_step fwrite time hostname pid basename rollSize Hf Ht Hn s e Hi Hp) as (s' & ? & _). by exists s'.
  - apply Hi.
  - intros Hpc Hrun Hlen t1 t2 t3.
    destruct (head_inv fwrite time hostname pid basename rollSize t1 s Hi Hpc) as (s1 & H1 & Hi1 & Hq1).
    assert (s1 = set_pc AtLock s) as ->.
    { revert H1. unfold handle, get, mbind, st_bind. rewrite Hpc. unfold loop_head, get, mbind, st_bind. rewrite Hrun.
      pose proof (i_place _ Hi) as Hpl. unfold place_ok in Hpl. rewrite Hpc in Hpl. destruct Hpl as [-> ->]. simpl. by intros [= <-]. }
    destruct (swap_inv fwrite time hostname pid basename rollSize t2 _ Hi1 eq_refl) as (s2 & l & H2 & Hi2 & Hpc2 & Hl & Hq2 & Hd2 & Hlen2).
    destruct (write_inv fwrite time hostname pid basename rollSize Hf t3 s2 l Hi2 Hpc2) as (s3 & H3 & _ & Hpc3 & Hq3 & Hw).
    simpl in Hlen2. destruct (Hw ltac:(lia)) as [_ Hfiles]. exists s3. cbn [run]. rewrite H1, H2, H3. split_and!; [done| |by rewrite Hq3|done].
    rewrite Hfiles, Hl. f_equal. revert H2. unfold handle, swap_buffers, get, deref, mbind, st_bind. simpl.
    destruct (currentBuffer_ s) as [b|]; simpl; [|done]. destruct (null _); simpl; by intros [= <-].
Qed.

(** Concrete runs: the clock shows the day after the epoch, [fwrite] takes everything. *)
Definition run_demo : list event -> t -> res t := run (fun _ n => n) (fun _ => 86400) (bs "host") 7 (bs "app") 1000.

Lemma async_logging_keeps_witness :
  exists s, run_demo [Start; Append (bs "one"); Append (bs "two"); Step []] AsyncLogging = Ok s /\
    accepted s = in_files s ++ in_flight s ++ queued s.
Proof.
  destruct (run_demo [Start; Append (bs "one"); Append (bs "two"); Step []] AsyncLogging) as [s|f] eqn:E;
    [|exfalso; vm_compute in E; discriminate E].
  exists s. split; [reflexivity|].
  destruct (async_logging_keeps (fun _ n => n) (fun _ => 86400) (bs "host") 7 (bs "app") 1000 s) as (_ & Hkeep & _).
  - split; [intros i n Hn; lia|intros i n Hn; exact Hn].
  - lia.
  - intros Hin. const_notin Hin.
  - refine (reachable_run _ _ _ _ _ _ _ s E _ (reach_start _ _ _ _ _ _)). repeat constructor.
  - apply Hkeep. vm_compute in E. injection E as <-. reflexivity.
Defined.

(** The thread looks at [running_] only at the head of its loop: what has been appended
    while it was writing when [stop] is called is never written. *)
Lemma stop_loses_lines :
  exists s, run_demo [Start; Append (bs "one"); Step []; Step []; Append (bs "two"); Stop; Step []; Step []] AsyncLogging = Ok s /\
    pc s = Exited /\ in_files s = bs "one" /\ queued s = bs "two".
Proof. eexists. split; [vm_compute; reflexivity|]. split_and!; reflexivity. Qed.
End AsyncLogging.
