(* ===== verification/Threads.v ===== *)
(** Threads that wait for each other ([muduo/base/Condition.*], [CountDownLatch.*],
    [BlockingQueue.h], [ThreadPool.*]).

    A block under the mutex is one step.  [Module Condition] is what POSIX says of a
    condition variable: a waiter sleeps until it is signalled or wakes spuriously, and then
    takes the mutex again at some later step. *)
From S2P Require Import Prelude.
Open Scope Z_scope.

Module Condition.

Section condition.
(** What identifies a waiting thread (and what it carries while it waits). *)
Context {W : Type}.

(** [woken] waiters have left the wait and want the mutex. *)
Record t := mk { waiting : list W; woken : list W }.

Definition Condition : t := mk [] [].
Definition wait (w : W) (c : t) : t := mk (waiting c ++ [w]) (woken c).

(** Waiter number [k] stops waiting. *)
Definition wake (k : nat) (c : t) : t :=
  match waiting c !! k with
  | Some w => mk (delete k (waiting c)) (woken c ++ [w])
  | None => c
  end.

(** [pthread_cond_signal] wakes a waiter of the system's choice ([pick]), if there is one. *)
Definition notify (pick : nat) (c : t) : t :=
  if bool_decide (pick < length (waiting c))%nat then wake pick c else wake 0 c.

Definition notifyAll (c : t) : t := mk [] (woken c ++ waiting c).

(** Woken waiter number [k] gets the mutex. *)
Definition resume (k : nat) (c : t) : option (W * t) :=
  w ← woken c !! k; Some (w, mk (waiting c) (delete k (woken c))).

Definition idle (c : t) : Prop := waiting c = [] /\ woken c = [].

Lemma wake_spec k c :
  (length (waiting (wake k c)) + length (woken (wake k c)) = length (waiting c) + length (woken c))%nat /\
  (length (woken c) <= length (woken (wake k c)) <= length (woken c) + 1)%nat /\
  waiting (wake k c) ++ woken (wake k c) ≡ₚ waiting c ++ woken c /\
  (forall w, w ∈ waiting (wake k c) -> w ∈ waiting c).
Proof.
  unfold wake. destruct (waiting c !! k) as [w|] eqn:E; [|split_and!; try done; lia]. simpl.
  pose proof (length_delete _ _ (mk_is_Some _ _ E)) as Hd. rewrite length_app. simpl. apply lookup_lt_Some in E as Hl.
  split_and!; try lia.
  - rewrite (app_assoc _ _ [w]). rewrite <- Permutation_cons_append.
    rewrite app_comm_cons. f_equiv. symmetry. by apply delete_Permutation.
  - intros x Hx. rewrite (delete_Permutation _ _ _ E). by apply list_elem_of_further.
Qed.

(** Somebody is woken when somebody waits. *)
Lemma notify_wakes pick c :
  (waiting c = [] /\ notify pick c = c) \/
  (waiting c <> [] /\ length (waiting c) = S (length (waiting (notify pick c))) /\
   length (woken (notify pick c)) = S (length (woken c))).
Proof.
  destruct (waiting c) as [|w l] eqn:E; [left|right].
  - split; [done|]. unfold notify, wake. rewrite E. simpl. done.
  - split; [done|]. assert (forall k, (k < length (w :: l))%nat ->
      length (w :: l) = S (length (waiting (wake k c))) /\ length (woken (wake k c)) = S (length (woken c))) as Hk.
    { intros k Hk. unfold wake. rewrite E. destruct (lookup_lt_is_Some_2 _ _ Hk) as [x Hx]. rewrite Hx. simpl.
      pose proof (length_delete _ _ (mk_is_Some _ _ Hx)) as Hd. rewrite length_app. simpl in *. lia. }
    unfold notify. rewrite E. case_bool_decide; apply Hk; simpl in *; lia.
Qed.

Lemma notify_wake pick c : exists k, notify pick c = wake k c.
Proof. unfold notify. case_bool_decide; by eexists. Qed.

Lemma resume_spec k c w c' :
  resume k c = Some (w, c') -> waiting c' = waiting c /\ length (woken c) = S (length (woken c')) /\
    woken c ≡ₚ w :: woken c'.
Proof.
  unfold resume. destruct (woken c !! k) as [x|] eqn:E; [|done]. simpl. intros [= <- <-]. simpl.
  pose proof (length_delete _ _ (mk_is_Some _ _ E)). apply lookup_lt_Some in E as Hl. split_and!; [done|lia|]. by apply delete_Permutation.
Qed.

(** [n] wake-ups are enough: nobody sleeps, or [n] waiters are on their way. *)
Definition covered (c : t) (n : nat) : Prop := waiting c = [] \/ (n <= length (woken c))%nat.

Lemma covered_le c m n : (n <= m)%nat -> covered c m -> covered c n.
Proof. intros ? [?|?]; [by left|right; lia]. Qed.

Lemma covered_notify pick c n : covered c n -> covered (notify pick c) (S n).
Proof.
  intros Hc. destruct (notify_wakes pick c) as [[Hn ->]|(Hn & Hw & Hk)]; [by left|right].
  destruct Hc as [Hc|Hc]; [done|lia].
Qed.

Lemma covered_wake k c n : covered c n -> covered (wake k c) n.
Proof.
  intros [Hc|Hc]; [left|right].
  - unfold wake. by rewrite Hc.
  - pose proof (wake_spec k c). lia.
Qed.

Lemma covered_resume k c w c' n : resume k c = Some (w, c') -> covered c n -> covered c' (n - 1).
Proof. intros (Hw & Hl & _)%resume_spec [Hc|Hc]; [left; by rewrite Hw|right; lia]. Qed.

Lemma covered_0 c : covered c 0.
Proof. right. lia. Qed.
End condition.
Arguments t : clear implicits.
End Condition.

Create HintDb cond.
#[export] Hint Resolve Condition.covered_notify Condition.covered_wake Condition.covered_0 : cond.

(** ** CountDownLatch *)

Module CountDownLatch.

Record t := mk { count_ : Z; condition_ : Condition.t nat }.

Definition CountDownLatch (count : Z) : t := mk count Condition.Condition.

(** The loop of [wait]: the thread waits (again), or returns. *)
Definition wait (thread : nat) (l : t) : bool * t :=
  if bool_decide (count_ l > 0) then (false, mk (count_ l) (Condition.wait thread (condition_ l))) else (true, l).

Definition countDown (l : t) : t :=
  let l := mk (count_ l - 1) (condition_ l) in
  if bool_decide (count_ l = 0) then mk (count_ l) (Condition.notifyAll (condition_ l)) else l.

Definition getCount (l : t) : Z := count_ l.

Inductive event := Wait (thread : nat) | CountDown | Resume (k : nat) | Spurious (k : nat).

Definition handle (e : event) (l : t) : t :=
  match e with
  | Wait thread => (wait thread l).2
  | CountDown => countDown l
  | Resume k =>
      match Condition.resume k (condition_ l) with
      | Some (thread, c) => (wait thread (mk (count_ l) c)).2
      | None => l
      end
  | Spurious k => mk (count_ l) (Condition.wake k (condition_ l))
  end.

(** Nobody sleeps when the count has reached zero. *)
Lemma latch_opens count events :
  let l := foldl (fun l e => handle e l) (CountDownLatch count) events in
  Condition.waiting (condition_ l) <> [] -> 0 < count_ l.
Proof.
  cbv zeta. assert (forall l, (Condition.waiting (condition_ l) <> [] -> 0 < count_ l) ->
    let l' := foldl (fun l e => handle e l) l events in Condition.waiting (condition_ l') <> [] -> 0 < count_ l') as H;
    [|by apply H].
  induction events as [|e events IH]; intros l Hl; simpl; [done|]. apply IH. clear IH. destruct e as [th| |k|k]; simpl.
  - unfold wait. case_bool_decide; simpl; [lia|done].
  - unfold countDown. simpl. case_bool_decide; simpl; [done|]. intros Hw. specialize (Hl Hw). lia.
  - destruct (Condition.resume k _) as [[th c]|] eqn:E; [|done]. apply Condition.resume_spec in E as (Hw & _).
    unfold wait. simpl. case_bool_decide; simpl; [lia|]. by rewrite Hw.
  - intros Hw. apply Hl. intros Hn. apply Hw. unfold Condition.wake. by rewrite Hn.
Qed.
End CountDownLatch.

(** ** BlockingQueue *)

Module BlockingQueue.
Section queue.
Context {T : Type}.

(** History: the values put and taken so far, in order. *)
Record t := mk { queue_ : list T; notEmpty_ : Condition.t nat; values_put : list T; values_taken : list T }.

Definition BlockingQueue : t := mk [] Condition.Condition [] [].

Definition put (x : T) (pick : nat) (q : t) : t :=
  mk (queue_ q ++ [x]) (Condition.notify pick (notEmpty_ q)) (values_put q ++ [x]) (values_taken q).

(** The loop of [take] and what follows it: the thread waits (again), or takes the front. *)
Definition take (thread : nat) (q : t) : res t :=
  match queue_ q with
  | [] => Ok (mk [] (Condition.wait thread (notEmpty_ q)) (values_put q) (values_taken q))
  | front :: rest =>
      _ ← assert_ (negb (bool_decide (length (queue_ q) = 0%nat)));
      mret (mk rest (notEmpty_ q) (values_put q) (values_taken q ++ [front]))
  end.

Definition size (q : t) : nat := length (queue_ q).

Inductive event := Put (x : T) (pick : nat) | Take (thread : nat) | Resume (k : nat) | Spurious (k : nat).

Definition handle (e : event) (q : t) : res t :=
  match e with
  | Put x pick => Ok (put x pick q)
  | Take thread => take thread q
  | Resume k =>
      match Condition.resume k (notEmpty_ q) with
      | Some (thread, c) => take thread (mk (queue_ q) c (values_put q) (values_taken q))
      | None => Ok q
      end
  | Spurious k => Ok (mk (queue_ q) (Condition.wake k (notEmpty_ q)) (values_put q) (values_taken q))
  end.

Inductive reachable : t -> Prop :=
  | reach_new : reachable BlockingQueue
  | reach_handle q e q' : reachable q -> handle e q = Ok q' -> reachable q'.

(** Values leave in the order they came, and wake-ups are not lost. *)
Definition queue_inv (q : t) : Prop :=
  values_put q = values_taken q ++ queue_ q /\ Condition.covered (notEmpty_ q) (size q).

Lemma take_spec thread q :
  values_put q = values_taken q ++ queue_ q -> Condition.covered (notEmpty_ q) (size q - 1) ->
  exists q', take thread q = Ok q' /\ queue_inv q'.
Proof.
  intros Hf Hc. unfold take, size in *. destruct (queue_ q) as [|x l] eqn:E; eexists; (split; [reflexivity|]).
  - split; [done|]. apply Condition.covered_0.
  - split; simpl; [by rewrite Hf, <- app_assoc|]. unfold size. simpl in *. by rewrite Nat.sub_0_r in Hc.
Qed.

Lemma queue_never_stuck q : reachable q -> queue_inv q /\ forall e, exists q', handle e q = Ok q' /\ queue_inv q'.
Proof.
  assert (forall q e, queue_inv q -> exists q', handle e q = Ok q' /\ queue_inv q') as Hstep.
  { clear q. intros q [x pick|thread|k|k] [Hf Hc]; simpl.
    - eexists. split; [reflexivity|]. split; simpl; [by rewrite Hf, app_assoc|].
      unfold size in *. simpl. rewrite length_app, Nat.add_1_r. by apply Condition.covered_notify.
    - apply take_spec; [done|]. eapply Condition.covered_le; [|exact Hc]. lia.
    - destruct (Condition.resume k _) as [[thread c]|] eqn:E; [|by exists q].
      apply take_spec; [done|]. by eapply Condition.covered_resume.
    - eexists. split; [reflexivity|]. split; [done|]. by apply Condition.covered_wake. }
  intros Hr. assert (queue_inv q) as Hi.
  { induction Hr as [|q e q' _ IH Hrun]; [by split; [|left]|]. destruct (Hstep q e IH) as (q2 & Hq2 & ?).
    rewrite Hrun in Hq2. by injection Hq2 as ->. }
  split; [done|]. intros e. by apply Hstep.
Qed.
End queue.
Arguments t : clear implicits.
End BlockingQueue.

(** ** ThreadPool *)

Module ThreadPool.
Section pool.
(** What a task does; [None] is an empty [std::function]. *)
Context {A : Type}.
Abbreviation Task := (option A).

(** A worker is at [while (running_)], at the lock of [take], waiting in [take], in a task,
    or its [runInThread] has returned. *)
Inductive worker := AtLoop | AtTake | Waiting | Running (a : A) | Exited.

(** A waiter of [notFull_] carries the task it wants to queue.  History: the tasks called
    by [run] itself, those queued and those taken from the queue. *)
Record t := mk {
  threads_ : list worker;
  notEmpty_ : Condition.t nat;
  notFull_ : Condition.t Task;
  queue_ : list Task;
  maxQueueSize_ : Z;
  running_ : bool;
  called : list A;
  accepted : list Task;
  dequeued : list Task
}.

Definition set_threads x s := mk x (notEmpty_ s) (notFull_ s) (queue_ s) (maxQueueSize_ s) (running_ s) (called s) (accepted s) (dequeued s).
Definition set_notEmpty x s := mk (threads_ s) x (notFull_ s) (queue_ s) (maxQueueSize_ s) (running_ s) (called s) (accepted s) (dequeued s).
Definition set_notFull x s := mk (threads_ s) (notEmpty_ s) x (queue_ s) (maxQueueSize_ s) (running_ s) (called s) (accepted s) (dequeued s).
Definition set_running x s := mk (threads_ s) (notEmpty_ s) (notFull_ s) (queue_ s) (maxQueueSize_ s) x (called s) (accepted s) (dequeued s).
Definition push_back task s :=
  mk (threads_ s) (notEmpty_ s) (notFull_ s) (queue_ s ++ [task]) (maxQueueSize_ s) (running_ s) (called s) (accepted s ++ [task]) (dequeued s).
Definition pop_front task rest s :=
  mk (threads_ s) (notEmpty_ s) (notFull_ s) rest (maxQueueSize_ s) (running_ s) (called s) (accepted s) (dequeued s ++ [task]).
Definition set_worker i w s := set_threads (<[i := w]> (threads_ s)) s.

Definition ThreadPool : t := mk [] Condition.Condition Condition.Condition [] 0 false [] [] [].

Definition setMaxQueueSize (maxSize : Z) (s : t) : t :=
  mk (threads_ s) (notEmpty_ s) (notFull_ s) (queue_ s) (size_wrap maxSize) (running_ s) (called s) (accepted s) (dequeued s).

Definition no_threads (s : t) : bool := match threads_ s with [] => true | _ => false end.

Definition start (numThreads : nat) (s : t) : res t :=
  _ ← assert_ (no_threads s);
  mret (set_threads (replicate numThreads AtLoop) (set_running true s)).

(** [stop] up to the joins. *)
Definition stop (s : t) : t := set_notEmpty (Condition.notifyAll (notEmpty_ s)) (set_running false s).

Definition queueSize (s : t) : Z := lenZ (queue_ s).
Definition isFull (s : t) : bool := bool_decide (maxQueueSize_ s > 0) && bool_decide (lenZ (queue_ s) >= maxQueueSize_ s).

(** The loop of [run] and what follows it. *)
Definition run_locked (task : Task) (pick : nat) (s : t) : res t :=
  if isFull s then mret (set_notFull (Condition.wait task (notFull_ s)) s)
  else
    _ ← assert_ (negb (isFull s));
    let s := push_back task s in
    mret (set_notEmpty (Condition.notify pick (notEmpty_ s)) s).

Definition run (task : Task) (pick : nat) (s : t) : res t :=
  if no_threads s then
    match task with
    | Some a => mret (mk (threads_ s) (notEmpty_ s) (notFull_ s) (queue_ s) (maxQueueSize_ s) (running_ s) (called s ++ [a]) (accepted s) (dequeued s))
    | None => Fail LogicError
    end
  else run_locked task pick s.

(** [if (task) task();] in [runInThread]. *)
Definition dispatch (i : nat) (task : Task) (s : t) : t :=
  set_worker i (match task with Some a => Running a | None => AtLoop end) s.

(** [take] of worker [i], from its loop to its return. *)
Definition take (i pick : nat) (s : t) : t :=
  match queue_ s with
  | [] =>
      if running_ s then set_worker i Waiting (set_notEmpty (Condition.wait i (notEmpty_ s)) s)
      else dispatch i None s
  | task :: rest =>
      let s := pop_front task rest s in
      let s := if bool_decide (maxQueueSize_ s > 0) then set_notFull (Condition.notify pick (notFull_ s)) s else s in
      dispatch i task s
  end.

(** The next step of worker [i] in [runInThread]; a task ends at some point (it does not
    itself wait in [run]) and throws nothing. *)
Definition runInThread (i pick : nat) (s : t) : t :=
  match threads_ s !! i with
  | Some AtLoop => set_worker i (if running_ s then AtTake else Exited) s
  | Some AtTake => take i pick s
  | Some (Running _) => set_worker i AtLoop s
  | _ => s
  end.

Inductive event :=
  | SetMaxQueueSize (maxSize : Z)
  | Start (numThreads : nat)
  | Stop
  | Run (task : Task) (pick : nat)
  | Worker (i pick : nat)
  | ResumeTake (k pick : nat)
  | ResumeRun (k pick : nat)
  | SpuriousTake (k : nat)
  | SpuriousRun (k : nat).

Definition handle (e : event) (s : t) : res t :=
  match e with
  | SetMaxQueueSize m => Ok (setMaxQueueSize m s)
  | Start n => start n s
  | Stop => Ok (stop s)
  | Run task pick => run task pick s
  | Worker i pick => Ok (runInThread i pick s)
  | ResumeTake k pick =>
      match Condition.resume k (notEmpty_ s) with
      | Some (i, c) => Ok (take i pick (set_worker i AtTake (set_notEmpty c s)))
      | None => Ok s
      end
  | ResumeRun k pick =>
      match Condition.resume k (notFull_ s) with
      | Some (task, c) => run_locked task pick (set_notFull c s)
      | None => Ok s
      end
  | SpuriousTake k => Ok (set_notEmpty (Condition.wake k (notEmpty_ s)) s)
  | SpuriousRun k => Ok (set_notFull (Condition.wake k (notFull_ s)) s)
  end.

(** The contract: the size is set and the pool is started while it has no threads; without
    threads an empty function is not run. *)
Definition possible (s : t) (e : event) : bool :=
  match e with
  | SetMaxQueueSize _ | Start _ => no_threads s
  | Run None _ => negb (no_threads s)
  | _ => true
  end.

Inductive reachable : t -> Prop :=
  | reach_new : reachable ThreadPool
  | reach_handle s e s' : reachable s -> possible s e = true -> handle e s = Ok s' -> reachable s'.

(** The steps of threads that are neither asleep nor outside the pool. *)
Definition moves (s : t) (e : event) : bool :=
  match e with
  | Worker i _ => match threads_ s !! i with Some AtLoop | Some AtTake | Some (Running _) => true | _ => false end
  | ResumeTake k _ => bool_decide (k < length (Condition.woken (notEmpty_ s)))%nat
  | ResumeRun k _ => bool_decide (k < length (Condition.woken (notFull_ s)))%nat
  | _ => false
  end.

(** ** Invariant *)

Definition free (s : t) : nat := Z.to_nat (maxQueueSize_ s - lenZ (queue_ s)).
Definition sleepers (s : t) : list nat := Condition.waiting (notEmpty_ s) ++ Condition.woken (notEmpty_ s).

(** With [a] workers and [b] callers of [run] that hold the mutex on their way. *)
Record inv_with (a b : nat) (s : t) : Prop := {
  i_fifo : accepted s = dequeued s ++ queue_ s;
  i_max : 0 <= maxQueueSize_ s;
  i_bound : 0 < maxQueueSize_ s -> lenZ (queue_ s) <= maxQueueSize_ s;
  i_take : Condition.covered (notEmpty_ s) (length (queue_ s) - a);
  i_run : Condition.covered (notFull_ s) (free s - b);
  i_idle : threads_ s = [] -> queue_ s = [] /\ sleepers s = [] /\ Condition.idle (notFull_ s);
  i_running : Condition.waiting (notEmpty_ s) <> [] -> running_ s = true;
  i_full : Condition.waiting (notFull_ s) <> [] -> 0 < maxQueueSize_ s;
  i_exit : Exited ∈ threads_ s -> running_ s = false;
  i_wait : forall i, threads_ s !! i = Some Waiting <-> i ∈ sleepers s;
  i_nodup : NoDup (sleepers s)
}.
Abbreviation inv := (inv_with 0 0).

Lemma inv_weaken a b s : inv s -> inv_with a b s.
Proof.
  intros []. split; try done; [eapply Condition.covered_le; [|exact i_take0]|eapply Condition.covered_le; [|exact i_run0]]; lia.
Qed.

(** Moving a worker that does not sleep, to a place where it does not sleep. *)
Lemma set_worker_inv a b i w w0 s :
  inv_with a b s -> threads_ s !! i = Some w0 -> w0 <> Waiting -> w <> Waiting -> (w = Exited -> running_ s = false) ->
  inv_with a b (set_worker i w s).
Proof.
  intros [] Hi Hw0 Hw Hx. assert (i < length (threads_ s))%nat as Hlt by by apply lookup_lt_Some in Hi.
  split; simpl; try done.
  - intros Hn. apply (f_equal length) in Hn. rewrite length_insert in Hn. simpl in Hn. lia.
  - intros [j Hj]%list_elem_of_lookup. destruct (decide (i = j)) as [->|Hne].
    + rewrite list_lookup_insert_eq in Hj by done. injection Hj as ->. by apply Hx.
    + rewrite list_lookup_insert_ne in Hj by done. apply i_exit0. by eapply list_elem_of_lookup_2.
  - intros j. change (sleepers (set_worker i w s)) with (sleepers s). rewrite <- i_wait0. destruct (decide (i = j)) as [->|Hne].
    + rewrite list_lookup_insert_eq by done. split; intros; congruence.
    + by rewrite list_lookup_insert_ne.
Qed.

(** [take] of a worker that holds the mutex. *)
Lemma take_inv i pick s : inv_with 1 0 s -> threads_ s !! i = Some AtTake -> inv (take i pick s).
Proof.
  intros Hi Hw. pose proof Hi as []. unfold take.
  assert (i < length (threads_ s))%nat as Hlt by by apply lookup_lt_Some in Hw.
  assert (i ∉ sleepers s) as Hns by (rewrite <- i_wait0, Hw; congruence).
  destruct (queue_ s) as [|task rest] eqn:Hq.
  - assert (inv s) as Hi0 by (split; rewrite ?Hq; try done; apply Condition.covered_0).
    destruct (running_ s) eqn:Hr; [|by eapply set_worker_inv].
    assert (sleepers (set_worker i Waiting (set_notEmpty (Condition.wait i (notEmpty_ s)) s)) ≡ₚ i :: sleepers s) as Hsl.
    { unfold sleepers. simpl. by rewrite (Permutation_app_comm _ [i]), <- app_assoc. }
    split; simpl; try done; rewrite ?Hq; try apply Condition.covered_0.
    + by rewrite i_fifo0.
    + intros _. unfold lenZ. simpl. lia.
    + intros Hn. apply (f_equal length) in Hn. rewrite length_insert in Hn. simpl in Hn. lia.
    + intros [j Hj]%list_elem_of_lookup. destruct (decide (i = j)) as [->|Hne].
      * by rewrite list_lookup_insert_eq in Hj.
      * rewrite list_lookup_insert_ne in Hj by done. rewrite Hr. apply i_exit0. by eapply list_elem_of_lookup_2.
    + intros j. rewrite Hsl, elem_of_cons, <- i_wait0. destruct (decide (i = j)) as [->|Hne].
      * rewrite list_lookup_insert_eq by done. naive_solver.
      * rewrite list_lookup_insert_ne by done. naive_solver.
    + rewrite Hsl. by apply list.NoDup_cons.
  - cbv zeta. set (s1 := pop_front task rest s).
    set (s2 := if bool_decide (maxQueueSize_ s1 > 0) then _ else s1).
    assert (inv s2 /\ threads_ s2 = threads_ s) as [Hi2 Ht2].
    { assert (forall c, Condition.covered c (free s1) -> (0 < maxQueueSize_ s \/ c = notFull_ s) -> inv (set_notFull c s1)) as Hs1.
      { intros c Hc Hm. split; simpl; rewrite ?Nat.sub_0_r; try done.
        - by rewrite i_fifo0, <- app_assoc.
        - intros Hpos. specialize (i_bound0 Hpos). unfold lenZ in *. simpl in i_bound0. lia.
        - by simpl in i_take0; rewrite Nat.sub_0_r in i_take0.
        - intros Hn. by destruct (i_idle0 Hn).
        - destruct Hm as [?| ->]; [done|]. apply i_full0. }
      unfold s2. change (maxQueueSize_ s1) with (maxQueueSize_ s). case_bool_decide as Hm; (split; [|done]).
      - apply Hs1; [|left; lia]. rewrite Nat.sub_0_r in i_run0. specialize (i_bound0 ltac:(lia)).
        assert (free s1 = S (free s)) as ->; [|by apply Condition.covered_notify].
        unfold free, lenZ in *. simpl. rewrite Hq in *. simpl in *. lia.
      - change s1 with (set_notFull (notFull_ s) s1). apply Hs1; [|by right]. left.
        destruct (Condition.waiting (notFull_ s)) eqn:E; [done|]. specialize (i_full0 ltac:(done)). lia. }
    apply (set_worker_inv _ _ i _ AtTake); [done|by rewrite Ht2|done|by destruct task|by destruct task].
Qed.

(** [run] of a caller that holds the mutex. *)
Lemma run_locked_inv task pick s :
  inv_with 0 1 s -> threads_ s <> [] -> exists s', run_locked task pick s = Ok s' /\ inv s'.
Proof.
  intros [] Ht. unfold run_locked. destruct (isFull s) eqn:Hfull.
  - eexists. split; [reflexivity|]. unfold isFull in Hfull. apply andb_prop in Hfull as [Hm Hf].
    apply bool_decide_eq_true in Hm, Hf. split; try done; simpl; [|lia].
    assert (free s = 0%nat) as Hz by (unfold free; lia). change (free (set_notFull _ s)) with (free s). rewrite Hz. apply Condition.covered_0.
  - eexists. split; [reflexivity|]. unfold isFull in Hfull. apply andb_false_iff in Hfull.
    rewrite !bool_decide_eq_false in Hfull. pose proof (lenZ_nonneg (queue_ s)).
    destruct (Condition.notify_wake pick (notEmpty_ s)) as [k Hk].
    destruct (Condition.wake_spec k (notEmpty_ s)) as (_ & _ & Hperm & Hin). rewrite <- Hk in Hperm, Hin.
    split; simpl; try done.
    + by rewrite i_fifo0, app_assoc.
    + rewrite lenZ_app. unfold lenZ at 2. simpl. lia.
    + rewrite length_app, Nat.sub_0_r in *. simpl. rewrite Nat.add_1_r. by apply Condition.covered_notify.
    + rewrite Nat.sub_0_r. eapply Condition.covered_le; [|exact i_run0]. unfold free. simpl. rewrite lenZ_app. unfold lenZ at 2. simpl. lia.
    + intros Hw. apply i_running0. intros Hn. rewrite Hn in Hin. apply Hw. apply elem_of_nil_inv. intros x Hx. by apply Hin, elem_of_nil in Hx.
    + intros j. rewrite i_wait0. unfold sleepers. simpl. by rewrite Hperm.
    + unfold sleepers. simpl. by rewrite Hperm.
Qed.

(** A woken worker takes the mutex. *)
Lemma resume_take_inv k i c s :
  inv s -> Condition.resume k (notEmpty_ s) = Some (i, c) ->
  inv_with 1 0 (set_worker i AtTake (set_notEmpty c s)) /\
  threads_ (set_worker i AtTake (set_notEmpty c s)) !! i = Some AtTake /\ threads_ s !! i = Some Waiting.
Proof.
  intros [] Hr. pose proof (Condition.covered_resume _ _ _ _ _ Hr i_take0) as Hc.
  apply Condition.resume_spec in Hr as (Hwait & _ & Hperm).
  assert (sleepers s ≡ₚ i :: (Condition.waiting c ++ Condition.woken c)) as Hsl.
  { unfold sleepers. rewrite <- Hwait, Hperm. symmetry. apply Permutation_middle. }
  assert (threads_ s !! i = Some Waiting) as Hi by (rewrite i_wait0, Hsl; apply list_elem_of_here).
  assert (i < length (threads_ s))%nat as Hlt by by apply lookup_lt_Some in Hi.
  rewrite Hsl in i_nodup0. apply list.NoDup_cons in i_nodup0 as [Hni Hnd].
  split; [|split; [|done]]; [|simpl; by rewrite list_lookup_insert_eq].
  split; simpl; try done.
  - by rewrite Nat.sub_0_r in Hc.
  - intros Hn. apply (f_equal length) in Hn. rewrite length_insert in Hn. simpl in Hn. lia.
  - by rewrite Hwait.
  - intros [j Hj]%list_elem_of_lookup. destruct (decide (i = j)) as [->|Hne].
    + by rewrite list_lookup_insert_eq in Hj.
    + rewrite list_lookup_insert_ne in Hj by done. apply i_exit0. by eapply list_elem_of_lookup_2.
  - intros j. unfold sleepers. simpl. destruct (decide (i = j)) as [->|Hne].
    + rewrite list_lookup_insert_eq by done. split; [done|]. intros; done.
    + rewrite list_lookup_insert_ne by done. rewrite i_wait0, Hsl, elem_of_cons. naive_solver.
Qed.

(** A woken caller of [run] takes the mutex. *)
Lemma resume_run_inv k task c s :
  inv s -> Condition.resume k (notFull_ s) = Some (task, c) -> inv_with 0 1 (set_notFull c s) /\ threads_ s <> [].
Proof.
  intros [] Hr. pose proof (Condition.covered_resume _ _ _ _ _ Hr i_run0) as Hc.
  assert (threads_ s <> []) as Ht.
  { intros Hn. destruct (i_idle0 Hn) as (_ & _ & _ & Hi2). unfold Condition.resume in Hr. by rewrite Hi2 in Hr. }
  split; [|done]. apply Condition.resume_spec in Hr as (Hwait & _ & _). split; simpl; try done.
  - by rewrite Nat.sub_0_r in Hc.
  - by rewrite Hwait.
Qed.

Lemma no_threads_true s : no_threads s = true <-> threads_ s = [].
Proof. unfold no_threads. by destruct (threads_ s). Qed.

Lemma handle_keeps s e : inv s -> possible s e = true -> exists s', handle e s = Ok s' /\ inv s'.
Proof.
  intros Hi Hp. destruct e as [m|n| |task pick|i pick|k pick|k pick|k|k]; simpl in *.
  - apply no_threads_true in Hp. destruct Hi as []. destruct (i_idle0 Hp) as (Hq & Hs & Hf1 & Hf2).
    eexists. split; [reflexivity|]. split; simpl; try done.
    + apply uwrap_in. lia.
    + intros _. rewrite Hq. apply uwrap_in. lia.
    + by left.
  - apply no_threads_true in Hp as Ht. destruct Hi as []. destruct (i_idle0 Ht) as (Hq & Hs & Hf1 & Hf2).
    unfold start. rewrite check_true by done. eexists. split; [reflexivity|]. split; simpl; try done.
    + intros Hx. apply elem_of_replicate in Hx as [? _]. done.
    + intros j. unfold sleepers in *. simpl. rewrite Hs. split; [|intros Hx; by apply elem_of_nil in Hx].
      intros [? _]%lookup_replicate. done.
  - eexists. split; [reflexivity|]. destruct Hi as []. unfold stop.
    assert (Condition.woken (notEmpty_ s) ++ Condition.waiting (notEmpty_ s) ≡ₚ sleepers s) as Hsl by apply Permutation_app_comm.
    split; simpl; try done.
    + by left.
    + intros Hn. destruct (i_idle0 Hn) as (? & Hs & ?). split_and!; try done. unfold sleepers. simpl.
      apply Permutation_nil. by rewrite Hsl, Hs.
    + intros j. unfold sleepers at 1. simpl. by rewrite Hsl.
    + unfold sleepers at 1. simpl. by rewrite Hsl.
  - unfold run. destruct (no_threads s) eqn:Hn.
    + destruct task as [a|]; [|done]. eexists. split; [reflexivity|]. by destruct Hi; split.
    + apply run_locked_inv; [by apply inv_weaken|]. intros Ht. apply no_threads_true in Ht. congruence.
  - eexists. split; [reflexivity|]. unfold runInThread. destruct (threads_ s !! i) as [[| | |a|]|] eqn:Hw; try done.
    + eapply set_worker_inv; [done|done|done|by destruct (running_ s)|by destruct (running_ s)].
    + apply take_inv; [by apply inv_weaken|done].
    + by eapply set_worker_inv.
  - destruct (Condition.resume k _) as [[i c]|] eqn:Hr; [|by exists s].
    destruct (resume_take_inv _ _ _ _ Hi Hr) as (Hi' & Hw & _). eexists. split; [reflexivity|]. by apply take_inv.
  - destruct (Condition.resume k _) as [[task c]|] eqn:Hr; [|by exists s].
    destruct (resume_run_inv _ _ _ _ Hi Hr) as (Hi' & Hw). by apply run_locked_inv.
  - eexists. split; [reflexivity|]. destruct Hi as []. destruct (Condition.wake_spec k (notEmpty_ s)) as (_ & _ & Hperm & Hin).
    split; simpl; try done.
    + by apply Condition.covered_wake.
    + intros Hn. destruct (i_idle0 Hn) as (? & Hs & ?). split_and!; try done. unfold sleepers. simpl.
      apply Permutation_nil. unfold sleepers in Hs. by rewrite Hperm, Hs.
    + intros Hw. apply i_running0. intros Hn. rewrite Hn in Hin. apply Hw. apply elem_of_nil_inv. intros x Hx. by apply Hin, elem_of_nil in Hx.
    + intros j. rewrite i_wait0. unfold sleepers. simpl. by rewrite Hperm.
    + unfold sleepers. simpl. by rewrite Hperm.
  - eexists. split; [reflexivity|]. destruct Hi as []. destruct (Condition.wake_spec k (notFull_ s)) as (Hlen & _ & Hperm & Hin).
    split; simpl; try done.
    + by apply Condition.covered_wake.
    + intros Hn. destruct (i_idle0 Hn) as (? & ? & Hi1 & Hi2). split_and!; try done. unfold Condition.wake. by rewrite Hi1.
    + intros Hw. apply i_full0. intros Hn. rewrite Hn in Hin. apply Hw. apply elem_of_nil_inv. intros x Hx. by apply Hin, elem_of_nil in Hx.
Qed.

Lemma pool_reachable s : reachable s -> inv s.
Proof.
  induction 1 as [|s e s' _ IH Hp Hrun].
  - split; try done; try by left. intros i. split; [done|]. intros Hx. by apply elem_of_nil in Hx.
  - destruct (handle_keeps s e IH Hp) as (s2 & Hrun2 & ?). rewrite Hrun in Hrun2. by injection Hrun2 as ->.
Qed.

(** ** The pool's own steps end

    A measure that every step of a thread that is awake decreases. *)

Definition weight (running : bool) (w : worker) : nat :=
  match w with
  | AtLoop => if running then 3 else 1
  | AtTake => if running then 2 else 3
  | Running _ => if running then 4 else 2
  | Waiting | Exited => 0
  end.

Definition measure (s : t) : nat :=
  20 * length (Condition.waiting (notFull_ s)) + 21 * length (Condition.woken (notFull_ s)) + 10 * length (queue_ s) +
  4 * length (Condition.woken (notEmpty_ s)) + sum_list_with (weight (running_ s)) (threads_ s).

Lemma weight_insert r i w w0 l :
  l !! i = Some w0 ->
  (sum_list_with (weight r) (<[i := w]> l) + weight r w0 = sum_list_with (weight r) l + weight r w)%nat.
Proof.
  revert i; induction l as [|x l IH]; intros [|i] Hi; simpl in *; try done.
  - injection Hi as ->. lia.
  - specialize (IH i Hi). lia.
Qed.

Lemma measure_take i pick s : threads_ s !! i = Some AtTake -> (measure (take i pick s) < measure s)%nat.
Proof.
  intros Hi. unfold take. pose proof (fun w => weight_insert (running_ s) i w AtTake (threads_ s) Hi) as Hw.
  destruct (queue_ s) as [|task rest] eqn:Hq.
  - destruct (running_ s) eqn:Hr; unfold measure; simpl; rewrite Hq, Hr.
    + specialize (Hw Waiting). simpl in Hw. lia.
    + specialize (Hw AtLoop). simpl in Hw. lia.
  - cbv zeta. assert (forall c, (20 * length (Condition.waiting c) + 21 * length (Condition.woken c) <=
      20 * length (Condition.waiting (notFull_ s)) + 21 * length (Condition.woken (notFull_ s)) + 1)%nat ->
      (measure (dispatch i task (set_notFull c (pop_front task rest s))) < measure s)%nat) as Hd.
    { intros c Hc. unfold measure. simpl. rewrite Hq. simpl. destruct task as [a|].
      - specialize (Hw (Running a)). simpl in Hw. destruct (running_ s); lia.
      - specialize (Hw AtLoop). simpl in Hw. destruct (running_ s); lia. }
    case_bool_decide.
    + apply Hd. simpl. destruct (Condition.notify_wakes pick (notFull_ s)) as [[_ ->]|]; lia.
    + change (pop_front task rest s) with (set_notFull (notFull_ s) (pop_front task rest s)). apply Hd. lia.
Qed.

Lemma measure_run_locked task pick s s' : run_locked task pick s = Ok s' -> (measure s' < measure s + 21)%nat.
Proof.
  unfold run_locked. destruct (isFull s); simpl.
  - intros [= <-]. unfold measure. simpl. rewrite length_app. simpl. lia.
  - intros [= <-]. unfold measure. simpl. rewrite length_app. simpl.
    destruct (Condition.notify_wakes pick (notEmpty_ s)) as [[_ ->]|]; lia.
Qed.

Lemma moves_decrease s e s' : inv s -> moves s e = true -> handle e s = Ok s' -> (measure s' < measure s)%nat.
Proof.
  intros Hi. destruct e as [m|n| |task pick|i pick|k pick|k pick|k|k]; simpl; try done.
  - unfold runInThread. destruct (threads_ s !! i) as [w|] eqn:Hw; [|done].
    pose proof (fun w' => weight_insert (running_ s) i w' w (threads_ s) Hw) as Hsum.
    destruct w as [| | |a|]; try done; intros _ [= <-].
    + unfold measure. simpl. destruct (running_ s); [specialize (Hsum AtTake)|specialize (Hsum Exited)]; simpl in Hsum; lia.
    + by apply measure_take.
    + unfold measure. simpl. specialize (Hsum AtLoop). simpl in Hsum. destruct (running_ s); lia.
  - intros Hk%bool_decide_eq_true. destruct (Condition.resume k _) as [[i c]|] eqn:Hr.
    + intros [= <-]. destruct (resume_take_inv _ _ _ _ Hi Hr) as (_ & Hw & Hw0).
      eapply Nat.lt_trans; [by apply measure_take|]. apply Condition.resume_spec in Hr as (_ & Hl & _).
      pose proof (weight_insert (running_ s) i AtTake Waiting (threads_ s) Hw0) as Hsum. unfold measure. simpl in *.
      destruct (running_ s); lia.
    + unfold Condition.resume in Hr. apply lookup_lt_is_Some in Hk as [x Hx]. by rewrite Hx in Hr.
  - intros Hk%bool_decide_eq_true. destruct (Condition.resume k _) as [[task c]|] eqn:Hr.
    + intros Hrun%measure_run_locked. apply Condition.resume_spec in Hr as (Hwait & Hl & _).
      unfold measure in *. simpl in *. rewrite Hwait in Hrun. lia.
    + unfold Condition.resume in Hr. apply lookup_lt_is_Some in Hk as [x Hx]. by rewrite Hx in Hr.
Qed.

(** Nobody can move. *)
Definition at_rest (s : t) : Prop := forall e, moves s e = false.

Lemma rest_workers s : at_rest s -> Condition.woken (notEmpty_ s) = [] /\ Condition.woken (notFull_ s) = [] /\
  Forall (fun w => w = Waiting \/ w = Exited) (threads_ s).
Proof.
  intros Hr. split_and!.
  - specialize (Hr (ResumeTake 0 0)). simpl in Hr. apply bool_decide_eq_false in Hr. destruct (Condition.woken _); [done|]. simpl in Hr. lia.
  - specialize (Hr (ResumeRun 0 0)). simpl in Hr. apply bool_decide_eq_false in Hr. destruct (Condition.woken _); [done|]. simpl in Hr. lia.
  - apply list.Forall_lookup. intros i w Hw. specialize (Hr (Worker i 0)). simpl in Hr. rewrite Hw in Hr.
    destruct w; try done; auto.
Qed.

Lemma rest_running s :
  inv s -> at_rest s -> threads_ s <> [] -> running_ s = true ->
  queue_ s = [] /\ Condition.idle (notFull_ s) /\ Forall (fun w => w = Waiting) (threads_ s).
Proof.
  intros [] Hr Ht Hrun. destruct (rest_workers s Hr) as (Hne & Hnf & Hall).
  assert (Forall (fun w => w = Waiting) (threads_ s)) as Hwait.
  { apply list.Forall_forall. intros w Hw. rewrite list.Forall_forall in Hall. destruct (Hall w Hw) as [?| ->]; [done|].
    specialize (i_exit0 Hw). congruence. }
  assert (queue_ s = []) as Hq.
  { destruct (threads_ s) as [|w l] eqn:Hth; [done|]. apply list.Forall_cons in Hwait as [-> _].
    assert (0%nat ∈ sleepers s) as H0 by (apply i_wait0; done). unfold sleepers in H0. rewrite Hne, app_nil_r in H0.
    destruct i_take0 as [Hn|Hn]; [rewrite Hn in H0; by apply elem_of_nil in H0|]. rewrite Hne in Hn. simpl in Hn.
    destruct (queue_ s); [done|]. simpl in Hn. lia. }
  split_and!; [done| |done]. split; [|done]. destruct i_run0 as [?|Hn]; [done|]. rewrite Hnf in Hn. unfold free in Hn. rewrite Hq in Hn.
  destruct (Condition.waiting (notFull_ s)) eqn:E; [done|]. specialize (i_full0 ltac:(done)). unfold lenZ in Hn. simpl in Hn. lia.
Qed.

Lemma rest_stopped s : inv s -> at_rest s -> running_ s = false -> Forall (fun w => w = Exited) (threads_ s).
Proof.
  intros [] Hr Hrun. destruct (rest_workers s Hr) as (Hne & _ & Hall).
  apply list.Forall_lookup. intros i w Hw. rewrite list.Forall_lookup in Hall. destruct (Hall i w Hw) as [->|]; [|done].
  apply i_wait0 in Hw. unfold sleepers in Hw. rewrite Hne, app_nil_r in Hw.
  destruct (Condition.waiting (notEmpty_ s)) eqn:E; [by apply elem_of_nil in Hw|]. specialize (i_running0 ltac:(done)). congruence.
Qed.
End pool.
Arguments t : clear implicits.

(** C24: the pool loses no task and no wake-up.  However callers, workers, signals and
    spurious wake-ups interleave, the assertions hold, tasks leave the queue in the order
    they entered it, each once, and a bounded queue keeps its bound.  The threads that
    are awake can make only finitely many steps before all are at rest; then, while the
    pool runs, every queued task has been taken and no caller of [run] is blocked; and
    after [stop] every worker has returned, so that [stop] returns. *)
Theorem thread_pool_progress {A} (s : t A) :
  reachable s ->
  (forall e, possible s e = true -> is_ok (handle e s)) /\
  accepted s = dequeued s ++ queue_ s /\ (0 < maxQueueSize_ s -> lenZ (queue_ s) <= maxQueueSize_ s) /\
  (forall e s', moves s e = true -> handle e s = Ok s' -> (measure s' < measure s)%nat) /\
  (at_rest s -> threads_ s <> [] ->
     if running_ s then accepted s = dequeued s /\ Condition.idle (notFull_ s) /\ Forall (fun w => w = Waiting) (threads_ s)
     else Forall (fun w => w = Exited) (threads_ s)).
Proof.
  intros Hr%pool_reachable. split_and!.
  - intros e Hp. destruct (handle_keeps s e Hr Hp) as (s' & ? & _). by exists s'.
  - apply Hr.
  - apply Hr.
  - intros e s'. by apply moves_decrease.
  - intros Hrest Ht. destruct (running_ s) eqn:Hrun; [|by apply rest_stopped].
    destruct (rest_running s Hr Hrest Ht Hrun) as (Hq & ? & ?). split_and!; try done.
    pose proof (i_fifo _ _ _ Hr) as ->. by rewrite Hq, app_nil_r.
Qed.

Fixpoint run_events {A} (l : list event) (s : t A) : option (t A) :=
  match l with
  | [] => Some s
  | e :: l => if possible s e then match handle e s with Ok s' => run_events l s' | Fail _ => None end else None
  end.

Lemma pool_run_reachable {A} l (s s' : t A) : run_events l s = Some s' -> reachable s -> reachable s'.
Proof.
  revert s; induction l as [|e l IH]; simpl; intros s Hrun Hr; [by injection Hrun as <-|].
  destruct (possible s e) eqn:Hp; [|done]. destruct (handle e s) as [s1|] eqn:E; [|done].
  apply (IH s1 Hrun). by eapply reach_handle.
Qed.

(** Two workers, a queue of one: the third caller of [run] has to wait. *)
Definition demo_events : list (@event nat) :=
  [SetMaxQueueSize 1; Start 2; Run (Some 1%nat) 0; Run (Some 2%nat) 0; Worker 0 0; Worker 0 0; Run (Some 3%nat) 0].

Lemma thread_pool_progress_witness :
  exists s, run_events demo_events ThreadPool = Some s /\ accepted s = dequeued s ++ queue_ s /\
    dequeued s = [Some 1%nat] /\ Condition.woken (notFull_ s) = [Some 2%nat].
Proof.
  destruct (run_events demo_events ThreadPool) as [s|] eqn:E; [|exfalso; vm_compute in E; discriminate E].
  exists s. split; [reflexivity|].
  split; [apply (thread_pool_progress s); apply (pool_run_reachable _ _ _ E); constructor|].
  vm_compute in E. injection E as <-. split; reflexivity.
Defined.

(** [stop] wakes only the workers, and they return with the queue full: who waits in [run]
    waits for ever, and the queued task is never called. *)
Lemma stop_strands_callers :
  exists s : t nat, run_events [SetMaxQueueSize 1; Start 1; Run (Some 1%nat) 0; Run (Some 2%nat) 0; Stop; Worker 0 0] ThreadPool = Some s /\
    at_rest s /\ Condition.waiting (notFull_ s) = [Some 2%nat] /\ queue_ s = [Some 1%nat].
Proof.
  eexists. split; [vm_compute; reflexivity|]. split; [|done].
  intros [ | | | |i pick|k pick|k pick| | ]; simpl; try done. by destruct i as [|[|i]].
Qed.
End ThreadPool.
