(* ===== verification/LoopThread.v ===== *)
(** Threads that run a loop ([muduo/base/Thread.*], [muduo/net/EventLoopThread.*]).

    Two threads are interleaved: the owner, which calls [startLoop] and later destroys the
    [EventLoopThread], and the thread that it creates.  A block under a mutex, a wait and a
    read or write of shared memory outside a mutex is one step. *)
From S2P Require Import Prelude Atomic Decimal Threads.
Open Scope Z_scope.

(** ** The name of a thread *)

Module Thread.

(** [setDefaultName]: the name, with the static counter of the threads that were made. *)
Definition setDefaultName (name_ : bytes) (numCreated_ : Z) : res (bytes * Z) :=
  '(num, numCreated_) ← AtomicIntegerT.incrementAndGet 32 numCreated_;
  mret (if bool_decide (name_ = []) then (snprintf 32 (bs "Thread" ++ dec num)).1 else name_, numCreated_).

(** What [runInThread] sets as the thread's own name. *)
Definition runName (name_ : bytes) : bytes := if bool_decide (name_ = []) then bs "muduoThread" else name_.

(** [sleepUsec]: the seconds and nanoseconds that it sleeps. *)
Definition sleepUsec (usec : Z) : Z * Z := (Z.quot usec 1000000, Z.rem usec 1000000 * 1000).

(** The names of threads without one are whole and different. *)
Lemma default_name num : 0 <= num < 2 ^ 31 - 1 -> setDefaultName [] num = Ok (bs "Thread" ++ dec (num + 1), num + 1).
Proof.
  intros Hn. unfold setDefaultName, AtomicIntegerT.incrementAndGet. rewrite AtomicIntegerT.addAndGet_spec by lia.
  rewrite decide_True by (unfold s_in; lia). cbn [mbind res_bind]. rewrite bool_decide_eq_true_2 by done.
  rewrite snprintf_fits; [done|]. rewrite length_app. pose proof (dec_length_int (num + 1) ltac:(unfold s_in; lia)). simpl. lia.
Qed.

(** The time that [nanosleep] gets is well-formed, and it is the time that was asked for. *)
Lemma sleepUsec_spec usec : 0 <= usec -> let '(s, ns) := sleepUsec usec in 0 <= ns < 10 ^ 9 /\ s * 10 ^ 9 + ns = usec * 1000.
Proof.
  intros Hu. unfold sleepUsec. rewrite Z.quot_div_nonneg, Z.rem_mod_nonneg by lia. change (10 ^ 9) with 1000000000. split; div_lia.
Qed.
End Thread.

(** ** A thread with a loop *)

Module EventLoopThread.

(** Where the owner is: before [startLoop]; at the latch, or asleep there; before the block of
    [startLoop], or asleep in it; back from it; in the destructor, before [quit], in [quit]
    when [quit_] is set, before [join] and before the members are destroyed; done. *)
Inductive owner_pc :=
  | O_new | O_latch | O_latch_sleeps | O_block | O_sleeps | O_started (loop : option Z)
  | O_quit | O_wakeup (loop : Z) | O_join | O_members | O_end.

(** Where the thread is: not created; at the beginning of [runInThread]; before [countDown];
    before the loop is made; before [callback_]; before the block that publishes the loop;
    before [loop.loop()]; in it; before the last block; before the end of the scope, where
    the loop is destroyed; finished. *)
Inductive thread_pc :=
  | T_none | T_run | T_latch | T_func | T_callback | T_publish | T_enter | T_looping | T_clear | T_leave | T_finished.

#[global] Instance owner_pc_eq_dec : EqDecision owner_pc.
Proof. solve_decision. Defined.
#[global] Instance thread_pc_eq_dec : EqDecision thread_pc.
Proof. solve_decision. Defined.

(** [loop_] of [EventLoopThread]; [started_], [joined_], [tid_] and [latch_] of its [Thread];
    the loop itself, on the thread's stack at [address], with its [quit_]; the loops that
    other threads are quitting, with [quit_] set and the wake-up to come. *)
Record t := mk {
  loop_ : option Z;
  exiting_ : bool;
  cond_ : Condition.t nat;
  started_ : bool;
  joined_ : bool;
  tid_ : Z;
  latch_ : CountDownLatch.t;
  loop_alive : option Z;
  quit_ : bool;
  wakers : list Z;
  owner : owner_pc;
  thread : thread_pc
}.

Definition set_loop x s := mk x (exiting_ s) (cond_ s) (started_ s) (joined_ s) (tid_ s) (latch_ s) (loop_alive s) (quit_ s) (wakers s) (owner s) (thread s).
Definition set_exiting x s := mk (loop_ s) x (cond_ s) (started_ s) (joined_ s) (tid_ s) (latch_ s) (loop_alive s) (quit_ s) (wakers s) (owner s) (thread s).
Definition set_cond x s := mk (loop_ s) (exiting_ s) x (started_ s) (joined_ s) (tid_ s) (latch_ s) (loop_alive s) (quit_ s) (wakers s) (owner s) (thread s).
Definition set_started x s := mk (loop_ s) (exiting_ s) (cond_ s) x (joined_ s) (tid_ s) (latch_ s) (loop_alive s) (quit_ s) (wakers s) (owner s) (thread s).
Definition set_joined x s := mk (loop_ s) (exiting_ s) (cond_ s) (started_ s) x (tid_ s) (latch_ s) (loop_alive s) (quit_ s) (wakers s) (owner s) (thread s).
Definition set_tid x s := mk (loop_ s) (exiting_ s) (cond_ s) (started_ s) (joined_ s) x (latch_ s) (loop_alive s) (quit_ s) (wakers s) (owner s) (thread s).
Definition set_latch x s := mk (loop_ s) (exiting_ s) (cond_ s) (started_ s) (joined_ s) (tid_ s) x (loop_alive s) (quit_ s) (wakers s) (owner s) (thread s).
Definition set_alive x s := mk (loop_ s) (exiting_ s) (cond_ s) (started_ s) (joined_ s) (tid_ s) (latch_ s) x (quit_ s) (wakers s) (owner s) (thread s).
Definition set_quit x s := mk (loop_ s) (exiting_ s) (cond_ s) (started_ s) (joined_ s) (tid_ s) (latch_ s) (loop_alive s) x (wakers s) (owner s) (thread s).
Definition set_wakers x s := mk (loop_ s) (exiting_ s) (cond_ s) (started_ s) (joined_ s) (tid_ s) (latch_ s) (loop_alive s) (quit_ s) x (owner s) (thread s).
Definition set_owner x s := mk (loop_ s) (exiting_ s) (cond_ s) (started_ s) (joined_ s) (tid_ s) (latch_ s) (loop_alive s) (quit_ s) (wakers s) x (thread s).
Definition set_thread x s := mk (loop_ s) (exiting_ s) (cond_ s) (started_ s) (joined_ s) (tid_ s) (latch_ s) (loop_alive s) (quit_ s) (wakers s) (owner s) x.

Definition EventLoopThread : t :=
  mk None false Condition.Condition false false 0 (CountDownLatch.CountDownLatch 1) None false [] O_new T_none.

(** ** The owner *)

(** [Thread::start] up to the latch: [created] is what [pthread_create] did. *)
Definition thread_start (created : bool) (s : t) : res t :=
  _ ← assert_ (negb (started_ s));
  if created then mret (set_owner O_latch (set_thread T_run (set_started true s)))
  else Fail LogFatal.

(** [startLoop] up to there. *)
Definition startLoop (created : bool) (s : t) : res t :=
  _ ← assert_ (negb (started_ s));
  thread_start created s.

(** [latch_.wait()] and the assertion behind it. *)
Definition latch_wait (s : t) : res t :=
  let '(opened, latch) := CountDownLatch.wait 0 (latch_ s) in
  if opened then
    _ ← assert_ (bool_decide (tid_ s > 0));
    mret (set_owner O_block (set_latch latch s))
  else mret (set_owner O_latch_sleeps (set_latch latch s)).

(** The block of [startLoop]: the owner waits (again), or returns the loop. *)
Definition block (s : t) : t :=
  match loop_ s with
  | None => set_owner O_sleeps (set_cond (Condition.wait 0%nat (cond_ s)) s)
  | Some loop => set_owner (O_started (Some loop)) s
  end.

(** [~EventLoopThread]: [exiting_], and the test of [loop_]. *)
Definition destroy (s : t) : t :=
  set_owner (if bool_decide (loop_ s <> None) then O_quit else O_members) (set_exiting true s).

(** [loop_->quit()], which reads [loop_] again, up to [quit_ = true]. *)
Definition quit_loop (s : t) : res t :=
  match loop_ s with
  | None => Fail NullPointer
  | Some loop =>
      _ ← check UseAfterFree (bool_decide (loop_alive s = Some loop));
      mret (set_owner (O_wakeup loop) (set_quit true s))
  end.

(** The rest of [quit] in another thread than the loop's: [isInLoopThread] and [wakeup] read
    the loop again. *)
Definition wakeup (loop : Z) (s : t) : res t :=
  _ ← check UseAfterFree (bool_decide (loop_alive s = Some loop));
  mret s.
Definition quit_wakeup (s : t) : res t :=
  match owner s with
  | O_wakeup loop => s ← wakeup loop s; mret (set_owner O_join s)
  | _ => mret s
  end.

(** [quit] called by anybody who has the loop: in the loop's own thread, or elsewhere. *)
Definition quit (elsewhere : bool) (s : t) : t :=
  match loop_alive s with
  | Some loop => set_quit true (if elsewhere then set_wakers (wakers s ++ [loop]) s else s)
  | None => s
  end.
Definition quit_rest (s : t) : res t :=
  match wakers s with
  | loop :: l => s ← wakeup loop s; mret (set_wakers l s)
  | [] => mret s
  end.

(** [thread_.join()], when the thread has finished. *)
Definition join (s : t) : res t :=
  _ ← assert_ (started_ s);
  _ ← assert_ (negb (joined_ s));
  mret (set_owner O_members (set_joined true s)).

(** ** The thread *)

(** The mutex and the members are there until the owner is done. *)
Definition members_alive (s : t) : bool := negb (bool_decide (owner s = O_end)).

(** [runInThread] before it calls [func_]. *)
Definition run_tid (tid : Z) (s : t) : t := set_thread T_latch (set_tid tid s).
Definition run_countDown (s : t) : t := set_thread T_func (set_latch (CountDownLatch.countDown (latch_ s)) s).

(** [runInThread], and [threadFunc] that it calls. *)
Definition thread_step (tid address : Z) (s : t) : res t :=
  match thread s with
  | T_run => mret (run_tid tid s)
  | T_latch => mret (run_countDown s)
  | T_func => mret (set_thread T_callback (set_alive (Some address) (set_quit false s)))
  | T_callback => mret (set_thread T_publish s)
  | T_publish =>
      _ ← check UseAfterFree (members_alive s);
      mret (set_thread T_enter (set_cond (Condition.notify 0 (cond_ s)) (set_loop (loop_alive s) s)))
  | T_enter => mret (set_thread T_looping (set_quit false s))
  | T_looping => mret (if quit_ s then set_thread T_clear s else s)
  | T_clear =>
      _ ← check UseAfterFree (members_alive s);
      mret (set_thread T_leave (set_loop None s))
  | T_leave => mret (set_thread T_finished (set_alive None s))
  | T_none | T_finished => mret s
  end.

(** ** Every step *)

(** [Spurious_latch] and [Spurious_cond] are wake-ups without a signal; [Quit] is a call of
    the loop's [quit] by anybody who has the loop, and [QuitRest] its end in another thread. *)
Inductive event :=
  | StartLoop (created : bool) | LatchWait | LatchResumes | Block | Resumes
  | Destroy | QuitLoop | QuitWakeup | Join | Members
  | ThreadRuns (tid address : Z)
  | Spurious_latch | Spurious_cond | Quit (elsewhere : bool) | QuitRest.

Definition handle (e : event) (s : t) : res t :=
  match e with
  | StartLoop created => startLoop created s
  | LatchWait => latch_wait s
  | LatchResumes =>
      match Condition.resume 0 (CountDownLatch.condition_ (latch_ s)) with
      | Some (_, c) => latch_wait (set_latch (CountDownLatch.mk (CountDownLatch.count_ (latch_ s)) c) s)
      | None => Ok s
      end
  | Block => Ok (block s)
  | Resumes =>
      match Condition.resume 0 (cond_ s) with
      | Some (_, c) => Ok (block (set_cond c s))
      | None => Ok s
      end
  | Destroy => Ok (destroy s)
  | QuitLoop => quit_loop s
  | QuitWakeup => quit_wakeup s
  | Join => join s
  | Members => Ok (set_owner O_end s)
  | ThreadRuns tid address => thread_step tid address s
  | Spurious_latch => Ok (set_latch (CountDownLatch.handle (CountDownLatch.Spurious 0) (latch_ s)) s)
  | Spurious_cond => Ok (set_cond (Condition.wake 0 (cond_ s)) s)
  | Quit elsewhere => Ok (quit elsewhere s)
  | QuitRest => quit_rest s
  end.

(** What can happen: the owner goes through its program, a sleeper goes on when it is woken,
    [join] when the thread has finished. *)
Definition possible (s : t) (e : event) : bool :=
  match e with
  | StartLoop _ => bool_decide (owner s = O_new)
  | LatchWait => bool_decide (owner s = O_latch)
  | LatchResumes => bool_decide (owner s = O_latch_sleeps) && bool_decide (Condition.woken (CountDownLatch.condition_ (latch_ s)) <> [])
  | Block => bool_decide (owner s = O_block)
  | Resumes => bool_decide (owner s = O_sleeps) && bool_decide (Condition.woken (cond_ s) <> [])
  | Destroy => match owner s with O_new | O_started _ => true | _ => false end
  | QuitLoop => bool_decide (owner s = O_quit)
  | QuitWakeup => match owner s with O_wakeup _ => true | _ => false end
  | Join => bool_decide (owner s = O_join) && bool_decide (thread s = T_finished)
  | Members => bool_decide (owner s = O_members)
  | ThreadRuns tid address =>
      bool_decide (0 < tid) && match thread s with T_none | T_finished => false | T_looping => quit_ s | _ => true end
  | Spurious_latch => bool_decide (Condition.waiting (CountDownLatch.condition_ (latch_ s)) <> [])
  | Spurious_cond => bool_decide (Condition.waiting (cond_ s) <> [])
  | Quit _ => bool_decide (loop_alive s <> None)
  | QuitRest => bool_decide (wakers s <> [])
  end.

(** A thread can be created.  Nobody quits the loop before [startLoop] has returned it, or
    before the thread has entered the loop, or while the destructor runs; the destructor runs
    when the loop has been entered and not been quit, or when the thread has finished. *)
Definition contract (s : t) (e : event) : bool :=
  match e with
  | StartLoop created => created
  | Quit _ => match owner s with O_started _ => bool_decide (thread s = T_looping) | _ => false end
  | Destroy =>
      bool_decide (owner s = O_new) || bool_decide (thread s = T_finished) ||
      bool_decide (thread s = T_looping) && negb (quit_ s)
  | _ => true
  end.

Inductive reachable : t -> Prop :=
  | reach_new : reachable EventLoopThread
  | reach_step s e s' : reachable s -> possible s e = true -> contract s e = true -> handle e s = Ok s' -> reachable s'.

(** ** The invariant *)

Definition rank (th : thread_pc) : nat :=
  match th with
  | T_none => 0 | T_run => 1 | T_latch => 2 | T_func => 3 | T_callback => 4 | T_publish => 5 | T_enter => 6
  | T_looping => 7 | T_clear => 8 | T_leave => 9 | T_finished => 10
  end.

Abbreviation latch_cond s := (CountDownLatch.condition_ (latch_ s)).

(** The owner sleeps, [up] holding while no signal has come, or is on its way. *)
Definition sleeping (c : Condition.t nat) (up : Prop) : Prop :=
  Condition.waiting c = [0%nat] /\ Condition.woken c = [] /\ up \/ Condition.waiting c = [] /\ Condition.woken c = [0%nat].

(** A condition on which the owner sleeps or not. *)
Definition slot (asleep : bool) (c : Condition.t nat) (up : Prop) : Prop := if asleep then sleeping c up else Condition.idle c.

(** Where the thread can be, by where the owner is. *)
Definition owner_inv s : Prop :=
  let r := rank (thread s) in
  match owner s with
  | O_new => r = 0%nat /\ quit_ s = false
  | O_latch => (1 <= r <= 7)%nat /\ quit_ s = false
  | O_latch_sleeps => (1 <= r <= 7)%nat /\ quit_ s = false
  | O_block | O_sleeps => (3 <= r <= 7)%nat /\ quit_ s = false
  | O_started res => (6 <= r)%nat /\ (exists a, res = Some a) /\ (r <> 10%nat -> loop_alive s = res) /\ (r = 6%nat -> quit_ s = false)
  | O_quit => r = 7%nat /\ quit_ s = false
  | O_wakeup loop => (7 <= r)%nat /\ quit_ s = true /\ (r <> 10%nat -> loop_alive s = Some loop)
  | O_join => (7 <= r)%nat /\ quit_ s = true
  | O_members | O_end => r = 0%nat \/ r = 10%nat
  end.

Record inv s : Prop := {
  i_owner : owner_inv s;
  i_started : started_ s = bool_decide (rank (thread s) <> 0%nat);
  i_joined : match owner s with O_members | O_end => True | _ => joined_ s = false end;
  i_count : CountDownLatch.count_ (latch_ s) = if decide (rank (thread s) <= 2)%nat then 1 else 0;
  i_tid : (2 <= rank (thread s))%nat -> 0 < tid_ s;
  i_alive : is_Some (loop_alive s) <-> (4 <= rank (thread s) <= 9)%nat;
  i_loop : loop_ s = if decide (6 <= rank (thread s) <= 8)%nat then loop_alive s else None;
  i_wakers : Forall (fun loop => rank (thread s) = 10%nat \/ (7 <= rank (thread s))%nat /\ loop_alive s = Some loop) (wakers s);
  i_latch_cond : slot (bool_decide (owner s = O_latch_sleeps)) (latch_cond s) (rank (thread s) <= 2)%nat;
  i_cond : slot (bool_decide (owner s = O_sleeps)) (cond_ s) (rank (thread s) <= 5)%nat
}.

Lemma inv_new : inv EventLoopThread.
Proof. split; try done; simpl; [lia|split; [by intros []|lia]]. Qed.

(** ** The owner's steps *)

Lemma latch_wait_spec s :
  inv (set_owner O_latch s) ->
  exists s', latch_wait s = Ok s' /\ inv s'.
Proof.
  intros Hi. unfold latch_wait, CountDownLatch.wait. pose proof (i_count _ Hi) as Hc. cbn [latch_ set_owner thread] in Hc. rewrite Hc.
  destruct Hi as [Ho ? ? ? Htid ? ? ? Hl ?]. cbn in Ho, Htid, Hl. destruct Ho as [Hr Hq]. case_decide as Hd.
  - rewrite bool_decide_eq_true_2 by lia. eexists. split; [reflexivity|]. split; simpl; try done; [by rewrite decide_True|].
    destruct Hl as [Hw Hk]. unfold sleeping. simpl. rewrite Hw, Hk. by left.
  - rewrite bool_decide_eq_false_2 by lia. rewrite check_true by (apply bool_decide_eq_true, Z.lt_gt, Htid; lia).
    eexists. split; [reflexivity|]. split; simpl; try done. split; [simpl; lia|done].
Qed.

Lemma block_inv s : inv (set_owner O_block s) -> inv (block s).
Proof.
  intros Hi. pose proof Hi as []. cbn in *. destruct i_owner0 as [Hr Hq]. unfold block. destruct (loop_ s) as [a|] eqn:El.
  - destruct (decide (6 <= rank (thread s) <= 8)%nat) as [Hd|Hd]; [|congruence].
    split; simpl; try done; [|rewrite El; by rewrite decide_True]. split_and!; [simpl; lia|by exists a|done|done].
  - assert (rank (thread s) <= 5)%nat as Hd.
    { destruct (decide (6 <= rank (thread s))%nat) as [Hd|Hd]; [|lia]. rewrite decide_True in i_loop0 by lia.
      assert (is_Some (loop_alive s)) as [? ?] by (apply i_alive0; lia). congruence. }
    split; simpl; try done; [rewrite El; by rewrite decide_False by lia|].
    destruct i_cond0 as [Hw Hk]. unfold sleeping. simpl. rewrite Hw, Hk. left. split_and!; [done|done|lia].
Qed.

(** ** The thread's steps *)

(** The members that a step of the thread touches are there. *)
Lemma thread_members s : inv s -> (1 <= rank (thread s) <= 9)%nat -> members_alive s = true.
Proof.
  intros Hi Hr. pose proof (i_owner _ Hi) as Ho. unfold members_alive. rewrite bool_decide_eq_false_2; [done|].
  intros He. unfold owner_inv in Ho. rewrite He in Ho. lia.
Qed.

Lemma sleeping_signal c (up : Prop) : sleeping c up -> sleeping (Condition.notify 0 c) False.
Proof. intros [(Hw & Hk & _)|[Hw Hk]]; right; unfold Condition.notify, Condition.wake; rewrite Hw, ?Hk; simpl; by rewrite ?Hk. Qed.

Lemma sleeping_all c (up : Prop) : sleeping c up -> sleeping (Condition.notifyAll c) False.
Proof. intros [(Hw & Hk & _)|[Hw Hk]]; right; unfold Condition.notifyAll; simpl; by rewrite Hw, Hk. Qed.

Lemma sleeping_mono c (p q : Prop) : (p -> q) -> sleeping c p -> sleeping c q.
Proof. intros Hpq [(? & ? & ?)|?]; [left; auto|by right]. Qed.

Lemma idle_signal (c : Condition.t nat) : Condition.idle c -> Condition.idle (Condition.notify 0 c) /\ Condition.idle (Condition.notifyAll c).
Proof. intros [Hw Hk]. unfold Condition.notify, Condition.wake, Condition.notifyAll, Condition.idle. rewrite Hw. simpl. by rewrite Hk. Qed.

Lemma slot_next b c (p q : Prop) : slot b c p -> (p -> q) -> slot b c q.
Proof. destruct b; [|done]. intros Hc Hpq. by eapply sleeping_mono. Qed.

Lemma slot_signal b c (p q : Prop) : slot b c p -> slot b (Condition.notify 0 c) q /\ slot b (Condition.notifyAll c) q.
Proof.
  destruct b; simpl; [|apply idle_signal]. intros Hc.
  split; (eapply sleeping_mono; [|first [by eapply sleeping_signal|by eapply sleeping_all]]; done).
Qed.

Lemma slot_wake b c (p : Prop) : slot b c p -> slot b (Condition.wake 0 c) p.
Proof.
  destruct b; simpl; [intros [(Hw & Hk & _)|[Hw Hk]]; right|intros [Hw Hk]]; unfold Condition.wake; rewrite Hw; simpl; try done.
  by rewrite Hk.
Qed.

(** The owner's part of the invariant when the thread goes on. *)
Lemma owner_inv_next s s' :
  owner_inv s -> owner s' = owner s -> (1 <= rank (thread s) < rank (thread s'))%nat -> rank (thread s') = S (rank (thread s)) ->
  (rank (thread s) = 7%nat -> quit_ s = true) ->
  (quit_ s' = quit_ s \/ quit_ s' = false /\ (rank (thread s) <= 6)%nat) ->
  (6 <= rank (thread s) <= 8 -> loop_alive s' = loop_alive s)%nat ->
  owner_inv s'.
Proof.
  intros Ho Ho' Hlo Hr Hq Hq' Ha. unfold owner_inv in *. rewrite Ho', Hr.
  assert (rank (thread s') <= 10)%nat as Hmax by (destruct (thread s'); simpl; lia).
  assert (quit_ s = false -> rank (thread s) <> 7%nat) as Hne by (intros Hf H7; specialize (Hq H7); congruence).
  destruct (owner s); cbn zeta in *; try (intuition (congruence || lia)).
  - destruct Ho as (H6 & Hres & Hal & Hql). split_and!; [lia|done| |lia]. intros ?. rewrite Ha by lia. apply Hal. lia.
  - destruct Ho as (H7 & Hqt & Hal). split_and!; [lia|destruct Hq' as [->|[_ ?]]; [done|lia]|].
    intros ?. rewrite Ha by lia. apply Hal. lia.
Qed.

Lemma thread_inv s tid address :
  inv s -> possible s (ThreadRuns tid address) = true -> exists s', thread_step tid address s = Ok s' /\ inv s'.
Proof.
  intros Hi Hp. simpl in Hp. apply andb_true_iff in Hp as [Htid Hp]. apply bool_decide_eq_true in Htid.
  pose proof (thread_members s Hi) as Hm. pose proof Hi as []. unfold thread_step.
  assert (forall s', owner s' = owner s -> rank (thread s') = S (rank (thread s)) ->
    (1 <= rank (thread s))%nat -> (rank (thread s) = 7%nat -> quit_ s = true) ->
    (quit_ s' = quit_ s \/ quit_ s' = false /\ (rank (thread s) <= 6)%nat) ->
    (6 <= rank (thread s) <= 8 -> loop_alive s' = loop_alive s)%nat -> owner_inv s') as Hnext.
  { intros s' ? ? ? ? ? ?. apply (owner_inv_next s); try done. lia. }
  destruct (thread s) eqn:Et; try done; simpl in *; rewrite ?Hp; rewrite ?check_true by (apply Hm; lia);
    (eexists; split; [reflexivity|]); split; simpl; try done;
    try (apply Hnext; simpl; try done; try lia; by left);
    try (eapply slot_next; [first [exact i_latch_cond0|exact i_cond0]|lia]);
    try (eapply slot_signal; exact i_cond0);
    try (intros _; apply i_tid0; lia);
    try (split; [lia|intros _; apply i_alive0; lia]);
    try (eapply list.Forall_impl; [exact i_wakers0|]; intros a [H|[H Ha]]; [lia|first [lia|by left|right; split; [lia|exact Ha]]]).
  - split; [intros Hs; apply i_alive0 in Hs; lia|lia].
  - unfold CountDownLatch.countDown. simpl. rewrite i_count0. done.
  - split; [intros Hs; apply i_alive0 in Hs; lia|lia].
  - unfold CountDownLatch.countDown. simpl. rewrite i_count0. simpl. eapply slot_signal. exact i_latch_cond0.
  - split; [lia|by eexists].
  - split; [by intros []|lia].
Qed.

(** ** Every step *)

(** The wake-up of a [quit] from another thread, after the loop has gone. *)
Definition late_wakeup (e : event) s : Prop := (e = QuitWakeup \/ e = QuitRest) /\ thread s = T_finished.

Lemma rank_finished th : rank th = 10%nat -> th = T_finished.
Proof. by destruct th. Qed.

Lemma quit_wakeup_inv s loop :
  inv s -> owner s = O_wakeup loop ->
  (exists s', quit_wakeup s = Ok s' /\ inv s') \/ thread s = T_finished /\ quit_wakeup s = Fail UseAfterFree.
Proof.
  intros [] Ho. unfold owner_inv in i_owner0. rewrite Ho in *. destruct i_owner0 as (Hr & Hq & Hal).
  unfold quit_wakeup, wakeup. rewrite Ho. destruct (decide (rank (thread s) = 10%nat)) as [Hf|Hf].
  - right. split; [by apply rank_finished|]. rewrite bool_decide_eq_false_2; [done|]. intros Ha.
    assert (is_Some (loop_alive s)) as Hs%i_alive0 by (by eexists). lia.
  - left. rewrite bool_decide_eq_true_2 by auto. eexists. split; [reflexivity|]. by split.
Qed.

Lemma quit_rest_inv s :
  inv s -> (exists s', quit_rest s = Ok s' /\ inv s') \/ thread s = T_finished /\ quit_rest s = Fail UseAfterFree.
Proof.
  intros Hi. pose proof Hi as []. unfold quit_rest, wakeup. destruct (wakers s) as [|a l]; [left; by exists s|].
  apply list.Forall_cons in i_wakers0 as [[Hf|[_ Ha]] Hl].
  - right. split; [by apply rank_finished|]. rewrite bool_decide_eq_false_2; [done|]. intros Ha.
    assert (is_Some (loop_alive s)) as Hs%i_alive0 by (by eexists). lia.
  - left. rewrite bool_decide_eq_true_2 by done. eexists. split; [reflexivity|]. by split.
Qed.

Lemma loop_thread_step s e :
  inv s -> possible s e = true -> contract s e = true ->
  (exists s', handle e s = Ok s' /\ inv s') \/ late_wakeup e s /\ handle e s = Fail UseAfterFree.
Proof.
  intros Hi Hp Hc. pose proof Hi as []. destruct e as [created| | | | | | | | | |tid address| | |elsewhere|]; simpl in Hp, Hc.
  - subst created. apply bool_decide_eq_true in Hp. unfold owner_inv in i_owner0. rewrite Hp in *. destruct i_owner0 as [Hr Hq].
    simpl. unfold startLoop, thread_start. rewrite Hr in *. simpl in *. rewrite i_started0. simpl. left. eexists. split; [reflexivity|].
    split; simpl; try done; [split; [simpl; lia|done]|lia|split; [intros Hs; apply i_alive0 in Hs; lia|lia]|].
    eapply list.Forall_impl; [exact i_wakers0|]. intros a [?|[? _]]; lia.
  - apply bool_decide_eq_true in Hp. left. apply (latch_wait_spec s). by replace (set_owner O_latch s) with s by (destruct s; simpl in *; by subst).
  - apply andb_true_iff in Hp as [Ho Hw]. apply bool_decide_eq_true in Ho, Hw. simpl. rewrite Ho in i_latch_cond0. simpl in i_latch_cond0.
    destruct i_latch_cond0 as [(_ & ? & _)|[Hw1 Hw2]]; [done|]. unfold Condition.resume. rewrite Hw2. simpl.
    left. apply latch_wait_spec. unfold owner_inv in i_owner0. rewrite Ho in *. split; simpl; try done.
  - apply bool_decide_eq_true in Hp. left. eexists. split; [reflexivity|]. apply block_inv. by replace (set_owner O_block s) with s by (destruct s; simpl in *; by subst).
  - apply andb_true_iff in Hp as [Ho Hw]. apply bool_decide_eq_true in Ho, Hw. simpl. rewrite Ho in i_cond0. simpl in i_cond0.
    destruct i_cond0 as [(_ & ? & _)|[Hw1 Hw2]]; [done|]. unfold Condition.resume. rewrite Hw2. simpl. left. eexists. split; [reflexivity|].
    apply block_inv. unfold owner_inv in i_owner0. rewrite Ho in *. split; simpl; try done.
  - left. eexists. split; [reflexivity|]. unfold destroy.
    assert (rank (thread s) = 0%nat \/ rank (thread s) = 10%nat \/ rank (thread s) = 7%nat /\ quit_ s = false) as Hr.
    { rewrite !orb_true_iff, andb_true_iff, !bool_decide_eq_true, negb_true_iff in Hc. unfold owner_inv in i_owner0.
      destruct Hc as [[Hn|Ht]|[Ht Hq]]; [rewrite Hn in i_owner0; left; apply i_owner0|right; left; by rewrite Ht|right; right; by rewrite Ht]. }
    assert (joined_ s = false) as Hj by (by destruct (owner s)).
    assert (slot false (latch_cond s) (rank (thread s) <= 2)%nat /\ slot false (cond_ s) (rank (thread s) <= 5)%nat) as [Hs1 Hs2].
    { destruct (owner s); try done. }
    destruct Hr as [Hr|[Hr|[Hr Hq]]]; rewrite Hr in i_loop0; simpl in i_loop0.
    + rewrite bool_decide_eq_false_2 by (intros Hn; by apply Hn). split; simpl; try done; [by left|by rewrite Hr].
    + rewrite bool_decide_eq_false_2 by (intros Hn; by apply Hn). split; simpl; try done; [by right|by rewrite Hr].
    + assert (is_Some (loop_alive s)) as [a Ha] by (apply i_alive0; lia).
      rewrite bool_decide_eq_true_2 by (rewrite i_loop0; congruence). split; simpl; try done; by rewrite Hr.
  - apply bool_decide_eq_true in Hp. unfold owner_inv in i_owner0. rewrite Hp in *. destruct i_owner0 as [Hr Hq].
    assert (is_Some (loop_alive s)) as [a Ha] by (apply i_alive0; lia). simpl. unfold quit_loop. rewrite Hr in i_loop0. simpl in i_loop0.
    rewrite i_loop0, Ha. rewrite check_true by (by apply bool_decide_eq_true). left. eexists. split; [reflexivity|].
    split; simpl; try done; [split_and!; [simpl; lia|done|done]|by rewrite i_loop0, Hr].
  - destruct (owner s) eqn:Ho; try done. destruct (quit_wakeup_inv s loop Hi Ho) as [?|[? ?]]; [by left|right].
    split; [split; [by left|done]|done].
  - apply andb_true_iff in Hp as [Ho Ht]. apply bool_decide_eq_true in Ho, Ht. rewrite Ho, Ht in *. simpl. unfold join. rewrite i_started0, i_joined0. simpl.
    left. eexists. split; [reflexivity|]. split; simpl; rewrite ?Ht; try done. right. simpl. by rewrite Ht.
  - apply bool_decide_eq_true in Hp. unfold owner_inv in i_owner0. rewrite Hp in *. left. eexists. split; [reflexivity|]. by split.
  - left. by apply thread_inv.
  - left. eexists. split; [reflexivity|]. split; try done. simpl. by apply slot_wake.
  - left. eexists. split; [reflexivity|]. split; try done. simpl. by apply slot_wake.
  - destruct (owner s) as [| | | | |res| | | | |] eqn:Ho; try done. apply bool_decide_eq_true in Hc. left. eexists. split; [reflexivity|].
    unfold owner_inv in i_owner0. rewrite Ho in i_owner0. destruct i_owner0 as (Hr & Hres & Hal & Hql).
    unfold quit. destruct (loop_alive s) as [a|] eqn:Ea; [|done].
    assert (Forall (fun loop => rank (thread s) = 10%nat \/ (7 <= rank (thread s))%nat /\ Some a = Some loop) (wakers s ++ [a])) as Hw.
    { apply list.Forall_app. split; [done|]. constructor; [|constructor]. right. rewrite Hc. simpl. split; [lia|done]. }
    assert (forall q w, owner_inv (set_quit q (set_wakers w s))) as Hown.
    { intros q w. unfold owner_inv. simpl. rewrite Ho, Ea. split_and!; try done. rewrite Hc. simpl. lia. }
    destruct elsewhere; (split; simpl; rewrite ?Ho, ?Ea in *; try done; first [exact (Hown true (wakers s ++ [a]))|exact (Hown true (wakers s))]).
  - destruct (quit_rest_inv s Hi) as [?|[? ?]]; [by left|right]. split; [split; [by right|done]|done].
Qed.

Lemma loop_thread_reachable s : reachable s -> inv s.
Proof.
  induction 1 as [|s e s' _ IH Hp Hc Hrun]; [exact inv_new|]. destruct (loop_thread_step s e IH Hp Hc) as [(s2 & Hrun2 & ?)|[_ Hrun2]]; [|congruence].
  rewrite Hrun in Hrun2. by injection Hrun2 as ->.
Qed.

(** ** Progress *)

(** The steps of the two threads; wake-ups without a signal and calls of [quit] come from
    outside. *)
Definition progress (e : event) : bool := match e with Spurious_latch | Spurious_cond | Quit _ | QuitRest => false | _ => true end.

(** Nothing is to be done before the owner calls [startLoop] or the destructor. *)
Definition resting s : Prop :=
  match owner s with
  | O_new | O_end => True
  | O_started _ => thread s = T_finished \/ thread s = T_looping /\ quit_ s = false
  | _ => False
  end.

Definition owner_weight s : nat :=
  match owner s with
  | O_new => 20 | O_latch => 18 | O_latch_sleeps => 15 + length (Condition.woken (latch_cond s)) | O_block => 13
  | O_sleeps => 10 + length (Condition.woken (cond_ s)) | O_started _ => 8 | O_quit => 6 | O_wakeup _ => 5 | O_join => 4 | O_members => 2 | O_end => 0
  end.
Definition measure s : nat := 4 * (10 - rank (thread s)) + owner_weight s.

Lemma notify_weight (c : Condition.t nat) b up :
  slot b c up -> (length (Condition.woken (Condition.notify 0 c)) <= length (Condition.woken c) + 1 /\
    length (Condition.woken (Condition.notifyAll c)) <= length (Condition.woken c) + 1)%nat.
Proof.
  intros Hs. destruct (Condition.notify_wake 0 c) as [k ->]. pose proof (Condition.wake_spec k c) as (_ & ? & _).
  split; [lia|]. simpl. rewrite length_app. destruct b; [destruct Hs as [(-> & _)|[-> _]]|destruct Hs as [-> _]]; simpl; lia.
Qed.

Lemma thread_decreases s tid address s' :
  inv s -> possible s (ThreadRuns tid address) = true -> thread_step tid address s = Ok s' -> (measure s' < measure s)%nat.
Proof.
  intros Hi Hp. pose proof (thread_members s Hi) as Hm. pose proof (i_latch_cond _ Hi) as Hl. pose proof (i_cond _ Hi) as Hc.
  simpl in Hp. apply andb_true_iff in Hp as [_ Hp]. unfold thread_step.
  assert (forall s', owner s' = owner s -> (rank (thread s) < rank (thread s') <= 10)%nat ->
    (length (Condition.woken (latch_cond s')) <= length (Condition.woken (latch_cond s)) + 1)%nat ->
    (length (Condition.woken (cond_ s')) <= length (Condition.woken (cond_ s)) + 1)%nat -> (measure s' < measure s)%nat) as Hless.
  { intros s2 Ho Hr H1 H2. unfold measure, owner_weight. rewrite Ho. destruct (owner s); lia. }
  pose proof (notify_weight _ _ _ Hl) as [_ Hla]. pose proof (notify_weight _ _ _ Hc) as [Hcn _].
  destruct (thread s) eqn:Et; try done; simpl in *; rewrite ?Hp; rewrite ?check_true by (apply Hm; lia);
    intros [= <-]; apply Hless; simpl; rewrite ?Et; simpl; try (done || lia).
  unfold CountDownLatch.countDown. simpl. destruct (bool_decide (_ = 0%Z)); simpl; [exact Hla|lia].
Qed.

Lemma progress_decreases s e s' :
  inv s -> possible s e = true -> contract s e = true -> progress e = true -> handle e s = Ok s' -> (measure s' < measure s)%nat.
Proof.
  intros Hi Hp Hc Hpr. pose proof (i_latch_cond _ Hi) as Hl. pose proof (i_cond _ Hi) as Hcd.
  destruct e as [created| | | | | | | | | |tid address| | |elsewhere|]; try done; simpl in Hp, Hc.
  - subst created. apply bool_decide_eq_true in Hp. pose proof (i_owner _ Hi) as Ho. unfold owner_inv in Ho. rewrite Hp in Ho.
    destruct Ho as [Hr _]. simpl. unfold startLoop, thread_start, measure, owner_weight. rewrite Hp.
    destruct (started_ s); simpl; [done|]. intros [= <-]. simpl. lia.
  - apply bool_decide_eq_true in Hp. rewrite Hp in *. simpl in Hl. destruct Hl as [_ Hk]. simpl. unfold latch_wait, CountDownLatch.wait.
    unfold measure, owner_weight. rewrite Hp. destruct (bool_decide (CountDownLatch.count_ _ > 0)); simpl; [intros [= <-]; simpl; rewrite Hk; simpl; lia|].
    destruct (bool_decide (tid_ s > 0)); simpl; [|done]. intros [= <-]. simpl. lia.
  - apply andb_true_iff in Hp as [Ho Hw]. apply bool_decide_eq_true in Ho, Hw. rewrite Ho in Hl. simpl in Hl.
    destruct Hl as [(_ & ? & _)|[Hw1 Hw2]]; [done|]. simpl. unfold Condition.resume. rewrite Hw2. simpl. unfold latch_wait, CountDownLatch.wait.
    unfold measure, owner_weight. rewrite Ho, Hw2. destruct (bool_decide (CountDownLatch.count_ _ > 0)); simpl; [intros [= <-]; simpl; lia|].
    destruct (bool_decide (tid_ s > 0)); simpl; [|done]. intros [= <-]. simpl. lia.
  - apply bool_decide_eq_true in Hp. rewrite Hp in Hcd. simpl in Hcd. destruct Hcd as [_ Hk]. simpl. intros [= <-]. unfold block.
    unfold measure, owner_weight. rewrite Hp. destruct (loop_ s); simpl; rewrite ?Hk; simpl; lia.
  - apply andb_true_iff in Hp as [Ho Hw]. apply bool_decide_eq_true in Ho, Hw. rewrite Ho in Hcd. simpl in Hcd.
    destruct Hcd as [(_ & ? & _)|[Hw1 Hw2]]; [done|]. simpl. unfold Condition.resume. rewrite Hw2. simpl. intros [= <-]. unfold block.
    unfold measure, owner_weight. rewrite Ho, Hw2. simpl. destruct (loop_ s); simpl; lia.
  - simpl. intros [= <-]. unfold destroy, measure, owner_weight. simpl. destruct (owner s); try done; destruct (bool_decide (loop_ s <> None)); simpl; lia.
  - apply bool_decide_eq_true in Hp. simpl. unfold quit_loop, measure, owner_weight. rewrite Hp. destruct (loop_ s); [|done].
    destruct (bool_decide (loop_alive s = _)); simpl; [|done]. intros [= <-]. simpl. lia.
  - destruct (owner s) as [| | | | | | |loop| | |] eqn:Ho; try done. cbn [handle]. unfold quit_wakeup, wakeup. rewrite Ho.
    destruct (bool_decide (loop_alive s = Some loop)); simpl; [|done]. intros [= <-]. unfold measure, owner_weight. rewrite Ho. simpl. lia.
  - apply andb_true_iff in Hp as [Ho Ht]. apply bool_decide_eq_true in Ho. simpl. unfold join, measure, owner_weight. rewrite Ho.
    destruct (started_ s); simpl; [|done]. destruct (joined_ s); simpl; [done|]. intros [= <-]. simpl. lia.
  - apply bool_decide_eq_true in Hp. simpl. intros [= <-]. unfold measure, owner_weight. rewrite Hp. simpl. lia.
  - by apply thread_decreases.
Qed.

Lemma progress_possible s :
  inv s -> resting s \/ exists e, progress e = true /\ possible s e = true /\ contract s e = true.
Proof.
  intros Hi. pose proof (i_owner _ Hi) as Ho. pose proof (i_latch_cond _ Hi) as Hl. pose proof (i_cond _ Hi) as Hc.
  unfold resting. destruct (match thread s with T_none | T_finished => false | T_looping => quit_ s | _ => true end) eqn:Et.
  { right. exists (ThreadRuns 1 0). split_and!; [done| |done]. simpl. exact Et. }
  assert (thread s = T_none \/ thread s = T_finished \/ thread s = T_looping /\ quit_ s = false) as Ht.
  { destruct (thread s); try done; auto. }
  clear Et. unfold owner_inv in Ho. destruct (owner s) as [| | | | |res| |loop| | |] eqn:E; cbn zeta in Ho.
  - by left.
  - right. exists LatchWait. simpl. rewrite E. done.
  - right. exists LatchResumes. split_and!; [done| |done]. simpl. rewrite E. simpl in Hl. apply bool_decide_eq_true.
    destruct Hl as [(_ & _ & Hr)|[_ ->]]; [|done]. exfalso. destruct Ht as [Ht|[Ht|[Ht _]]]; rewrite Ht in *; simpl in *; lia.
  - right. exists Block. simpl. rewrite E. done.
  - right. exists Resumes. split_and!; [done| |done]. simpl. rewrite E. simpl in Hc. apply bool_decide_eq_true.
    destruct Hc as [(_ & _ & Hr)|[_ ->]]; [|done]. exfalso. destruct Ht as [Ht|[Ht|[Ht _]]]; rewrite Ht in *; simpl in *; lia.
  - left. destruct Ht as [Ht|Ht]; [|done]. rewrite Ht in Ho. simpl in Ho. lia.
  - right. exists QuitLoop. simpl. rewrite E. done.
  - right. exists QuitWakeup. simpl. rewrite E. done.
  - right. exists Join. destruct Ho as [Hr Hq]. assert (thread s = T_finished) as Hf.
    { destruct Ht as [Ht|[Ht|[_ Ht]]]; [rewrite Ht in Hr; simpl in Hr; lia|done|congruence]. }
    simpl. rewrite E, Hf. done.
  - right. exists Members. simpl. rewrite E. done.
  - by left.
Qed.

(** C33: The owner of a loop's thread and that thread, in any interleaving within the contract:
    no assertion fails, no null loop and no destroyed member is used, and no dangling loop
    but in one place: a [quit] from another thread than the loop's that has set [quit_] and
    comes to its wake-up when the loop's thread has finished already.  What [startLoop]
    returns is the loop of the thread, alive until the thread has finished; when the
    [EventLoopThread] is gone the thread has finished or never was.  The two never wait for
    each other for ever: unless the owner has nothing to do, some step of theirs is possible,
    and each of their steps that does not fail brings them nearer to the end, so that
    [startLoop] returns and the destructor ends. *)
Theorem loop_thread_safe s :
  reachable s ->
  (forall e, possible s e = true -> contract s e = true ->
     (exists s', handle e s = Ok s') \/
     (e = QuitWakeup \/ e = QuitRest) /\ thread s = T_finished /\ handle e s = Fail UseAfterFree) /\
  (forall res, owner s = O_started res -> exists a, res = Some a /\ (thread s <> T_finished -> loop_alive s = Some a)) /\
  (owner s = O_end -> thread s = T_none \/ thread s = T_finished) /\
  (resting s \/ exists e, progress e = true /\ possible s e = true /\ contract s e = true) /\
  (forall e s', possible s e = true -> contract s e = true -> progress e = true -> handle e s = Ok s' -> (measure s' < measure s)%nat).
Proof.
  intros Hr. pose proof (loop_thread_reachable s Hr) as Hi. pose proof (i_owner _ Hi) as Ho. unfold owner_inv in Ho. split_and!.
  - intros e Hp Hc. destruct (loop_thread_step s e Hi Hp Hc) as [(s' & ? & _)|[[He Ht] Hf]]; [left; by exists s'|by right].
  - intros res E. rewrite E in Ho. destruct Ho as (_ & [a ->] & Hal & _). exists a. split; [done|]. intros Hne. apply Hal.
    by destruct (thread s).
  - intros E. rewrite E in Ho. destruct (thread s); simpl in Ho; auto; lia.
  - by apply progress_possible.
  - intros e s' ? ? ? ?. by eapply progress_decreases.
Qed.

(** ** Concrete runs *)

Fixpoint run (l : list event) s : res t :=
  match l with
  | [] => Ok s
  | e :: l' => s' ← handle e s; run l' s'
  end.

Definition creates : list event :=
  [StartLoop true; LatchWait; ThreadRuns 7 100; ThreadRuns 7 100; LatchResumes; Block; ThreadRuns 7 100; ThreadRuns 7 100; ThreadRuns 7 100].

Lemma loop_thread_safe_witness : exists s', startLoop true EventLoopThread = Ok s' /\ thread s' = T_run.
Proof.
  destruct (loop_thread_safe EventLoopThread reach_new) as (Hok & _).
  destruct (Hok (StartLoop true) eq_refl eq_refl) as [[s' Hs']|[[He|He] _]]; [|discriminate He..].
  exists s'. split; [exact Hs'|]. vm_compute in Hs'. injection Hs' as <-. reflexivity.
Defined.

(** The destructor from a looping thread to the end: [quit], its wake-up, the thread's last
    steps, [join]. *)
Definition destroys : list event := [Resumes; ThreadRuns 7 100; Destroy; QuitLoop].

Example destructor_ends :
  exists s, run (creates ++ destroys ++ [QuitWakeup; ThreadRuns 7 100; ThreadRuns 7 100; ThreadRuns 7 100; Join; Members]) EventLoopThread = Ok s /\
    owner s = O_end /\ thread s = T_finished.
Proof. eexists. split; [vm_compute; reflexivity|]. split; reflexivity. Qed.

(** The race that the comment in [EventLoop::quit] describes: the loop tests [quit_] and ends,
    and is destroyed, between [quit_ = true] and the wake-up; by the destructor, and by
    another thread. *)
Lemma quit_wakeup_races :
  run (creates ++ destroys ++ [ThreadRuns 7 100; ThreadRuns 7 100; ThreadRuns 7 100; QuitWakeup]) EventLoopThread = Fail UseAfterFree /\
  run (creates ++ [Resumes; ThreadRuns 7 100; Quit true; ThreadRuns 7 100; ThreadRuns 7 100; ThreadRuns 7 100; QuitRest]) EventLoopThread
    = Fail UseAfterFree.
Proof. vm_compute. split; reflexivity. Qed.

(** The contract is needed.  A loop that is quit before the thread enters it goes on for
    ever, and with it the destructor, which has quit it and waits. *)
Lemma quit_before_loop_hangs :
  exists s, run (creates ++ [Resumes; Destroy; QuitLoop; QuitWakeup; ThreadRuns 7 100]) EventLoopThread = Ok s /\ owner s = O_join /\
    forall e, progress e = true -> possible s e = false.
Proof.
  eexists. split; [vm_compute; reflexivity|]. split; [reflexivity|].
  intros [created| | | | | | | | | |tid address| | |elsewhere|]; try done. intros _. simpl. by rewrite andb_false_r.
Qed.

(** A loop that is quit before [startLoop] has seen it, by a functor that the callback queued
    say, leaves [startLoop] waiting for ever. *)
Lemma quit_before_return_hangs :
  exists s, run (creates ++ [ThreadRuns 7 100; Quit false; ThreadRuns 7 100; ThreadRuns 7 100; Resumes; ThreadRuns 7 100]) EventLoopThread = Ok s /\
    owner s = O_sleeps /\ forall e, progress e = true -> possible s e = false.
Proof.
  eexists. split; [vm_compute; reflexivity|]. split; [reflexivity|].
  intros [created| | | | | | | | | |tid address| | |elsewhere|]; try done. intros _. simpl. by rewrite andb_false_r.
Qed.

(** A loop that ends while the destructor runs is quit through a null pointer. *)
Lemma destructor_races :
  run (creates ++ [Resumes; ThreadRuns 7 100; Quit false; Destroy; ThreadRuns 7 100; ThreadRuns 7 100; QuitLoop]) EventLoopThread = Fail NullPointer.
Proof. vm_compute. reflexivity. Qed.
End EventLoopThread.
