(* ===== verification/BoundedQueue.v ===== *)
(** The bounded queue between threads ([muduo/base/BoundedBlockingQueue.h]).

    The ring that holds the values is [boost::circular_buffer], which is not part of the
    program: [Class CircularBuffer] is what the queue calls, and [CircularBufferLaws] what
    its documentation says of a ring that is not written to when it is full. *)
From S2P Require Import Prelude Threads.
Open Scope Z_scope.

Class CircularBuffer (B T : Type) := {
  cb_make : nat -> B;
  cb_full : B -> bool;
  cb_empty : B -> bool;
  cb_size : B -> nat;
  cb_capacity : B -> nat;
  cb_push_back : T -> B -> B;
  cb_front : B -> option T;
  cb_pop_front : B -> B
}.

Class CircularBufferLaws (B T : Type) `{CircularBuffer B T} := {
  cb_list : B -> list T;
  cb_list_make n : cb_list (cb_make n) = [];
  cb_capacity_make n : cb_capacity (cb_make n) = n;
  cb_size_list b : cb_size b = length (cb_list b);
  cb_full_list b : cb_full b = bool_decide (length (cb_list b) = cb_capacity b);
  cb_empty_list b : cb_empty b = bool_decide (cb_list b = []);
  cb_list_push x b : cb_full b = false -> cb_list (cb_push_back x b) = cb_list b ++ [x];
  cb_capacity_push x b : cb_full b = false -> cb_capacity (cb_push_back x b) = cb_capacity b;
  cb_front_list b : cb_front b = head (cb_list b);
  cb_list_pop b : cb_empty b = false -> cb_list (cb_pop_front b) = tail (cb_list b);
  cb_capacity_pop b : cb_empty b = false -> cb_capacity (cb_pop_front b) = cb_capacity b
}.

Module BoundedBlockingQueue.
Section queue.
Context {T B : Type} `{CircularBuffer B T}.

(** A waiting [put] carries its value.  History: the values put and taken, in order. *)
Record t := mk {
  queue_ : B;
  notEmpty_ : Condition.t nat;
  notFull_ : Condition.t T;
  values_put : list T;
  values_taken : list T
}.

Definition BoundedBlockingQueue (maxSize : nat) : t := mk (cb_make maxSize) Condition.Condition Condition.Condition [] [].

(** The loop of [put] and what follows it: the thread waits (again), or its value goes in.
    [pick] is the waiter that the system wakes. *)
Definition put (x : T) (pick : nat) (q : t) : res t :=
  if cb_full (queue_ q) then mret (mk (queue_ q) (notEmpty_ q) (Condition.wait x (notFull_ q)) (values_put q) (values_taken q))
  else
    _ ← assert_ (negb (cb_full (queue_ q)));
    mret (mk (cb_push_back x (queue_ q)) (Condition.notify pick (notEmpty_ q)) (notFull_ q) (values_put q ++ [x]) (values_taken q)).

Definition take (thread pick : nat) (q : t) : res t :=
  if cb_empty (queue_ q) then mret (mk (queue_ q) (Condition.wait thread (notEmpty_ q)) (notFull_ q) (values_put q) (values_taken q))
  else
    _ ← assert_ (negb (cb_empty (queue_ q)));
    match cb_front (queue_ q) with
    | None => Fail OutOfBounds
    | Some front =>
        mret (mk (cb_pop_front (queue_ q)) (notEmpty_ q) (Condition.notify pick (notFull_ q)) (values_put q) (values_taken q ++ [front]))
    end.

Definition empty (q : t) : bool := cb_empty (queue_ q).
Definition full (q : t) : bool := cb_full (queue_ q).
Definition size (q : t) : nat := cb_size (queue_ q).
Definition capacity (q : t) : nat := cb_capacity (queue_ q).

Inductive event :=
  | Put (x : T) (pick : nat) | Take (thread pick : nat)
  | ResumePut (k pick : nat) | ResumeTake (k pick : nat)
  | SpuriousPut (k : nat) | SpuriousTake (k : nat).

Definition handle (e : event) (q : t) : res t :=
  match e with
  | Put x pick => put x pick q
  | Take thread pick => take thread pick q
  | ResumePut k pick =>
      match Condition.resume k (notFull_ q) with
      | Some (x, c) => put x pick (mk (queue_ q) (notEmpty_ q) c (values_put q) (values_taken q))
      | None => Ok q
      end
  | ResumeTake k pick =>
      match Condition.resume k (notEmpty_ q) with
      | Some (thread, c) => take thread pick (mk (queue_ q) c (notFull_ q) (values_put q) (values_taken q))
      | None => Ok q
      end
  | SpuriousPut k => Ok (mk (queue_ q) (notEmpty_ q) (Condition.wake k (notFull_ q)) (values_put q) (values_taken q))
  | SpuriousTake k => Ok (mk (queue_ q) (Condition.wake k (notEmpty_ q)) (notFull_ q) (values_put q) (values_taken q))
  end.

Inductive reachable (maxSize : nat) : t -> Prop :=
  | reach_new : reachable maxSize (BoundedBlockingQueue maxSize)
  | reach_handle q e q' : reachable maxSize q -> handle e q = Ok q' -> reachable maxSize q'.
End queue.
Arguments t T B : clear implicits.

Section proofs.
Context {T B : Type} `{CircularBufferLaws B T}.
Implicit Types q : t T B.

(** The values leave in the order in which they came, never more than fit are inside, and
    there are as many wake-ups on their way as there are values for takers and places for
    putters, unless nobody sleeps. *)
Record inv (maxSize : nat) q : Prop := {
  i_fifo : values_put q = values_taken q ++ cb_list (queue_ q);
  i_capacity : cb_capacity (queue_ q) = maxSize;
  i_bound : (length (cb_list (queue_ q)) <= maxSize)%nat;
  i_takers : Condition.covered (notEmpty_ q) (length (cb_list (queue_ q)));
  i_putters : Condition.covered (notFull_ q) (maxSize - length (cb_list (queue_ q)))
}.

(** [put] by a thread that may have used up a wake-up. *)
Lemma bounded_put_inv n x pick q :
  values_put q = values_taken q ++ cb_list (queue_ q) -> cb_capacity (queue_ q) = n -> (length (cb_list (queue_ q)) <= n)%nat ->
  Condition.covered (notEmpty_ q) (length (cb_list (queue_ q))) ->
  Condition.covered (notFull_ q) (n - length (cb_list (queue_ q)) - 1) ->
  exists q', put x pick q = Ok q' /\ inv n q'.
Proof.
  intros Hf Hc Hb Ht Hp. unfold put. destruct (cb_full (queue_ q)) eqn:Hfull.
  - eexists. split; [reflexivity|]. rewrite cb_full_list, Hc in Hfull. apply bool_decide_eq_true in Hfull.
    split; simpl; try done. rewrite Hfull, Nat.sub_diag. apply Condition.covered_0.
  - simpl. eexists. split; [reflexivity|]. pose proof Hfull as Hlt. rewrite cb_full_list, Hc in Hlt. apply bool_decide_eq_false in Hlt.
    split; simpl; rewrite ?cb_list_push, ?cb_capacity_push, ?length_app by done; simpl; try done; try lia.
    + by rewrite Hf, app_assoc.
    + rewrite Nat.add_1_r. by apply Condition.covered_notify.
    + eapply Condition.covered_le; [|exact Hp]. lia.
Qed.

Lemma bounded_take_inv n thread pick q :
  values_put q = values_taken q ++ cb_list (queue_ q) -> cb_capacity (queue_ q) = n -> (length (cb_list (queue_ q)) <= n)%nat ->
  Condition.covered (notEmpty_ q) (length (cb_list (queue_ q)) - 1) ->
  Condition.covered (notFull_ q) (n - length (cb_list (queue_ q))) ->
  exists q', take thread pick q = Ok q' /\ inv n q'.
Proof.
  intros Hf Hc Hb Ht Hp. unfold take. destruct (cb_empty (queue_ q)) eqn:He.
  - eexists. split; [reflexivity|]. pose proof He as Hl. rewrite cb_empty_list in Hl. apply bool_decide_eq_true in Hl.
    split; simpl; try done. rewrite Hl. apply Condition.covered_0.
  - simpl. rewrite cb_front_list. pose proof He as Hl. rewrite cb_empty_list in Hl. apply bool_decide_eq_false in Hl.
    destruct (cb_list (queue_ q)) as [|x l] eqn:El; [done|]. simpl in *. eexists. split; [reflexivity|].
    split; simpl; rewrite ?cb_list_pop, ?cb_capacity_pop, ?El by done; simpl; try done; try lia.
    + by rewrite Hf, <- app_assoc.
    + by rewrite Nat.sub_0_r in Ht.
    + replace (n - length l)%nat with (S (n - S (length l))) by lia. by apply Condition.covered_notify.
Qed.

Lemma bounded_step n q e : inv n q -> exists q', handle e q = Ok q' /\ inv n q'.
Proof.
  intros []. destruct e as [x pick|thread pick|k pick|k pick|k|k]; simpl.
  - apply bounded_put_inv; try done. eapply Condition.covered_le; [|done]. lia.
  - apply bounded_take_inv; try done. eapply Condition.covered_le; [|done]. lia.
  - destruct (Condition.resume k _) as [[x c]|] eqn:E; [|by exists q]. apply bounded_put_inv; try done. by eapply Condition.covered_resume.
  - destruct (Condition.resume k _) as [[x c]|] eqn:E; [|by exists q]. apply bounded_take_inv; try done. by eapply Condition.covered_resume.
  - eexists. split; [reflexivity|]. split; try done. by apply Condition.covered_wake.
  - eexists. split; [reflexivity|]. split; try done. by apply Condition.covered_wake.
Qed.

(** C34: However many threads put and take: no assertion fails, the values come out in the order
    in which they went in, at most [maxSize] are inside; nobody sleeps for want of a value
    while there are more values than takers on their way, nor for want of room while there
    are more places than putters on their way. *)
Theorem bounded_queue_safe n q :
  reachable n q -> inv n q /\ forall e, exists q', handle e q = Ok q' /\ inv n q'.
Proof.
  intros Hr. assert (inv n q) as Hi.
  { induction Hr as [|q e q' _ IH Hrun].
    - split; simpl; rewrite ?cb_list_make, ?cb_capacity_make; simpl; try done; [lia|by left|by left].
    - destruct (bounded_step n q e IH) as (q2 & Hq2 & ?). rewrite Hrun in Hq2. by injection Hq2 as ->. }
  split; [done|]. intros e. by apply bounded_step.
Qed.
End proofs.
End BoundedBlockingQueue.

(** A ring as a list with its capacity. *)
Module ListRing.
Section ring.
Context {T : Type}.

#[export] Instance list_ring : CircularBuffer (nat * list T) T := {
  cb_make n := (n, []);
  cb_full b := bool_decide (length b.2 = b.1);
  cb_empty b := bool_decide (length b.2 = 0%nat);
  cb_size b := length b.2;
  cb_capacity b := b.1;
  cb_push_back x b := (b.1, b.2 ++ [x]);
  cb_front b := head b.2;
  cb_pop_front b := (b.1, tail b.2)
}.

#[export] Instance list_ring_laws : CircularBufferLaws (nat * list T) T.
Proof.
  refine {| cb_list b := b.2 |}; try done. intros [n l]. apply bool_decide_ext. simpl. by rewrite length_zero_iff_nil.
Defined.
End ring.

(** A queue of one place: the second value waits. *)
Definition one_place : BoundedBlockingQueue.t nat (nat * list nat) := BoundedBlockingQueue.BoundedBlockingQueue 1.

Lemma bounded_queue_safe_witness :
  exists q, BoundedBlockingQueue.handle (BoundedBlockingQueue.Put 7%nat 0) one_place = Ok q /\ BoundedBlockingQueue.full q = true.
Proof.
  destruct (BoundedBlockingQueue.bounded_queue_safe 1 one_place) as [_ Hok]; [constructor|].
  destruct (Hok (BoundedBlockingQueue.Put 7%nat 0)) as (q & Hq & _). exists q. split; [exact Hq|].
  vm_compute in Hq. injection Hq as <-. reflexivity.
Defined.
End ListRing.
